(* ===== verification/_CoqProject ===== *)
-Q . S2P
Prelude.v
GoStd.v
NetUtil.v
Protocol.v
Metrics.v
Relay.v
Config.v
ConfigResolve.v
Transport.v
TunnelPool.v
TunnelDial.v
Upstream.v
Reconnect.v
Opener.v
Netfilter.v
Redirect.v
Iptables.v
Listener.v
ServerRuns.v
Forward.v
AcceptLoop.v
UDPLoop.v
Services.v
Client.v
Ownership.v
ManagerRuns.v
ClientRuns.v
App.v
Platform.v
Socks5.v
SocksListen.v
Admin.v
ConfigEdits.v
AdminRuns.v
TunnelServer.v
Prom.v
Control.v
Pcap.v
Capture.v
UDPRelay.v
Serve.v
EndToEnd.v
EndToEndTCP.v
