(* ===== verification/Prelude.v ===== *)
(** * PaqetPremium: a verification development

    PaqetPremium tunnels TCP and UDP between a client and a server over crafted
    TCP segments.  A client listens ([forward], [socks5], a redirected port
    range), asks the upstream manager for a pool of tunnel sessions, opens a
    stream or a QUIC-datagram flow on a session and sends one control message
    with the target.  A session is smux over KCP or QUIC, over a packet
    connection that writes and reads raw TCP segments.  The server accepts
    sessions, reads the control message of each stream and relays to the target.
    An HTTP API edits the configuration and reloads it while traffic flows.

    ** The files

    - this file: the error monad [result] of Go's [(value, error)] pairs, its
      inversion tactic [inv_ok], fixed-width integers ([u16], [u32], [u64],
      [i64], the atomic counter [fetch_inc]), round-robin orders, list lemmas;
    - [GoStd]: what the program uses of Go's standard library on strings, numbers
      and addresses;
    - [NetUtil]: internal/netutil and internal/tunneladdr — [ParseTCPFlag],
      [ParseUDPAddr], [AddrKey], [FlagCycle], [Addr];
    - [Protocol]: internal/protocol — messages, the ping exchange,
      [WriteDatagram]/[ReadDatagram], [EncodeDatagram]/[DecodeDatagram];
    - [Metrics], [Relay], [UDPRelay]: internal/metrics/collector.go,
      internal/ioext and internal/tunnel/relay.go — counters, copy loops, TCP and
      UDP relays;
    - [Config]: internal/config/config.go — the configuration tree and
      [Validate]; [ConfigResolve]: upstream.go and resolve.go — settings,
      endpoints, the resolved network;
    - [Transport]: internal/transport — options, the cipher table, the TLS
      identity derived from the secret, dialling and closing a session;
      [Listener], [ServerRuns]: its accepting side, with [Run] of
      internal/tunnel/server.go around it (start; accept loop, sessions and end);
    - [TunnelPool], [TunnelDial]: internal/tunnelpool — pool.go (streams, UDP
      streams, datagram flows, Close) and dial.go (building a pool, ping);
      [Opener]: opener.go, the interface the listeners of the client use;
    - [Upstream]: internal/upstream — the manager, its strategies, health checks,
      failover, reconnection, hot reload, status and benchmark; [Reconnect]: the
      runs of one reconnection; [Ownership], [ManagerRuns]: all its goroutines;
    - [Forward], [Socks5]: internal/forward and internal/socks5 — the listeners of
      the client; [AcceptLoop], [UDPLoop]: a TCP and a UDP listener from start to
      end; [SocksListen]: what the SOCKS5 library is given for a rule;
    - [Netfilter], [Redirect], [Iptables]: the iptables command as an interface,
      and the rules of internal/redirect (client) and internal/iptables (server);
    - [Services], [Client], [ClientRuns], [App]: internal/tunnel/client.go (the
      services over the reloads; the manager of a client and of the commands; [Run]
      with everything it starts) and internal/app (the commands run, test and
      bench); [Platform]: internal/platform and the stubs for other systems;
    - [Admin]: internal/admin — authorization, the configuration editor, the
      replacement of the file; [ConfigEdits]: replacements at the same time;
      [AdminRuns]: the admin server from start to end; [Prom]: its status, and the
      metrics page of internal/metrics/prom.go; [Control]: [Load] of config.go, the
      admin server of a process, internal/app/reload.go and
      cmd/paqetpremium/main.go;
    - [TunnelServer]: internal/tunnel — server.go (dispatch of a stream, checks
      of the reload), dgram.go (the hub of datagram flows), relay.go (UDP relay); [Serve]: a
      session with the goroutines, relays and flows of its streams;
    - [Pcap]: internal/pcap — crafted segments, flags per peer, the reader;
      [Capture]: capture handles, the life and the deadlines of a connection;
    - [EndToEnd], [EndToEndTCP]: a client's datagrams through [Forward],
      [TunnelPool] and [TunnelServer] to the target and the answers back; its TCP
      connections, and the flags it asks the server for.

    ** How the code is modelled

    A struct is a [Record], an enumeration an [Inductive], a Go map a [gmap], a
    nil map or pointer [None] where the code can meet it.  An [int] of the
    configuration is a [Z]; where the code computes in 16, 32 or 64 bits the
    wrap-around is written out.  A function that can fail returns a [result]
    whose error type has a constructor for each error of the source.  A method
    that mutates its receiver returns the new one.  A panic the source can reach
    (index out of range, nil map, nil pointer) is an error value of its own, so
    that a theorem can say it does or does not happen.

    Code outside the repository is an interface: a class of operations over an
    abstract world [W] and a class of laws that state what the library
    documents.  These are [GobCodec], [CryptoLib], [Conns], [Accepts], [Streams],
    [RawStreams], [Clock], [YamlCodec], [Sockets], [Serving], [LocalNet],
    [LocalUDP], [Socks5Lib], [Netfilter], [Libpcap] and [Gopacket].  [ConnsLaws] says that each handle an
    operation returns was not open before, that closing releases it, and that
    nothing else changes the set of open handles; this is what makes "leaks
    nothing" a statement about sets of handles.  Every interface has a concrete
    instance next to the theorems ([Mock], [sample_codec], [toy_netfilter],
    [toy_gopacket]), on which the examples are computed.  [Opener] is an
    interface inside the program: the theorems of [UDPLoop] and [Socks5] about the
    table of UDP streams are about any implementation of [OpenerLaws].  A pool is
    one in all its states ([pool_opener_laws]); the manager, which chooses a pool
    anew at each call, is one in the states in which it keeps choosing the same
    ([pinned], [pinned_opener_laws]), and there its operations are those of the
    pool ([in_heap_OpenUDP] and so on), which is how [EndToEnd.udp_end_to_end] is
    about the listener as it runs.  [Closing] keeps the streams that have been
    closed.  [NetfilterLaws] is what a command of iptables does when it succeeds;
    [NetfilterReliable] adds that it succeeds when it can, and [NetfilterMatches]
    how it lists a rule; they are assumed only where a theorem is about what a
    working machine ends up with.  [Listener.Separate] says that the
    capture and session libraries do not touch the packet filter.  The packet
    connection is an interface twice: [Transport] and its clients see it as the
    handles of [Conns], and [Capture.pcap_refines] shows that [Capture] implements
    those operations with their laws.

    Concurrency: what runs under one lock is one definition, and the methods are
    compositions of these.  [TunnelPool.pool_step] and [TunnelServer.hub_step]
    are step relations over the critical sections, whose reflexive transitive
    closures are the interleavings; [Upstream.reconnect_step] is the goroutine
    of [reconnect] between its critical sections, run against arbitrary changes
    of the manager, and [Reconnect.run] its whole life.  [UDPLoop.ul_step],
    [AcceptLoop.al_step], [Socks5.sk_step] and [assoc_step], [Services.svc_step],
    [Listener.srv_step], [ServerRuns.run_step] and [Serve.ss_step] are the
    goroutines of a client's listeners, of the reloads of a client, of a server
    and of one of its sessions; [ManagerRuns.mg_step] are those of the upstream
    manager, with the program as the environment of a reconnection.
    [ClientRuns.cl_step] puts a client together from these: each of its runs
    contains a run of the manager ([cl_step_mg]), whose invariants it inherits.
    [AdminRuns.ar_step] is the admin server, [ConfigEdits.edit_step] the system calls of its edits.  Invariants
    go through [rtc_preserves]; that such a system comes to its end is a weight
    that every step lowers, with a step possible until nothing is left
    ([al_weight], [ul_weight], [run_weight], [mg_weight], [cl_weight], [ar_weight],
    [Serve.total_weight]).  Where the others go on in the meantime the runs are
    [budgeted]: a step of theirs may bring a stated amount of work, and the
    system's own steps are bounded by its weight and what was brought
    ([mg_live], [cl_live], [ul_live]).  Go's map iteration order is a permutation given as an
    argument.  Values of [rand.Intn] and [time.Now] are arguments or come from
    the world.

    Fuel: [GoStd.utoa] and [GoStd.ipv6_loop] get more fuel than the digits or
    bytes they consume; [TunnelServer.relay_to_target] needs one unit per
    datagram and one for the end of the stream, and [relay_to_target_frames]
    holds for any fuel above that.  [Relay.copy_loop] needs one unit per chunk
    and [Copy] gives it that ([relay_terminates]: more changes nothing);
    [Forward.pump_loop] one per datagram and one more, and [pumpUDP] gives it the
    length of the stream, of which a datagram takes two bytes at least.
    Everything else is structural: [ReadFrom] recurses over
    the polls to come, [dial_loop] over the number of connections.

    ** What the theorems show

    - Release of resources: [TunnelDial.Dial_pool], [Upstream.Reload_transaction],
      [Upstream.reconnect_swap_spec], [TunnelServer.hub_safety],
      [Listener.server_sessions], [server_start_stop], [Client.client_commands],
      [App.app_commands], [UDPLoop.udp_listener], [Serve.session_resources],
      [Capture.capture_lifecycle], [ManagerRuns.manager_ownership].
    - Start and end of the long-running parts: [ManagerRuns.manager_shutdown],
      [ClientRuns.client_run], [ServerRuns.server_run], [Serve.session_ends],
      [AcceptLoop.listener_shutdown], [UDPLoop.udp_listener], [AdminRuns.admin_run].
    - Operation: [Control.edit_applies], [reload_command], [exit_codes],
      [Prom.metrics_page], [ClientRuns.reloads_agree] (which configuration a client
      has), [SocksListen.socks_listen_arguments], [Platform.off_linux].
    - Routing: [Upstream.poolFor_healthy], [failover_healthy], [weighted_exact],
      [round_robin_fair], [least_latency], [TunnelPool.openStream_skips_dead],
      [OpenUDP_table], [OpenUDPDatagram_routes], [TunnelServer.flow_carries],
      [Redirect.redirect_handle].
    - Time: [Upstream.health_thresholds], [health_round], [reconnect_backoff];
      termination and progress: [Reconnect.reconnect_cancelled],
      [reconnect_converges], [Relay.relay_terminates], [Services.reload_serial].
    - The packet filter: [Redirect.applyRules_redirects], [redirect_start_stop],
      [Iptables.iptables_apply], [iptables_remove], [iptables_roundtrip].
    - Composition: [EndToEnd.udp_end_to_end] (listener, pool, stream, relay and
      back), [flow_end_to_end] (flow, hub and back), [EndToEndTCP.tcp_end_to_end],
      [flags_end_to_end], [Relay.relayTCP_accounts], [UDPRelay.relayUDP_accounts],
      [Services.services_started],
      [Socks5.socks_association], [socks_pumps].
    - Round trips: [Protocol.datagram_stream_roundtrip], [flow_codec],
      [TunnelServer.relay_delivers], [Pcap.packet_roundtrip],
      [Admin.config_edit_roundtrip], [redact_restore], [Socks5.socks_datagrams].
    - Well-formedness: [Config.Validate_normalises] and what the rest of the
      program derives from it ([ConfigResolve.Validate_endpoints_ok],
      [UpstreamEndpoints_sorted], [upstreamNameSet_endpoints],
      [Transport.OptionsFromConfig_valid]), [NetUtil.ParseUDPAddr_wf],
      [Pcap.peer_flags], [buildTCP_plausible].
    - Security: [Transport.pinned_identity], [Admin.admin_guard],
      [writeConfigFile_atomic], [ConfigEdits.config_edits].
    - Behaviour that a reader of the code may not expect, proved as it is:
      [TunnelPool.OpenUDP_confuses_pairs], [flows_persist],
      [Close_races_OpenUDPDatagram], [Upstream.round_robin_CloseUDP_misses],
      [closed_manager], [Config.validateTransport_shards],
      [Services.reload_wedge], [socks_rebind_race], [Socks5.socks_orphan],
      [Redirect.redirect_reload_race], [redirect_start_fails],
      [Capture.pending_read], and parts of [ManagerRuns.manager_shutdown],
      [ServerRuns.server_run], [Control.edit_applies], [reload_command],
      [ClientRuns.reloads_agree], [ConfigEdits.config_edits], [AdminRuns.admin_run]
      and [SocksListen.socks_listen_arguments].

    ** What is not modelled

    Logging leaves no trace in the model.  A deadline that passes is an error of
    the call it is set on; only the deadlines of the packet connection are state
    ([Capture]).  Flag parsing and the wording of what the command line prints, the
    format verbs of the metrics page and the JSON encoder, and the dashboard, one
    constant page of HTML, are not modelled: they compute nothing the rest depends
    on.  Signals are calls that may come at any time.  What the bytes of a stream
    do inside smux, KCP and QUIC is not in the repository: an interface says what
    reaches the other end; so it is with the negotiation and the accept loop of the
    SOCKS5 library.  What is left of the sources is imports, log calls, and methods
    that pass a call on. *)

From stdpp Require Export base tactics option list numbers strings gmap sorting.
From Stdlib Require Export ZArith Lia.

(** ** Results: Go's [(value, error)] pairs

    Every function of the program that returns an error is modelled by a
    function into [result E A].  The instances make stdpp's
    [x ← m; k] notation and [mapM] available. *)

Inductive result (E A : Type) : Type :=
| Ok (a : A)
| Err (e : E).
Arguments Ok {E A} a.
Arguments Err {E A} e.

#[export] Instance result_ret {E} : MRet (result E) := λ A a, Ok a.
#[export] Instance result_bind {E} : MBind (result E) :=
  λ A B f m, match m with Ok a => f a | Err e => Err e end.
#[export] Instance result_fmap {E} : FMap (result E) :=
  λ A B f m, match m with Ok a => Ok (f a) | Err e => Err e end.

#[export] Instance result_eq_dec {E A} `{EqDecision E, EqDecision A} :
  EqDecision (result E A).
Proof. solve_decision. Defined.

(** An early return: [guard_err b e; k] is [if b { return e }; k]. *)
Definition fail_if {E} (b : bool) (e : E) : result E unit :=
  if b then Err e else Ok tt.

Definition of_option {E A} (e : E) (o : option A) : result E A :=
  match o with Some a => Ok a | None => Err e end.

(** [fmt.Errorf("...: %w", err)]: wrap the error of a failing call. *)
Definition wrap_err {E E' A} (f : E → E') (m : result E A) : result E' A :=
  match m with Ok a => Ok a | Err e => Err (f e) end.

Definition is_ok {E A} (m : result E A) : bool :=
  match m with Ok _ => true | Err _ => false end.

Lemma bind_ok {E A B} (m : result E A) (f : A → result E B) b :
  (m ≫= f) = Ok b ↔ ∃ a, m = Ok a ∧ f a = Ok b.
Proof. destruct m; simpl; (split; [intros|intros (? & ? & ?)]; simplify_eq; eauto). Qed.

Lemma fail_if_ok {E} b (e : E) u : fail_if b e = Ok u ↔ b = false.
Proof. by destruct b, u. Qed.

Lemma of_option_ok {E A} (e : E) (o : option A) a :
  of_option e o = Ok a ↔ o = Some a.
Proof. destruct o; simpl; split; congruence. Qed.

Lemma wrap_err_ok {E E' A} (f : E → E') (m : result E A) a :
  wrap_err f m = Ok a ↔ m = Ok a.
Proof. destruct m; simpl; split; congruence. Qed.

Lemma mapM_ok_length {E A B} (f : A → result E B) l k :
  mapM f l = Ok k → length k = length l.
Proof.
  revert k; induction l as [|x l IH]; intros k; simpl.
  - by intros [= <-].
  - intros (y & Hy & (ys & Hys & [= <-])%bind_ok)%bind_ok.
    simpl. by rewrite (IH _ Hys).
Qed.

Lemma mapM_ok_Forall2 {E A B} (f : A → result E B) l k :
  mapM f l = Ok k ↔ Forall2 (λ x y, f x = Ok y) l k.
Proof.
  revert k; induction l as [|x l IH]; intros k; simpl.
  - split; [by intros [= <-]|by inversion 1].
  - rewrite bind_ok; setoid_rewrite bind_ok; setoid_rewrite IH. split.
    + intros (y & Hy & ys & Hys & [= <-]). by constructor.
    + inversion 1; subst. eauto 10.
Qed.

(** Invert a successful computation into its successful steps. *)
Ltac inv_ok :=
  repeat match goal with
  | H : (_ ≫= _) = Ok _ |- _ =>
      apply bind_ok in H; let a := fresh "v" in destruct H as (a & ? & H)
  | H : fail_if _ _ = Ok _ |- _ => apply fail_if_ok in H
  | H : of_option _ _ = Ok _ |- _ => apply of_option_ok in H
  | H : wrap_err _ _ = Ok _ |- _ => apply wrap_err_ok in H
  | H : Ok _ = Ok _ |- _ => injection H as H; subst
  | H : mret _ = Ok _ |- _ => unfold mret, result_ret in H
  | H : Err _ = Ok _ |- _ => discriminate H
  | H : Ok _ = Err _ |- _ => discriminate H
  end.

(** ** Machine integers

    A Go integer is a [Z] kept inside its width; every arithmetic operation of
    the source that can leave the width is followed by one of these. *)

Local Open Scope Z_scope.

Definition u8 (z : Z) : Z := z mod 2 ^ 8.
Definition u16 (z : Z) : Z := z mod 2 ^ 16.
Definition u32 (z : Z) : Z := z mod 2 ^ 32.
Definition u64 (z : Z) : Z := z mod 2 ^ 64.
(** [int], [int64] and [time.Duration] on the supported 64-bit targets. *)
Definition i64 (z : Z) : Z := (z + 2 ^ 63) mod 2 ^ 64 - 2 ^ 63.

Definition in_u32 (z : Z) : Prop := 0 ≤ z < 2 ^ 32.
Definition in_i64 (z : Z) : Prop := - 2 ^ 63 ≤ z < 2 ^ 63.

#[export] Instance in_u32_dec z : Decision (in_u32 z).
Proof. unfold in_u32. apply _. Defined.
#[export] Instance in_i64_dec z : Decision (in_i64 z).
Proof. unfold in_i64. apply _. Defined.

Create HintDb paqet.

Lemma u8_range z : 0 ≤ u8 z < 256.
Proof. apply Z.mod_pos_bound. lia. Qed.
Lemma u16_range z : 0 ≤ u16 z < 65536.
Proof. apply Z.mod_pos_bound. lia. Qed.
Lemma u32_range z : in_u32 (u32 z).
Proof. apply Z.mod_pos_bound. lia. Qed.
Lemma u64_range z : 0 ≤ u64 z < 2 ^ 64.
Proof. apply Z.mod_pos_bound. lia. Qed.
Lemma i64_range z : in_i64 (i64 z).
Proof.
  unfold in_i64, i64. pose proof (Z.mod_pos_bound (z + 2 ^ 63) (2 ^ 64)). lia.
Qed.

Lemma u8_id z : 0 ≤ z < 256 → u8 z = z.
Proof. apply Z.mod_small. Qed.
Lemma u16_id z : 0 ≤ z < 65536 → u16 z = z.
Proof. apply Z.mod_small. Qed.
Lemma u32_id z : in_u32 z → u32 z = z.
Proof. apply Z.mod_small. Qed.
Lemma u64_id z : 0 ≤ z < 2 ^ 64 → u64 z = z.
Proof. apply Z.mod_small. Qed.
Lemma i64_id z : in_i64 z → i64 z = z.
Proof. unfold in_i64, i64. intros. rewrite Z.mod_small; lia. Qed.

Lemma i64_add_l x y : i64 (i64 x + y) = i64 (x + y).
Proof.
  unfold i64. f_equal. replace ((x + 2 ^ 63) mod 2 ^ 64 - 2 ^ 63 + y + 2 ^ 63)
    with ((x + 2 ^ 63) mod 2 ^ 64 + y) by lia.
  rewrite Zplus_mod_idemp_l. f_equal. lia.
Qed.

Lemma u64_add_l x y : u64 (u64 x + y) = u64 (x + y).
Proof. unfold u64. by rewrite Zplus_mod_idemp_l. Qed.

#[export] Hint Resolve u8_range u16_range u32_range u64_range i64_range : paqet.

(** [atomic.AddUint32(&x, 1) - 1]: the value read and the value stored. *)
Definition fetch_inc (x : Z) : Z * Z := (u32 (u32 (x + 1) - 1), u32 (x + 1)).

Lemma fetch_inc_old x : in_u32 x → (fetch_inc x).1 = x.
Proof.
  unfold fetch_inc, in_u32; simpl; intros Hx.
  destruct (decide (x = 2 ^ 32 - 1)) as [->|]; [reflexivity|].
  rewrite (u32_id (x + 1)); [|unfold in_u32; lia].
  rewrite u32_id; [lia|unfold in_u32; lia].
Qed.

Lemma fetch_inc_new x : in_u32 ((fetch_inc x).2).
Proof. apply u32_range. Qed.

(** ** Round-robin probing

    [for off := 0; off < n; off++ { ... xs[(start+off)%n] ... }] visits the
    indices in this order. *)

Definition rr_order (start : Z) (n : nat) : list nat :=
  (λ off : nat, Z.to_nat ((start + Z.of_nat off) mod Z.of_nat n)) <$> seq 0 n.

Lemma rr_order_length start n : length (rr_order start n) = n.
Proof. unfold rr_order. by rewrite length_fmap, length_seq. Qed.

Lemma rr_order_NoDup start n : NoDup (rr_order start n).
Proof.
  unfold rr_order. apply NoDup_fmap_2_strong; [|apply NoDup_seq].
  intros a b Ha%elem_of_seq Hb%elem_of_seq Heq.
  pose proof (Z.mod_pos_bound (start + Z.of_nat a) (Z.of_nat n) ltac:(lia)).
  pose proof (Z.mod_pos_bound (start + Z.of_nat b) (Z.of_nat n) ltac:(lia)).
  assert ((start + Z.of_nat a) mod Z.of_nat n
          = (start + Z.of_nat b) mod Z.of_nat n) as Hmod by lia.
  pose proof (Z.div_mod (start + Z.of_nat a) (Z.of_nat n) ltac:(lia)).
  pose proof (Z.div_mod (start + Z.of_nat b) (Z.of_nat n) ltac:(lia)).
  set (q1 := (start + Z.of_nat a) / Z.of_nat n) in *.
  set (q2 := (start + Z.of_nat b) / Z.of_nat n) in *.
  assert (q1 = q2 ∨ q1 < q2 ∨ q2 < q1) as [?|[?|?]] by lia; nia.
Qed.

Lemma rr_order_lt start n i : i ∈ rr_order start n → (i < n)%nat.
Proof.
  unfold rr_order. intros (off & -> & Hoff%elem_of_seq)%list_elem_of_fmap.
  pose proof (Z.mod_pos_bound (start + Z.of_nat off) (Z.of_nat n)). lia.
Qed.

(** Every index is probed exactly once. *)
Lemma rr_order_Permutation start n : rr_order start n ≡ₚ seq 0 n.
Proof.
  apply NoDup_Permutation_bis.
  - apply NoDup_ListNoDup, rr_order_NoDup.
  - by rewrite rr_order_length, length_seq.
  - intros i Hi%list_elem_of_In%rr_order_lt. apply list_elem_of_In, elem_of_seq. lia.
Qed.

Lemma elem_of_rr_order start n i : i ∈ rr_order start n ↔ (i < n)%nat.
Proof. rewrite rr_order_Permutation, elem_of_seq. lia. Qed.

(** The probe starts at [start % n]. *)
Lemma rr_order_head start n :
  (0 < n)%nat → rr_order start n !! 0%nat = Some (Z.to_nat (start mod Z.of_nat n)).
Proof.
  intros Hn. unfold rr_order. rewrite list_lookup_fmap, lookup_seq_lt by lia.
  simpl. by rewrite Z.add_0_r.
Qed.

(** ** Lists *)

(** The indexed loop [for i, x := range xs] collecting results. *)
Definition mapMi {E A B} (f : nat → A → result E B) (l : list A) : result E (list B) :=
  mapM (λ p, f p.1 p.2) (zip (seq 0 (length l)) l).

Lemma mapMi_ok {E A B} (f : nat → A → result E B) l k :
  mapMi f l = Ok k ↔
  length k = length l ∧
  ∀ i x, l !! i = Some x → ∃ y, k !! i = Some y ∧ f i x = Ok y.
Proof.
  unfold mapMi. rewrite mapM_ok_Forall2, Forall2_same_length_lookup.
  rewrite length_zip, length_seq, Nat.min_id. split.
  - intros [Hlen Hk]. split; [done|]. intros i x Hx.
    destruct (lookup_lt_is_Some_2 k i) as [y Hy].
    { rewrite <- Hlen. by eapply lookup_lt_Some. }
    exists y. split; [done|]. apply (Hk i (i, x) y); [|done].
    apply lookup_zip_with_Some. exists i, x. split; [done|]. split; [|done].
    apply lookup_seq_lt. by eapply lookup_lt_Some.
  - intros [Hlen Hk]. split; [done|]. intros i [j x] y (j' & x' & [= -> ->] & Hj & Hx)%lookup_zip_with_Some Hy.
    apply lookup_seq in Hj as [-> _]. destruct (Hk _ _ Hx) as (y' & Hy' & Hf).
    simpl. by simplify_eq.
Qed.

Lemma mapMi_unit {E A} (f : nat → A → result E unit) l :
  is_ok (mapMi f l) = true ↔ ∀ i x, l !! i = Some x → f i x = Ok tt.
Proof.
  split.
  - destruct (mapMi f l) as [k|] eqn:Hk; [|done]. intros _ i x Hx.
    apply mapMi_ok in Hk as [_ Hk]. destruct (Hk _ _ Hx) as ([] & _ & ?). done.
  - intros H. assert (mapMi f l = Ok (replicate (length l) tt)) as ->; [|done].
    apply mapMi_ok. split; [apply length_replicate|]. intros i x Hx. exists tt.
    split; [|by apply H]. apply lookup_replicate_2. by eapply lookup_lt_Some.
Qed.

Lemma mapM_unit {E A} (f : A → result E unit) l :
  is_ok (mapM f l) = true ↔ Forall (λ x, f x = Ok tt) l.
Proof.
  split.
  - destruct (mapM f l) as [k|] eqn:Hk; [|done]. intros _.
    apply mapM_ok_Forall2 in Hk. induction Hk as [|x [] l k]; constructor; done.
  - induction 1 as [|x l Hx Hl IH]; [done|]. simpl. rewrite Hx. simpl.
    by destruct (mapM f l).
Qed.

Lemma is_ok_Ok {E A} (m : result E A) a : m = Ok a → is_ok m = true.
Proof. by intros ->. Qed.

Lemma is_ok_ex {E A} (m : result E A) : is_ok m = true ↔ ∃ a, m = Ok a.
Proof. destruct m; simpl; split; [eauto|done|done|by intros []]. Qed.

(** ** Reachable states *)

(** Rule induction on the steps of a transition system. *)
Lemma rtc_preserves {A} (R : A → A → Prop) (P : A → Prop) x y :
  rtc R x y → (∀ a b, R a b → P a → P b) → P x → P y.
Proof. induction 1 as [|x y z Hxy _ IH]; eauto. Qed.

(** ** Runs with a budget

    A step labelled [None] is one of the system's own; a step labelled [Some c] is
    one that comes from outside and brings work for at most [c] more own steps.
    [budgeted R n b] are the runs with [n] own steps and outside steps that bring
    [b] in all. *)
Inductive budgeted {A} (R : option nat → A → A → Prop) : nat → nat → A → A → Prop :=
| budgeted_refl x : budgeted R 0 0 x x
| budgeted_own n b x y z : R None x y → budgeted R n b y z → budgeted R (S n) b x z
| budgeted_other c n b x y z : R (Some c) x y → budgeted R n b y z → budgeted R n (c + b) x z.

(** A weight that an own step lowers and an outside step raises by its budget at
    most bounds the own steps of every run. *)
Lemma budgeted_bound {A} (R : option nat → A → A → Prop) (P : A → Prop) (weight : A → nat) n b x y :
  (∀ l x y, R l x y → P x → P y) →
  (∀ l x y, R l x y → P x →
     match l with None => weight y < weight x | Some c => weight y ≤ weight x + c end)%nat →
  budgeted R n b x y → P x → P y ∧ (n + weight y ≤ weight x + b)%nat.
Proof.
  intros HP Hw Hr. induction Hr as [x|n b x y z Hs _ IH|c n b x y z Hs _ IH]; intros Hx.
  - split; [done|lia].
  - destruct IH as [Hz Hle]; [by eapply HP|]. specialize (Hw _ _ _ Hs Hx). cbn in Hw. split; [done|lia].
  - destruct IH as [Hz Hle]; [by eapply HP|]. specialize (Hw _ _ _ Hs Hx). cbn in Hw. split; [done|lia].
Qed.

(** Rule induction on such runs. *)
Lemma budgeted_preserves {A} (R : option nat → A → A → Prop) (P : A → Prop) n b x y :
  budgeted R n b x y → (∀ l x y, R l x y → P x → P y) → P x → P y.
Proof. induction 1; eauto. Qed.

Lemma nsteps_budgeted {A} (R : option nat → A → A → Prop) n x y :
  nsteps (R None) n x y → budgeted R n 0 x y.
Proof. induction 1; [apply budgeted_refl|by eapply budgeted_own]. Qed.
