(* ===== verification/GoStd.v ===== *)
(** The parts of Go's standard library the program's own logic rests on:
    [strings] (TrimSpace, ToLower, ToUpper, Split, HasPrefix), [strconv]
    (Atoi, Itoa), [fmt.Sscanf] with ["%d"], and [net] (SplitHostPort,
    JoinHostPort, ParseIP, IP.To4, IP.To16).

    A Go string is a Rocq [string] of bytes; the functions work on its list of
    bytes.  Case mapping is exact on ASCII and on the non-ASCII letters whose
    other case is ASCII; the remaining letters are left alone, which no caller
    can observe because every caller compares the result with ASCII literals. *)

From S2P Require Import Prelude.
From Stdlib Require Import Ascii.

Local Open Scope Z_scope.

Abbreviation bytes := (list ascii).

Definition bs (s : string) : bytes := String.list_ascii_of_string s.
Definition str (l : bytes) : string := String.string_of_list_ascii l.

Lemma str_bs s : str (bs s) = s.
Proof. apply String.string_of_list_ascii_of_string. Qed.
Lemma bs_str l : bs (str l) = l.
Proof. apply String.list_ascii_of_string_of_list_ascii. Qed.
Lemma bs_app s t : bs (s +:+ t) = bs s ++ bs t.
Proof. induction s as [|c s IH]; [done|]. change (c :: bs (s +:+ t) = c :: bs s ++ bs t). by rewrite IH. Qed.
Lemma str_app l k : str (l ++ k) = str l +:+ str k.
Proof. induction l as [|c l IH]; [done|]. change (String c (str (l ++ k)) = String c (str l +:+ str k)). by rewrite IH. Qed.
Lemma bs_inj s t : bs s = bs t → s = t.
Proof. intros H. by rewrite <- (str_bs s), H, str_bs. Qed.
Lemma bs_empty s : bs s = [] ↔ s = ""%string.
Proof. split; [|by intros ->]. intros H. by apply bs_inj. Qed.

(** The value of a byte. *)
Definition code (c : ascii) : Z := Z.of_N (N_of_ascii c).

Lemma code_range c : 0 ≤ code c < 256.
Proof. unfold code. pose proof (N_ascii_bounded c). lia. Qed.

Definition chr (z : Z) : ascii := ascii_of_N (Z.to_N z).

Lemma code_chr z : 0 ≤ z < 256 → code (chr z) = z.
Proof. unfold code, chr. intros. rewrite N_ascii_embedding; lia. Qed.

(** ** Unicode white space ([unicode.IsSpace]) in UTF-8 *)

Definition is_space1 (c : ascii) : bool :=
  let z := code c in (z =? 32) || ((9 <=? z) && (z <=? 13)).

(** U+0085 and U+00A0. *)
Definition is_space2 (c1 c2 : ascii) : bool :=
  (code c1 =? 0xC2) && ((code c2 =? 0x85) || (code c2 =? 0xA0)).

(** U+1680, U+2000-200A, U+2028, U+2029, U+202F, U+205F, U+3000. *)
Definition is_space3 (c1 c2 c3 : ascii) : bool :=
  let a := code c1 in let b := code c2 in let c := code c3 in
  ((a =? 0xE1) && (b =? 0x9A) && (c =? 0x80))
  || ((a =? 0xE2) && (b =? 0x80)
      && (((0x80 <=? c) && (c <=? 0x8A)) || (c =? 0xA8) || (c =? 0xA9) || (c =? 0xAF)))
  || ((a =? 0xE2) && (b =? 0x81) && (c =? 0x9F))
  || ((a =? 0xE3) && (b =? 0x80) && (c =? 0x80)).

(** Drop the longest prefix of white-space sequences recognised by the three
    predicates (on the first one, two or three bytes). *)
Fixpoint trim_front (p1 : ascii → bool) (p2 : ascii → ascii → bool)
    (p3 : ascii → ascii → ascii → bool) (l : bytes) {struct l} : bytes :=
  match l with
  | [] => []
  | c1 :: l1 =>
      if p1 c1 then trim_front p1 p2 p3 l1 else
      match l1 with
      | [] => l
      | c2 :: l2 =>
          if p2 c1 c2 then trim_front p1 p2 p3 l2 else
          match l2 with
          | [] => l
          | c3 :: l3 => if p3 c1 c2 c3 then trim_front p1 p2 p3 l3 else l
          end
      end
  end.

Definition trim_left : bytes → bytes := trim_front is_space1 is_space2 is_space3.

(** Trimming at the right end reads the sequences backwards. *)
Definition trim_right (l : bytes) : bytes :=
  reverse (trim_front is_space1 (λ c2 c1, is_space2 c1 c2)
             (λ c3 c2 c1, is_space3 c1 c2 c3) (reverse l)).

Definition TrimSpace (s : string) : string := str (trim_right (trim_left (bs s))).

(** ** Case mapping *)

Definition lower1 (c : ascii) : ascii :=
  if (65 <=? code c) && (code c <=? 90) then chr (code c + 32) else c.
Definition upper1 (c : ascii) : ascii :=
  if (97 <=? code c) && (code c <=? 122) then chr (code c - 32) else c.

(** U+0130 lowers to [i], U+212A (Kelvin sign) to [k]. *)
Fixpoint to_lower (l : bytes) : bytes :=
  match l with
  | c1 :: ((c2 :: l2) as l1) =>
      if (code c1 =? 0xC4) && (code c2 =? 0xB0) then chr 105 :: to_lower l2 else
      match l2 with
      | c3 :: l3 =>
          if (code c1 =? 0xE2) && (code c2 =? 0x84) && (code c3 =? 0xAA)
          then chr 107 :: to_lower l3 else lower1 c1 :: to_lower l1
      | [] => lower1 c1 :: to_lower l1
      end
  | [c1] => [lower1 c1]
  | [] => []
  end.

(** U+0131 raises to [I], U+017F (long s) to [S]. *)
Fixpoint to_upper (l : bytes) : bytes :=
  match l with
  | c1 :: ((c2 :: l2) as l1) =>
      if (code c1 =? 0xC4) && (code c2 =? 0xB1) then chr 73 :: to_upper l2 else
      if (code c1 =? 0xC5) && (code c2 =? 0xBF) then chr 83 :: to_upper l2 else
      upper1 c1 :: to_upper l1
  | [c1] => [upper1 c1]
  | [] => []
  end.

Definition ToLower (s : string) : string := str (to_lower (bs s)).
Definition ToUpper (s : string) : string := str (to_upper (bs s)).

(** ** Splitting *)

(** [strings.Split(s, sep)] for a one-byte separator. *)
Fixpoint split_on (sep : ascii) (l : bytes) : list bytes :=
  match l with
  | [] => [[]]
  | c :: l' =>
      if decide (c = sep) then [] :: split_on sep l' else
      match split_on sep l' with
      | h :: t => (c :: h) :: t
      | [] => [[c]]
      end
  end.

Definition Split (s : string) (sep : ascii) : list string := str <$> split_on sep (bs s).

(** The text before and after the first [sep] ([strings.SplitN(s, sep, 2)]). *)
Fixpoint cut (sep : ascii) (l : bytes) : option (bytes * bytes) :=
  match l with
  | [] => None
  | c :: l' =>
      if decide (c = sep) then Some ([], l') else
      '(a, b) ← cut sep l'; Some (c :: a, b)
  end.

(** The text before and after the last [sep]. *)
Definition cut_last (sep : ascii) (l : bytes) : option (bytes * bytes) :=
  '(a, b) ← cut sep (reverse l); Some (reverse b, reverse a).

Definition HasPrefix (s p : string) : bool := String.prefix p s.

(** [strings.Contains(s, sub)]. *)
Fixpoint Contains (s sub : string) : bool :=
  String.prefix sub s || match s with String _ s => Contains s sub | EmptyString => false end.

(** [strings.Fields(s)]: the words between white space; [cur] is the word being
    read. *)
Definition flush_word (cur : bytes) : list bytes := match cur with [] => [] | _ => [cur] end.

Fixpoint fields (cur l : bytes) {struct l} : list bytes :=
  match l with
  | [] => flush_word cur
  | c1 :: l1 =>
      if is_space1 c1 then flush_word cur ++ fields [] l1 else
      match l1 with
      | [] => fields (cur ++ [c1]) l1
      | c2 :: l2 =>
          if is_space2 c1 c2 then flush_word cur ++ fields [] l2 else
          match l2 with
          | [] => fields (cur ++ [c1]) l1
          | c3 :: l3 =>
              if is_space3 c1 c2 c3 then flush_word cur ++ fields [] l3
              else fields (cur ++ [c1]) l1
          end
      end
  end.

Definition Fields (s : string) : list string := str <$> fields [] (bs s).

(** [strings.TrimPrefix(s, p)]. *)
Definition TrimPrefix (s p : string) : string :=
  if HasPrefix s p then str (drop (length (bs p)) (bs s)) else s.

(** ** Decimal integers *)

Definition is_digit (c : ascii) : bool := (48 <=? code c) && (code c <=? 57).
Definition digit_val (c : ascii) : Z := code c - 48.

Fixpoint dec_val (acc : Z) (l : bytes) : option Z :=
  match l with
  | [] => Some acc
  | c :: l' => if is_digit c then dec_val (acc * 10 + digit_val c) l' else None
  end.

Definition sign_of (l : bytes) : bool * bytes :=
  match l with
  | c :: l' =>
      if code c =? 45 then (true, l') else if code c =? 43 then (false, l') else (false, l)
  | [] => (false, [])
  end.

(** [strconv.Atoi]: an optional sign, at least one digit, in range. *)
Definition atoi (l : bytes) : option Z :=
  let '(neg, ds) := sign_of l in
  match ds with
  | [] => None
  | _ =>
      v ← dec_val 0 ds;
      let z := if neg : bool then - v else v in
      if decide (in_i64 z) then Some z else None
  end.
Definition Atoi (s : string) : option Z := atoi (bs s).

Fixpoint utoa (fuel : nat) (n : Z) : bytes :=
  match fuel with
  | O => []
  | S fuel' => if n <? 10 then [chr (48 + n)] else utoa fuel' (n / 10) ++ [chr (48 + n mod 10)]
  end.

(** [strconv.Itoa]; the fuel is one more than the number of bits. *)
Definition itoa (z : Z) : bytes :=
  let n := Z.abs z in
  let ds := utoa (S (Z.to_nat (Z.log2 n))) n in
  if z <? 0 then chr 45 :: ds else ds.
Definition Itoa (z : Z) : string := str (itoa z).

(** The longest prefix of digits. *)
Fixpoint take_digits (l : bytes) : bytes :=
  match l with
  | c :: l' => if is_digit c then c :: take_digits l' else []
  | [] => []
  end.

(** [fmt.Sscanf(s, "%d", &v)]: skip spaces (a newline is an error, except after
    a carriage return), read an optional sign and the longest run of digits;
    what follows is ignored. *)
Fixpoint sscanf_skip (l : bytes) : option bytes :=
  match l with
  | [] => Some []
  | c1 :: l1 =>
      match l1 with
      | c2 :: l2 =>
          if (code c1 =? 13) && (code c2 =? 10) then sscanf_skip l2 else
          if code c1 =? 10 then None else
          if is_space1 c1 then sscanf_skip l1 else
          if is_space2 c1 c2 then sscanf_skip l2 else
          match l2 with
          | c3 :: l3 => if is_space3 c1 c2 c3 then sscanf_skip l3 else Some l
          | [] => Some l
          end
      | [] => if code c1 =? 10 then None else if is_space1 c1 then Some [] else Some l
      end
  end.

Definition Sscanf_d (s : string) : option Z :=
  l ← sscanf_skip (bs s);
  let '(neg, r) := sign_of l in
  match take_digits r with
  | [] => None
  | ds =>
      v ← dec_val 0 ds;
      let z := if neg : bool then - v else v in
      if decide (in_i64 z) then Some z else None
  end.

(** ** Host and port *)

Inductive addr_error : Type :=
| MissingPort | TooManyColons | MissingBracket | UnexpectedOpen | UnexpectedClose.

#[export] Instance addr_error_eq_dec : EqDecision addr_error.
Proof. solve_decision. Defined.

Definition colon : ascii := chr 58.
Definition lbrack : ascii := chr 91.
Definition rbrack : ascii := chr 93.
Definition percent : ascii := chr 37.
Definition dot : ascii := chr 46.
Definition comma : ascii := chr 44.
Definition dash : ascii := chr 45.

Definition has (c : ascii) (l : bytes) : bool := bool_decide (c ∈ l).

(** [net.SplitHostPort]. *)
Definition split_host_port (hp : bytes) : result addr_error (bytes * bytes) :=
  match cut_last colon hp with
  | None => Err MissingPort
  | Some (pre, port) =>
      match hp with
      | c :: rest =>
          if decide (c = lbrack) then
            match cut rbrack hp with
            | None => Err MissingBracket
            | Some (open_host, after) =>
                match after with
                | [] => Err MissingPort
                | c' :: after' =>
                    if decide (length open_host + 1 = length pre)%nat then
                      (* the ']' is just before the last ':' *)
                      if has lbrack rest then Err UnexpectedOpen
                      else if has rbrack after then Err UnexpectedClose
                      else Ok (drop 1 open_host, port)
                    else if decide (c' = colon) then Err TooManyColons
                    else Err MissingPort
                end
            end
          else
            if has colon pre then Err TooManyColons
            else if has lbrack hp then Err UnexpectedOpen
            else if has rbrack hp then Err UnexpectedClose
            else Ok (pre, port)
      | [] => Err MissingPort
      end
  end.

Definition SplitHostPort (s : string) : result addr_error (string * string) :=
  '(h, p) ← split_host_port (bs s); Ok (str h, str p).

Definition join_host_port (h p : bytes) : bytes :=
  if has colon h then lbrack :: h ++ rbrack :: colon :: p else h ++ colon :: p.
Definition JoinHostPort (h p : string) : string := str (join_host_port (bs h) (bs p)).

(** ** IP addresses: [net.IP] is a slice of 4 or 16 bytes *)

Abbreviation IP := (list Z).

Definition v4in6 : IP := [0; 0; 0; 0; 0; 0; 0; 0; 0; 0; 255; 255].

Definition To4 (ip : IP) : option IP :=
  if decide (length ip = 4%nat) then Some ip
  else if decide (length ip = 16%nat ∧ take 12 ip = v4in6) then Some (drop 12 ip)
  else None.

Definition To16 (ip : IP) : option IP :=
  if decide (length ip = 4%nat) then Some (v4in6 ++ ip)
  else if decide (length ip = 16%nat) then Some ip
  else None.

(** One octet of a dotted IPv4 address: no leading zero, at most 255. *)
Definition parse_octet (l : bytes) : option Z :=
  match l with
  | [] => None
  | c :: l' =>
      if (code c =? 48) && negb (bool_decide (l' = [])) then None else
      v ← dec_val 0 l; if v <=? 255 then Some v else None
  end.

Definition parse_ipv4 (l : bytes) : option IP :=
  match split_on dot l with
  | [a; b; c; d] =>
      a ← parse_octet a; b ← parse_octet b; c ← parse_octet c; d ← parse_octet d;
      Some [a; b; c; d]
  | _ => None
  end.

Definition hex_val (c : ascii) : option Z :=
  let z := code c in
  if (48 <=? z) && (z <=? 57) then Some (z - 48)
  else if (97 <=? z) && (z <=? 102) then Some (z - 87)
  else if (65 <=? z) && (z <=? 70) then Some (z - 55)
  else None.

(** A group of hexadecimal digits: its value, its length and what follows. *)
Fixpoint hex_group (acc : Z) (off : nat) (l : bytes) : Z * nat * bytes :=
  match l with
  | c :: l' =>
      match hex_val c with
      | Some v => hex_group (acc * 16 + v) (S off) l'
      | None => (acc, off, l)
      end
  | [] => (acc, off, [])
  end.

(** The main loop of [netip.parseIPv6]: the bytes written so far, the position
    of the ellipsis and the remaining text.  Each turn writes two bytes or ends,
    so eight turns are enough. *)
Fixpoint ipv6_loop (fuel : nat) (out : IP) (ell : option nat) (s : bytes) :
    option (IP * option nat * bytes) :=
  match fuel with
  | O => Some (out, ell, s)
  | S fuel' =>
      if (16 <=? length out)%nat then Some (out, ell, s) else
      let '(acc, off, rest) := hex_group 0 0 s in
      if (off =? 0)%nat || (4 <? off)%nat then None else
      match rest with
      | c :: rest1 =>
          if decide (c = dot) then
            if bool_decide (ell = None) && negb (length out =? 12)%nat then None else
            if (16 <? length out + 4)%nat then None else
            q ← parse_ipv4 s; Some (out ++ q, ell, [])
          else
            let out' := out ++ [acc / 256; acc mod 256] in
            if decide (c = colon) then
              match rest1 with
              | [] => None
              | c2 :: rest2 =>
                  if decide (c2 = colon) then
                    if bool_decide (ell = None) then
                      let ell' := Some (length out') in
                      match rest2 with
                      | [] => Some (out', ell', [])
                      | _ => ipv6_loop fuel' out' ell' rest2
                      end
                    else None
                  else ipv6_loop fuel' out' ell rest1
              end
            else None
      | [] => Some (out ++ [acc / 256; acc mod 256], ell, [])
      end
  end.

(** Expand the ellipsis once the whole text is used. *)
Definition ipv6_finish (r : IP * option nat * bytes) : option IP :=
  let '(out, ell, s) := r in
  match s with
  | _ :: _ => None
  | [] =>
      if (length out <? 16)%nat then
        e ← ell;
        Some (take e out ++ replicate (16 - length out) 0 ++ drop e out)
      else match ell with Some _ => None | None => Some out end
  end.

Definition parse_ipv6 (l : bytes) : option IP :=
  match l with
  | c1 :: c2 :: rest =>
      if decide (c1 = colon ∧ c2 = colon) then
        match rest with
        | [] => Some (replicate 16 0)
        | _ => r ← ipv6_loop 8 [] (Some 0%nat) rest; ipv6_finish r
        end
      else r ← ipv6_loop 8 [] None l; ipv6_finish r
  | _ => r ← ipv6_loop 8 [] None l; ipv6_finish r
  end.

(** The first of ['.'], [':'], ['%'] decides the family; an address with a zone
    is not a [net.IP]. *)
Fixpoint ip_family (l : bytes) : option bool :=
  match l with
  | [] => None
  | c :: l' =>
      if decide (c = dot) then Some false
      else if decide (c = colon) then Some true
      else if decide (c = percent) then None
      else ip_family l'
  end.

(** [net.ParseIP]: an IPv4 address is returned in its 16-byte form. *)
Definition ParseIP (s : string) : option IP :=
  fam ← ip_family (bs s);
  if fam : bool then
    if has percent (bs s) then None else parse_ipv6 (bs s)
  else q ← parse_ipv4 (bs s); Some (v4in6 ++ q).

(** ** Lemmas: trimming *)

Section trim.
Context (p1 : ascii → bool) (p2 : ascii → ascii → bool) (p3 : ascii → ascii → ascii → bool).

(** A list starts with no recognised sequence. *)
Definition clean (l : bytes) : Prop := trim_front p1 p2 p3 l = l.

Lemma trim_front_suffix_len n l :
  (length l ≤ n)%nat → trim_front p1 p2 p3 l `suffix_of` l.
Proof.
  revert l; induction n as [|n IH]; intros l Hn;
    (destruct l as [|c1 l1]; [apply suffix_nil|]); simpl in *; [lia|].
  destruct (p1 c1); [by apply suffix_cons_r, IH; lia|].
  destruct l1 as [|c2 l2]; [done|]. simpl in *.
  destruct (p2 c1 c2); [by do 2 apply suffix_cons_r; apply IH; lia|].
  destruct l2 as [|c3 l3]; [done|]. simpl in *.
  destruct (p3 c1 c2 c3); [by do 3 apply suffix_cons_r; apply IH; lia|done].
Qed.

Lemma trim_front_suffix l : trim_front p1 p2 p3 l `suffix_of` l.
Proof. by eapply trim_front_suffix_len. Qed.

Lemma trim_front_clean_len n l : (length l ≤ n)%nat → clean (trim_front p1 p2 p3 l).
Proof.
  unfold clean. revert l; induction n as [|n IH]; intros l Hn;
    (destruct l as [|c1 l1]; [done|]); simpl in *; [lia|].
  destruct (p1 c1) eqn:H1; [by apply IH; lia|].
  destruct l1 as [|c2 l2]; [by simpl; rewrite H1|]. simpl in *.
  destruct (p2 c1 c2) eqn:H2; [by apply IH; lia|].
  destruct l2 as [|c3 l3]; [by simpl; rewrite H1, H2|]. simpl in *.
  destruct (p3 c1 c2 c3) eqn:H3; [by apply IH; lia|].
  simpl. by rewrite H1, H2, H3.
Qed.

Lemma trim_front_clean l : clean (trim_front p1 p2 p3 l).
Proof. by eapply trim_front_clean_len. Qed.

(** Cleanness only looks at the first three bytes, so prefixes keep it. *)
Lemma clean_prefix l k : clean (l ++ k) → clean l.
Proof.
  assert (∀ x y : bytes, trim_front p1 p2 p3 x = y → (length y ≤ length x)%nat) as Hlen.
  { intros x ? <-. apply suffix_length, trim_front_suffix. }
  unfold clean. destruct l as [|c1 l1]; [done|]. simpl.
  destruct (p1 c1). { intros H%Hlen. simpl in H. lia. }
  destruct l1 as [|c2 l2]; [done|]. simpl.
  destruct (p2 c1 c2). { intros H%Hlen. simpl in H. lia. }
  destruct l2 as [|c3 l3]; [done|]. simpl.
  destruct (p3 c1 c2 c3). { intros H%Hlen. simpl in H. lia. } done.
Qed.
End trim.

Lemma trim_right_prefix l : trim_right l `prefix_of` l.
Proof.
  unfold trim_right.
  match goal with |- reverse (trim_front ?p1 ?p2 ?p3 ?r) `prefix_of` _ =>
    destruct (trim_front_suffix p1 p2 p3 r) as [k Hk] end.
  exists (reverse k). by rewrite <- reverse_app, <- Hk, reverse_involutive.
Qed.

Lemma trim_right_idemp l : trim_right (trim_right l) = trim_right l.
Proof.
  unfold trim_right. rewrite reverse_involutive. f_equal. apply trim_front_clean.
Qed.

Lemma TrimSpace_bs s : bs (TrimSpace s) = trim_right (trim_left (bs s)).
Proof. unfold TrimSpace. by rewrite bs_str. Qed.

Lemma trim_left_trim_right l :
  trim_left (trim_right (trim_left l)) = trim_right (trim_left l).
Proof.
  destruct (trim_right_prefix (trim_left l)) as [k Hk].
  apply (clean_prefix _ _ _ _ k). rewrite <- Hk. apply trim_front_clean.
Qed.

Lemma TrimSpace_idemp s : TrimSpace (TrimSpace s) = TrimSpace s.
Proof.
  apply bs_inj. by rewrite !TrimSpace_bs, trim_left_trim_right, trim_right_idemp.
Qed.

(** ** Lemmas: decimal integers *)

Lemma is_digit_chr d : 0 ≤ d < 10 → is_digit (chr (48 + d)) = true.
Proof. intros. unfold is_digit. rewrite code_chr by lia. lia. Qed.
Lemma digit_val_chr d : 0 ≤ d < 10 → digit_val (chr (48 + d)) = d.
Proof. intros. unfold digit_val. rewrite code_chr by lia. lia. Qed.

Lemma dec_val_app acc l k : dec_val acc (l ++ k) = v ← dec_val acc l; dec_val v k.
Proof.
  revert acc; induction l as [|c l IH]; intros acc; simpl; [done|].
  destruct (is_digit c); [apply IH|done].
Qed.

Lemma utoa_dec_val fuel n :
  0 ≤ n < 10 ^ Z.of_nat fuel → dec_val 0 (utoa fuel n) = Some n.
Proof.
  revert n; induction fuel as [|fuel IH]; intros n Hn.
  - simpl in *. f_equal. lia.
  - cbn [utoa]. destruct (Z.ltb_spec n 10).
    + simpl. rewrite is_digit_chr, digit_val_chr by lia. done.
    + pose proof (Z.mod_pos_bound n 10 ltac:(lia)).
      rewrite dec_val_app, IH.
      * simpl. rewrite is_digit_chr, digit_val_chr by lia. f_equal.
        pose proof (Z.div_mod n 10). lia.
      * split; [apply Z.div_pos; lia|]. apply Z.div_lt_upper_bound; [lia|].
        rewrite <- Z.pow_succ_r by lia. rewrite <- Nat2Z.inj_succ. lia.
Qed.

Lemma utoa_head fuel n :
  0 ≤ n → (0 < fuel)%nat → ∃ c l, utoa fuel n = c :: l ∧ is_digit c = true.
Proof.
  revert n; induction fuel as [|fuel IH]; intros n Hn Hf; [lia|]. cbn [utoa].
  destruct (Z.ltb_spec n 10); [eexists _, _; split; [done|]; apply is_digit_chr; lia|].
  destruct fuel as [|fuel].
  - eexists _, _; split; [done|]. apply is_digit_chr, Z.mod_pos_bound; lia.
  - destruct (IH (n / 10)) as (c & l & -> & ?); [apply Z.div_pos; lia|lia|].
    eexists _, _; split; [done|done].
Qed.

(** The fuel of [itoa] is enough. *)
Lemma itoa_fuel n : 0 ≤ n → n < 10 ^ Z.of_nat (S (Z.to_nat (Z.log2 n))).
Proof.
  intros Hn. rewrite Nat2Z.inj_succ, Z2Nat.id by apply Z.log2_nonneg.
  destruct (decide (n = 0)) as [->|]; [reflexivity|].
  apply Z.lt_le_trans with (2 ^ Z.succ (Z.log2 n)); [apply Z.log2_spec; lia|].
  apply Z.pow_le_mono_l. lia.
Qed.

Lemma sign_of_digit c l : is_digit c = true → sign_of (c :: l) = (false, c :: l).
Proof.
  unfold is_digit, sign_of. intros.
  destruct (Z.eqb_spec (code c) 45); [lia|]. destruct (Z.eqb_spec (code c) 43); [lia|done].
Qed.

Lemma atoi_itoa z : in_i64 z → atoi (itoa z) = Some z.
Proof.
  intros Hz. unfold itoa. set (n := Z.abs z).
  set (fuel := S (Z.to_nat (Z.log2 n))).
  destruct (utoa_head fuel n) as (c & l & Hcl & Hc); [lia|lia|].
  assert (dec_val 0 (c :: l) = Some n) as Hv.
  { rewrite <- Hcl. apply utoa_dec_val. split; [lia|apply itoa_fuel; lia]. }
  cbv zeta. rewrite Hcl. destruct (Z.ltb_spec z 0).
  - unfold atoi. cbn [sign_of]. replace (code (chr 45)) with 45 by done.
    cbn [Z.eqb Pos.eqb]. rewrite Hv. cbn [mbind option_bind].
    replace (- n) with z by lia. by rewrite decide_True.
  - unfold atoi. rewrite sign_of_digit by done. rewrite Hv. cbn [mbind option_bind].
    replace n with z by lia. by rewrite decide_True.
Qed.

Lemma Atoi_Itoa z : in_i64 z → Atoi (Itoa z) = Some z.
Proof. intros. unfold Atoi, Itoa. rewrite bs_str. by apply atoi_itoa. Qed.

(** The bytes [itoa] produces: digits, and possibly a leading ['-']. *)
Lemma utoa_digits fuel n : 0 ≤ n → Forall (λ c, is_digit c = true) (utoa fuel n).
Proof.
  revert n; induction fuel as [|fuel IH]; intros n Hn; cbn [utoa]; [done|].
  destruct (Z.ltb_spec n 10).
  - constructor; [apply is_digit_chr; lia|done].
  - apply Forall_app; split; [apply IH, Z.div_pos; lia|].
    constructor; [apply is_digit_chr, Z.mod_pos_bound; lia|done].
Qed.

Lemma itoa_not_elem c z :
  is_digit c = false → code c ≠ 45 → c ∉ itoa z.
Proof.
  intros Hd Hm. unfold itoa. cbv zeta.
  assert (c ∉ utoa (S (Z.to_nat (Z.log2 (Z.abs z)))) (Z.abs z)) as Hn.
  { intros Hin. pose proof (utoa_digits (S (Z.to_nat (Z.log2 (Z.abs z)))) (Z.abs z)) as HF.
    rewrite Forall_forall in HF. rewrite (HF ltac:(lia) _ Hin) in Hd. done. }
  destruct (z <? 0); [|done]. intros [->|]%elem_of_cons; done.
Qed.

(** ** Lemmas: host and port *)

Lemma cut_None sep l : cut sep l = None ↔ sep ∉ l.
Proof.
  induction l as [|c l IH]; simpl; [split; [intros _; apply not_elem_of_nil|done]|].
  destruct (decide (c = sep)) as [->|Hne]; [split; [done|set_solver]|].
  rewrite not_elem_of_cons.
  destruct (cut sep l) as [[a b]|]; simpl in *; (split; [intros; simplify_eq|intros [? ?%IH]; done]).
  split; [congruence|by apply IH].
Qed.

Lemma cut_app sep l k : sep ∉ l → cut sep (l ++ sep :: k) = Some (l, k).
Proof.
  induction l as [|c l IH]; simpl; intros Hn; [by rewrite decide_True|].
  rewrite decide_False by set_solver. rewrite IH by set_solver. done.
Qed.

Lemma cut_last_app sep l k : sep ∉ k → cut_last sep (l ++ sep :: k) = Some (l, k).
Proof.
  intros Hk. unfold cut_last. rewrite reverse_app, reverse_cons, <- app_assoc. simpl.
  rewrite cut_app by by rewrite elem_of_reverse. simpl. by rewrite !reverse_involutive.
Qed.

Lemma has_true c l : has c l = true ↔ c ∈ l.
Proof. apply bool_decide_eq_true. Qed.
Lemma has_false c l : has c l = false ↔ c ∉ l.
Proof. apply bool_decide_eq_false. Qed.

(** [SplitHostPort] undoes [JoinHostPort] for hosts without brackets and ports
    without colons or brackets. *)
Lemma split_join_host_port h p :
  lbrack ∉ h → rbrack ∉ h → colon ∉ p → lbrack ∉ p → rbrack ∉ p →
  split_host_port (join_host_port h p) = Ok (h, p).
Proof.
  intros Hlh Hrh Hcp Hlp Hrp. unfold join_host_port, split_host_port.
  destruct (has colon h) eqn:Hh.
  - replace (lbrack :: h ++ rbrack :: colon :: p)
      with ((lbrack :: h ++ [rbrack]) ++ colon :: p) by by simpl; rewrite <- app_assoc.
    rewrite cut_last_app by done. simpl. rewrite <- app_assoc. simpl.
    rewrite cut_app by done. simpl.
    rewrite decide_True by (rewrite length_app; simpl; lia).
    replace (has lbrack (h ++ rbrack :: colon :: p)) with false.
    2:{ symmetry. apply has_false. set_solver. }
    replace (has rbrack (colon :: p)) with false; [done|].
    symmetry. apply has_false. set_solver.
  - apply has_false in Hh. rewrite cut_last_app by done.
    destruct (h ++ colon :: p) as [|c rest] eqn:E; [by destruct h|].
    rewrite decide_False.
    2:{ intros ->. destruct h as [|c' h']; simplify_eq/=. set_solver. }
    rewrite <- E. clear E.
    replace (has colon h) with false by by symmetry; apply has_false.
    replace (has lbrack (h ++ colon :: p)) with false.
    2:{ symmetry. apply has_false. set_solver. }
    replace (has rbrack (h ++ colon :: p)) with false; [done|].
    symmetry. apply has_false. set_solver.
Qed.

(** ** Lemmas: IP addresses *)

Lemma parse_ipv4_length l ip : parse_ipv4 l = Some ip → length ip = 4%nat.
Proof.
  unfold parse_ipv4. destruct (split_on dot l) as [|a [|b [|c [|d [|]]]]]; try done.
  destruct (parse_octet a), (parse_octet b), (parse_octet c), (parse_octet d);
    simpl; by intros [= <-].
Qed.

Lemma ipv6_loop_length fuel out ell s r :
  Nat.even (length out) = true → (length out ≤ 16)%nat →
  ipv6_loop fuel out ell s = Some r → (length r.1.1 ≤ 16)%nat.
Proof.
  revert out ell s; induction fuel as [|fuel IH]; intros out ell s Hev Hle;
    cbn [ipv6_loop]; [by intros [= <-]|].
  destruct (Nat.leb_spec 16 (length out)); [by intros [= <-]|].
  destruct (hex_group 0 0 s) as [[acc off] rest].
  assert (∀ x y : Z, Nat.even (length (out ++ [x; y])) = true ∧
    (length (out ++ [x; y]) ≤ 16)%nat) as Hout.
  { intros x y. rewrite length_app, Nat.even_add, Hev. simpl. split; [done|].
    apply Nat.even_spec in Hev as [k Hk]. lia. }
  destruct (_ || _); [done|].
  destruct rest as [|c rest1]; [intros [= <-]; apply Hout|].
  destruct (decide (c = dot)).
  - destruct (_ && _); [done|]. destruct (Nat.ltb_spec 16 (length out + 4)); [done|].
    destruct (parse_ipv4 s) as [q|] eqn:Hq; simpl; [|done]. intros [= <-]. simpl.
    apply parse_ipv4_length in Hq. rewrite length_app. lia.
  - destruct (decide (c = colon)); [|done]. destruct rest1 as [|c2 rest2]; [done|].
    destruct (decide (c2 = colon)); [|by apply IH; apply Hout].
    destruct (bool_decide _); [|done].
    destruct rest2; [intros [= <-]; apply Hout|by apply IH; apply Hout].
Qed.

Lemma ipv6_finish_length r ip :
  (length r.1.1 ≤ 16)%nat → ipv6_finish r = Some ip → length ip = 16%nat.
Proof.
  destruct r as [[out ell] [|]]; simpl; [|done]. intros Hle.
  destruct (Nat.ltb_spec (length out) 16).
  - destruct ell as [e|]; simpl; [|done]. intros [= <-].
    rewrite !length_app, length_take, length_replicate, length_drop. lia.
  - destruct ell; [done|]. intros [= <-]. lia.
Qed.

Lemma parse_ipv6_length l ip : parse_ipv6 l = Some ip → length ip = 16%nat.
Proof.
  assert (∀ ell s, (r ← ipv6_loop 8 [] ell s; ipv6_finish r) = Some ip →
    length ip = 16%nat) as Hgo.
  { intros ell s. destruct (ipv6_loop 8 [] ell s) as [r|] eqn:Hr; [|done].
    apply ipv6_finish_length. by eapply ipv6_loop_length; [..|exact Hr]; simpl; lia. }
  unfold parse_ipv6. destruct l as [|c1 [|c2 rest]]; [by apply Hgo..|].
  destruct (decide _); [|by apply Hgo].
  destruct rest; [by intros [= <-]|by apply Hgo].
Qed.

(** [net.ParseIP] returns the 16-byte form. *)
Lemma ParseIP_length s ip : ParseIP s = Some ip → length ip = 16%nat.
Proof.
  unfold ParseIP. destruct (ip_family (bs s)) as [[]|]; simpl; [| |done].
  - destruct (has percent (bs s)); [done|]. apply parse_ipv6_length.
  - destruct (parse_ipv4 (bs s)) as [q|] eqn:Hq; simpl; [|done]. intros [= <-].
    apply parse_ipv4_length in Hq. change (12 + length q = 16)%nat. lia.
Qed.

Lemma To4_length ip v : To4 ip = Some v → length v = 4%nat.
Proof.
  unfold To4. intros H. repeat case_decide; simplify_eq; [done|].
  rewrite length_drop. lia.
Qed.

(** ** Lemmas: plain text (printable ASCII other than the space) *)

Definition plain (c : ascii) : Prop := 33 ≤ code c < 127.

(** Trimming stops at a plain character. *)
Lemma trim_front_plain c l (p2 : ascii → ascii → bool) (p3 : ascii → ascii → ascii → bool) :
  (∀ c1 c2, plain c1 → p2 c1 c2 = false) → (∀ c1 c2 c3, plain c1 → p3 c1 c2 c3 = false) →
  plain c → trim_front is_space1 p2 p3 (c :: l) = c :: l.
Proof.
  intros H2 H3 Hc. simpl.
  assert (is_space1 c = false) as -> by (unfold is_space1, plain in *; lia).
  destruct l as [|c2 l]; [done|]. rewrite H2 by done.
  destruct l as [|c3 l]; [done|]. by rewrite H3.
Qed.

(** Text that starts and ends with a plain character is trimmed already. *)
Lemma TrimSpace_ends c l d :
  plain c → plain d → TrimSpace (str (c :: l ++ [d])) = str (c :: l ++ [d]).
Proof.
  intros Hc Hd. unfold TrimSpace. rewrite bs_str. f_equal.
  assert (trim_left (c :: l ++ [d]) = c :: l ++ [d]) as ->.
  { apply trim_front_plain; [..|done]; unfold plain, is_space2, is_space3; intros; lia. }
  unfold trim_right. rewrite app_comm_cons, reverse_app. change (reverse [d] ++ reverse (c :: l)) with (d :: reverse (c :: l)).
  rewrite trim_front_plain; [|unfold plain, is_space2; intros; lia|unfold plain, is_space3; intros; lia|done].
  rewrite reverse_cons, reverse_involutive. done.
Qed.

Lemma TrimSpace_plain l : Forall plain l → TrimSpace (str l) = str l.
Proof.
  intros Hl. destruct l as [|c l]; [done|]. apply Forall_cons in Hl as [Hc Hl].
  destruct l as [|d l _] using rev_ind.
  - unfold TrimSpace. rewrite bs_str. f_equal. unfold trim_right, trim_left.
    rewrite !(trim_front_plain c) by (unfold plain, is_space2, is_space3 in *; intros; lia).
    change (reverse [c]) with [c].
    by rewrite trim_front_plain by (unfold plain, is_space2, is_space3 in *; intros; lia).
  - apply Forall_app in Hl as [_ [Hd _]%Forall_cons]. by apply TrimSpace_ends.
Qed.

Lemma itoa_plain z : Forall plain (itoa z).
Proof.
  assert (Forall plain (utoa (S (Z.to_nat (Z.log2 (Z.abs z)))) (Z.abs z))) as Hu.
  { eapply Forall_impl; [apply utoa_digits; lia|]. simpl. unfold is_digit, plain. lia. }
  unfold itoa. cbv zeta. destruct (z <? 0); [|done]. constructor; [done|done].
Qed.

Lemma split_on_app sep a l : sep ∉ a → split_on sep (a ++ sep :: l) = a :: split_on sep l.
Proof.
  induction a as [|c a IH]; simpl; intros Ha; [by rewrite decide_True|].
  rewrite decide_False by set_solver. rewrite IH by set_solver. done.
Qed.

Lemma split_on_single sep a : sep ∉ a → split_on sep a = [a].
Proof.
  induction a as [|c a IH]; simpl; intros Ha; [done|].
  rewrite decide_False by set_solver. rewrite IH by set_solver. done.
Qed.

(** [strings.Join(parts, sep)] for a non-empty list. *)
Fixpoint join_on (sep : ascii) (parts : list bytes) : bytes :=
  match parts with
  | [] => []
  | [a] => a
  | a :: rest => a ++ sep :: join_on sep rest
  end.

Lemma split_join sep parts :
  parts ≠ [] → Forall (λ a, sep ∉ a) parts → split_on sep (join_on sep parts) = parts.
Proof.
  intros Hne HF. induction HF as [|a parts Ha HF IH]; [done|].
  destruct parts as [|b parts]; [by apply split_on_single|].
  change (join_on sep (a :: b :: parts)) with (a ++ sep :: join_on sep (b :: parts)).
  rewrite split_on_app by done. by rewrite IH.
Qed.

(** ** Prefixes *)

Lemma HasPrefix_app p t : HasPrefix (p +:+ t) p = true.
Proof.
  unfold HasPrefix. induction p as [|c p IH]; simpl; [by destruct t|].
  by destruct (ascii_dec c c).
Qed.

Lemma TrimPrefix_app p t : TrimPrefix (p +:+ t) p = t.
Proof. unfold TrimPrefix. by rewrite HasPrefix_app, bs_app, drop_app_length, str_bs. Qed.

Lemma HasPrefix_split s p : HasPrefix s p = true → ∃ t, s = p +:+ t.
Proof.
  unfold HasPrefix. revert s; induction p as [|c p IH]; intros s; simpl; [by exists s|].
  destruct s as [|d s]; [done|]. simpl. destruct (ascii_dec c d) as [->|]; [|done].
  intros [t ->]%IH. by exists t.
Qed.

(** ** Words *)

Lemma fields_word cur w l :
  Forall plain w → fields cur (w ++ chr 32 :: l) = flush_word (cur ++ w) ++ fields [] l.
Proof.
  intros Hw. revert cur. induction Hw as [|c w Hc Hw IH]; intros cur; [by rewrite app_nil_r|].
  assert (is_space1 c = false) as H1 by (unfold is_space1, plain in *; lia).
  assert (∀ d, is_space2 c d = false) as H2 by (intros; unfold is_space2, plain in *; lia).
  assert (∀ d e, is_space3 c d e = false) as H3 by (intros; unfold is_space3, plain in *; lia).
  specialize (IH (cur ++ [c])). rewrite <- (assoc_L (++)) in IH. simpl ((c :: w) ++ _).
  destruct w as [|d w]; simpl in IH |- *; rewrite H1, H2.
  - destruct l; [exact IH|]. rewrite H3. exact IH.
  - destruct (w ++ chr 32 :: l) eqn:E; [by destruct w|]. rewrite H3. exact IH.
Qed.

Lemma fields_last cur w : Forall plain w → fields cur w = flush_word (cur ++ w).
Proof.
  intros Hw. revert cur. induction Hw as [|c w Hc Hw IH]; intros cur; [by rewrite app_nil_r|].
  assert (is_space1 c = false) as H1 by (unfold is_space1, plain in *; lia).
  assert (∀ d, is_space2 c d = false) as H2 by (intros; unfold is_space2, plain in *; lia).
  assert (∀ d e, is_space3 c d e = false) as H3 by (intros; unfold is_space3, plain in *; lia).
  specialize (IH (cur ++ [c])). rewrite <- (assoc_L (++)) in IH.
  destruct w as [|d [|e w]]; simpl in IH |- *; rewrite H1, ?H2, ?H3; exact IH.
Qed.

(** A word of a command line. *)
Definition word (s : string) : Prop := s ≠ ""%string ∧ Forall plain (bs s).

(** [strings.Join(l, " ")]. *)
Definition join_words (l : list string) : string := str (join_on (chr 32) (bs <$> l)).

Lemma Fields_join l : Forall word l → Fields (join_words l) = l.
Proof.
  unfold Fields, join_words. rewrite bs_str. induction 1 as [|s l [Hne Hs] Hl IH]; [done|].
  assert (flush_word (bs s) = [bs s]) as Hf.
  { destruct (bs s) eqn:E; [by apply bs_empty in E|done]. }
  destruct l as [|t l].
  - simpl. rewrite fields_last by done. simpl. by rewrite Hf, fmap_cons, str_bs.
  - change (join_on (chr 32) (bs <$> s :: t :: l))
      with (bs s ++ chr 32 :: join_on (chr 32) (bs <$> t :: l)).
    rewrite fields_word by done. simpl ([] ++ _). rewrite Hf. simpl.
    rewrite str_bs. f_equal. exact IH.
Qed.

(** A word of a text is in the text. *)
Lemma fields_infix n cur l w : (length l ≤ n)%nat → w ∈ fields cur l → ∃ a b, cur ++ l = a ++ w ++ b.
Proof.
  assert (∀ cur l, w ∈ flush_word cur → ∃ a b, cur ++ l = a ++ w ++ b) as Hflush.
  { intros [|c k] l1; [by intros ?%not_elem_of_nil|]. intros ->%list_elem_of_singleton. by exists [], l1. }
  revert cur l. induction n as [|n IH]; intros cur l Hn Hw.
  { destruct l; [|simpl in Hn; lia]. by apply Hflush. }
  assert (∀ p rest, (length rest ≤ n)%nat → w ∈ flush_word cur ++ fields [] rest →
    ∃ a b, cur ++ p ++ rest = a ++ w ++ b) as Hskip.
  { intros p rest Hr [Hin|Hin]%elem_of_app; [by apply Hflush|].
    destruct (IH [] rest Hr Hin) as (a & b & E). exists (cur ++ p ++ a), b. simpl in E. rewrite E.
    by rewrite <- !(assoc_L (++)). }
  assert (∀ c rest, (length rest ≤ n)%nat → w ∈ fields (cur ++ [c]) rest →
    ∃ a b, cur ++ c :: rest = a ++ w ++ b) as Hgo.
  { intros c rest Hr Hin. destruct (IH _ rest Hr Hin) as (a & b & E). exists a, b.
    by rewrite <- E, <- (assoc_L (++)). }
  destruct l as [|c1 l1]; [by apply Hflush|]. simpl in Hw, Hn.
  destruct (is_space1 c1); [apply (Hskip [c1]); [lia|done]|].
  destruct l1 as [|c2 l2]; [apply Hgo; [simpl; lia|done]|]. simpl in Hn.
  destruct (is_space2 c1 c2); [apply (Hskip [c1; c2]); [lia|done]|].
  destruct l2 as [|c3 l3]; [apply Hgo; [simpl; lia|done]|]. simpl in Hn.
  destruct (is_space3 c1 c2 c3); [apply (Hskip [c1; c2; c3]); [lia|done]|].
  apply Hgo; [simpl; lia|done].
Qed.

Lemma Contains_infix a w b : Contains (a +:+ w +:+ b) w = true.
Proof.
  induction a as [|c a IH].
  - change ("" +:+ w +:+ b)%string with (w +:+ b). pose proof (HasPrefix_app w b) as E.
    unfold HasPrefix in E. destruct (w +:+ b); cbn [Contains]; by rewrite E.
  - change (String c a +:+ w +:+ b) with (String c (a +:+ w +:+ b)). simpl. rewrite IH. apply orb_true_r.
Qed.

Lemma Fields_Contains s w : w ∈ Fields s → Contains s w = true.
Proof.
  unfold Fields. intros (x & -> & Hx)%list_elem_of_fmap.
  destruct (fields_infix (length (bs s)) [] (bs s) x (le_n _) Hx) as (a & b & E). simpl in E.
  rewrite <- (str_bs s), E.
  replace (str (a ++ x ++ b)) with (str a +:+ str x +:+ str b); [apply Contains_infix|].
  rewrite <- (str_bs (str a +:+ _)), !bs_app, !bs_str. done.
Qed.
