(* ===== verification/NetUtil.v ===== *)
(** [internal/netutil] and [internal/tunneladdr]: TCP flag sets and their
    cycling, UDP address parsing, the per-peer address key, and the target
    address of a tunnel request. *)

From S2P Require Import Prelude GoStd.
From Stdlib Require Import Ascii.

Local Open Scope Z_scope.

(** ** netutil/tcpflags.go *)

Record TCPFlagSet : Type := mkFlags {
  FIN : bool; SYN : bool; RST : bool; PSH : bool; ACK : bool;
  URG : bool; ECE : bool; CWR : bool; NS : bool }.

#[export] Instance TCPFlagSet_eq_dec : EqDecision TCPFlagSet.
Proof. solve_decision. Defined.

Definition no_flags : TCPFlagSet :=
  mkFlags false false false false false false false false false.

(** One turn of the [switch] in [ParseTCPFlag]. *)
Definition set_flag (f : TCPFlagSet) (c : ascii) : option TCPFlagSet :=
  let '(mkFlags fin syn rst psh ack urg ece cwr ns) := f in
  match c with
  | "F"%char => Some (mkFlags true syn rst psh ack urg ece cwr ns)
  | "S"%char => Some (mkFlags fin true rst psh ack urg ece cwr ns)
  | "R"%char => Some (mkFlags fin syn true psh ack urg ece cwr ns)
  | "P"%char => Some (mkFlags fin syn rst true ack urg ece cwr ns)
  | "A"%char => Some (mkFlags fin syn rst psh true urg ece cwr ns)
  | "U"%char => Some (mkFlags fin syn rst psh ack true ece cwr ns)
  | "E"%char => Some (mkFlags fin syn rst psh ack urg true cwr ns)
  | "C"%char => Some (mkFlags fin syn rst psh ack urg ece true ns)
  | "N"%char => Some (mkFlags fin syn rst psh ack urg ece cwr true)
  | _ => None
  end.

Inductive netutil_error : Type :=
| InvalidFlag (s : string)
| InvalidAddress (e : addr_error)
| InvalidPort
| ZeroPort
| InvalidIP.

#[export] Instance netutil_error_eq_dec : EqDecision netutil_error.
Proof. solve_decision. Defined.

Fixpoint parse_flag_loop (s : string) (f : TCPFlagSet) (l : bytes) :
    result netutil_error TCPFlagSet :=
  match l with
  | [] => Ok f
  | c :: l' =>
      match set_flag f c with
      | Some f' => parse_flag_loop s f' l'
      | None => Err (InvalidFlag s)
      end
  end.

Definition ParseTCPFlag (s : string) : result netutil_error TCPFlagSet :=
  parse_flag_loop s no_flags (bs (ToUpper (TrimSpace s))).

Definition ParseTCPFlags (flags : list string) (defaultFlag : string) :
    result netutil_error (list TCPFlagSet) :=
  let flags := match flags with [] => [defaultFlag] | _ => flags end in
  mapM ParseTCPFlag flags.

Record UDPAddr : Type := mkUDPAddr { udp_ip : IP; udp_port : Z }.

#[export] Instance UDPAddr_eq_dec : EqDecision UDPAddr.
Proof. solve_decision. Defined.

Definition ParseUDPAddr (addr : string) (allowZeroPort : bool) :
    result netutil_error UDPAddr :=
  '(host, portStr) ← wrap_err InvalidAddress (SplitHostPort addr);
  port ← of_option InvalidPort (Sscanf_d portStr);
  _ ← fail_if ((port <? 0) || (port >? 65535)) InvalidPort;
  _ ← fail_if ((port =? 0) && negb allowZeroPort) ZeroPort;
  ip ← of_option InvalidIP (ParseIP host);
  Ok (mkUDPAddr (default ip (To4 ip)) port).

Definition offset64 : Z := 14695981039346656037.
Definition prime64 : Z := 1099511628211.

(** [h ^= uint64(c); h *= prime64]. *)
Definition fnv_step (h c : Z) : Z := u64 (Z.lxor h c * prime64).

Definition AddrKey (ip : IP) (port : Z) : Z :=
  let h := match To16 ip with
           | Some b => foldl fnv_step offset64 b
           | None => offset64
           end in
  let h := fnv_step h (u8 (Z.shiftr port 8)) in
  fnv_step h (u8 port).

(** ** netutil/cycle.go *)

Record FlagCycle : Type := mkCycle { items : list TCPFlagSet; cycle_idx : Z }.

Definition psh_ack : TCPFlagSet :=
  mkFlags false false false true true false false false false.

Definition NewFlagCycle (items : list TCPFlagSet) : FlagCycle :=
  let items := match items with [] => [psh_ack] | _ => items end in
  mkCycle items 0.

(** [None] would be an index out of range. *)
Definition Next (c : FlagCycle) : option TCPFlagSet * FlagCycle :=
  let '(i, idx') := fetch_inc (cycle_idx c) in
  (items c !! Z.to_nat (Z.rem i (Z.of_nat (length (items c)))), mkCycle (items c) idx').

(** ** tunneladdr/addr.go *)

Record Addr : Type := mkAddr { Host : string; Port : Z }.

#[export] Instance Addr_eq_dec : EqDecision Addr.
Proof. solve_decision. Defined.

Inductive tunneladdr_error : Type := BadHostPort (e : addr_error) | BadPort (s : string).

#[export] Instance tunneladdr_error_eq_dec : EqDecision tunneladdr_error.
Proof. solve_decision. Defined.

Module TunnelAddr.
Definition Parse (s : string) : result tunneladdr_error Addr :=
  '(host, portStr) ← wrap_err BadHostPort (SplitHostPort s);
  port ← of_option (BadPort portStr) (Atoi portStr);
  Ok (mkAddr host port).

Definition String (a : Addr) : string := JoinHostPort (Host a) (Itoa (Port a)).
End TunnelAddr.

(** ** Flag strings *)

Definition flag_letters : list (ascii * (TCPFlagSet → bool)) :=
  [("F"%char, FIN); ("S"%char, SYN); ("R"%char, RST); ("P"%char, PSH); ("A"%char, ACK);
   ("U"%char, URG); ("E"%char, ECE); ("C"%char, CWR); ("N"%char, NS)].

Ltac split_flags :=
  unfold flag_letters in *;
  repeat match goal with H : Forall _ (_ :: _) |- _ => apply Forall_cons in H as [? H] end;
  simpl in *; subst.

Lemma set_flag_spec f c f' :
  set_flag f c = Some f' ↔
  c ∈ flag_letters.*1 ∧
  Forall (λ p, p.2 f' = p.2 f || bool_decide (c = p.1)) flag_letters.
Proof.
  split.
  - intros H. destruct f.
    destruct c as [[] [] [] [] [] [] [] []]; simplify_eq/=;
      (split; [unfold flag_letters; simpl; set_solver|]);
      repeat (constructor; [cbv -[orb]; by rewrite ?orb_true_r, ?orb_false_r|]); constructor.
  - intros [Hc HF]. destruct f as [f1 f2 f3 f4 f5 f6 f7 f8 f9], f'.
    split_flags.
    repeat (apply elem_of_cons in Hc as [->|Hc];
      [cbv -[orb]; by rewrite ?orb_true_r, ?orb_false_r|]).
    by apply not_elem_of_nil in Hc.
Qed.

Lemma parse_flag_loop_spec s f l f' :
  parse_flag_loop s f l = Ok f' ↔
  Forall (λ c, c ∈ flag_letters.*1) l ∧
  Forall (λ p, p.2 f' = p.2 f || bool_decide (p.1 ∈ l)) flag_letters.
Proof.
  revert f; induction l as [|c l IH]; intros f; cbn [parse_flag_loop].
  - split.
    + intros [= ->]. split; [done|]. apply Forall_forall. intros p _.
      rewrite bool_decide_false by apply not_elem_of_nil. by rewrite orb_false_r.
    + intros [_ HF]. f_equal. destruct f, f'.
      split_flags. by rewrite ?orb_false_r.
  - assert (∀ (a : bool) (p : ascii), a || bool_decide (p ∈ c :: l) =
      (a || bool_decide (c = p)) || bool_decide (p ∈ l)) as Hor.
    { intros a p. rewrite <- orb_assoc. f_equal.
      rewrite <- bool_decide_or. apply bool_decide_ext. set_solver. }
    rewrite Forall_cons. destruct (set_flag f c) as [f1|] eqn:Hset.
    + apply set_flag_spec in Hset as [Hc Hf1]. rewrite IH. rewrite !Forall_forall in *.
      split; intros [Hl Hp]; (split; [by intuition|]); intros p Hin.
      * rewrite Hp, Hor by done. by rewrite Hf1.
      * rewrite Hp, Hor by done. by rewrite Hf1.
    + split; [done|]. intros [[Hc _] Hp]. exfalso.
      repeat (apply elem_of_cons in Hc as [->|Hc]; [by destruct f|]).
      by apply not_elem_of_nil in Hc.
Qed.

(** A flag string is accepted exactly when, trimmed and upper-cased, it is
    made of the nine flag letters, and then each flag is set exactly when its
    letter occurs. *)
Theorem ParseTCPFlag_spec s f :
  ParseTCPFlag s = Ok f ↔
  let l := bs (ToUpper (TrimSpace s)) in
  Forall (λ c, c ∈ flag_letters.*1) l ∧
  Forall (λ p, p.2 f = bool_decide (p.1 ∈ l)) flag_letters.
Proof.
  unfold ParseTCPFlag. rewrite parse_flag_loop_spec. cbv zeta.
  apply and_iff_compat_l. split; (intros HF; repeat constructor;
    unfold flag_letters in HF; rewrite !Forall_cons in HF; simpl in *; tauto).
Qed.

(** ** The flag cycle *)

Definition next_state (c : FlagCycle) : FlagCycle := (Next c).2.

Lemma iter_next_state k c :
  in_u32 (cycle_idx c) →
  Nat.iter k next_state c = mkCycle (items c) (u32 (cycle_idx c + Z.of_nat k)).
Proof.
  intros Hc. induction k as [|k IH].
  - simpl. rewrite Z.add_0_r, u32_id by done. by destruct c.
  - rewrite Nat.iter_succ, IH. unfold next_state, Next, fetch_inc. simpl. f_equal.
    unfold u32. rewrite Zplus_mod_idemp_l. f_equal. lia.
Qed.

(** The k-th call to Next on a fresh cycle never indexes out of range and
    returns the flag set number [(k mod 2^32) mod n]: round-robin until the
    32-bit counter wraps. *)
Theorem FlagCycle_Next_round_robin its k :
  let c := NewFlagCycle its in
  let n := Z.of_nat (length (items c)) in
  0 < n ∧
  (Next (Nat.iter k next_state c)).1
    = items c !! Z.to_nat ((Z.of_nat k mod 2 ^ 32) mod n) ∧
  is_Some (Next (Nat.iter k next_state c)).1.
Proof.
  intros c n. assert (0 < n) as Hn by (subst c n; destruct its; simpl; lia).
  assert ((Next (Nat.iter k next_state c)).1
    = items c !! Z.to_nat ((Z.of_nat k mod 2 ^ 32) mod n)) as Heq.
  { rewrite iter_next_state by done. unfold Next. cbn [items cycle_idx].
    pose proof (fetch_inc_old (u32 (cycle_idx c + Z.of_nat k)) (u32_range _)) as Hold.
    destruct (fetch_inc _) as [i idx']. simpl in *. subst i.
    replace (cycle_idx c) with 0 by done. rewrite Z.add_0_l. fold n.
    by rewrite Z.rem_mod_nonneg by (try lia; apply u32_range). }
  split; [done|]. split; [done|]. rewrite Heq. apply lookup_lt_is_Some.
  pose proof (Z.mod_pos_bound (Z.of_nat k mod 2 ^ 32) n Hn). lia.
Qed.

(** ** The address key *)

(** The multiplicative inverse of the FNV prime modulo 2^64. *)
Definition prime64_inv : Z := 14886173955864302971.

Lemma u64_mul_prime_inj x y :
  u64 (x * prime64) = u64 (y * prime64) → u64 x = u64 y.
Proof.
  intros H. apply (f_equal (λ z, u64 (z * prime64_inv))) in H. revert H. unfold u64.
  rewrite !Z.mul_mod_idemp_l, <- !Z.mul_assoc by done.
  rewrite <- (Z.mul_mod_idemp_r x), <- (Z.mul_mod_idemp_r y) by done.
  replace (prime64 * prime64_inv mod 2 ^ 64) with 1 by done. by rewrite !Z.mul_1_r.
Qed.

Lemma lxor_div_256 h c : 0 ≤ c < 256 → Z.lxor h c / 256 = h / 256.
Proof.
  intros Hc. change 256 with (2 ^ 8). rewrite <- !Z.shiftr_div_pow2 by done.
  rewrite Z.shiftr_lxor. rewrite (Z.shiftr_div_pow2 c) by done.
  rewrite (Z.div_small c) by done. apply Z.lxor_0_r.
Qed.

Lemma lxor_byte_range h c : 0 ≤ h < 2 ^ 64 → 0 ≤ c < 256 → 0 ≤ Z.lxor h c < 2 ^ 64.
Proof.
  intros Hh Hc. pose proof (lxor_div_256 h c Hc).
  pose proof (Z.div_mod (Z.lxor h c) 256). pose proof (Z.div_mod h 256).
  pose proof (Z.mod_pos_bound (Z.lxor h c) 256). pose proof (Z.mod_pos_bound h 256).
  assert (0 ≤ h / 256 < 2 ^ 56) by
    (split; [apply Z.div_pos|apply Z.div_lt_upper_bound]; lia). lia.
Qed.

Lemma fnv_step_inj_xor h c h' c' :
  0 ≤ h < 2 ^ 64 → 0 ≤ c < 256 → 0 ≤ h' < 2 ^ 64 → 0 ≤ c' < 256 →
  fnv_step h c = fnv_step h' c' → Z.lxor h c = Z.lxor h' c'.
Proof.
  intros Hh Hc Hh' Hc' H%u64_mul_prime_inj.
  by rewrite !u64_id in H by by apply lxor_byte_range.
Qed.

Lemma lxor_inj_l h c c' : Z.lxor h c = Z.lxor h c' → c = c'.
Proof.
  intros H. apply (f_equal (Z.lxor h)) in H.
  by rewrite <- !Z.lxor_assoc, Z.lxor_nilpotent, !Z.lxor_0_l in H.
Qed.

Lemma lxor_inj_r h h' c : Z.lxor h c = Z.lxor h' c → h = h'.
Proof. rewrite !(Z.lxor_comm _ c). apply lxor_inj_l. Qed.

Lemma fnv_step_range h c : 0 ≤ fnv_step h c < 2 ^ 64.
Proof. apply u64_range. Qed.

(** Two consecutive byte steps are injective in both bytes: the multiplication
    by a prime above 2^40 moves a one-byte difference out of the reach of the
    second byte. *)
Lemma fnv_step2_inj h a b a' b' :
  0 ≤ h < 2 ^ 64 → 0 ≤ a < 256 → 0 ≤ b < 256 → 0 ≤ a' < 256 → 0 ≤ b' < 256 →
  fnv_step (fnv_step h a) b = fnv_step (fnv_step h a') b' → a = a' ∧ b = b'.
Proof.
  intros Hh Ha Hb Ha' Hb' H.
  apply fnv_step_inj_xor in H; [|done || apply fnv_step_range..].
  pose proof (f_equal (λ z, z / 256) H) as Hd. simpl in Hd.
  rewrite !lxor_div_256 in Hd by done.
  assert (fnv_step h a = fnv_step h a') as Heq.
  { pose proof (lxor_div_256 h a Ha) as E1. pose proof (lxor_div_256 h a' Ha') as E2.
    unfold fnv_step, u64, prime64 in *.
    set (x := Z.lxor h a) in *. set (y := Z.lxor h a') in *.
    pose proof (Z.div_mod x 256). pose proof (Z.div_mod y 256).
    pose proof (Z.mod_pos_bound x 256). pose proof (Z.mod_pos_bound y 256).
    set (m := x * 1099511628211) in *. set (n := y * 1099511628211) in *.
    pose proof (Z.div_mod (m mod 2 ^ 64) 256). pose proof (Z.div_mod (n mod 2 ^ 64) 256).
    pose proof (Z.mod_pos_bound (m mod 2 ^ 64) 256).
    pose proof (Z.mod_pos_bound (n mod 2 ^ 64) 256).
    pose proof (Z.div_mod m (2 ^ 64)). pose proof (Z.div_mod n (2 ^ 64)).
    assert (- 256 < x - y < 256) by lia.
    assert (- 256 < m mod 2 ^ 64 - n mod 2 ^ 64 < 256) by lia.
    assert (m - n = (x - y) * 1099511628211) by lia.
    assert (m / 2 ^ 64 = n / 2 ^ 64) by lia. assert (x = y) as Hxy by lia.
    subst m n. by rewrite Hxy. }
  split.
  - apply fnv_step_inj_xor in Heq; [|done..]. by apply lxor_inj_l in Heq.
  - rewrite Heq in H. by apply lxor_inj_l in H.
Qed.

Lemma foldl_fnv_range h l : 0 ≤ h < 2 ^ 64 → 0 ≤ foldl fnv_step h l < 2 ^ 64.
Proof.
  revert h; induction l as [|c l IH]; intros h Hh; simpl; [done|].
  apply IH, fnv_step_range.
Qed.

Lemma foldl_fnv_inj h h' l :
  0 ≤ h < 2 ^ 64 → 0 ≤ h' < 2 ^ 64 → Forall (λ c, 0 ≤ c < 256) l →
  foldl fnv_step h l = foldl fnv_step h' l → h = h'.
Proof.
  intros Hh Hh' Hl. revert h h' Hh Hh'.
  induction Hl as [|c l Hc Hl IH]; intros h h' Hh Hh' H; simpl in *; [done|].
  apply IH in H; [|apply fnv_step_range..].
  apply fnv_step_inj_xor in H; [|done..]. by apply lxor_inj_r in H.
Qed.

Lemma offset64_range : 0 ≤ offset64 < 2 ^ 64.
Proof. done. Qed.

Definition AddrKey_ip (ip : IP) : Z :=
  match To16 ip with Some b => foldl fnv_step offset64 b | None => offset64 end.

Lemma AddrKey_ip_range ip : 0 ≤ AddrKey_ip ip < 2 ^ 64.
Proof.
  unfold AddrKey_ip. destruct (To16 ip); [apply foldl_fnv_range|]; apply offset64_range.
Qed.

Lemma port_bytes p q :
  u8 (Z.shiftr p 8) = u8 (Z.shiftr q 8) ∧ u8 p = u8 q ↔ u16 p = u16 q.
Proof.
  unfold u8, u16. rewrite !Z.shiftr_div_pow2 by done.
  replace (2 ^ 16) with (2 ^ 8 * 2 ^ 8) by done.
  rewrite !Z.rem_mul_r by done.
  pose proof (Z.mod_pos_bound p (2 ^ 8)). pose proof (Z.mod_pos_bound q (2 ^ 8)).
  pose proof (Z.mod_pos_bound (p / 2 ^ 8) (2 ^ 8)).
  pose proof (Z.mod_pos_bound (q / 2 ^ 8) (2 ^ 8)). lia.
Qed.

(** For one address, two ports have the same key exactly when they agree
    modulo 2^16: every port of a peer has its own key. *)
Lemma AddrKey_port_inj ip p q : AddrKey ip p = AddrKey ip q ↔ u16 p = u16 q.
Proof.
  rewrite <- port_bytes. unfold AddrKey. fold (AddrKey_ip ip).
  split; [|by intros [-> ->]].
  apply fnv_step2_inj; [apply AddrKey_ip_range|apply u8_range..].
Qed.

Lemma AddrKey_foldl_inj l l' p :
  AddrKey_ip l = AddrKey_ip l' ↔ AddrKey l p = AddrKey l' p.
Proof.
  unfold AddrKey. fold (AddrKey_ip l) (AddrKey_ip l'). split; [by intros ->|].
  intros H. apply fnv_step_inj_xor, lxor_inj_r in H;
    [|apply fnv_step_range || apply u8_range..].
  apply fnv_step_inj_xor, lxor_inj_r in H;
    [done|apply AddrKey_ip_range || apply u8_range..].
Qed.

Lemma foldl_fnv_octet h l1 a b l2 :
  0 ≤ h < 2 ^ 64 → 0 ≤ a < 256 → 0 ≤ b < 256 → Forall (λ c, 0 ≤ c < 256) l2 →
  foldl fnv_step h (l1 ++ a :: l2) = foldl fnv_step h (l1 ++ b :: l2) → a = b.
Proof.
  intros Hh Ha Hb Hl. rewrite !foldl_app. simpl.
  intros H%foldl_fnv_inj; [|apply fnv_step_range..|done].
  apply fnv_step_inj_xor in H; [|by apply foldl_fnv_range || done..].
  by apply lxor_inj_l in H.
Qed.

(** Changing a single octet of an IPv4 or IPv6 address always changes the
    key, whatever the octet's position and the port. *)
Theorem AddrKey_octet_inj l1 a b l2 p
    (Hlen : length (l1 ++ a :: l2) = 4%nat ∨ length (l1 ++ a :: l2) = 16%nat)
    (Hbytes : Forall (λ c, 0 ≤ c < 256) (a :: b :: l2)) :
  AddrKey (l1 ++ a :: l2) p = AddrKey (l1 ++ b :: l2) p → a = b.
Proof.
  rewrite !Forall_cons in Hbytes. destruct Hbytes as (Ha & Hb & Hl2).
  rewrite <- AddrKey_foldl_inj. unfold AddrKey_ip, To16.
  replace (length (l1 ++ b :: l2)) with (length (l1 ++ a :: l2))
    by by rewrite !length_app.
  pose proof offset64_range.
  destruct Hlen as [-> | ->];
    [rewrite !decide_True by done|rewrite !decide_False, !decide_True by done].
  - rewrite !(foldl_app _ v4in6).
    apply foldl_fnv_octet; [by apply foldl_fnv_range|done..].
  - by apply foldl_fnv_octet.
Qed.

Lemma AddrKey_octet_inj_witness :
  AddrKey [192; 0; 2; 1] 8888 ≠ AddrKey [192; 1; 2; 1] 8888.
Proof.
  intros H. assert (0 = 1) as E; [|discriminate E].
  apply (AddrKey_octet_inj [192] 0 1 [2; 1] 8888); [left; reflexivity| |exact H].
  repeat constructor; lia.
Defined.

(** ** UDP addresses *)

Lemma ParseUDPAddr_inv s z a :
  ParseUDPAddr s z = Ok a ↔
  ∃ host port ip, SplitHostPort s = Ok (host, port) ∧
    Sscanf_d port = Some (udp_port a) ∧ ParseIP host = Some ip ∧
    udp_ip a = default ip (To4 ip) ∧
    0 ≤ udp_port a ≤ 65535 ∧ (udp_port a = 0 → z = true).
Proof.
  unfold ParseUDPAddr. split.
  - intros H. inv_ok. destruct v as [host port]. inv_ok. simpl.
    eexists _, _, _. repeat (split; [done|]). destruct z; simpl in *; split; lia.
  - intros (host & port & ip & -> & Hp & Hip & Hudp & Hr & Hz). simpl.
    rewrite Hp. simpl. replace (_ || _) with false by lia. simpl.
    replace (_ && _) with false; simpl.
    + rewrite Hip. simpl. destruct a; simpl in *. by subst.
    + destruct z; simpl; [by rewrite andb_false_r|].
      destruct (Z.eqb_spec (udp_port a) 0) as [E|]; [by specialize (Hz E)|done].
Qed.

(** An accepted address carries the parsed IP (4 bytes for IPv4, also when
    written as IPv4-in-IPv6, 16 bytes and unchanged otherwise) and a port in
    range, zero only where the caller allows it. *)
Theorem ParseUDPAddr_wf s z a (H : ParseUDPAddr s z = Ok a) :
  0 ≤ udp_port a ≤ 65535 ∧ (udp_port a = 0 → z = true) ∧
  ∃ host port ip, SplitHostPort s = Ok (host, port) ∧ ParseIP host = Some ip ∧
    match To4 ip with
    | Some v4 => udp_ip a = v4 ∧ length v4 = 4%nat
    | None => udp_ip a = ip ∧ length ip = 16%nat
    end.
Proof.
  apply ParseUDPAddr_inv in H as (host & port & ip & Hs & Hp & Hip & Hudp & Hr & Hz).
  split; [done|]. split; [done|]. exists host, port, ip. split; [done|]. split; [done|].
  rewrite Hudp. destruct (To4 ip) eqn:H4; simpl.
  - split; [done|by eapply To4_length].
  - split; [done|by eapply ParseIP_length].
Qed.

Lemma ParseUDPAddr_wf_witness :
  ∃ a, ParseUDPAddr "[2001:db8::1]:443" false = Ok a ∧ 0 ≤ udp_port a ≤ 65535.
Proof.
  eexists. split; [vm_compute; reflexivity|].
  apply (ParseUDPAddr_wf "[2001:db8::1]:443" false). vm_compute. reflexivity.
Defined.

(** [fmt.Sscanf] stops at the first byte that is not a digit. *)
Lemma sscanf_junk_accepted :
  ParseUDPAddr "10.0.0.1:80junk" false = ParseUDPAddr "10.0.0.1:80" false.
Proof. vm_compute. reflexivity. Qed.

(** ** Tunnel addresses *)

(** Parsing the printed form of a target address gives the address back,
    for every host without square brackets and every [int] port. *)
Theorem Addr_roundtrip a
    (Hhost : lbrack ∉ bs (Host a) ∧ rbrack ∉ bs (Host a)) (Hport : in_i64 (Port a)) :
  TunnelAddr.Parse (TunnelAddr.String a) = Ok a.
Proof.
  destruct Hhost as [Hl Hr].
  unfold TunnelAddr.Parse, TunnelAddr.String, SplitHostPort, JoinHostPort, Itoa.
  rewrite !bs_str, split_join_host_port; try done; try by apply itoa_not_elem.
  simpl. rewrite str_bs. fold (Itoa (Port a)). rewrite Atoi_Itoa by done.
  simpl. by destruct a.
Qed.

Lemma Addr_roundtrip_witness :
  TunnelAddr.Parse (TunnelAddr.String (mkAddr "2001:db8::1" 8443)) =
    Ok (mkAddr "2001:db8::1" 8443).
Proof.
  apply (Addr_roundtrip (mkAddr "2001:db8::1" 8443)).
  - split; apply (bool_decide_eq_true _); vm_compute; reflexivity.
  - vm_compute. split; [intros H; discriminate H|reflexivity].
Defined.
