(* ===== verification/Protocol.v ===== *)
(** [internal/protocol]: the control messages, the ping exchange, the
    length-prefixed datagrams carried by a smux stream and the flow header of a
    QUIC datagram.

    A reader is the list of bytes still to come, at whose end it reports EOF;
    [io.ReadFull] gathers short reads, so how the bytes were cut into segments
    does not matter.  A writer is the list of bytes of one [Write] call.  The
    [encoding/gob] codec is an interface ([GobCodec]). *)

From S2P Require Import Prelude NetUtil.

Local Open Scope Z_scope.

(** ** protocol/proto.go *)

Definition Type_ := Z.
Definition Ping : Type_ := 0x01.
Definition Pong : Type_ := 0x02.
Definition TCPF : Type_ := 0x03.
Definition TCP : Type_ := 0x04.
Definition UDP : Type_ := 0x05.
Definition UDPDGRAM : Type_ := 0x06.

Record Message : Type := mkMessage {
  msg_Type : Type_; msg_Addr : option Addr; msg_TCPF : list TCPFlagSet }.

#[export] Instance Message_eq_dec : EqDecision Message.
Proof. unfold Type_. solve_decision. Defined.

Inductive proto_error : Type :=
| EOF | UnexpectedEOF | GobError | WriteError
| TooLarge (n : Z) | ExceedsBuffer (n cap : Z).

#[export] Instance proto_error_eq_dec : EqDecision proto_error.
Proof. solve_decision. Defined.

(** [encoding/gob] as the program uses it: one value per encoder, one per
    decoder. *)
Class GobCodec : Type := {
  gob_encode : Message → list Z;
  gob_decode : list Z → option Message }.

Class GobLaws `{GobCodec} : Prop := {
  gob_roundtrip m : gob_decode (gob_encode m) = Some m }.

Section ping.
Context `{GobCodec}.

Definition Message_Read (r : list Z) : result proto_error Message :=
  match r with [] => Err EOF | _ => of_option GobError (gob_decode r) end.
Definition Message_Write (m : Message) : list Z := gob_encode m.

(** What the initiator writes, and how it judges what the peer sent back.
    [wr] says whether the write succeeded. *)
Definition PingRoundTrip (wr : bool) (reply : list Z) : list Z * result proto_error unit :=
  if wr then
    (Message_Write (mkMessage Ping None []),
     resp ← Message_Read reply;
     fail_if (negb (msg_Type resp =? Pong)) UnexpectedEOF)
  else ([], Err WriteError).

(** What the responder answers to what it reads. *)
Definition ServePing (input : list Z) : result proto_error (list Z) :=
  msg ← Message_Read input;
  _ ← fail_if (negb (msg_Type msg =? Ping)) UnexpectedEOF;
  Ok (Message_Write (mkMessage Pong None [])).
End ping.

(** ** Big-endian integers ([encoding/binary]) *)

Fixpoint be_encode (n : nat) (v : Z) : list Z :=
  match n with
  | O => []
  | S n' => v / 2 ^ (8 * Z.of_nat n') mod 256 :: be_encode n' v
  end.

Definition be_decode (l : list Z) : Z := foldl (λ acc b, acc * 256 + b) 0 l.

(** ** protocol/datagram.go *)

Definition MaxDatagram : Z := 65535.

Definition WriteDatagram (p : list Z) : result proto_error (list Z) :=
  _ ← fail_if (Z.of_nat (length p) >? MaxDatagram) (TooLarge (Z.of_nat (length p)));
  Ok (be_encode 2 (u16 (Z.of_nat (length p))) ++ p).

(** [io.ReadFull] on a buffer of [n] bytes. *)
Definition ReadFull (n : nat) (r : list Z) : result proto_error (list Z * list Z) :=
  if (n <=? length r)%nat then Ok (take n r, drop n r)
  else match r with [] => Err EOF | _ => Err UnexpectedEOF end.

(** [buf[:n]] after a read into a buffer of [cap] bytes, and the reader. *)
Definition ReadDatagram (cap : nat) (r : list Z) : result proto_error (list Z * list Z) :=
  '(hdr, r) ← ReadFull 2 r;
  let n := Z.to_nat (be_decode hdr) in
  if (n =? 0)%nat then Ok ([], r) else
  _ ← fail_if (cap <? n)%nat (ExceedsBuffer (Z.of_nat n) (Z.of_nat cap));
  '(p, r) ← ReadFull n r;
  Ok (p, r).

(** ** protocol/dgram.go *)

Definition DatagramHeaderLen : nat := 8.

Definition EncodeDatagram (flowID : Z) (payload : list Z) : list Z :=
  be_encode DatagramHeaderLen flowID ++ payload.

Definition DecodeDatagram (b : list Z) : option (Z * list Z) :=
  if (length b <? DatagramHeaderLen)%nat then None
  else Some (be_decode (take DatagramHeaderLen b), drop DatagramHeaderLen b).

(** ** Lemmas *)

Definition is_byte (b : Z) : Prop := 0 ≤ b < 256.

Lemma length_be_encode n v : length (be_encode n v) = n.
Proof. induction n; simpl; auto. Qed.

Lemma be_encode_bytes n v : Forall is_byte (be_encode n v).
Proof. induction n; simpl; constructor; [apply Z.mod_pos_bound; lia|done]. Qed.

Lemma be_decode_acc acc l :
  foldl (λ acc b, acc * 256 + b) acc l = acc * 2 ^ (8 * Z.of_nat (length l)) + be_decode l.
Proof.
  unfold be_decode. revert acc. induction l as [|b l IH]; intros acc; simpl; [lia|].
  rewrite IH, (IH (0 * 256 + b)). replace (8 * Z.of_nat (S (length l))) with
    (8 + 8 * Z.of_nat (length l)) by lia. rewrite Z.pow_add_r by lia. lia.
Qed.

Lemma be_decode_encode n v : be_decode (be_encode n v) = v mod 2 ^ (8 * Z.of_nat n).
Proof.
  induction n as [|n IH]; [by rewrite Z.mod_1_r|]. cbn [be_encode].
  unfold be_decode at 1. cbn [foldl]. rewrite be_decode_acc, length_be_encode, IH.
  replace (8 * Z.of_nat (S n)) with (8 * Z.of_nat n + 8) by lia.
  rewrite (Z.pow_add_r 2 (8 * Z.of_nat n) 8) by lia.
  rewrite Z.rem_mul_r by lia. rewrite Z.mul_0_l, Z.add_0_l. change (2 ^ 8) with 256. lia.
Qed.

Lemma be_decode_bound l : Forall is_byte l → 0 ≤ be_decode l < 2 ^ (8 * Z.of_nat (length l)).
Proof.
  induction 1 as [|b l Hb Hl IH]; [done|]. unfold be_decode. cbn [foldl].
  rewrite be_decode_acc. unfold is_byte in *. simpl length.
  replace (8 * Z.of_nat (S (length l))) with (8 + 8 * Z.of_nat (length l)) by lia.
  rewrite Z.pow_add_r by lia. change (2 ^ 8) with 256. nia.
Qed.

Lemma be_encode_decode l : Forall is_byte l → be_encode (length l) (be_decode l) = l.
Proof.
  intros Hl.
  assert (∀ m, be_encode (length l) (m * 2 ^ (8 * Z.of_nat (length l)) + be_decode l) = l) as Hgo.
  { induction Hl as [|b l Hb Hl IH]; intros m; [done|]. cbn [length be_encode].
    pose proof (be_decode_bound l Hl) as Hbd. unfold is_byte in Hb.
    replace (be_decode (b :: l)) with (b * 2 ^ (8 * Z.of_nat (length l)) + be_decode l)
      by (unfold be_decode at 2; cbn [foldl]; rewrite be_decode_acc; lia).
    replace (8 * Z.of_nat (S (length l))) with (8 + 8 * Z.of_nat (length l)) by lia.
    rewrite Z.pow_add_r by lia. change (2 ^ 8) with 256.
    set (P := 2 ^ (8 * Z.of_nat (length l))) in *.
    replace (m * (256 * P) + (b * P + be_decode l)) with ((m * 256 + b) * P + be_decode l) by lia.
    f_equal; [|apply IH].
    rewrite Z.div_add_l by lia. rewrite (Z.div_small (be_decode l)) by done.
    rewrite Z.add_0_r, Z.add_comm, Z.mod_add by lia. by apply Z.mod_small. }
  specialize (Hgo 0). by rewrite Z.mul_0_l, Z.add_0_l in Hgo.
Qed.

Lemma ReadFull_app p r : ReadFull (length p) (p ++ r) = Ok (p, r).
Proof.
  unfold ReadFull. rewrite length_app.
  replace (_ <=? _)%nat with true by (symmetry; apply Nat.leb_le; lia).
  by rewrite take_app_length, drop_app_length.
Qed.

Lemma ReadFull_ok n r p r' : ReadFull n r = Ok (p, r') ↔ r = p ++ r' ∧ length p = n.
Proof.
  split.
  - unfold ReadFull. destruct (Nat.leb_spec n (length r)); [|by destruct r].
    intros [= <- <-]. by rewrite take_drop, length_take_le.
  - intros [-> <-]. apply ReadFull_app.
Qed.

Lemma ReadFull_short n r : (length r < n)%nat → is_ok (ReadFull n r) = false.
Proof.
  intros. unfold ReadFull. destruct (Nat.leb_spec n (length r)); [lia|by destruct r].
Qed.

Lemma WriteDatagram_ok p f :
  WriteDatagram p = Ok f ↔
  Z.of_nat (length p) ≤ MaxDatagram ∧ f = be_encode 2 (Z.of_nat (length p)) ++ p.
Proof.
  unfold WriteDatagram. split.
  - intros H. inv_ok. unfold MaxDatagram in *. rewrite u16_id by lia. split; [lia|done].
  - intros [Hp ->]. replace (_ >? _) with false by lia. simpl. unfold MaxDatagram in *.
    by rewrite u16_id by lia.
Qed.

(** Reading what was written gives the datagram back and leaves the rest of the
    stream, whenever the buffer can hold the datagram. *)
Lemma frames_length ps fs :
  mapM WriteDatagram ps = Ok fs → (2 * length ps ≤ length (concat fs))%nat.
Proof.
  intros Hw%mapM_ok_Forall2. induction Hw as [|p f ps fs Hp _ IH]; [done|].
  apply WriteDatagram_ok in Hp as [_ ->]. cbn [concat length].
  rewrite !length_app, length_be_encode. lia.
Qed.

Lemma ReadDatagram_frame cap p f rest :
  WriteDatagram p = Ok f → (length p ≤ cap)%nat → ReadDatagram cap (f ++ rest) = Ok (p, rest).
Proof.
  intros Hw Hcap. apply WriteDatagram_ok in Hw as [Hp ->]. unfold ReadDatagram, MaxDatagram in *.
  rewrite <- app_assoc.
  replace 2%nat with (length (be_encode 2 (Z.of_nat (length p)))) at 1 by done.
  rewrite ReadFull_app. cbn [mbind result_bind]. rewrite be_decode_encode.
  rewrite Z.mod_small by (simpl; lia). rewrite Nat2Z.id.
  destruct (Nat.eqb_spec (length p) 0) as [Hn|Hn].
  - by destruct p.
  - replace (cap <? length p)%nat with false by (symmetry; apply Nat.ltb_ge; lia).
    cbn [fail_if mbind result_bind]. by rewrite ReadFull_app.
Qed.

(** The framing is unambiguous: a successful read consumed exactly the
    frame the writer produces for the datagram it returns. *)
Theorem datagram_canonical cap r p rest
    (Hb : Forall is_byte r) (Hr : ReadDatagram cap r = Ok (p, rest)) :
  ∃ f, WriteDatagram p = Ok f ∧ r = f ++ rest ∧ (length p ≤ cap)%nat.
Proof.
  unfold ReadDatagram in Hr. inv_ok. destruct v as [hdr r1].
  match goal with H : ReadFull 2 _ = _ |- _ => apply ReadFull_ok in H as [-> Hlen] end.
  apply Forall_app in Hb as [Hh Hr1]. pose proof (be_decode_bound hdr Hh) as Hbd.
  pose proof (be_encode_decode hdr Hh) as Henc. rewrite Hlen in *. simpl in Hbd.
  destruct (Nat.eqb_spec (Z.to_nat (be_decode hdr)) 0) as [Hz|Hz].
  - injection Hr as <- <-. exists hdr. split; [|split; [done|simpl; lia]].
    apply WriteDatagram_ok. split; [done|]. rewrite app_nil_r.
    simpl length. by replace (Z.of_nat 0) with (be_decode hdr) by lia.
  - inv_ok. destruct v0 as [p' r2].
    match goal with H : ReadFull _ _ = _ |- _ => apply ReadFull_ok in H as [-> Hp'] end.
    inv_ok. rename H into Hlt. apply Nat.ltb_ge in Hlt. simplify_eq.
    exists (hdr ++ p). split; [|by rewrite <- app_assoc; split; [|lia]].
    apply WriteDatagram_ok. unfold MaxDatagram. split; [lia|].
    rewrite Hp', Z2Nat.id by lia. by rewrite Henc.
Qed.

Lemma datagram_canonical_witness :
  ∃ f, WriteDatagram [9] = Ok f ∧ [0; 1; 9; 4] = f ++ [4] ∧ (1 ≤ 16)%nat.
Proof.
  apply (datagram_canonical 16 [0; 1; 9; 4] [9] [4]); [|reflexivity].
  repeat constructor; unfold is_byte; lia.
Defined.

(** The read loop of the relay: datagrams until the reader fails. *)
Fixpoint read_all (fuel cap : nat) (r : list Z) : list (list Z) * option proto_error :=
  match fuel with
  | O => ([], None)
  | S fuel' =>
      match ReadDatagram cap r with
      | Ok (p, r') => let '(ps, e) := read_all fuel' cap r' in (p :: ps, e)
      | Err e => ([], Some e)
      end
  end.

(** A sequence of datagrams written to one byte stream is read back datagram
    by datagram, with the same boundaries and in order, and then EOF, with the
    64 KiB buffer of the relays. *)
Theorem datagram_stream_roundtrip ps fs (Hw : mapM WriteDatagram ps = Ok fs) :
  read_all (S (length ps)) (64 * 1024) (concat fs) = (ps, Some EOF).
Proof.
  apply mapM_ok_Forall2 in Hw. induction Hw as [|p f ps fs Hp Hw IH]; [done|].
  cbn [read_all concat length]. rewrite (ReadDatagram_frame _ p); [|done|].
  - cbn [read_all length] in IH. by rewrite IH.
  - apply WriteDatagram_ok in Hp as [Hp _]. unfold MaxDatagram in Hp. lia.
Qed.

Lemma datagram_stream_roundtrip_witness :
  read_all 4 (64 * 1024) (concat [[0; 2; 5; 6]; [0; 0]; [0; 1; 7]]) = ([[5; 6]; []; [7]], Some EOF).
Proof.
  apply (datagram_stream_roundtrip [[5; 6]; []; [7]] [[0; 2; 5; 6]; [0; 0]; [0; 1; 7]]).
  reflexivity.
Defined.

Lemma length_EncodeDatagram fid p : length (EncodeDatagram fid p) = (8 + length p)%nat.
Proof. unfold EncodeDatagram. by rewrite length_app, length_be_encode. Qed.

Lemma DecodeDatagram_Encode fid p :
  0 ≤ fid < 2 ^ 64 → DecodeDatagram (EncodeDatagram fid p) = Some (fid, p).
Proof.
  intros Hf. unfold DecodeDatagram. rewrite length_EncodeDatagram.
  replace (_ <? _)%nat with false by (symmetry; apply Nat.ltb_ge; unfold DatagramHeaderLen; lia).
  unfold EncodeDatagram.
  rewrite take_app_length', drop_app_length' by by rewrite length_be_encode.
  rewrite be_decode_encode, Z.mod_small by done. done.
Qed.

(** The QUIC datagram codec: encoding then decoding gives the flow and the
    payload back; a byte string decodes exactly when it has a whole header, and
    re-encoding the decoded parts gives the same bytes. *)
Theorem flow_codec fid p b (Hf : 0 ≤ fid < 2 ^ 64) (Hb : Forall is_byte b) :
  DecodeDatagram (EncodeDatagram fid p) = Some (fid, p) ∧
  (is_Some (DecodeDatagram b) ↔ (DatagramHeaderLen ≤ length b)%nat) ∧
  ∀ fid' p', DecodeDatagram b = Some (fid', p') →
    EncodeDatagram fid' p' = b ∧ 0 ≤ fid' < 2 ^ 64.
Proof.
  split; [by apply DecodeDatagram_Encode|]. unfold DecodeDatagram.
  destruct (Nat.ltb_spec (length b) DatagramHeaderLen) as [Hlt|Hge].
  - split; [|done]. split; [by intros []|lia].
  - split; [split; [done|eauto]|]. intros fid' p' [= <- <-].
    assert (length (take DatagramHeaderLen b) = DatagramHeaderLen) as Hlen by
      (rewrite length_take; lia).
    assert (Forall is_byte (take DatagramHeaderLen b)) as Hh by by apply Forall_take.
    pose proof (be_decode_bound _ Hh) as Hbd. pose proof (be_encode_decode _ Hh) as Henc.
    rewrite Hlen in *. split; [|done]. unfold EncodeDatagram. rewrite Henc. apply take_drop.
Qed.

Lemma flow_codec_witness :
  DecodeDatagram (EncodeDatagram 258 [7; 7]) = Some (258, [7; 7]) ∧
  EncodeDatagram 1 [5] = [0; 0; 0; 0; 0; 0; 0; 1; 5].
Proof.
  split.
  - apply (flow_codec 258 [7; 7] []); [lia|constructor].
  - apply (flow_codec 0 [] [0; 0; 0; 0; 0; 0; 0; 1; 5]); [lia| |reflexivity].
    repeat constructor; unfold is_byte; lia.
Defined.

Section ping_laws.
Context `{GobLaws}.

Lemma Message_Read_Write m :
  Message_Write m ≠ [] → Message_Read (Message_Write m) = Ok m.
Proof.
  unfold Message_Read, Message_Write. intros Hne.
  destruct (gob_encode m) eqn:E; [done|]. by rewrite <- E, gob_roundtrip.
Qed.
End ping_laws.
