(* ===== verification/Metrics.v ===== *)
(** [internal/metrics/collector.go]: the traffic counters of the process and the
    writer that meters what passes through it. *)

From S2P Require Import Prelude GoStd.

Local Open Scope Z_scope.

(** [TCPActive] is an [atomic.Int64], the others are [atomic.Uint64]. *)
Record Collector : Type := mkCollector {
  BytesIn : Z; BytesOut : Z; TCPAccepted : Z; TCPActive : Z; UDPPackets : Z; RelayTCP : Z;
  RelayUDP : Z; UDPDgramFlows : Z; UDPDgramIn : Z; UDPDgramOut : Z; UDPDgramDropped : Z;
  Errors : Z }.

Definition zero_collector : Collector := mkCollector 0 0 0 0 0 0 0 0 0 0 0 0.

Inductive counter : Type :=
| CBytesIn | CBytesOut | CTCPAccepted | CTCPActive | CUDPPackets | CRelayTCP | CRelayUDP
| CUDPDgramFlows | CUDPDgramIn | CUDPDgramOut | CUDPDgramDropped | CErrors.

#[export] Instance counter_eq_dec : EqDecision counter.
Proof. solve_decision. Defined.

Definition Load (k : counter) (c : Collector) : Z :=
  match k with
  | CBytesIn => BytesIn c | CBytesOut => BytesOut c | CTCPAccepted => TCPAccepted c
  | CTCPActive => TCPActive c | CUDPPackets => UDPPackets c | CRelayTCP => RelayTCP c
  | CRelayUDP => RelayUDP c | CUDPDgramFlows => UDPDgramFlows c | CUDPDgramIn => UDPDgramIn c
  | CUDPDgramOut => UDPDgramOut c | CUDPDgramDropped => UDPDgramDropped c | CErrors => Errors c
  end.

Definition Add (k : counter) (n : Z) (c : Collector) : Collector :=
  let '(mkCollector bi bo ta tc up rt ru fl di do_ dd er) := c in
  match k with
  | CBytesIn => mkCollector (u64 (bi + n)) bo ta tc up rt ru fl di do_ dd er
  | CBytesOut => mkCollector bi (u64 (bo + n)) ta tc up rt ru fl di do_ dd er
  | CTCPAccepted => mkCollector bi bo (u64 (ta + n)) tc up rt ru fl di do_ dd er
  | CTCPActive => mkCollector bi bo ta (i64 (tc + n)) up rt ru fl di do_ dd er
  | CUDPPackets => mkCollector bi bo ta tc (u64 (up + n)) rt ru fl di do_ dd er
  | CRelayTCP => mkCollector bi bo ta tc up (u64 (rt + n)) ru fl di do_ dd er
  | CRelayUDP => mkCollector bi bo ta tc up rt (u64 (ru + n)) fl di do_ dd er
  | CUDPDgramFlows => mkCollector bi bo ta tc up rt ru (u64 (fl + n)) di do_ dd er
  | CUDPDgramIn => mkCollector bi bo ta tc up rt ru fl (u64 (di + n)) do_ dd er
  | CUDPDgramOut => mkCollector bi bo ta tc up rt ru fl di (u64 (do_ + n)) dd er
  | CUDPDgramDropped => mkCollector bi bo ta tc up rt ru fl di do_ (u64 (dd + n)) er
  | CErrors => mkCollector bi bo ta tc up rt ru fl di do_ dd (u64 (er + n))
  end.

Definition IncError (c : Collector) : Collector := Add CErrors 1 c.

(** A nil collector reads as zeros. *)
Definition Collector_Snapshot (c : option Collector) : Collector := default zero_collector c.

(** What one [Write] of the underlying writer did: the bytes it took, and whether
    it reported an error. *)
Record write_outcome : Type := mkOutcome { wo_n : nat; wo_err : bool }.

(** [meteredWriter.Write]: pass the call on and count what was taken. *)
Definition metered_Write (k : counter) (o : write_outcome) (c : Collector) :
    Collector * write_outcome :=
  (if (0 <? wo_n o)%nat then Add k (Z.of_nat (wo_n o)) c else c, o).

Definition MeterWriter (outbound : bool) : counter := if outbound then CBytesOut else CBytesIn.

(** ** Laws of the counters *)

Lemma Load_Add_ne k k' n c : k ≠ k' → Load k (Add k' n c) = Load k c.
Proof. destruct c, k, k'; done. Qed.

Lemma Load_Add_u64 k n c : k ≠ CTCPActive → Load k (Add k n c) = u64 (Load k c + n).
Proof. destruct c, k; done. Qed.

Lemma Load_Add_active n c : Load CTCPActive (Add CTCPActive n c) = i64 (Load CTCPActive c + n).
Proof. by destruct c. Qed.

Lemma Add_comm k k' n n' c : Add k n (Add k' n' c) = Add k' n' (Add k n c).
Proof.
  assert (∀ x, u64 (u64 (x + n') + n) = u64 (u64 (x + n) + n')) as H1.
  { intros x. unfold u64. rewrite !Zplus_mod_idemp_l. f_equal. lia. }
  assert (∀ x, i64 (i64 (x + n') + n) = i64 (i64 (x + n) + n')) as H2.
  { intros x. rewrite !i64_add_l. f_equal. lia. }
  destruct c, k, k'; simpl; rewrite ?H1, ?H2; done.
Qed.
