(* ===== verification/Relay.v ===== *)
(** [internal/ioext] and the TCP relays of the client and the server: two copy
    loops in opposite directions, of which the first to end ends the relay.

    A source is the list of the chunks that its [Read] calls will return and how
    it ends; a sink is the list of the outcomes of its [Write] calls (a call
    beyond the list takes everything).  [io.CopyBuffer] is one chunk at a time:
    a turn reads a chunk and writes it.  The scheduler is a list of turns; when
    it is exhausted the context has been cancelled. *)

From S2P Require Import Prelude GoStd Metrics.

Local Open Scope Z_scope.

Inductive copy_error : Type := ReadFailed | WriteFailed | ShortWrite.

(** [h_end] is [None] for end of file. *)
Record half : Type := mkHalf {
  h_src : list (list Z); h_end : option copy_error; h_outs : list write_outcome;
  h_delivered : list Z }.

(** What the sink does with a chunk. *)
Definition next_outcome (outs : list write_outcome) (chunk : list Z) : write_outcome :=
  match outs with
  | o :: _ => mkOutcome (wo_n o `min` length chunk) (wo_err o)
  | [] => mkOutcome (length chunk) false
  end.

(** One turn of the copy loop, metered by [m] unless it is nil; the third
    component is [Some] when the loop has ended, with its error if any. *)
Definition copy_turn (m : option counter) (x : half) (c : Collector) :
    half * Collector * option (option copy_error) :=
  match h_src x with
  | [] => (x, c, Some (h_end x))
  | [] :: rest => (mkHalf rest (h_end x) (h_outs x) (h_delivered x), c, None)
  | chunk :: rest =>
      let o := next_outcome (h_outs x) chunk in
      let '(c, o) := match m with Some k => metered_Write k o c | None => (c, o) end in
      let x' := mkHalf rest (h_end x) (tail (h_outs x)) (h_delivered x ++ take (wo_n o) chunk) in
      (x', c, if wo_err o then Some (Some WriteFailed)
              else if (wo_n o <? length chunk)%nat then Some (Some ShortWrite) else None)
  end.

(** [ioext.Copy], run to its end. *)
Fixpoint copy_loop (m : option counter) (n : nat) (x : half) (c : Collector) :
    half * Collector * option copy_error :=
  match copy_turn m x c with
  | (x, c, Some e) => (x, c, e)
  | (x, c, None) => match n with O => (x, c, None) | S n => copy_loop m n x c end
  end.

Definition Copy (x : half) (c : Collector) : half * Collector * option copy_error :=
  copy_loop None (length (h_src x)) x c.

Definition CopyMetered (outbound : bool) (x : half) (c : Collector) :
    half * Collector * option copy_error :=
  copy_loop (Some (MeterWriter outbound)) (length (h_src x)) x c.

(** The two loops of a relay, up to the first one that ends; [true] is a turn of
    [up].  The last component is [None] when the context ended first. *)
Fixpoint relay_run (ku kd : counter) (sched : list bool) (up down : half) (c : Collector) :
    half * half * Collector * option (option copy_error) :=
  match sched with
  | [] => (up, down, c, None)
  | true :: sched =>
      match copy_turn (Some ku) up c with
      | (up, c, Some e) => (up, down, c, Some e)
      | (up, c, None) => relay_run ku kd sched up down c
      end
  | false :: sched =>
      match copy_turn (Some kd) down c with
      | (down, c, Some e) => (up, down, c, Some e)
      | (down, c, None) => relay_run ku kd sched up down c
      end
  end.

Inductive relay_end : Type :=
| DialFailed | Cancelled | Ended (e : option copy_error).

Definition relay_end_of (r : option (option copy_error)) : relay_end :=
  match r with None => Cancelled | Some e => Ended e end.

(** [relayTCP] (tunnel/relay.go): [conn] is [None] when the target could not be
    dialled, otherwise the loop from the stream to the target and the one back.
    The stream to target loop is metered as inbound. *)
Definition relayTCP (conn : option (half * half)) (sched : list bool) (c : Collector) :
    option (half * half) * Collector * relay_end :=
  let c := Add CTCPActive 1 (Add CRelayTCP 1 c) in
  match conn with
  | None => (None, Add CTCPActive (-1) (IncError c), DialFailed)
  | Some (to_target, to_stream) =>
      let '(to_target, to_stream, c, r) :=
        relay_run (MeterWriter false) (MeterWriter true) sched to_target to_stream c in
      (Some (to_target, to_stream), Add CTCPActive (-1) c, relay_end_of r)
  end.

(** ** One direction *)

(** [x'] is [x] after some of its source was copied: [l] was delivered. *)
Definition copied (x x' : half) (l : list Z) : Prop :=
  h_delivered x' = h_delivered x ++ l ∧ l `prefix_of` concat (h_src x) ∧
  h_end x' = h_end x.

Lemma copied_refl x : copied x x [].
Proof. split; [by rewrite app_nil_r|]. split; [apply prefix_nil|done]. Qed.

(** The counter [k] grew by [n], the others did not change. *)
Definition counted (k : counter) (n : nat) (c c' : Collector) : Prop :=
  c' = match n with O => c | _ => Add k (Z.of_nat n) c end.

Lemma copy_turn_spec k x c x' c' r :
  copy_turn (Some k) x c = (x', c', r) →
  ∃ l, copied x x' l ∧ counted k (length l) c c' ∧
    match r with
    | None => concat (h_src x) = l ++ concat (h_src x') ∧ length (h_src x) = S (length (h_src x'))
    | Some None => h_end x = None ∧ l = [] ∧ concat (h_src x) = []
    | Some (Some _) => True
    end.
Proof.
  unfold copy_turn. destruct (h_src x) as [|[|b chunk] rest] eqn:Es.
  - intros [= <- <- <-]. exists []. split; [apply copied_refl|]. split; [done|].
    by destruct (h_end x).
  - intros [= <- <- <-]. exists []. split; [|done].
    split; [by rewrite app_nil_r|]. split; [apply prefix_nil|done].
  - set (ck := b :: chunk). set (o := next_outcome _ ck). unfold metered_Write.
    intros [= <- <- <-]. exists (take (wo_n o) ck).
    assert (wo_n o ≤ length ck)%nat as Hn.
    { unfold o, next_outcome. destruct (h_outs x); simpl; lia. }
    assert (take (wo_n o) ck `prefix_of` concat (h_src x)) as Hpre.
    { rewrite Es. exists (drop (wo_n o) ck ++ concat rest).
      change (concat (ck :: rest)) with (ck ++ concat rest). by rewrite assoc, take_drop by apply _. }
    split; [done|]. split.
    + unfold counted. rewrite length_take, Nat.min_l by done. by destruct (wo_n o).
    + destruct (wo_err o); [done|]. destruct (Nat.ltb_spec (wo_n o) (S (length chunk))); [done|].
      split; [|done]. by rewrite take_ge by done.
Qed.

Lemma copied_trans x x1 x2 l1 l2 :
  copied x x1 l1 → concat (h_src x) = l1 ++ concat (h_src x1) → copied x1 x2 l2 →
  copied x x2 (l1 ++ l2).
Proof.
  intros (D1 & _ & E1) Hc (D2 & P2 & E2). split; [by rewrite D2, D1, (assoc_L (++))|].
  split; [rewrite Hc; by apply prefix_app|congruence].
Qed.

(** Each turn that does not end the loop takes a chunk, so the loop needs no more
    turns than there are chunks. *)
Lemma copy_turn_length m x c x' c' :
  copy_turn m x c = (x', c', None) → length (h_src x) = S (length (h_src x')).
Proof.
  unfold copy_turn. destruct (h_src x) as [|[|b chunk] rest]; [done|by intros [= <- <-]|].
  destruct m; cbn [metered_Write]; destruct (wo_err _); try done;
    destruct (_ <? _)%nat; try done; by intros [= <- <-].
Qed.

Lemma copy_loop_fuel m n x c :
  (length (h_src x) ≤ n)%nat → copy_loop m n x c = copy_loop m (length (h_src x)) x c.
Proof.
  remember (length (h_src x)) as k eqn:Ek. revert n x c Ek.
  induction k as [|k IH]; intros n x c Ek Hn.
  - symmetry in Ek. apply nil_length_inv in Ek. destruct n; cbn [copy_loop]; unfold copy_turn;
      by rewrite Ek.
  - destruct n as [|n]; [lia|]. cbn [copy_loop].
    destruct (copy_turn m x c) as [[x1 c1] [e|]] eqn:Et; [done|].
    apply copy_turn_length in Et. apply IH; lia.
Qed.

(** ** Both directions *)

(** The atomic counters hold 64-bit values. *)
Definition in_range (c : Collector) : Prop := ∀ k, k ≠ CTCPActive → 0 ≤ Load k c < 2 ^ 64.

Lemma zero_in_range : in_range zero_collector.
Proof. intros [] _; vm_compute; split; congruence. Qed.

(** [ku] grew by [n] and [kd] by [m], nothing else changed. *)
Definition metered (ku kd : counter) (n m : nat) (c c' : Collector) : Prop :=
  Load ku c' = u64 (Load ku c + Z.of_nat n) ∧ Load kd c' = u64 (Load kd c + Z.of_nat m) ∧
  ∀ k, k ≠ ku → k ≠ kd → Load k c' = Load k c.

Section relay.
Context (ku kd : counter) (Hne : ku ≠ kd) (Hku : ku ≠ CTCPActive) (Hkd : kd ≠ CTCPActive).

Lemma metered_refl c : in_range c → metered ku kd 0 0 c c.
Proof. intros Hr. split_and!; try done; rewrite Z.add_0_r, u64_id; auto. Qed.

Lemma counted_metered_u n c c' : in_range c → counted ku n c c' → metered ku kd n 0 c c'.
Proof.
  intros Hr ->. destruct n as [|n]; [by apply metered_refl|]. split; [by apply Load_Add_u64|]. split.
  - rewrite Load_Add_ne, Z.add_0_r, u64_id by auto. done.
  - intros k Hk _. by apply Load_Add_ne.
Qed.

Lemma counted_metered_d n c c' : in_range c → counted kd n c c' → metered ku kd 0 n c c'.
Proof.
  intros Hr ->. destruct n as [|n]; [by apply metered_refl|]. split.
  - rewrite Load_Add_ne, Z.add_0_r, u64_id by auto. done.
  - split; [by apply Load_Add_u64|]. intros k _ Hk. by apply Load_Add_ne.
Qed.

Lemma metered_trans n1 m1 n2 m2 c c1 c2 :
  metered ku kd n1 m1 c c1 → metered ku kd n2 m2 c1 c2 →
  metered ku kd (n1 + n2) (m1 + m2) c c2.
Proof.
  intros (U1 & D1 & O1) (U2 & D2 & O2). split; [|split].
  - rewrite U2, U1, u64_add_l. f_equal. lia.
  - rewrite D2, D1, u64_add_l. f_equal. lia.
  - intros k H1 H2. rewrite O2, O1; done.
Qed.

Lemma metered_range n m c c' : in_range c → metered ku kd n m c c' → in_range c'.
Proof.
  intros Hr (U & D & O) k Hk.
  destruct (decide (k = ku)) as [->|]; [rewrite U; apply u64_range|].
  destruct (decide (k = kd)) as [->|]; [rewrite D; apply u64_range|]. rewrite O by done. auto.
Qed.

(** What a run delivered and counted, and how complete it is. *)
Definition relayed (u d u' d' : half) (c c' : Collector) (r : option (option copy_error)) : Prop :=
  ∃ lu ld, copied u u' lu ∧ copied d d' ld ∧ metered ku kd (length lu) (length ld) c c' ∧
    (r = Some None → (h_end u = None ∧ lu = concat (h_src u)) ∨
                     (h_end d = None ∧ ld = concat (h_src d))).

Lemma relay_run_spec sched u d c u' d' c' r :
  in_range c → relay_run ku kd sched u d c = (u', d', c', r) → relayed u d u' d' c c' r.
Proof.
  revert u d c. induction sched as [|[] sched IH]; intros u d c Hr; cbn [relay_run].
  - intros [= <- <- <- <-]. exists [], []. split_and!; try apply copied_refl; [|done].
    by apply metered_refl.
  - destruct (copy_turn _ u c) as [[u1 c1] [e|]] eqn:Et; apply copy_turn_spec in Et as (l & Hl & Hc & He).
    + intros [= <- <- <- <-]. exists l, []. split; [done|]. split; [apply copied_refl|].
      split; [by apply counted_metered_u|]. intros [= ->]. left. destruct He as (? & -> & ->). done.
    + intros E. destruct He as [He _]. pose proof (counted_metered_u _ _ _ Hr Hc) as Hm.
      destruct (IH _ _ _ (metered_range _ _ _ _ Hr Hm) E) as (lu & ld & Hu & Hd & Hm2 & Hend).
      exists (l ++ lu), ld. split; [by eapply copied_trans|]. split; [done|]. split.
      * rewrite length_app. by apply (metered_trans _ 0 _ _ _ c1).
      * intros Hn. destruct Hl as (_ & _ & <-).
        destruct (Hend Hn) as [[? ->]|[? ->]]; [left|by right]. by rewrite He.
  - destruct (copy_turn _ d c) as [[d1 c1] [e|]] eqn:Et; apply copy_turn_spec in Et as (l & Hl & Hc & He).
    + intros [= <- <- <- <-]. exists [], l. split; [apply copied_refl|]. split; [done|].
      split; [by apply counted_metered_d|]. intros [= ->]. right. destruct He as (? & -> & ->). done.
    + intros E. destruct He as [He _]. pose proof (counted_metered_d _ _ _ Hr Hc) as Hm.
      destruct (IH _ _ _ (metered_range _ _ _ _ Hr Hm) E) as (lu & ld & Hu & Hd & Hm2 & Hend).
      exists lu, (l ++ ld). split; [done|]. split; [by eapply copied_trans|]. split.
      * rewrite length_app. by apply (metered_trans 0 _ _ _ _ c1).
      * intros Hn. destruct Hl as (_ & _ & <-).
        destruct (Hend Hn) as [[? ->]|[? ->]]; [by left|right]. by rewrite He.
Qed.

(** Turns of one kind. *)
Definition turns (b : bool) (sched : list bool) : nat := length (List.filter (Bool.eqb b) sched).

Lemma turns_cons b x sched : turns b (x :: sched) = ((if Bool.eqb b x then 1 else 0) + turns b sched)%nat.
Proof. unfold turns. cbn [List.filter]. by destruct (Bool.eqb b x). Qed.

Lemma relay_run_ends sched u d c :
  (length (h_src u) < turns true sched ∨ length (h_src d) < turns false sched)%nat →
  is_Some (relay_run ku kd sched u d c).2.
Proof.
  revert u d c. induction sched as [|[] sched IH]; intros u d c; cbn [relay_run].
  - intros [H|H]; inversion H.
  - destruct (copy_turn _ u c) as [[u1 c1] [e|]] eqn:Et; [by eexists|].
    apply copy_turn_spec in Et as (l & _ & _ & _ & El). rewrite !turns_cons. cbn [Bool.eqb].
    intros H. apply IH. lia.
  - destruct (copy_turn _ d c) as [[d1 c1] [e|]] eqn:Et; [by eexists|].
    apply copy_turn_spec in Et as (l & _ & _ & _ & El). rewrite !turns_cons. cbn [Bool.eqb].
    intros H. apply IH. lia.
Qed.
End relay.

(** C21: a TCP relay accounts for what it carries.  Whatever the two loops'
    interleaving and the failures of reads and writes, what each side received
    is a prefix of what the other side sent, in order; the byte counters grow by
    exactly the bytes delivered (modulo 2^64), the relay is counted once, the
    number of active connections is what it was, and no other counter moves; a
    relay that ends without an error delivered one of the two directions
    completely. *)
Theorem relayTCP_accounts a b sched c a' b' c' e
    (Hr : in_range c) (Ha : in_i64 (Load CTCPActive c))
    (E : relayTCP (Some (a, b)) sched c = (Some (a', b'), c', e)) :
  ∃ la lb, copied a a' la ∧ copied b b' lb ∧
    Load CBytesIn c' = u64 (Load CBytesIn c + Z.of_nat (length la)) ∧
    Load CBytesOut c' = u64 (Load CBytesOut c + Z.of_nat (length lb)) ∧
    Load CRelayTCP c' = u64 (Load CRelayTCP c + 1) ∧
    (∀ k, k ∉ [CBytesIn; CBytesOut; CRelayTCP] → Load k c' = Load k c) ∧
    (e = Ended None → la = concat (h_src a) ∨ lb = concat (h_src b)).
Proof.
  unfold relayTCP in E. cbn [MeterWriter] in E. set (c0 := Add CTCPActive 1 _) in E.
  destruct (relay_run _ _ _ _ _ _) as [[[a1 b1] c1] r] eqn:Er. simplify_eq.
  assert (in_range c0) as Hr0.
  { intros k Hk. unfold c0. rewrite Load_Add_ne by done.
    destruct (decide (k = CRelayTCP)) as [->|]; [rewrite Load_Add_u64 by done; apply u64_range|].
    rewrite Load_Add_ne by done. auto. }
  apply relay_run_spec in Er as (la & lb & Hca & Hcb & (HI & HO & Hk) & Hend); try done.
  assert (∀ k, k ≠ CTCPActive → k ≠ CRelayTCP → Load k c0 = Load k c) as H0.
  { intros k ? ?. unfold c0. by rewrite !Load_Add_ne. }
  exists la, lb. split_and!; try done.
  - rewrite Load_Add_ne, HI, H0; done.
  - rewrite Load_Add_ne, HO, H0; done.
  - rewrite Load_Add_ne, Hk by done. unfold c0. by rewrite Load_Add_ne, Load_Add_u64.
  - intros k. rewrite !not_elem_of_cons. intros (? & ? & ? & _).
    destruct (decide (k = CTCPActive)) as [->|]; [|by rewrite Load_Add_ne, Hk, H0].
    rewrite Load_Add_active, Hk by done. unfold c0.
    rewrite Load_Add_active, i64_add_l, Load_Add_ne by done.
    rewrite i64_id; [lia|]. unfold in_i64 in *. lia.
  - intros He. destruct r as [o|]; simplify_eq/=.
    destruct (Hend eq_refl) as [[_ ?]|[_ ?]]; auto.
Qed.

(** The copy loops end.  A copy loop needs at most one turn per chunk that
    will be read and one for the end of its source: more turns change nothing.
    A schedule that gives either direction of a relay that many ends the relay;
    and the first direction to end ends it for both: when one side has nothing
    more to send, whatever the other still has to send is not delivered. *)
Theorem relay_terminates m ku kd sched u d c :
  (∀ n, (length (h_src u) ≤ n)%nat → copy_loop m n u c = copy_loop m (length (h_src u)) u c) ∧
  ((length (h_src u) < turns true sched ∨ length (h_src d) < turns false sched)%nat →
     is_Some (relay_run ku kd sched u d c).2) ∧
  (h_src u = [] → ∀ s, relay_run ku kd (true :: s) u d c = (u, d, c, Some (h_end u))).
Proof.
  split; [intros n; apply copy_loop_fuel|]. split; [apply relay_run_ends|].
  intros Hu s. cbn [relay_run]. unfold copy_turn. by rewrite Hu.
Qed.

(** ** Examples *)

(** A request of two chunks and a response of one; the second write of the
    request is short. *)
Definition sample_request : half :=
  mkHalf [[1; 2; 3]; [4; 5]] None [mkOutcome 3 false; mkOutcome 1 true] [].
Definition sample_response : half := mkHalf [[7]] None [] [].

Lemma relayTCP_accounts_witness :
  Load CBytesIn (relayTCP (Some (sample_request, sample_response)) [true; true; false] zero_collector).1.2
  = u64 4.
Proof.
  destruct (relayTCP (Some (sample_request, sample_response)) [true; true; false] zero_collector)
    as [[[[a' b']|] c'] e] eqn:E; [|vm_compute in E; discriminate E].
  destruct (relayTCP_accounts sample_request sample_response [true; true; false] zero_collector
              a' b' c' e) as (la & lb & (Ha & _) & _ & HI & _).
  - exact zero_in_range.
  - vm_compute; split; congruence.
  - exact E.
  - assert (h_delivered a' = [1; 2; 3; 4]) as Hd by (vm_compute in E; by injection E as <- <- <- <-).
    rewrite Hd in Ha. cbn [fst snd]. rewrite HI. simpl in Ha. rewrite <- Ha. reflexivity.
Defined.

Lemma relay_terminates_witness :
  is_Some (relay_run CBytesOut CBytesIn [false; true; false] sample_request sample_response zero_collector).2 ∧
  relay_run CBytesOut CBytesIn [true] (mkHalf [] None [] []) sample_response zero_collector
  = (mkHalf [] None [] [], sample_response, zero_collector, Some None).
Proof.
  split.
  - apply (relay_terminates None). right. apply Nat.ltb_lt. reflexivity.
  - apply (relay_terminates None CBytesOut CBytesIn [] (mkHalf [] None [] [])). reflexivity.
Defined.
