(* ===== verification/Config.v ===== *)
(** [internal/config]: the configuration tree, its validation and
    normalisation ([Validate], [validateTransport]), port-range parsing, the
    per-upstream transport overlay and the list of upstream endpoints.

    [Validate] mutates the configuration it checks; here it returns the mutated
    configuration.  [time.ParseDuration] and the lookups of the operating system
    are parameters. *)

From S2P Require Import Prelude GoStd NetUtil.
From Stdlib Require Import Ascii.

Local Open Scope Z_scope.

(** ** The configuration tree (config.go) *)

Definition RoleClient : string := "client".
Definition RoleServer : string := "server".

Record KCPConfig : Type := mkKCPConfig {
  kcp_Mode : string; kcp_Block : string; kcp_Key : string; kcp_MTU : Z;
  kcp_DataShard : Z; kcp_ParityShard : Z; kcp_SndWnd : Z; kcp_RcvWnd : Z }.

Record QUICConfig : Type := mkQUICConfig {
  quic_ALPN : string; quic_IdleTimeout : string; quic_MaxIdleTimeout : string }.

Record TransportConfig : Type := mkTransportConfig {
  tr_Protocol : string; tr_Conn : Z; tr_KCP : KCPConfig; tr_QUIC : QUICConfig }.

Record HealthCheckConfig : Type := mkHealthCheckConfig {
  hc_Interval : string; hc_Timeout : string;
  hc_FailThreshold : Z; hc_RecoverThreshold : Z }.

Record UpstreamServer : Type := mkUpstreamServer {
  us_Name : string; us_Addr : string; us_Key : string;
  us_Weight : Z; us_Priority : Z; us_Transport : option TransportConfig }.

Record UpstreamConfig : Type := mkUpstreamConfig {
  up_Strategy : string; up_HealthCheck : HealthCheckConfig; up_Servers : list UpstreamServer }.

Record ForwardRule : Type := mkForwardRule {
  fr_Listen : string; fr_Target : string; fr_Protocol : string; fr_BindUpstream : string }.

Record SOCKSAuth : Type := mkSOCKSAuth { sa_User : string; sa_Pass : string }.
Record SOCKS5Rule : Type := mkSOCKS5Rule { sr_Listen : string; sr_Auth : option SOCKSAuth }.

Record RangeConfig : Type := mkRangeConfig {
  rg_Enabled : bool; rg_Protocol : string; rg_RedirectPort : Z; rg_TargetHost : string;
  rg_Ports : string; rg_Exclude : string; rg_BindUpstream : string }.

Record IPConfig : Type := mkIPConfig { ip_Addr : string; ip_RouterMAC : string }.
Record TCPFlagsConfig : Type := mkTCPFlagsConfig {
  tf_LocalFlag : list string; tf_RemoteFlag : list string }.
Record NetworkConfig : Type := mkNetworkConfig {
  nw_Interface : string; nw_IPv4 : IPConfig; nw_IPv6 : option IPConfig;
  nw_TCP : TCPFlagsConfig }.

Record AdminConfig : Type := mkAdminConfig {
  ad_Listen : string; ad_Metrics : bool; ad_Token : string }.

Record Config : Type := mkConfig {
  cfg_Core : string; cfg_Version : Z; cfg_Role : string; cfg_Name : string;
  cfg_LogLevel : string;
  cfg_Upstream : option UpstreamConfig;
  cfg_Forward : list ForwardRule;
  cfg_SOCKS5 : list SOCKS5Rule;
  cfg_Range : option RangeConfig;
  cfg_ListenAddr : option string;     (* Listen *ListenConfig *)
  cfg_Network : NetworkConfig;
  cfg_ServerAddr : option string;     (* Server *ServerEndpoint *)
  cfg_Transport : TransportConfig;
  cfg_Admin : option AdminConfig }.

(** Field assignments of [Config] used by the program. *)
Definition set_Role (r : string) (c : Config) : Config :=
  let '(mkConfig a b _ d e f g h i j k l m n) := c in mkConfig a b r d e f g h i j k l m n.
Definition set_LogLevel (v : string) (c : Config) : Config :=
  let '(mkConfig a b r d _ f g h i j k l m n) := c in mkConfig a b r d v f g h i j k l m n.
Definition set_Upstream (v : option UpstreamConfig) (c : Config) : Config :=
  let '(mkConfig a b r d e _ g h i j k l m n) := c in mkConfig a b r d e v g h i j k l m n.
Definition set_Range (v : option RangeConfig) (c : Config) : Config :=
  let '(mkConfig a b r d e f g h _ j k l m n) := c in mkConfig a b r d e f g h v j k l m n.
Definition set_Transport (v : TransportConfig) (c : Config) : Config :=
  let '(mkConfig a b r d e f g h i j k l _ n) := c in mkConfig a b r d e f g h i j k l v n.
Definition set_Network (v : NetworkConfig) (c : Config) : Config :=
  let '(mkConfig a b r d e f g h i j _ l m n) := c in mkConfig a b r d e f g h i j v l m n.
Definition set_Key (v : string) (t : TransportConfig) : TransportConfig :=
  let '(mkTransportConfig p n (mkKCPConfig mo bl _ mtu ds ps sw rw) q) := t in
  mkTransportConfig p n (mkKCPConfig mo bl v mtu ds ps sw rw) q.

Inductive label : Type := LTransport | LUpstream (name : string).

Inductive config_error : Type :=
| BadRole | MissingInterface | MissingIPv4Addr | MissingRouterMAC | MissingIPv6MAC
| BadProtocol (l : label) | MissingKey (l : label) | NegativeShard (l : label)
| ParityWithoutData (l : label) | TooManyShards (l : label) | NegativeWindow (l : label)
| MissingListenAddr | MissingServer | RangeProtocol
| InvalidRange (part : string) | InvalidRangePort (part : string) | NoPorts
| InvalidExclude (part : string)
| MissingRules | UnknownBind (listen bind : string) | UnknownRangeBind (bind : string)
| MissingServerAddr (i : nat) | MissingServerKey (i : nat).

(** [strings.TrimSpace(s) == ""]. *)
Definition blank (s : string) : bool := String.eqb (TrimSpace s) "".

(** [if blank(s) { s = d }]. *)
Definition default_str (d s : string) : string := if blank s then d else s.

(** ** Port ranges *)

(** One element of the comma-separated list; [None] when it is blank. *)
Definition parse_part (part : string) : result config_error (option (Z * Z)) :=
  let part := TrimSpace part in
  if String.eqb part "" then Ok None else
  match cut dash (bs part) with
  | Some (lo, hi) =>
      match Atoi (TrimSpace (str lo)), Atoi (TrimSpace (str hi)) with
      | Some lo, Some hi =>
          if (lo <? 1) || (hi >? 65535) || (lo >? hi) then Err (InvalidRange part)
          else Ok (Some (lo, hi))
      | _, _ => Err (InvalidRange part)
      end
  | None =>
      match Atoi part with
      | Some p =>
          if (p <? 1) || (p >? 65535) then Err (InvalidRangePort part) else Ok (Some (p, p))
      | None => Err (InvalidRangePort part)
      end
  end.

Definition parsePortRanges (s : string) : result config_error (list (Z * Z)) :=
  parts ← mapM parse_part (Split s comma);
  let out := omap id parts in
  match out with [] => Err NoPorts | _ => Ok out end.

Definition PortRanges (r : RangeConfig) : result config_error (list (Z * Z)) :=
  parsePortRanges (rg_Ports r).

Definition parse_exclude (part : string) : result config_error (option Z) :=
  let part := TrimSpace part in
  if String.eqb part "" then Ok None else
  match Atoi part with
  | Some p => if (p <? 1) || (p >? 65535) then Err (InvalidExclude part) else Ok (Some p)
  | None => Err (InvalidExclude part)
  end.

Definition ExcludePorts (r : RangeConfig) : result config_error (list Z) :=
  parts ← mapM parse_exclude (Split (rg_Exclude r) comma); Ok (omap id parts).

(** ** Transport validation *)

Definition validateTransport (t : TransportConfig) (lbl : label) :
    result config_error TransportConfig :=
  let '(mkTransportConfig protocol conn kcp quic) := t in
  let '(mkKCPConfig mode block key mtu ds ps sw rw) := kcp in
  let '(mkQUICConfig alpn idle maxidle) := quic in
  let lowered := ToLower (TrimSpace protocol) in
  let '(proto, protocol) :=
    if String.eqb lowered "" then ("kcp"%string, "kcp"%string) else (lowered, protocol) in
  _ ← fail_if (negb (String.eqb proto "kcp") && negb (String.eqb proto "quic")) (BadProtocol lbl);
  let conn := if conn <? 1 then 6 else conn in
  _ ← fail_if (blank key) (MissingKey lbl);
  if String.eqb proto "kcp" then
    let mode := default_str "fast" mode in
    let block := default_str "aes-128-gcm" block in
    let mtu := if mtu <=? 0 then 1150 else mtu in
    _ ← fail_if ((ds <? 0) || (ps <? 0)) (NegativeShard lbl);
    _ ← fail_if ((ps >? 0) && (ds =? 0)) (ParityWithoutData lbl);
    _ ← fail_if (i64 (ds + ps) >? 255) (TooManyShards lbl);
    _ ← fail_if ((sw <? 0) || (rw <? 0)) (NegativeWindow lbl);
    Ok (mkTransportConfig protocol conn
          (mkKCPConfig mode block key mtu ds ps sw rw) (mkQUICConfig alpn idle maxidle))
  else
    Ok (mkTransportConfig protocol conn
          (mkKCPConfig mode block key mtu ds ps sw rw)
          (mkQUICConfig (default_str "paqetpremium" alpn) idle maxidle)).

(** ** The per-upstream overlay and the upstream names (upstream.go) *)

Definition pick_str (o b : string) : string := if String.eqb o "" then b else o.
Definition pick_pos (o b : Z) : Z := if o >? 0 then o else b.

Definition mergeTransport (base : TransportConfig) (override : option TransportConfig) :
    TransportConfig :=
  match override with
  | None => base
  | Some o =>
      let bk := tr_KCP base in let ok := tr_KCP o in
      let bq := tr_QUIC base in let oq := tr_QUIC o in
      mkTransportConfig
        (pick_str (tr_Protocol o) (tr_Protocol base))
        (pick_pos (tr_Conn o) (tr_Conn base))
        (mkKCPConfig
           (pick_str (kcp_Mode ok) (kcp_Mode bk))
           (pick_str (kcp_Block ok) (kcp_Block bk))
           (pick_str (kcp_Key ok) (kcp_Key bk))
           (pick_pos (kcp_MTU ok) (kcp_MTU bk))
           (pick_pos (kcp_DataShard ok) (kcp_DataShard bk))
           (pick_pos (kcp_ParityShard ok) (kcp_ParityShard bk))
           (pick_pos (kcp_SndWnd ok) (kcp_SndWnd bk))
           (pick_pos (kcp_RcvWnd ok) (kcp_RcvWnd bk)))
        (mkQUICConfig
           (pick_str (quic_ALPN oq) (quic_ALPN bq))
           (pick_str (quic_IdleTimeout oq) (quic_IdleTimeout bq))
           (pick_str (quic_MaxIdleTimeout oq) (quic_MaxIdleTimeout bq)))
  end.

(** [strings.TrimSpace(s.Name)], or ["upstream-<i+1>"] when blank. *)
Definition server_name (i : nat) (s : UpstreamServer) : string :=
  let name := TrimSpace (us_Name s) in
  if String.eqb name "" then "upstream-" +:+ Itoa (Z.of_nat i + 1) else name.

Definition server_addr_set (c : Config) : bool :=
  match cfg_ServerAddr c with Some a => negb (blank a) | None => false end.

Definition upstream_servers (c : Config) : list UpstreamServer :=
  match cfg_Upstream c with Some u => up_Servers u | None => [] end.

Definition upstreamNameSet (c : Config) : gset string :=
  match upstream_servers c with
  | [] => if server_addr_set c then {["default"%string]} else ∅
  | servers => list_to_set (imap server_name servers)
  end.

(** ** Validation *)

Definition range_enabled (c : Config) : bool :=
  match cfg_Range c with Some r => rg_Enabled r | None => false end.

Definition normalize_range (r : RangeConfig) : result config_error RangeConfig :=
  let '(mkRangeConfig en proto rport host ports excl bind) := r in
  let proto := default_str "tcp" proto in
  _ ← fail_if (negb (String.eqb proto "tcp")) RangeProtocol;
  let r' := mkRangeConfig en proto (if rport <=? 0 then 47999 else rport)
              (default_str "127.0.0.1" host) (default_str "1-65535" ports)
              (default_str "22" excl) bind in
  _ ← PortRanges r';
  _ ← ExcludePorts r';
  Ok r'.

Definition bind_unknown (names : gset string) (bind : string) : bool :=
  let bind := TrimSpace bind in
  negb (String.eqb bind "") && negb (bool_decide (bind ∈ names)).

Definition validate_client (c : Config) : result config_error Config :=
  _ ← fail_if (match upstream_servers c with [] => negb (server_addr_set c) | _ => false end)
        MissingServer;
  c ← match cfg_Range c with
      | Some r => if rg_Enabled r then r' ← normalize_range r; Ok (set_Range (Some r') c) else Ok c
      | None => Ok c
      end;
  _ ← fail_if (bool_decide (cfg_Forward c = []) && bool_decide (cfg_SOCKS5 c = [])
               && negb (range_enabled c)) MissingRules;
  let names := upstreamNameSet c in
  _ ← mapM (λ r, fail_if (bind_unknown names (fr_BindUpstream r))
                   (UnknownBind (fr_Listen r) (fr_BindUpstream r))) (cfg_Forward c);
  _ ← match cfg_Range c with
      | Some r => fail_if (rg_Enabled r && bind_unknown names (rg_BindUpstream r))
                    (UnknownRangeBind (rg_BindUpstream r))
      | None => Ok tt
      end;
  Ok c.

(** The loop body over [c.Upstream.Servers]. *)
Definition validate_server (base : TransportConfig) (i : nat) (s : UpstreamServer) :
    result config_error unit :=
  _ ← fail_if (blank (us_Addr s)) (MissingServerAddr i);
  _ ← fail_if (blank (us_Key s)) (MissingServerKey i);
  match us_Transport s with
  | None => Ok tt
  | Some _ =>
      let merged := mergeTransport base (us_Transport s) in
      let merged := set_Key (if blank (us_Key s) then kcp_Key (tr_KCP base) else us_Key s) merged in
      _ ← validateTransport merged (LUpstream (server_name i s));
      Ok tt
  end.

Definition validate_upstream (c : Config) : result config_error Config :=
  match cfg_Upstream c with
  | None => Ok c
  | Some u =>
      let u' := mkUpstreamConfig (default_str "failover" (up_Strategy u))
                  (up_HealthCheck u) (up_Servers u) in
      _ ← mapMi (validate_server (cfg_Transport c)) (up_Servers u);
      Ok (set_Upstream (Some u') c)
  end.

Definition validate_role (c : Config) : result config_error Config :=
  let role := ToLower (TrimSpace (cfg_Role c)) in
  _ ← fail_if (negb (String.eqb role RoleClient) && negb (String.eqb role RoleServer)) BadRole;
  Ok (set_Role role c).

Definition validate_network (n : NetworkConfig) : result config_error unit :=
  _ ← fail_if (blank (nw_Interface n)) MissingInterface;
  _ ← fail_if (blank (ip_Addr (nw_IPv4 n))) MissingIPv4Addr;
  _ ← fail_if (blank (ip_RouterMAC (nw_IPv4 n))) MissingRouterMAC;
  match nw_IPv6 n with
  | Some v6 => fail_if (negb (blank (ip_Addr v6)) && blank (ip_RouterMAC v6)) MissingIPv6MAC
  | None => Ok tt
  end.

Definition listen_missing (c : Config) : bool :=
  match cfg_ListenAddr c with Some a => blank a | None => true end.

Definition Validate (c : Config) : result config_error Config :=
  c ← validate_role c;
  _ ← validate_network (cfg_Network c);
  t ← validateTransport (cfg_Transport c) LTransport;
  let c := set_Transport t c in
  c ← (if String.eqb (cfg_Role c) RoleServer
       then _ ← fail_if (listen_missing c) MissingListenAddr; Ok c
       else validate_client c);
  c ← validate_upstream c;
  Ok (set_LogLevel (default_str "info" (cfg_LogLevel c)) c).

(** ** What a normalised configuration satisfies *)

Definition proto_of (t : TransportConfig) : string := ToLower (TrimSpace (tr_Protocol t)).

Definition kcp_valid (k : KCPConfig) : Prop :=
  blank (kcp_Mode k) = false ∧ blank (kcp_Block k) = false ∧ 0 < kcp_MTU k ∧
  0 ≤ kcp_DataShard k ∧ 0 ≤ kcp_ParityShard k ∧
  (0 < kcp_ParityShard k → kcp_DataShard k ≠ 0) ∧
  i64 (kcp_DataShard k + kcp_ParityShard k) ≤ 255 ∧
  0 ≤ kcp_SndWnd k ∧ 0 ≤ kcp_RcvWnd k.

Definition transport_valid (t : TransportConfig) : Prop :=
  1 ≤ tr_Conn t ∧ blank (kcp_Key (tr_KCP t)) = false ∧
  ((proto_of t = "kcp"%string ∧ kcp_valid (tr_KCP t)) ∨
   (proto_of t = "quic"%string ∧ blank (quic_ALPN (tr_QUIC t)) = false)).

Definition range_valid (r : RangeConfig) : Prop :=
  rg_Protocol r = "tcp"%string ∧ 0 < rg_RedirectPort r ∧
  blank (rg_TargetHost r) = false ∧ blank (rg_Ports r) = false ∧
  blank (rg_Exclude r) = false ∧
  is_ok (PortRanges r) = true ∧ is_ok (ExcludePorts r) = true.

Definition network_valid (n : NetworkConfig) : Prop :=
  blank (nw_Interface n) = false ∧ blank (ip_Addr (nw_IPv4 n)) = false ∧
  blank (ip_RouterMAC (nw_IPv4 n)) = false ∧
  ∀ v6, nw_IPv6 n = Some v6 → blank (ip_Addr v6) = false → blank (ip_RouterMAC v6) = false.

Definition bind_known (c : Config) (bind : string) : Prop :=
  TrimSpace bind = ""%string ∨ TrimSpace bind ∈ upstreamNameSet c.

Definition client_valid (c : Config) : Prop :=
  (upstream_servers c ≠ [] ∨ server_addr_set c = true) ∧
  (∀ r, cfg_Range c = Some r → rg_Enabled r = true →
     range_valid r ∧ bind_known c (rg_BindUpstream r)) ∧
  (cfg_Forward c ≠ [] ∨ cfg_SOCKS5 c ≠ [] ∨ range_enabled c = true) ∧
  Forall (λ r, bind_known c (fr_BindUpstream r)) (cfg_Forward c).

Definition upstream_valid (c : Config) : Prop :=
  ∀ u, cfg_Upstream c = Some u →
    blank (up_Strategy u) = false ∧
    ∀ i s, up_Servers u !! i = Some s → validate_server (cfg_Transport c) i s = Ok tt.

Definition config_valid (c : Config) : Prop :=
  network_valid (cfg_Network c) ∧ transport_valid (cfg_Transport c) ∧
  ((cfg_Role c = RoleServer ∧ listen_missing c = false) ∨
   (cfg_Role c = RoleClient ∧ client_valid c)) ∧
  upstream_valid c ∧ blank (cfg_LogLevel c) = false.

(** ** Lemmas *)

Lemma blank_default d s : blank d = false → blank (default_str d s) = false.
Proof. unfold default_str. by destruct (blank s) eqn:?. Qed.

Lemma default_str_id d s : blank s = false → default_str d s = s.
Proof. unfold default_str. by intros ->. Qed.

Lemma blank_spec s : blank s = true ↔ TrimSpace s = ""%string.
Proof. apply String.eqb_eq. Qed.

#[export] Hint Resolve blank_default : paqet.

Lemma validateTransport_valid t l t' : validateTransport t l = Ok t' → transport_valid t'.
Proof.
  destruct t as [protocol conn [mode block key mtu ds ps sw rw] [alpn idle maxidle]].
  unfold validateTransport.
  destruct (if String.eqb (ToLower (TrimSpace protocol)) "" then _ else _) as [proto prot] eqn:Ep.
  assert (ToLower (TrimSpace prot) = proto) as Hproto.
  { destruct (String.eqb _ _); by injection Ep as <- <-. }
  intros H. inv_ok. destruct (String.eqb_spec proto "kcp") as [->|Hne].
  - inv_ok. split; [simpl; destruct (Z.ltb_spec conn 1); lia|]. split; [done|]. left.
    split; [done|]. unfold kcp_valid; simpl.
    repeat split; try (by apply blank_default); try lia. destruct (Z.leb_spec mtu 0); lia.
  - destruct (String.eqb_spec proto "quic") as [->|]; [|done]. inv_ok.
    split; [simpl; destruct (Z.ltb_spec conn 1); lia|]. split; [done|]. right.
    split; [done|]. by apply blank_default.
Qed.

Lemma validateTransport_fixed t l : transport_valid t → validateTransport t l = Ok t.
Proof.
  destruct t as [protocol conn [mode block key mtu ds ps sw rw] [alpn idle maxidle]].
  unfold transport_valid, kcp_valid, proto_of, validateTransport. simpl.
  intros (Hc & Hk & [[Hp (Hm & Hb & Hmtu & Hds & Hps & Hpd & Hsum & Hsw & Hrw)]|[Hp Ha]]);
    rewrite Hp; simpl; rewrite Hk; simpl.
  - rewrite !default_str_id by done.
    replace (conn <? 1) with false by lia. replace (mtu <=? 0) with false by lia.
    replace (_ || _) with false by lia. simpl.
    replace (_ && _) with false by (destruct (Z.gtb_spec ps 0); simpl; lia). simpl.
    replace (_ >? 255) with false by lia. simpl.
    by replace (_ || _) with false by lia.
  - rewrite default_str_id by done. by replace (conn <? 1) with false by lia.
Qed.

Lemma normalize_range_valid r r' : normalize_range r = Ok r' → range_valid r'.
Proof.
  destruct r as [en proto rport host ports excl bind]. unfold normalize_range.
  intros H. inv_ok. apply negb_false_iff, String.eqb_eq in H0.
  unfold range_valid. simpl. rewrite H0.
  repeat split; try (by apply blank_default).
  - destruct (Z.leb_spec rport 0); lia.
  - by rewrite H0 in *; match goal with H : PortRanges _ = _ |- _ => unfold PortRanges in *; simpl in *; rewrite H end.
  - by match goal with H : ExcludePorts _ = _ |- _ => unfold ExcludePorts in *; simpl in *; rewrite H end.
Qed.

Lemma normalize_range_fixed r : range_valid r → normalize_range r = Ok r.
Proof.
  destruct r as [en proto rport host ports excl bind]. unfold range_valid. simpl.
  intros (-> & Hp & Hh & Hpo & Hex & HP & HE). unfold normalize_range.
  rewrite !default_str_id by done. replace (rport <=? 0) with false by lia. simpl.
  destruct (PortRanges _); [|done]. simpl. by destruct (ExcludePorts _).
Qed.

Lemma bind_unknown_spec c bind :
  bind_unknown (upstreamNameSet c) bind = false ↔ bind_known c bind.
Proof.
  unfold bind_unknown, bind_known. destruct (String.eqb_spec (TrimSpace bind) "") as [->|Hne];
    simpl; [split; eauto|]. rewrite negb_false_iff, bool_decide_eq_true. naive_solver.
Qed.

Lemma normalize_range_same r r' :
  normalize_range r = Ok r' →
  rg_Enabled r' = rg_Enabled r ∧ rg_BindUpstream r' = rg_BindUpstream r.
Proof. destruct r. unfold normalize_range. intros H. by inv_ok. Qed.

Lemma validate_network_ok n : validate_network n = Ok tt ↔ network_valid n.
Proof.
  unfold validate_network, network_valid. split.
  - intros H. inv_ok. repeat (split; [done|]). intros v6 Hv6 Hb. rewrite Hv6 in H.
    inv_ok. rewrite Hb in H. done.
  - intros (-> & -> & -> & H6). simpl. destruct (nw_IPv6 n) as [v6|]; [|done].
    destruct (blank (ip_Addr v6)) eqn:Hb; simpl; [done|]. by rewrite (H6 v6).
Qed.

Lemma validate_role_ok c c' :
  validate_role c = Ok c' →
  (cfg_Role c' = RoleClient ∨ cfg_Role c' = RoleServer) ∧ c' = set_Role (cfg_Role c') c.
Proof.
  unfold validate_role. intros H. inv_ok. apply andb_false_iff in H0.
  rewrite !negb_false_iff, !String.eqb_eq in H0. destruct c; simpl in *. naive_solver.
Qed.

Lemma validate_role_fixed c :
  cfg_Role c = RoleClient ∨ cfg_Role c = RoleServer → validate_role c = Ok c.
Proof.
  unfold validate_role. intros [H|H]; rewrite H; destruct c; simpl in *; by subst.
Qed.

Lemma client_server_known c :
  match upstream_servers c with [] => negb (server_addr_set c) | _ => false end = false ↔
  upstream_servers c ≠ [] ∨ server_addr_set c = true.
Proof.
  destruct (upstream_servers c); [rewrite negb_false_iff|]; naive_solver.
Qed.

Lemma client_has_rules c :
  (bool_decide (cfg_Forward c = []) && bool_decide (cfg_SOCKS5 c = [])
   && negb (range_enabled c)) = false ↔
  cfg_Forward c ≠ [] ∨ cfg_SOCKS5 c ≠ [] ∨ range_enabled c = true.
Proof.
  rewrite !andb_false_iff, !bool_decide_eq_false, negb_false_iff. tauto.
Qed.

(** [validate_client] after the range block was normalised. *)
Lemma validate_client_fixed c :
  client_valid c → validate_client c = Ok c.
Proof.
  intros (Hs & Hr & Hrules & Hb). unfold validate_client.
  rewrite (proj2 (client_server_known c) Hs). cbn [fail_if mbind result_bind].
  set (rest := λ c, _).
  assert (rest c = Ok c) as Hrest.
  { subst rest. cbv beta. rewrite (proj2 (client_has_rules c) Hrules). simpl.
    assert (is_ok (mapM (λ r, fail_if (bind_unknown (upstreamNameSet c) (fr_BindUpstream r))
       (UnknownBind (fr_Listen r) (fr_BindUpstream r))) (cfg_Forward c)) = true) as Hm.
    { apply mapM_unit. eapply Forall_impl; [exact Hb|]. simpl. intros r Hk.
      by rewrite (proj2 (bind_unknown_spec c _) Hk). }
    apply is_ok_ex in Hm as [u ->]. simpl. destruct (cfg_Range c) as [r|]; [|done].
    destruct (rg_Enabled r) eqn:He; simpl; [|done]. destruct (Hr r) as [_ Hk]; try done.
    by rewrite (proj2 (bind_unknown_spec c _) Hk). }
  destruct (cfg_Range c) as [r|] eqn:Hrc; [|exact Hrest].
  destruct (rg_Enabled r) eqn:He; [|exact Hrest].
  destruct (Hr r eq_refl He) as [Hv _]. rewrite (normalize_range_fixed r Hv). simpl.
  replace (set_Range (Some r) c) with c by (destruct c; simpl in *; by subst). exact Hrest.
Qed.

Lemma validate_client_ok c c' :
  validate_client c = Ok c' →
  client_valid c' ∧ c' = set_Range (cfg_Range c') c.
Proof.
  unfold validate_client. intros H. inv_ok.
  match goal with H : match cfg_Range c with _ => _ end = Ok _ |- _ => rename H into Hrange end.
  match goal with H : mapM _ _ = Ok _ |- _ => rename H into Hfwd; apply is_ok_Ok, mapM_unit in Hfwd end.
  match goal with H : _ && _ = false |- _ => rename H into Hrules end.
  match goal with H : (match upstream_servers c with _ => _ end) = false |- _ => rename H into Hsrv end.
  match goal with H : match cfg_Range c' with _ => _ end = Ok _ |- _ => rename H into Hbind end.
  assert (c' = set_Range (cfg_Range c') c ∧
    ∀ r, cfg_Range c' = Some r → rg_Enabled r = true → range_valid r) as [Hc' Hrv].
  { destruct (cfg_Range c) as [r|] eqn:Hr.
    - destruct (rg_Enabled r) eqn:He.
      + inv_ok. match goal with H : normalize_range _ = _ |- _ => apply normalize_range_valid in H end.
        destruct c; simpl in *. split; [done|]. by intros ? [= <-].
      + inv_ok. split; [by destruct c'|]. intros r' ? ?. congruence.
    - inv_ok. split; [by destruct c'|]. intros r' ? ?. congruence. }
  split; [|done]. split_and!.
  - apply client_server_known in Hsrv. rewrite Hc'. by destruct c.
  - intros r Hr He. split; [by apply Hrv|]. rewrite Hr, He in Hbind. inv_ok.
    by apply bind_unknown_spec.
  - by apply client_has_rules.
  - eapply Forall_impl; [exact Hfwd|]. simpl. intros r Hr. apply bind_unknown_spec.
    by destruct (bind_unknown _ _).
Qed.

Lemma validate_upstream_ok c c' :
  validate_upstream c = Ok c' →
  upstream_valid c' ∧ c' = set_Upstream (cfg_Upstream c') c ∧
  upstream_servers c' = upstream_servers c.
Proof.
  unfold validate_upstream, upstream_valid. destruct (cfg_Upstream c) as [u|] eqn:Hu.
  - intros H. inv_ok.
    match goal with H : mapMi _ _ = Ok _ |- _ => pose proof (proj1 (mapMi_unit _ _) (is_ok_Ok _ _ H)) as Hs end.
    unfold upstream_servers. destruct c as [? ? ? ? ? up]; simpl in *; simplify_eq.
    split; [|done]. intros ? [= <-]. simpl. split; [by apply blank_default|done].
  - intros [= <-]. rewrite Hu. split; [done|]. split; [destruct c; simpl in *; by subst|done].
Qed.

Lemma validate_upstream_fixed c : upstream_valid c → validate_upstream c = Ok c.
Proof.
  unfold validate_upstream, upstream_valid. destruct (cfg_Upstream c) as [u|] eqn:Hu; [|done].
  intros H. destruct (H u eq_refl) as [Hb Hs]. apply mapMi_unit, is_ok_ex in Hs as [v ->].
  simpl. rewrite default_str_id by done. destruct c as [? ? ? ? ? up]; simpl in *; subst.
  by destruct u.
Qed.

(** ** The theorems on validation *)

Lemma client_valid_congr c c' :
  upstream_servers c = upstream_servers c' → cfg_ServerAddr c = cfg_ServerAddr c' →
  cfg_Range c = cfg_Range c' → cfg_Forward c = cfg_Forward c' → cfg_SOCKS5 c = cfg_SOCKS5 c' →
  client_valid c → client_valid c'.
Proof.
  intros Hs Ha Hr Hf H5.
  unfold client_valid, bind_known, upstreamNameSet, server_addr_set, range_enabled.
  by rewrite Hs, Ha, Hr, Hf, H5.
Qed.

(** The last step of [Validate], applied to a configuration whose other parts
    are valid. *)
Lemma finish_valid c u l :
  network_valid (cfg_Network c) → transport_valid (cfg_Transport c) →
  ((cfg_Role c = RoleServer ∧ listen_missing c = false) ∨
   (cfg_Role c = RoleClient ∧ client_valid c)) →
  upstream_valid (set_Upstream u c) →
  upstream_servers (set_Upstream u c) = upstream_servers c → blank l = false →
  config_valid (set_LogLevel l (set_Upstream u c)).
Proof.
  intros Hn Ht Hr Hu Hs Hl. destruct c as [a b r d e f g h i j k l' m n].
  unfold config_valid, upstream_valid in *. cbn in *. split_and!; try done.
  destruct Hr as [?|[? Hc]]; [by left|right]. split; [done|].
  eapply client_valid_congr; [..|exact Hc]; try done; by rewrite <- Hs.
Qed.

Lemma Validate_valid c c' : Validate c = Ok c' → config_valid c'.
Proof.
  unfold Validate. intros H. inv_ok.
  match goal with H : validate_role _ = _ |- _ => apply validate_role_ok in H as [Hrole _] end.
  match goal with H : validate_network _ = Ok ?u |- _ =>
    destruct u; apply validate_network_ok in H as Hnet end.
  match goal with H : validateTransport _ _ = _ |- _ => apply validateTransport_valid in H as Htr end.
  match goal with H : validate_upstream _ = _ |- _ =>
    apply validate_upstream_ok in H as (Hup & Hc2 & Hsrv) end.
  match goal with H : (if _ then _ else _) = Ok ?x |- _ => rename H into Hif; rename x into c3 end.
  rewrite Hc2 in *. apply finish_valid; [..|done|done|by apply blank_default].
  all: destruct (String.eqb_spec (cfg_Role (set_Transport v1 v)) RoleServer) as [Hrs|Hrs];
    [inv_ok|apply validate_client_ok in Hif as [Hcv Hc3]; rewrite Hc3].
  all: destruct v; cbn in *; try done.
  - by left.
  - right. destruct Hrole as [->|?]; [|done]. split; [done|]. by rewrite <- Hc3.
Qed.

Lemma Validate_fixed c : config_valid c → Validate c = Ok c.
Proof.
  intros (Hn & Ht & Hr & Hu & Hl). unfold Validate.
  rewrite (validate_role_fixed c) by naive_solver. cbn [mbind result_bind].
  rewrite (proj2 (validate_network_ok _) Hn). cbn [mbind result_bind].
  rewrite (validateTransport_fixed _ _ Ht). cbn [mbind result_bind].
  replace (set_Transport (cfg_Transport c) c) with c by by destruct c.
  assert ((if String.eqb (cfg_Role c) RoleServer
       then _ ← fail_if (listen_missing c) MissingListenAddr; Ok c
       else validate_client c) = Ok c) as ->.
  { destruct Hr as [[-> Hlm]|[-> Hc]]; simpl; [by rewrite Hlm|by apply validate_client_fixed]. }
  cbn [mbind result_bind]. rewrite (validate_upstream_fixed c Hu). cbn [mbind result_bind].
  rewrite default_str_id by done. by destruct c.
Qed.

(** C24: an accepted configuration is normalised: it meets [config_valid] (role,
    network, transport, role-specific requirements, known bindings, upstreams),
    and validating it again succeeds and changes nothing. *)
Theorem Validate_normalises c c' (H : Validate c = Ok c') :
  config_valid c' ∧ Validate c' = Ok c'.
Proof.
  pose proof (Validate_valid c c' H) as Hv. split; [done|by apply Validate_fixed].
Qed.

Definition sample_kcp : KCPConfig := mkKCPConfig "" "" "secret" 0 10 3 0 0.
Definition sample_transport : TransportConfig :=
  mkTransportConfig " KCP " 0 sample_kcp (mkQUICConfig "" "" "").
Definition sample_network : NetworkConfig :=
  mkNetworkConfig "eth0" (mkIPConfig "10.0.0.2:0" "aa:bb:cc:dd:ee:ff") None
    (mkTCPFlagsConfig ["PA"%string] []).
Definition sample_client : Config :=
  mkConfig "" 1 " Client" "iran-1" "" (Some (mkUpstreamConfig "" (mkHealthCheckConfig "" "" 0 0)
      [mkUpstreamServer "a" "192.0.2.1:443" "ka" 0 0 None;
       mkUpstreamServer "" "192.0.2.2:443" "kb" 2 0
         (Some (mkTransportConfig "quic" 0 (mkKCPConfig "" "" "" 0 0 0 0 0) (mkQUICConfig "" "" "")))]))
    [mkForwardRule ":8443" "127.0.0.1:443" "tcp" "upstream-2"] [] None None sample_network None
    sample_transport None.

(** As it is after loading. *)
Definition valid_client : Config :=
  match Validate sample_client with Ok c => c | Err _ => sample_client end.

Lemma Validate_normalises_witness :
  ∃ c', Validate sample_client = Ok c' ∧ config_valid c' ∧ Validate c' = Ok c'.
Proof.
  eexists. split; [vm_compute; reflexivity|].
  apply (Validate_normalises sample_client). vm_compute. reflexivity.
Defined.

(** The shard limit of [validateTransport] is enforced on the 64-bit sum: an
    accepted KCP block has at most 255 shards, unless the sum overflowed, and
    some accepted block does overflow. *)
Theorem validateTransport_shards :
  (∀ t l t', validateTransport t l = Ok t' → proto_of t' = "kcp"%string →
     in_i64 (kcp_DataShard (tr_KCP t)) → in_i64 (kcp_ParityShard (tr_KCP t)) →
     let n := kcp_DataShard (tr_KCP t') + kcp_ParityShard (tr_KCP t') in
     n ≤ 255 ∨ 2 ^ 63 ≤ n) ∧
  (∃ t, validateTransport t LTransport = Ok t ∧ proto_of t = "kcp"%string ∧
     kcp_DataShard (tr_KCP t) + kcp_ParityShard (tr_KCP t) = 2 ^ 63).
Proof.
  split.
  - intros t l t' H Hp Hds Hps n.
    destruct (validateTransport_valid _ _ _ H) as (_ & _ & [[_ Hv]|[Hq _]]); [|by rewrite Hp in Hq].
    destruct Hv as (_ & _ & _ & H1 & H2 & _ & H3 & _). subst n.
    set (n := kcp_DataShard (tr_KCP t') + kcp_ParityShard (tr_KCP t')) in *.
    destruct (decide (2 ^ 63 ≤ n)); [by right|left].
    rewrite i64_id in H3; [done|]. unfold in_i64. lia.
  - exists (mkTransportConfig "kcp" 1
      (mkKCPConfig "fast" "aes" "k" 1150 (2 ^ 63 - 1) 1 0 0) (mkQUICConfig "" "" "")).
    vm_compute. done.
Qed.

(** ** Port ranges *)

Definition range_ok (r : Z * Z) : Prop := 1 ≤ r.1 ∧ r.1 ≤ r.2 ∧ r.2 ≤ 65535.

Definition render_range (r : Z * Z) : bytes := itoa r.1 ++ dash :: itoa r.2.

Lemma parse_part_ok part r : parse_part part = Ok (Some r) → range_ok r.
Proof.
  unfold parse_part, range_ok. destruct (String.eqb _ _); [done|].
  destruct (cut dash _) as [[lo hi]|].
  - destruct (Atoi _) as [l|]; [|done]. destruct (Atoi _) as [h|]; [|done].
    destruct ((l <? 1) || (h >? 65535) || (l >? h)) eqn:E; [done|].
    intros [= <-]. simpl. lia.
  - destruct (Atoi _) as [p|]; [|done].
    destruct ((p <? 1) || (p >? 65535)) eqn:E; [done|]. intros [= <-]. simpl. lia.
Qed.

Lemma parse_part_render r : range_ok r → parse_part (str (render_range r)) = Ok (Some r).
Proof.
  destruct r as [lo hi]. unfold range_ok, render_range, parse_part. simpl. intros Hr.
  assert ((dash ∉ itoa lo) ∧ (dash ∉ itoa hi)) as [Hl _].
  { unfold itoa. rewrite !(proj2 (Z.ltb_ge _ _)) by lia.
    assert (∀ n, 0 ≤ n → dash ∉ utoa (S (Z.to_nat (Z.log2 n))) n) as Hu.
    { intros n Hn Hin. pose proof (utoa_digits (S (Z.to_nat (Z.log2 n))) n Hn) as HF.
      rewrite Forall_forall in HF. by specialize (HF _ Hin). }
    split; apply Hu; lia. }
  rewrite TrimSpace_plain.
  2:{ apply Forall_app; split; [apply itoa_plain|]. constructor; [done|apply itoa_plain]. }
  replace (String.eqb _ "") with false.
  2:{ symmetry. apply String.eqb_neq. intros E%(f_equal bs). rewrite bs_str in E.
      by destruct (itoa lo). }
  rewrite bs_str, cut_app by done. rewrite !TrimSpace_plain by apply itoa_plain.
  fold (Itoa lo) (Itoa hi). rewrite !Atoi_Itoa by (unfold in_i64; lia).
  by replace (_ || _) with false by lia.
Qed.

(** The ranges returned are never empty, each within 1-65535 and ordered;
    and every such list of ranges, written as ["lo-hi,lo-hi,..."], is parsed back
    to itself. *)
Theorem parsePortRanges_spec :
  (∀ s rs, parsePortRanges s = Ok rs → rs ≠ [] ∧ Forall range_ok rs) ∧
  (∀ rs, rs ≠ [] → Forall range_ok rs →
     parsePortRanges (str (join_on comma (render_range <$> rs))) = Ok rs).
Proof.
  split.
  - unfold parsePortRanges. intros s rs H. inv_ok.
    match goal with H : mapM _ _ = Ok ?p |- _ => apply mapM_ok_Forall2 in H as HF; clear H end.
    destruct (omap id v) as [|r0 l0] eqn:E; [done|]. injection H as <-. rewrite <- E.
    split; [by rewrite E|]. clear -HF. induction HF as [|x [r|] l k Hx HF IH]; simpl; [done| |done].
    constructor; [by eapply parse_part_ok|done].
  - intros rs Hne HF. unfold parsePortRanges, Split. rewrite bs_str, split_join.
    + assert (mapM parse_part (str <$> (render_range <$> rs)) = Ok (Some <$> rs)) as ->.
      { clear Hne. induction HF as [|r rs Hr HF IH]; [done|].
        cbn [fmap list_fmap mapM]. rewrite parse_part_render by done. simpl. by rewrite IH. }
      simpl. assert (omap id (Some <$> rs) = rs) as -> 
        by (clear; induction rs as [|r rs IH]; [done|]; simpl; f_equal; exact IH).
      by destruct rs.
    + by destruct rs.
    + apply Forall_fmap, Forall_true. intros [lo hi]. unfold render_range. simpl.
      rewrite not_elem_of_app, not_elem_of_cons. split_and!; [by apply itoa_not_elem|done|by apply itoa_not_elem].
Qed.

Lemma parsePortRanges_spec_witness :
  parsePortRanges (str (join_on comma (render_range <$> [(1, 21); (23, 65535)]))) =
    Ok [(1, 21); (23, 65535)] ∧
  Forall range_ok [(443, 443); (2000, 3000)].
Proof.
  split.
  - apply parsePortRanges_spec; [discriminate|].
    repeat constructor; unfold range_ok; simpl; lia.
  - apply (proj1 parsePortRanges_spec " 443, ,2000 - 3000"). vm_compute. reflexivity.
Defined.
