(* ===== verification/ConfigResolve.v ===== *)
(** [internal/config/upstream.go] and [resolve.go]: the settings and endpoints
    derived from a configuration.

    Parameters: [time.ParseDuration], the interface table of the operating
    system, [net.ParseMAC] and the value drawn by [rand.Intn]. *)

From S2P Require Import Prelude GoStd NetUtil Config.
From Stdlib Require Import Ascii Sorting.Sorted.

Local Open Scope Z_scope.

Definition Millisecond : Z := 1000000.
Definition Second : Z := 1000000000.

Definition StrategyFailover : string := "failover".
Definition StrategyRoundRobin : string := "round_robin".
Definition StrategyWeighted : string := "weighted".
Definition StrategyLeastLatency : string := "least_latency".

Record HealthSettings : Type := mkHealthSettings {
  hs_Interval : Z; hs_Timeout : Z; hs_FailThreshold : Z; hs_RecoverThreshold : Z }.

Section durations.
Context (ParseDuration : string → option Z).

Definition parseDuration (raw : string) (fallback : Z) : Z :=
  let raw := TrimSpace raw in
  if String.eqb raw "" then fallback else default fallback (ParseDuration raw).

Definition UpstreamConfig_HealthSettings (u : UpstreamConfig) : HealthSettings :=
  let hc := up_HealthCheck u in
  mkHealthSettings
    (parseDuration (hc_Interval hc) (10 * Second))
    (parseDuration (hc_Timeout hc) (3 * Second))
    (if hc_FailThreshold hc <? 1 then 3 else hc_FailThreshold hc)
    (if hc_RecoverThreshold hc <? 1 then 2 else hc_RecoverThreshold hc).

(** upstream/manager.go, [defaultHealth]. *)
Definition defaultHealth (c : Config) : HealthSettings :=
  match cfg_Upstream c with
  | Some u => UpstreamConfig_HealthSettings u
  | None => mkHealthSettings (10 * Second) (3 * Second) 3 2
  end.

Definition UpstreamHealthTimeout (c : Config) : Z :=
  match cfg_Upstream c with
  | Some u => hs_Timeout (UpstreamConfig_HealthSettings u)
  | None => 3 * Second
  end.
End durations.

Definition NormalizedStrategy (u : UpstreamConfig) : string :=
  let s := ToLower (TrimSpace (up_Strategy u)) in
  if bool_decide (s ∈ [StrategyRoundRobin; "round-robin"%string]) then StrategyRoundRobin
  else if bool_decide (s ∈ [StrategyWeighted; "weight"%string]) then StrategyWeighted
  else if bool_decide (s ∈ [StrategyLeastLatency; "least-latency"%string; "latency"%string])
  then StrategyLeastLatency
  else StrategyFailover.

Definition UpstreamStrategy (c : Config) : string :=
  match cfg_Upstream c with Some u => NormalizedStrategy u | None => StrategyFailover end.

(** ** Endpoints *)

Record UpstreamEndpoint : Type := mkEndpoint {
  ep_Name : string; ep_Addr : UDPAddr; ep_Key : string;
  ep_Weight : Z; ep_Priority : Z; ep_Transport : TransportConfig }.

Inductive endpoint_error : Type :=
| BadServerAddr (i : nat) (e : netutil_error)
| BadAddr (e : netutil_error)
| NoUpstream.

Definition TransportForKey (c : Config) (key : string) : TransportConfig :=
  if String.eqb key "" then cfg_Transport c else set_Key key (cfg_Transport c).

Definition server_key (base : TransportConfig) (s : UpstreamServer) : string :=
  let key := TrimSpace (us_Key s) in
  if String.eqb key "" then kcp_Key (tr_KCP base) else key.

(** The loop body of [UpstreamEndpoints]. *)
Definition make_endpoint (base : TransportConfig) (i : nat) (s : UpstreamServer) :
    result endpoint_error UpstreamEndpoint :=
  addr ← wrap_err (BadServerAddr i) (ParseUDPAddr (us_Addr s) false);
  let key := server_key base s in
  Ok (mkEndpoint (server_name i s) addr key
        (if us_Weight s <? 1 then 1 else us_Weight s)
        (if us_Priority s <? 1 then Z.of_nat i + 1 else us_Priority s)
        (set_Key key (mergeTransport base (us_Transport s)))).

(** The comparison given to [sort.SliceStable]. *)
Definition ep_less (a b : UpstreamEndpoint) : bool :=
  if ep_Priority a =? ep_Priority b then String.ltb (ep_Name a) (ep_Name b)
  else ep_Priority a <? ep_Priority b.

(** [sort.SliceStable]: the stable sort for [less]. *)
Section stable_sort.
Context {A : Type} (less : A → A → bool).

Fixpoint insert_stable (x : A) (l : list A) : list A :=
  match l with
  | [] => [x]
  | y :: l' => if less y x then y :: insert_stable x l' else x :: l
  end.

Definition SliceStable (l : list A) : list A := foldr insert_stable [] l.
End stable_sort.

Definition UpstreamEndpoints (c : Config) : result endpoint_error (list UpstreamEndpoint) :=
  match upstream_servers c with
  | (_ :: _) as servers =>
      out ← mapMi (make_endpoint (cfg_Transport c)) servers;
      Ok (SliceStable ep_less out)
  | [] =>
      if server_addr_set c then
        addr ← wrap_err BadAddr (ParseUDPAddr (default ""%string (cfg_ServerAddr c)) false);
        Ok [mkEndpoint "default" addr (kcp_Key (tr_KCP (cfg_Transport c))) 1 1 (cfg_Transport c)]
      else Err NoUpstream
  end.

Definition UpstreamNames (c : Config) : list string :=
  match UpstreamEndpoints c with Ok eps => ep_Name <$> eps | Err _ => [] end.

(** ** Network (resolve.go) *)

Definition defaultPCAPClientBuf : Z := 4 * 1024 * 1024.
Definition defaultPCAPServerBuf : Z := 8 * 1024 * 1024.

Record NetworkRuntime : Type := mkNetworkRuntime {
  nr_Interface : string; nr_IPv4 : UDPAddr; nr_RouterMAC : list Z;
  nr_IPv6 : option (UDPAddr * list Z);   (* IPv6 and IPv6RouterMAC *)
  nr_Port : Z; nr_LocalFlags : list TCPFlagSet; nr_RemoteFlags : list TCPFlagSet;
  nr_Sockbuf : Z }.

Inductive resolve_error : Type :=
| NoInterface | BadIPv4 (e : netutil_error) | BadMAC | BadLocalFlag (e : netutil_error)
| BadRemoteFlag (e : netutil_error) | BadIPv6 (e : netutil_error) | BadMAC6
| BadLocalAddr (e : addr_error).

Section resolve.
(** The system's interfaces, [net.ParseMAC], and [rand.Intn(32768)]. *)
Context (InterfaceByName : string → bool) (ParseMAC : string → option (list Z)) (rnd : Z).

Definition resolve_ipv6 (c : Config) (allowZero : bool) (port4 : Z) :
    result resolve_error (option (UDPAddr * list Z)) :=
  match nw_IPv6 (cfg_Network c) with
  | Some v6 =>
      if blank (ip_Addr v6) then Ok None else
      ipv6 ← wrap_err BadIPv6 (ParseUDPAddr (ip_Addr v6) allowZero);
      let ipv6 := if udp_port ipv6 =? 0 then mkUDPAddr (udp_ip ipv6) port4 else ipv6 in
      mac ← of_option BadMAC6 (ParseMAC (ip_RouterMAC v6));
      Ok (Some (ipv6, mac))
  | None => Ok None
  end.

Definition ResolveNetwork (c : Config) : result resolve_error NetworkRuntime :=
  let n := cfg_Network c in
  _ ← fail_if (negb (InterfaceByName (nw_Interface n))) NoInterface;
  let allowZero := String.eqb (cfg_Role c) RoleClient in
  ipv4 ← wrap_err BadIPv4 (ParseUDPAddr (ip_Addr (nw_IPv4 n)) allowZero);
  let ipv4 := if udp_port ipv4 =? 0 then mkUDPAddr (udp_ip ipv4) (32768 + rnd) else ipv4 in
  mac ← of_option BadMAC (ParseMAC (ip_RouterMAC (nw_IPv4 n)));
  localFlags ← wrap_err BadLocalFlag (ParseTCPFlags (tf_LocalFlag (nw_TCP n)) "PA");
  remoteFlags ← wrap_err BadRemoteFlag (ParseTCPFlags (tf_RemoteFlag (nw_TCP n)) "PA");
  v6 ← resolve_ipv6 c allowZero (udp_port ipv4);
  Ok (mkNetworkRuntime (nw_Interface n) ipv4 mac v6 (udp_port ipv4) localFlags remoteFlags
        (if String.eqb (cfg_Role c) RoleServer then defaultPCAPServerBuf else defaultPCAPClientBuf)).

(** [fmt.Sprintf("%s:%d", host, port)] replaces the configured port. *)
Definition ResolveNetworkWithPort (c : Config) (port : Z) : result resolve_error NetworkRuntime :=
  let n := cfg_Network c in
  addr ← (if port >? 0 then
            '(host, _) ← wrap_err BadLocalAddr (SplitHostPort (ip_Addr (nw_IPv4 n)));
            Ok (host +:+ ":" +:+ Itoa port)
          else Ok (ip_Addr (nw_IPv4 n)));
  ResolveNetwork (set_Network (mkNetworkConfig (nw_Interface n)
    (mkIPConfig addr (ip_RouterMAC (nw_IPv4 n))) (nw_IPv6 n) (nw_TCP n)) c).
End resolve.

Inductive remote_error : Type := RemoteAddr (e : netutil_error) | NoRemote | NoListen.

Definition RemoteServerAddr (c : Config) : result remote_error UDPAddr :=
  if server_addr_set c then
    wrap_err RemoteAddr (ParseUDPAddr (default ""%string (cfg_ServerAddr c)) false)
  else match upstream_servers c with
       | s :: _ => wrap_err RemoteAddr (ParseUDPAddr (us_Addr s) false)
       | [] => Err NoRemote
       end.

Definition ListenUDPAddr (c : Config) : result remote_error UDPAddr :=
  match cfg_ListenAddr c with
  | None => Err NoListen
  | Some l =>
      let addr := TrimSpace l in
      let addr := if HasPrefix addr ":" then "0.0.0.0" +:+ addr else addr in
      wrap_err RemoteAddr (ParseUDPAddr addr false)
  end.

(** ** The stable sort *)

Section stable_sort_laws.
Context {A : Type} (less : A → A → bool).
(** [le a b]: [b] is not strictly before [a]. *)
Definition sle (a b : A) : Prop := less b a = false.
Context (less_asym : ∀ a b, less a b = true → less b a = false)
        (sle_trans : ∀ a b c, sle a b → sle b c → sle a c).

Lemma insert_stable_perm x l : insert_stable less x l ≡ₚ x :: l.
Proof.
  induction l as [|y l IH]; simpl; [done|]. destruct (less y x); [|done].
  by rewrite IH, Permutation_swap.
Qed.

Lemma SliceStable_perm l : SliceStable less l ≡ₚ l.
Proof.
  induction l as [|x l IH]; simpl; [done|]. by rewrite insert_stable_perm, IH.
Qed.

Lemma insert_stable_sorted x l :
  StronglySorted sle l → StronglySorted sle (insert_stable less x l).
Proof.
  induction 1 as [|y l Hl IH Hy]; simpl; [repeat constructor|].
  destruct (less y x) eqn:E.
  - constructor; [done|]. rewrite insert_stable_perm. constructor; [|done].
    by apply less_asym.
  - constructor; [by constructor|]. constructor; [done|].
    eapply Forall_impl; [exact Hy|]. simpl. intros z. by apply sle_trans.
Qed.

Lemma SliceStable_sorted l : StronglySorted sle (SliceStable less l).
Proof. induction l; simpl; [constructor|by apply insert_stable_sorted]. Qed.

(** Elements of one rank keep their order. *)
Definition same_rank (a b : A) : bool := negb (less a b) && negb (less b a).

Lemma insert_stable_filter r x l :
  (∀ y, same_rank r x = true → same_rank r y = true → less y x = false) →
  List.filter (same_rank r) (insert_stable less x l) = List.filter (same_rank r) (x :: l).
Proof.
  intros Hr. induction l as [|y l IH]; [done|]. cbn [insert_stable].
  destruct (less y x) eqn:E; [|done]. cbn [List.filter] in *. rewrite IH.
  destruct (same_rank r x) eqn:Hx; [|done].
  destruct (same_rank r y) eqn:Hy; [|done]. by rewrite (Hr y) in E.
Qed.

Lemma SliceStable_filter r l :
  List.filter (same_rank r) (SliceStable less l) = List.filter (same_rank r) l.
Proof.
  induction l as [|x l IH]; [done|]. change (SliceStable less (x :: l)) with
    (insert_stable less x (SliceStable less l)).
  rewrite insert_stable_filter; [cbn [List.filter]; by rewrite IH|].
  unfold same_rank. intros y. rewrite !andb_true_iff, !negb_true_iff.
  intros [Hrx _] [_ Hyr]. by apply (sle_trans x r y).
Qed.
End stable_sort_laws.

Lemma ascii_compare_trans a b c :
  Ascii.compare a b ≠ Gt → Ascii.compare b c ≠ Gt → Ascii.compare a c ≠ Gt ∧
  (Ascii.compare a c = Eq → Ascii.compare a b = Eq ∧ Ascii.compare b c = Eq).
Proof.
  unfold Ascii.compare. intros.
  rewrite ?N.compare_eq_iff, ?N.compare_gt_iff in *. lia.
Qed.

Lemma string_compare_trans s t u :
  String.compare s t ≠ Gt → String.compare t u ≠ Gt → String.compare s u ≠ Gt.
Proof.
  revert t u; induction s as [|a s IH]; intros [|b t] [|c u]; simpl; try done.
  pose proof (ascii_compare_trans a b c) as H.
  destruct (Ascii.compare a b) eqn:Hab, (Ascii.compare b c) eqn:Hbc; intros H1 H2; try done;
    destruct (Ascii.compare a c) eqn:Hac; try done; try naive_solver.
Qed.

Lemma string_ltb_false s t : String.ltb s t = false ↔ String.compare t s ≠ Gt.
Proof.
  unfold String.ltb. rewrite (String.compare_antisym t s).
  by destruct (String.compare s t); split.
Qed.

Lemma string_ltb_asym s t : String.ltb s t = true → String.ltb t s = false.
Proof.
  unfold String.ltb. rewrite (String.compare_antisym t s).
  by destruct (String.compare s t).
Qed.

Lemma ep_less_asym a b : ep_less a b = true → ep_less b a = false.
Proof.
  unfold ep_less. destruct (Z.eqb_spec (ep_Priority a) (ep_Priority b)) as [->|Hne].
  - rewrite Z.eqb_refl. apply string_ltb_asym.
  - rewrite (proj2 (Z.eqb_neq _ _)) by done. lia.
Qed.

Lemma ep_sle_trans a b c : sle ep_less a b → sle ep_less b c → sle ep_less a c.
Proof.
  unfold sle, ep_less.
  destruct (Z.eqb_spec (ep_Priority b) (ep_Priority a)), (Z.eqb_spec (ep_Priority c) (ep_Priority b)),
    (Z.eqb_spec (ep_Priority c) (ep_Priority a)); try lia.
  rewrite !string_ltb_false. apply string_compare_trans.
Qed.

(** ** Endpoints *)

Lemma make_endpoint_ok base i s e :
  make_endpoint base i s = Ok e →
  ep_Name e = server_name i s ∧ ep_Key e = server_key base s ∧ 1 ≤ ep_Weight e ∧
  1 ≤ ep_Priority e ∧ 0 < udp_port (ep_Addr e) ≤ 65535 ∧
  ep_Transport e = set_Key (server_key base s) (mergeTransport base (us_Transport s)).
Proof.
  unfold make_endpoint. intros H. inv_ok. simpl.
  match goal with H : ParseUDPAddr _ _ = _ |- _ =>
    apply ParseUDPAddr_inv in H as (? & ? & ? & _ & _ & _ & _ & Hr & Hz) end.
  split_and!; try done.
  - destruct (Z.ltb_spec (us_Weight s) 1); lia.
  - destruct (Z.ltb_spec (us_Priority s) 1); lia.
  - destruct (decide (udp_port v = 0)) as [E|]; [by specialize (Hz E)|lia].
  - lia.
Qed.

(** The endpoints in configuration order, before sorting. *)
Definition endpoints_of (c : Config) (out : list UpstreamEndpoint) : Prop :=
  mapMi (make_endpoint (cfg_Transport c)) (upstream_servers c) = Ok out.

Lemma UpstreamEndpoints_inv c eps :
  UpstreamEndpoints c = Ok eps →
  (upstream_servers c ≠ [] ∧ ∃ out, endpoints_of c out ∧ eps = SliceStable ep_less out) ∨
  (upstream_servers c = [] ∧ server_addr_set c = true ∧ ∃ addr,
    eps = [mkEndpoint "default" addr (kcp_Key (tr_KCP (cfg_Transport c))) 1 1 (cfg_Transport c)]).
Proof.
  unfold UpstreamEndpoints, endpoints_of. destruct (upstream_servers c) as [|s l] eqn:Hs.
  - destruct (server_addr_set c); [|done]. intros H. inv_ok. right. split; [done|]. split; [done|]. by eexists.
  - intros H. inv_ok. left. split; [done|]. eexists. split; [eassumption|done].
Qed.

Lemma endpoints_names c out :
  endpoints_of c out → ep_Name <$> out = imap server_name (upstream_servers c).
Proof.
  intros [Hlen Hk]%mapMi_ok. apply list_eq. intros i.
  rewrite list_lookup_fmap, list_lookup_imap.
  destruct (upstream_servers c !! i) as [s|] eqn:Hs; simpl.
  - destruct (Hk _ _ Hs) as (e & -> & He%make_endpoint_ok). simpl. f_equal. apply He.
  - rewrite lookup_ge_None_2; [done|]. rewrite Hlen. by apply lookup_ge_None.
Qed.

(** Rank order, written out. *)
Definition ranked (a b : UpstreamEndpoint) : Prop :=
  ep_Priority a < ep_Priority b ∨
  (ep_Priority a = ep_Priority b ∧ String.compare (ep_Name a) (ep_Name b) ≠ Gt).

Definition equal_rank (a b : UpstreamEndpoint) : bool :=
  bool_decide (ep_Priority a = ep_Priority b ∧ ep_Name a = ep_Name b).

Lemma sle_ranked a b : sle ep_less a b ↔ ranked a b.
Proof.
  unfold sle, ranked, ep_less. rewrite Z.eqb_sym.
  destruct (Z.eqb_spec (ep_Priority a) (ep_Priority b)) as [E|E].
  - rewrite string_ltb_false. split; [by right|]. intros [?|[_ ?]]; [lia|done].
  - split; [intros; left; lia|intros [?|[? _]]; lia].
Qed.

Lemma same_rank_equal r e : same_rank ep_less r e = equal_rank r e.
Proof.
  apply eq_true_iff_eq. unfold equal_rank. rewrite bool_decide_eq_true. unfold same_rank.
  rewrite andb_true_iff, !negb_true_iff. fold (sle ep_less e r) (sle ep_less r e).
  rewrite !sle_ranked. unfold ranked. split.
  - intros [[?|[E1 H1]] [?|[E2 H2]]]; try lia. split; [done|].
    apply String.compare_eq_iff. rewrite String.compare_antisym in H1.
    by destruct (String.compare (ep_Name r) (ep_Name e)).
  - intros [E1 E2]. rewrite E1, E2. assert (∀ s, String.compare s s ≠ Gt) as Hrefl.
    { intros s E. pose proof (String.compare_antisym s s) as E'. by rewrite E in E'. }
    split; right; split; [done|apply Hrefl|done|apply Hrefl].
Qed.

(** The endpoints are the configured servers, none lost or duplicated,
    ordered by priority and then name, and servers of equal rank keep their
    configuration order. *)
Theorem UpstreamEndpoints_sorted c eps
    (Hs : upstream_servers c ≠ []) (H : UpstreamEndpoints c = Ok eps) :
  ∃ out, endpoints_of c out ∧ eps ≡ₚ out ∧ StronglySorted ranked eps ∧
    ∀ r, List.filter (equal_rank r) eps = List.filter (equal_rank r) out.
Proof.
  apply UpstreamEndpoints_inv in H as [(_ & out & Hout & ->)|[? _]]; [|done].
  exists out. split; [done|]. split; [apply SliceStable_perm|]. split.
  - pose proof (SliceStable_sorted ep_less ep_less_asym ep_sle_trans out) as Hss.
    induction Hss as [|e l _ IH Hf]; constructor; [done|].
    eapply Forall_impl; [exact Hf|]. intros b. apply sle_ranked.
  - intros r. rewrite <- !(List.filter_ext _ _ (same_rank_equal r)).
    apply SliceStable_filter, ep_sle_trans.
Qed.

Definition sample_endpoints : result endpoint_error (list UpstreamEndpoint) :=
  UpstreamEndpoints sample_client.

Lemma UpstreamEndpoints_sorted_witness :
  ∃ eps out, sample_endpoints = Ok eps ∧ endpoints_of sample_client out ∧ eps ≡ₚ out.
Proof.
  destruct sample_endpoints as [eps|] eqn:E; [|vm_compute in E; discriminate E].
  exists eps.
  destruct (UpstreamEndpoints_sorted sample_client eps) as (out & H1 & H2 & _);
    [vm_compute; discriminate|exact E|].
  exists out. done.
Defined.

(** The names that [bind_upstream] may refer to are exactly the names of the
    endpoints the client dials. *)
Theorem upstreamNameSet_endpoints c eps (H : UpstreamEndpoints c = Ok eps) :
  upstreamNameSet c = list_to_set (ep_Name <$> eps).
Proof.
  apply UpstreamEndpoints_inv in H as [(Hne & out & Hout & ->)|(He & Ha & addr & ->)].
  - unfold upstreamNameSet. destruct (upstream_servers c) as [|s l] eqn:Hs; [done|].
    rewrite <- Hs, <- (endpoints_names c out) by done.
    apply leibniz_equiv. rewrite SliceStable_perm. done.
  - unfold upstreamNameSet. rewrite He, Ha. simpl. apply leibniz_equiv. set_solver.
Qed.

Lemma upstreamNameSet_endpoints_witness :
  ∃ eps, sample_endpoints = Ok eps ∧ upstreamNameSet sample_client = list_to_set (ep_Name <$> eps).
Proof.
  destruct sample_endpoints as [eps|] eqn:E; [|vm_compute in E; discriminate E].
  exists eps. split; [done|]. by apply upstreamNameSet_endpoints.
Defined.

(** ** Validation is sufficient for the endpoints *)

Lemma set_Key_same t : set_Key (kcp_Key (tr_KCP t)) t = t.
Proof. by destruct t as [? ? [] ?]. Qed.

Lemma validateTransport_set_Key k k' t l l' :
  blank k = blank k' →
  is_ok (validateTransport (set_Key k t) l) = is_ok (validateTransport (set_Key k' t) l').
Proof.
  intros Hk. destruct t as [protocol conn [mode block key mtu ds ps sw rw] [alpn idle maxidle]].
  unfold validateTransport, set_Key. rewrite Hk.
  destruct (if String.eqb (ToLower (TrimSpace protocol)) "" then _ else _) as [proto prot].
  repeat match goal with |- context [fail_if ?b _] => destruct b; [done|]; cbn [fail_if mbind result_bind] end.
  destruct (String.eqb proto "kcp"); [|done].
  repeat match goal with |- context [fail_if ?b _] => destruct b; [done|]; cbn [fail_if mbind result_bind] end.
  done.
Qed.

Lemma blank_trim s : blank (TrimSpace s) = blank s.
Proof. unfold blank. by rewrite TrimSpace_idemp. Qed.

Lemma server_key_blank base s :
  blank (us_Key s) = false → server_key base s = TrimSpace (us_Key s) ∧
  blank (server_key base s) = false.
Proof.
  intros Hb. unfold server_key. cbv zeta. unfold blank in Hb at 1. rewrite Hb.
  split; [done|]. by rewrite blank_trim.
Qed.

Lemma transport_valid_ok t l : transport_valid t → is_ok (validateTransport t l) = true.
Proof. intros H. by rewrite (validateTransport_fixed t l H). Qed.

Lemma server_transport_ok base i s l :
  transport_valid base → validate_server base i s = Ok tt →
  is_ok (validateTransport
    (set_Key (server_key base s) (mergeTransport base (us_Transport s))) l) = true.
Proof.
  unfold validate_server. intros Hv H. inv_ok.
  match goal with H : blank (us_Key s) = false |- _ =>
    rename H into Hkey; destruct (server_key_blank base s Hkey) as [Hsk Hskb] end.
  destruct (us_Transport s) as [o|] eqn:Ho.
  - inv_ok. rewrite Hkey in *.
    rewrite (validateTransport_set_Key _ (us_Key s) _ _ (LUpstream (server_name i s)))
      by by rewrite Hskb, Hkey.
    by eapply is_ok_Ok.
  - simpl. destruct Hv as (H1 & H2 & H3).
    rewrite (validateTransport_set_Key _ (kcp_Key (tr_KCP base)) _ _ l) by by rewrite Hskb, H2.
    rewrite set_Key_same. by apply transport_valid_ok.
Qed.

(** After validation every endpoint the client will dial has a transport
    that passes [validateTransport] (overlay and per-server key included), a
    positive weight and priority, and a usable port. *)
Theorem Validate_endpoints_ok c c' eps l
    (Hv : Validate c = Ok c') (He : UpstreamEndpoints c' = Ok eps) :
  Forall (λ e, is_ok (validateTransport (ep_Transport e) l) = true ∧
    1 ≤ ep_Weight e ∧ 1 ≤ ep_Priority e ∧
    (upstream_servers c' ≠ [] → 0 < udp_port (ep_Addr e) ≤ 65535)) eps.
Proof.
  destruct (Validate_valid _ _ Hv) as (_ & Ht & _ & Hup & _).
  apply UpstreamEndpoints_inv in He as [(Hne & out & Hout & ->)|(He & _ & addr & ->)].
  - rewrite SliceStable_perm. apply mapMi_ok in Hout as [Hlen Hout].
    apply Forall_lookup. intros i e Hi.
    destruct (lookup_lt_is_Some_2 (upstream_servers c') i) as [s Hs].
    { rewrite <- Hlen. by eapply lookup_lt_Some. }
    destruct (Hout _ _ Hs) as (e' & He' & Hmk). simplify_eq.
    apply make_endpoint_ok in Hmk as (_ & _ & Hw & Hp & Ha & ->).
    split; [|done]. eapply server_transport_ok; [done|].
    unfold upstream_servers in Hs, Hne. destruct (cfg_Upstream c') as [u|] eqn:Hu; [|done].
    by apply (Hup u).
  - constructor; [|done]. simpl. split; [by apply transport_valid_ok|]. by rewrite He.
Qed.

Lemma Validate_endpoints_ok_witness :
  ∃ c' eps, Validate sample_client = Ok c' ∧ UpstreamEndpoints c' = Ok eps ∧
    Forall (λ e, is_ok (validateTransport (ep_Transport e) LTransport) = true ∧
      1 ≤ ep_Weight e ∧ 1 ≤ ep_Priority e ∧
      (upstream_servers c' ≠ [] → 0 < udp_port (ep_Addr e) ≤ 65535)) eps.
Proof.
  eexists _, _. split; [vm_compute; reflexivity|]. split; [vm_compute; reflexivity|].
  eapply (Validate_endpoints_ok sample_client); vm_compute; reflexivity.
Defined.

(** ** The resolved network *)

Lemma ParseTCPFlags_nonempty fl d fs : ParseTCPFlags fl d = Ok fs → fs ≠ [].
Proof.
  unfold ParseTCPFlags. intros H%mapM_ok_length ->. by destruct fl.
Qed.

Section resolve_laws.
Context (InterfaceByName : string → bool) (ParseMAC : string → option (list Z)) (rnd : Z).
Context (rnd_range : 0 ≤ rnd < 32768).

Lemma ResolveNetwork_ok c rt :
  ResolveNetwork InterfaceByName ParseMAC rnd c = Ok rt →
  nr_Port rt = udp_port (nr_IPv4 rt) ∧ 0 < nr_Port rt ≤ 65535 ∧
  (∃ a, ParseUDPAddr (ip_Addr (nw_IPv4 (cfg_Network c)))
          (String.eqb (cfg_Role c) RoleClient) = Ok a ∧ udp_ip (nr_IPv4 rt) = udp_ip a ∧
     (udp_port a ≠ 0 → nr_Port rt = udp_port a) ∧
     (udp_port a = 0 → cfg_Role c = RoleClient ∧ nr_Port rt = 32768 + rnd)) ∧
  nr_LocalFlags rt ≠ [] ∧ nr_RemoteFlags rt ≠ [] ∧
  (∀ v6 mac, nr_IPv6 rt = Some (v6, mac) → 0 < udp_port v6 ≤ 65535).
Proof.
  unfold ResolveNetwork. intros H. inv_ok. simpl.
  repeat match goal with H : ParseTCPFlags _ _ = Ok _ |- _ => apply ParseTCPFlags_nonempty in H end.
  match goal with H : ParseUDPAddr _ _ = Ok ?a |- _ => rename H into Ha; rename a into a4;
    pose proof (proj1 (ParseUDPAddr_inv _ _ _) Ha) as (? & ? & ? & _ & _ & _ & _ & Hr & Hz) end.
  assert (0 < udp_port (if udp_port a4 =? 0 then mkUDPAddr (udp_ip a4) (32768 + rnd) else a4) ≤ 65535) as Hport.
  { destruct (Z.eqb_spec (udp_port a4) 0); simpl; lia. }
  split_and!; try done; try lia.
  - exists a4. split; [done|]. destruct (Z.eqb_spec (udp_port a4) 0) as [E|E]; simpl.
    + split_and!; try done. intros _. split; [|done]. by apply String.eqb_eq, Hz.
    + by split_and!.
  - intros v6 mac ->.
    match goal with H : resolve_ipv6 _ _ _ _ = _ |- _ => unfold resolve_ipv6 in H; rename H into H6 end.
    destruct (nw_IPv6 (cfg_Network c)) as [c6|]; [|done].
    destruct (blank (ip_Addr c6)); [done|]. inv_ok.
    match goal with H : ParseUDPAddr (ip_Addr c6) _ = Ok ?a |- _ =>
      pose proof (proj1 (ParseUDPAddr_inv _ _ _) H) as (? & ? & ? & _ & _ & _ & _ & Hr6 & _) end.
    simplify_eq. match goal with |- _ < udp_port (if ?b then _ else ?v) ≤ _ =>
      destruct (Z.eqb_spec (udp_port v) 0); simpl; lia end.
Qed.
End resolve_laws.
