(* ===== verification/Transport.v ===== *)
(** [internal/transport]: the options derived from a configuration, the block
    cipher table, the KCP session settings, the pinned TLS identity, and the
    sessions themselves: dialling over KCP or QUIC and closing.

    The protocol libraries (kcp-go, quic-go, smux, the crypto packages) are interfaces:
    [CryptoLib] for what is computed, [Conns] for what acts on the world.  A
    handle is the pointer of a library object or of a pcap connection. *)

From S2P Require Import Prelude GoStd NetUtil Protocol Config ConfigResolve.
From Stdlib Require Import Ascii.

Local Open Scope Z_scope.

Definition ProtocolKCP : string := "kcp".
Definition ProtocolQUIC : string := "quic".

(** ** The libraries that compute *)

(** The constructors named in the table of [NewBlockCrypt]; [nil_block] is the
    function literal that returns a nil cipher. *)
Inductive builder : Type :=
| NewAESBlockCrypt | NewAESGCMCrypt | NewSalsa20BlockCrypt | NewNoneBlockCrypt | nil_block.

#[export] Instance builder_eq_dec : EqDecision builder.
Proof. solve_decision. Defined.

(** The fields of [x509.Certificate] that are set; times are Unix seconds. *)
Record certTemplate : Type := mkTemplate {
  ct_SerialNumber : Z; ct_CommonName : string; ct_NotBefore : Z; ct_NotAfter : Z;
  ct_KeyUsage : Z; ct_ExtKeyUsage : list Z }.

(** A source of randomness is what a read of some bytes at some position yields. *)
Class CryptoLib : Type := {
  BlockCrypt : Type;
  kcp_build : builder → list Z → option BlockCrypt;       (* kcp.New...Crypt; [None]: an error *)
  pbkdf2_Key : list Z → list Z → Z → nat → list Z;         (* password, salt, iterations, length *)
  Sum256 : list Z → list Z;
  ScalarBaseMult : Z → Z * Z;
  CreateCertificate : (nat → nat → list Z) → certTemplate → Z * Z → Z → option (list Z);
                                                            (* randomness, template, public key, scalar *)
  X509KeyPair : list Z → Z → bool }.                       (* encoding and loading the pair *)

(** What the code relies on: the derived key has the requested length, the
    cipher constructors accept the key sizes of their documentation, and a
    digest is 32 bytes. *)
Class CryptoLaws `{CryptoLib} : Prop := {
  pbkdf2_length p s n len : length (pbkdf2_Key p s n len) = len;
  build_aes k : (length k = 16 ∨ length k = 24 ∨ length k = 32)%nat →
    is_Some (kcp_build NewAESBlockCrypt k);
  build_gcm k : (length k = 16 ∨ length k = 24 ∨ length k = 32)%nat →
    is_Some (kcp_build NewAESGCMCrypt k);
  build_salsa k : (length k = 32)%nat → is_Some (kcp_build NewSalsa20BlockCrypt k);
  build_none k : is_Some (kcp_build NewNoneBlockCrypt k);
  Sum256_bytes m : length (Sum256 m) = 32%nat ∧ Forall is_byte (Sum256 m) }.

Inductive transport_error : Type :=
| KeyRequired | UnsupportedBlock (block : string) | BlockError
| UnsupportedProtocol (proto : string)
| TLSError | KCPDial | QUICDial | QUICStream | SmuxError.

(** The bytes of a Go string. *)
Definition bytes_of (s : string) : list Z := code <$> bs s.

Section options.
Context `{CryptoLib}.

(** ** kcp.go *)

Definition kcpSalt : string := "paqet".

Definition block_table : list (string * (nat * builder)) :=
  [("aes"%string, (0, NewAESBlockCrypt));
   ("aes-128"%string, (16, NewAESBlockCrypt));
   ("aes-128-gcm"%string, (16, NewAESGCMCrypt));
   ("aes-192"%string, (24, NewAESBlockCrypt));
   ("salsa20"%string, (0, NewSalsa20BlockCrypt));
   ("aes-256"%string, (32, NewAESBlockCrypt));
   ("none"%string, (0, NewNoneBlockCrypt));
   ("null"%string, (0, nil_block))]%nat.

Fixpoint table_lookup {A} (k : string) (t : list (string * A)) : option A :=
  match t with
  | [] => None
  | (k', v) :: t => if String.eqb k k' then Some v else table_lookup k t
  end.

Definition derived_key (key : string) : list Z :=
  pbkdf2_Key (bytes_of key) (bytes_of kcpSalt) 100000 32.

(** The part of the derived key handed to the constructor. *)
Definition key_material (keyLen : nat) (derived : list Z) : list Z :=
  if (0 <? keyLen)%nat && (keyLen <=? length derived)%nat then take keyLen derived else derived.

(** [Ok None] is a nil cipher. *)
Definition NewBlockCrypt (block key : string) : result transport_error (option BlockCrypt) :=
  match table_lookup block block_table with
  | None => Err (UnsupportedBlock block)
  | Some (keyLen, build) =>
      match build with
      | nil_block => Ok None
      | _ => Some <$> of_option BlockError (kcp_build build (key_material keyLen (derived_key key)))
      end
  end.

(** ** options.go *)

Record KCPOptions : Type := mkKCPOptions {
  ko_Block : option BlockCrypt; ko_Mode : string; ko_MTU : Z; ko_SndWnd : Z; ko_RcvWnd : Z;
  ko_DataShard : Z; ko_ParityShard : Z }.

Record QUICOptions : Type := mkQUICOptions {
  qo_ALPN : string; qo_IdleTimeout : Z; qo_MaxIdleTimeout : Z }.

Record Options : Type := mkOptions {
  opt_Protocol : string; opt_SecretKey : string; opt_KCP : KCPOptions; opt_QUIC : QUICOptions;
  opt_SmuxBuf : Z; opt_StreamBuf : Z }.

Definition zero_KCP : KCPOptions := mkKCPOptions None "" 0 0 0 0 0.

Context (ParseDuration : string → option Z).

Definition kcp_options (role : string) (k : KCPConfig) (key : string) :
    result transport_error KCPOptions :=
  let dflt := if String.eqb role RoleServer then 1024 else 512 in
  block ← NewBlockCrypt (kcp_Block k) key;
  let mode := TrimSpace (kcp_Mode k) in
  Ok (mkKCPOptions block (if String.eqb mode "" then "fast"%string else mode)
        (if kcp_MTU k <=? 0 then 1150 else kcp_MTU k)
        (if kcp_SndWnd k >? 0 then kcp_SndWnd k else dflt)
        (if kcp_RcvWnd k >? 0 then kcp_RcvWnd k else dflt)
        (kcp_DataShard k) (kcp_ParityShard k)).

(** [parseDuration] of options.go. *)
Definition opt_duration (raw : string) (fallback : Z) : Z :=
  let raw := TrimSpace raw in
  if String.eqb raw "" then fallback else default fallback (ParseDuration raw).

Definition OptionsFromConfig (role : string) (t : TransportConfig) :
    result transport_error Options :=
  let proto := ToLower (TrimSpace (tr_Protocol t)) in
  let proto := if String.eqb proto "" then ProtocolKCP else proto in
  let key := TrimSpace (kcp_Key (tr_KCP t)) in
  _ ← fail_if (String.eqb key "") KeyRequired;
  let alpn := TrimSpace (quic_ALPN (tr_QUIC t)) in
  let quic := mkQUICOptions (if String.eqb alpn "" then "paqetpremium"%string else alpn)
                (opt_duration (quic_IdleTimeout (tr_QUIC t)) (30 * Second))
                (opt_duration (quic_MaxIdleTimeout (tr_QUIC t)) (60 * Second)) in
  let opt kcp := mkOptions proto key kcp quic (4 * 1024 * 1024) (2 * 1024 * 1024) in
  if String.eqb proto ProtocolKCP then
    kcp ← kcp_options role (tr_KCP t) key; Ok (opt kcp)
  else if String.eqb proto ProtocolQUIC then Ok (opt zero_KCP)
  else Err (UnsupportedProtocol proto).

(** The calls [ApplyKCP] makes on the session, in order. *)
Record kcp_settings : Type := mkKCPSettings {
  set_NoDelay : Z * Z * Z * Z; set_WindowSize : Z * Z; set_Mtu : Z;
  set_WriteDelay : bool; set_ACKNoDelay : bool; set_DSCP : Z }.

Definition ApplyKCP (opt : Options) : kcp_settings :=
  let k := opt_KCP opt in
  let '(nodelay, wDelay, ackNoDelay) :=
    if String.eqb (ko_Mode k) "normal" then ((0, 40, 2, 1), true, false)
    else if String.eqb (ko_Mode k) "fast2" then ((1, 20, 2, 1), false, true)
    else if String.eqb (ko_Mode k) "fast3" then ((1, 10, 2, 1), false, true)
    else ((0, 30, 2, 1), true, false) in
  mkKCPSettings nodelay (ko_SndWnd k, ko_RcvWnd k) (ko_MTU k) wDelay ackNoDelay 46.

(** ** tlskey.go *)

Definition p256_N : Z :=
  0xffffffff00000000ffffffffffffffffbce6faada7179e84f3b9cac2fc632551.

Definition deriveScalar (seed : list Z) (n : Z) : Z := be_decode seed mod (n - 1) + 1.

(** [constReader.Read] into a buffer of [n] bytes. *)
Definition constReader_Read (c : Z) (n : nat) : list Z := replicate n c.

(** The serial number 1, valid from 1970 to 2100; digital signature and key
    encipherment, server and client authentication. *)
Definition cert_template : certTemplate :=
  mkTemplate 1 "paqetpremium" 0 4102444800 (Z.lor 1 4) [1; 2].

(** The leaf certificate and the private scalar.  The library's
    [MaybeReadByte] first reads [skip] bytes, none or one. *)
Definition deriveCert_skip (skip : nat) (secret : string) : option (list Z * Z) :=
  let seed := Sum256 (bytes_of (secret +:+ ":paqetpremium-quic-v1")) in
  let d := deriveScalar seed p256_N in
  let reader (pos n : nat) := constReader_Read (default 0 (head seed)) n in
  der ← CreateCertificate (λ pos, reader (skip + pos)%nat) cert_template (ScalarBaseMult d) d;
  if X509KeyPair der d then Some (der, d) else None.

Definition deriveCert : string → option (list Z * Z) := deriveCert_skip 0.

Inductive pin_error : Type := NoCertificate | WrongCertificate.

Definition pinnedVerify (expected : list Z) (rawCerts : list (list Z)) : result pin_error unit :=
  match rawCerts with
  | [] => Err NoCertificate
  | c :: _ => if bool_decide (c = expected) then Ok tt else Err WrongCertificate
  end.

Record tlsConfig : Type := mkTLS {
  tls_NextProtos : list string; tls_Certificates : list (list Z);
  tls_RequireClientCert : bool; tls_InsecureSkipVerify : bool;
  tls_Verify : list (list Z) → result pin_error unit }.

Definition tlsConfigFromSecret (secret alpn : string) (server : bool) : option tlsConfig :=
  '(der, _) ← deriveCert secret;
  Some (mkTLS [alpn] [der] server (negb server) (pinnedVerify der)).
End options.

(** ** Sessions (session.go, quic.go) *)

Record smux_config : Type := mkSmuxConfig {
  sm_Version : Z; sm_KeepAliveInterval : Z; sm_KeepAliveTimeout : Z; sm_MaxFrameSize : Z;
  sm_MaxReceiveBuffer : Z; sm_MaxStreamBuffer : Z }.

Record quic_config : Type := mkQConfig {
  qc_MaxIdleTimeout : Z; qc_KeepAlivePeriod : Z; qc_EnableDatagrams : bool }.

(** The handles a session holds; [None] is nil. *)
Record Session : Type := mkSession {
  PacketConn : option nat; KCP : option nat; quicTr : option nat; quicConn : option nat;
  quicStream : option nat; Smux : option nat }.

#[export] Instance Session_eq_dec : EqDecision Session.
Proof. solve_decision. Defined.

(** What the libraries do to the world [W]; [None] is an error. *)
Class Conns (W : Type) `{CryptoLib} : Type := {
  PcapOpen : NetworkRuntime → W → W * option nat;
  SetRemoteTCPFlags : nat → UDPAddr → list TCPFlagSet → W → W;
  kcp_NewConn : UDPAddr → option BlockCrypt → Z → Z → nat → W → W * option nat;
  kcp_configure : nat → kcp_settings → W → W;
  quic_NewTransport : nat → W → W * nat;
  quic_Dial : nat → UDPAddr → tlsConfig → quic_config → W → W * option nat;
  quic_OpenStreamSync : nat → W → W * option nat;
  smux_Client : nat → smux_config → W → W * option nat;
  conn_Close : nat → W → W }.

Section sessions.
Context {W : Type} `{Conns W}.

Definition maxDatagramPayload : Z := 1180 - 8.

Definition DatagramsOK (s : Session) : bool := bool_decide (is_Some (quicConn s)).

Definition MaxDatagramPayload (s : Session) : Z := maxDatagramPayload.

(** [RemoteAddr]: the address kept in the session, or that of its connection. *)
Definition Session_RemoteAddr {A} (kept : option A) (kcp_addr quic_addr : nat → option A) (s : Session) : option A :=
  match kept, KCP s, quicConn s with
  | Some a, _, _ => Some a
  | None, Some k, _ => kcp_addr k
  | None, None, Some q => quic_addr q
  | None, None, None => None
  end.

Definition close_opt (h : option nat) (w : W) : W :=
  match h with Some h => conn_Close h w | None => w end.

Definition Session_Close (s : Session) (w : W) : W :=
  let w := close_opt (Smux s) w in
  let w := close_opt (quicStream s) w in
  let w := close_opt (quicConn s) w in
  let w := close_opt (quicTr s) w in
  let w := close_opt (KCP s) w in
  close_opt (PacketConn s) w.

Definition smuxConfig (opt : Options) : smux_config :=
  mkSmuxConfig 2 (10 * Second) (30 * Second) 65535 (opt_SmuxBuf opt) (opt_StreamBuf opt).

Definition smuxClient (conn : nat) (opt : Options) (w : W) : W * result transport_error nat :=
  match smux_Client conn (smuxConfig opt) w with
  | (w, None) => (w, Err SmuxError)
  | (w, Some sess) => (w, Ok sess)
  end.

Definition dialKCP (addr : UDPAddr) (opt : Options) (pconn : nat) (w : W) :
    W * result transport_error Session :=
  let k := opt_KCP opt in
  match kcp_NewConn addr (ko_Block k) (ko_DataShard k) (ko_ParityShard k) pconn w with
  | (w, None) => (w, Err KCPDial)
  | (w, Some kcpConn) =>
      let w := kcp_configure kcpConn (ApplyKCP opt) w in
      match smuxClient kcpConn opt w with
      | (w, Err e) => (conn_Close kcpConn w, Err e)
      | (w, Ok sess) => (w, Ok (mkSession (Some pconn) (Some kcpConn) None None None (Some sess)))
      end
  end.

Definition dialQUIC (addr : UDPAddr) (opt : Options) (pconn : nat) (w : W) :
    W * result transport_error Session :=
  match tlsConfigFromSecret (opt_SecretKey opt) (qo_ALPN (opt_QUIC opt)) false with
  | None => (w, Err TLSError)
  | Some tlsConf =>
      let qconf := mkQConfig (qo_MaxIdleTimeout (opt_QUIC opt)) (qo_IdleTimeout (opt_QUIC opt)) true in
      let '(w, tr) := quic_NewTransport pconn w in
      match quic_Dial tr addr tlsConf qconf w with
      | (w, None) => (conn_Close tr w, Err QUICDial)
      | (w, Some qconn) =>
          match quic_OpenStreamSync qconn w with
          | (w, None) => (conn_Close tr (conn_Close qconn w), Err QUICStream)
          | (w, Some stream) =>
              match smuxClient stream opt w with
              | (w, Err e) =>
                  (conn_Close tr (conn_Close qconn (conn_Close stream w)), Err e)
              | (w, Ok sess) =>
                  (w, Ok (mkSession (Some pconn) None (Some tr) (Some qconn) (Some stream)
                            (Some sess)))
              end
          end
      end
  end.

Definition Dial (addr : UDPAddr) (opt : Options) (pconn : nat) (w : W) :
    W * result transport_error Session :=
  if String.eqb (opt_Protocol opt) ProtocolQUIC then dialQUIC addr opt pconn w
  else dialKCP addr opt pconn w.

(** Every handle of a session. *)
Definition session_handles (s : Session) : gset nat :=
  list_to_set (omap id [PacketConn s; KCP s; quicTr s; quicConn s; quicStream s; Smux s]).
End sessions.

(** Which handles are open: an operation that succeeds opens one handle that was
    not open, one that fails opens none, and closing closes exactly one. *)
Class ConnsLaws (W : Type) `{Conns W} : Type := {
  held : W → gset nat;
  PcapOpen_held rt w :
    match PcapOpen rt w with
    | (w', Some h) => h ∉ held w ∧ held w' = {[h]} ∪ held w
    | (w', None) => held w' = held w end;
  SetRemoteTCPFlags_held h a f w : held (SetRemoteTCPFlags h a f w) = held w;
  kcp_NewConn_held a b d p h w :
    match kcp_NewConn a b d p h w with
    | (w', Some h) => h ∉ held w ∧ held w' = {[h]} ∪ held w
    | (w', None) => held w' = held w end;
  kcp_configure_held h s w : held (kcp_configure h s w) = held w;
  quic_NewTransport_held h w :
    let '(w', h) := quic_NewTransport h w in h ∉ held w ∧ held w' = {[h]} ∪ held w;
  quic_Dial_held h a t q w :
    match quic_Dial h a t q w with
    | (w', Some h) => h ∉ held w ∧ held w' = {[h]} ∪ held w
    | (w', None) => held w' = held w end;
  quic_OpenStreamSync_held h w :
    match quic_OpenStreamSync h w with
    | (w', Some h) => h ∉ held w ∧ held w' = {[h]} ∪ held w
    | (w', None) => held w' = held w end;
  smux_Client_held h c w :
    match smux_Client h c w with
    | (w', Some h) => h ∉ held w ∧ held w' = {[h]} ∪ held w
    | (w', None) => held w' = held w end;
  conn_Close_held h w : held (conn_Close h w) = held w ∖ {[h]} }.

(** ** Lemmas on the options *)

Definition known_block (block : string) : Prop := is_Some (table_lookup block block_table).

#[export] Instance known_block_dec b : Decision (known_block b).
Proof. unfold known_block. apply _. Defined.

Section options_laws.
Context `{CryptoLaws}.

(** The key sizes of the ciphers that are named after one. *)
Definition named_key_len (block : string) : option nat :=
  if bool_decide (block ∈ ["aes-128"; "aes-128-gcm"]%string) then Some 16%nat
  else if bool_decide (block = "aes-192"%string) then Some 24%nat
  else if bool_decide (block ∈ ["aes"; "aes-256"; "salsa20"]%string) then Some 32%nat
  else None.

Lemma length_derived key : length (derived_key key) = 32%nat.
Proof. apply pbkdf2_length. Qed.

Lemma table_lookup_elem {A} k (t : list (string * A)) v :
  table_lookup k t = Some v → (k, v) ∈ t.
Proof.
  induction t as [|[k' v'] t IH]; simpl; [done|].
  destruct (String.eqb_spec k k') as [->|]; [intros [= ->]; left|right; auto].
Qed.

Lemma key_material_take n key :
  (n ≤ 32)%nat →
  key_material n (derived_key key) = take (if (n =? 0)%nat then 32%nat else n) (derived_key key).
Proof.
  intros Hn. unfold key_material. rewrite length_derived.
  rewrite (proj2 (Nat.leb_le n 32)) by lia. rewrite andb_true_r.
  destruct n; [|done]. simpl. by rewrite take_ge by by rewrite length_derived.
Qed.

Lemma length_take_derived n key : (n ≤ 32)%nat → length (take n (derived_key key)) = n.
Proof. intros. rewrite length_take, length_derived. lia. Qed.

Lemma build_ok n b key :
  n ∈ [0; 16; 24; 32]%nat → (b = NewSalsa20BlockCrypt → n = 0%nat) → b ≠ nil_block →
  is_Some (kcp_build b (key_material n (derived_key key))).
Proof.
  intros Hn Hs Hb. assert ((n ≤ 32)%nat) as Hle by (set_unfold; lia).
  rewrite key_material_take by done.
  assert (length (take (if (n =? 0)%nat then 32%nat else n) (derived_key key))
          = if (n =? 0)%nat then 32%nat else n) as Hl
    by (apply length_take_derived; destruct n; simpl; lia).
  assert (n = 0 ∨ n = 16 ∨ n = 24 ∨ n = 32)%nat as Hn' by (set_unfold; lia).
  destruct b; [apply build_aes|apply build_gcm|apply build_salsa|apply build_none|done];
    rewrite Hl; [destruct_or!; subst; simpl; lia..|by rewrite Hs].
Qed.

Lemma NewBlockCrypt_build block key n b :
  table_lookup block block_table = Some (n, b) → b ≠ nil_block →
  ∃ c, NewBlockCrypt block key = Ok (Some c) ∧
    kcp_build b (take (if (n =? 0)%nat then 32%nat else n) (derived_key key)) = Some c.
Proof.
  intros E Hb. assert (n ∈ [0; 16; 24; 32]%nat ∧ (b = NewSalsa20BlockCrypt → n = 0%nat)) as [Hn Hs].
  { apply table_lookup_elem in E. unfold block_table in E.
    repeat (apply elem_of_cons in E as [E|E]; [injection E as -> -> ->; split; [set_solver|done]|]).
    by apply not_elem_of_nil in E. }
  destruct (build_ok n b key Hn Hs Hb) as [c Hc]. exists c.
  rewrite <- key_material_take by (set_unfold; lia). split; [|done].
  unfold NewBlockCrypt. rewrite E, Hc. by destruct b.
Qed.

(** The cipher table.  [NewBlockCrypt] succeeds exactly on the names of
    the table; a cipher named after a key size is built from that many bytes,
    a prefix of the one key derived from the secret; and only ["null"] gives
    no cipher at all. *)
Theorem NewBlockCrypt_spec block key :
  (is_ok (NewBlockCrypt block key) = true ↔ known_block block) ∧
  (NewBlockCrypt block key = Ok None ↔ block = "null"%string) ∧
  (∀ n, named_key_len block = Some n →
     ∃ b c, NewBlockCrypt block key = Ok (Some c) ∧
       kcp_build b (take n (derived_key key)) = Some c ∧
       length (take n (derived_key key)) = n).
Proof.
  destruct (table_lookup block block_table) as [[n b]|] eqn:E.
  - destruct (decide (b = nil_block)) as [->|Hb].
    + apply table_lookup_elem in E. unfold block_table in E.
      repeat (apply elem_of_cons in E as [E|E]; [try discriminate E|]);
        [|by apply not_elem_of_nil in E].
      injection E as -> ->. split_and!; [|done|intros m Hm; discriminate Hm].
      split; [intros _; by eexists|done].
    + destruct (NewBlockCrypt_build block key n b E Hb) as (c & Hc & Hk). rewrite Hc. split_and!.
      * unfold known_block. rewrite E. by split; [eexists|].
      * split; [done|]. intros ->. injection E as <- <-. done.
      * intros m Hm. exists b, c. split; [done|].
        assert (m = if (n =? 0)%nat then 32%nat else n) as ->.
        { unfold named_key_len in Hm.
          repeat case_bool_decide; simplify_eq; set_unfold; destruct_or?; subst;
            injection E as <- <-; done. }
        split; [done|]. apply length_take_derived.
        unfold named_key_len in Hm. repeat case_bool_decide; simplify_eq; lia.
  - split_and!.
    + unfold NewBlockCrypt, known_block. rewrite E. split; [done|by intros []].
    + unfold NewBlockCrypt. rewrite E. split; [done|by intros ->].
    + intros n Hn. exfalso. revert E. unfold named_key_len in Hn.
      repeat case_bool_decide; simplify_eq; set_unfold; destruct_or?; subst; vm_compute; done.
Qed.

(** The options both ends derive from one configuration. *)
Definition same_wire (a b : Options) : Prop :=
  opt_Protocol a = opt_Protocol b ∧ opt_SecretKey a = opt_SecretKey b ∧
  opt_QUIC a = opt_QUIC b ∧ opt_SmuxBuf a = opt_SmuxBuf b ∧ opt_StreamBuf a = opt_StreamBuf b ∧
  ko_Block (opt_KCP a) = ko_Block (opt_KCP b) ∧ ko_Mode (opt_KCP a) = ko_Mode (opt_KCP b) ∧
  ko_MTU (opt_KCP a) = ko_MTU (opt_KCP b) ∧
  ko_DataShard (opt_KCP a) = ko_DataShard (opt_KCP b) ∧
  ko_ParityShard (opt_KCP a) = ko_ParityShard (opt_KCP b).

Lemma kcp_options_ok role k key :
  is_ok (kcp_options role k key) = is_ok (NewBlockCrypt (kcp_Block k) key).
Proof. unfold kcp_options. by destruct (NewBlockCrypt _ _). Qed.

Lemma OptionsFromConfig_unfold PD role t :
  transport_valid t →
  OptionsFromConfig PD role t =
    let alpn := TrimSpace (quic_ALPN (tr_QUIC t)) in
    let quic := mkQUICOptions (if String.eqb alpn "" then "paqetpremium"%string else alpn)
                (opt_duration PD (quic_IdleTimeout (tr_QUIC t)) (30 * Second))
                (opt_duration PD (quic_MaxIdleTimeout (tr_QUIC t)) (60 * Second)) in
    let key := TrimSpace (kcp_Key (tr_KCP t)) in
    let opt kcp := mkOptions (proto_of t) key kcp quic (4 * 1024 * 1024) (2 * 1024 * 1024) in
    if String.eqb (proto_of t) ProtocolKCP then opt <$> kcp_options role (tr_KCP t) key
    else Ok (opt zero_KCP).
Proof.
  intros (_ & Hkey & Hp). unfold OptionsFromConfig. unfold blank in Hkey. rewrite Hkey. simpl.
  change (ToLower (TrimSpace (tr_Protocol t))) with (proto_of t).
  destruct Hp as [[-> _]|[-> _]]; simpl; [|done]. by destruct (kcp_options _ _ _).
Qed.

(** The options of a validated transport section.  They can be built
    exactly when the protocol is QUIC or the block cipher is in the table
    (validation does not look at the cipher's name); client and server derive
    the same wire parameters, differing at most in their windows; and for KCP
    the MTU and both windows are positive. *)
Theorem OptionsFromConfig_valid PD t (Hv : transport_valid t) :
  (is_ok (OptionsFromConfig PD RoleClient t) = true ↔
     proto_of t = ProtocolQUIC ∨ known_block (kcp_Block (tr_KCP t))) ∧
  ∀ oc, OptionsFromConfig PD RoleClient t = Ok oc →
    (∃ os, OptionsFromConfig PD RoleServer t = Ok os ∧ same_wire oc os) ∧
    (proto_of t = ProtocolKCP →
       0 < ko_MTU (opt_KCP oc) ∧ 0 < ko_SndWnd (opt_KCP oc) ∧ 0 < ko_RcvWnd (opt_KCP oc)).
Proof.
  rewrite !OptionsFromConfig_unfold by done. cbn zeta.
  destruct Hv as (_ & _ & [[E Hk]|[E _]]); rewrite E; simpl.
  - set (key := TrimSpace (kcp_Key (tr_KCP t))).
    assert (known_block (kcp_Block (tr_KCP t)) ↔
            is_ok (NewBlockCrypt (kcp_Block (tr_KCP t)) key) = true) as ->.
    { unfold known_block. split.
      - intros [[n b] Hl]. destruct (decide (b = nil_block)) as [->|Hb].
        + unfold NewBlockCrypt. by rewrite Hl.
        + by destruct (NewBlockCrypt_build _ key n b Hl Hb) as (c & -> & _).
      - unfold NewBlockCrypt. destruct (table_lookup _ _); [eauto|done]. }
    unfold kcp_options. destruct (NewBlockCrypt _ _) as [b|e]; simpl.
    + split; [by split; [right|]|]. intros oc [= <-]. split; [|intros _; simpl].
      * eexists. split; [done|]. by repeat split.
      * destruct Hk as (_ & _ & Hm & _). rewrite (proj2 (Z.leb_gt _ _)) by lia.
        split_and!; [lia|destruct (Z.gtb_spec (kcp_SndWnd (tr_KCP t)) 0); lia
                    |destruct (Z.gtb_spec (kcp_RcvWnd (tr_KCP t)) 0); lia].
    + split; [|done]. split; [done|]. by intros [|].
  - split; [by split; [left|]|]. intros oc [= <-]. split; [|done]. eexists. split; [done|].
    by repeat split.
Qed.

Lemma deriveScalar_range seed n : 2 ≤ n → 1 ≤ deriveScalar seed n ≤ n - 1.
Proof.
  intros Hn. unfold deriveScalar. pose proof (Z.mod_pos_bound (be_decode seed) (n - 1)). lia.
Qed.

(** C37: the TLS identity.  When the certificate can be built, its scalar is a
    valid P-256 private key; both ends of one secret accept each other's
    chain; an end accepts a chain exactly when its leaf is, byte for byte,
    the certificate of its own secret, so an empty chain, or the certificate
    of a secret that derives another one, is refused.  The certificate is the
    same whether or not the library drops a byte of randomness first. *)
Theorem pinned_identity secret alpn der d (Hc : deriveCert secret = Some (der, d)) :
  1 ≤ d ≤ p256_N - 1 ∧ (∀ skip, deriveCert_skip skip secret = Some (der, d)) ∧
  ∃ cl sv, tlsConfigFromSecret secret alpn false = Some cl ∧
    tlsConfigFromSecret secret alpn true = Some sv ∧
    tls_RequireClientCert sv = true ∧
    tls_Verify cl (tls_Certificates sv) = Ok tt ∧
    tls_Verify sv (tls_Certificates cl) = Ok tt ∧
    (∀ chain, tls_Verify cl chain = Ok tt ↔ head chain = Some der) ∧
    (∀ chain, tls_Verify sv chain = Ok tt ↔ head chain = Some der).
Proof.
  assert (∀ chain, pinnedVerify der chain = Ok tt ↔ head chain = Some der) as Hpin.
  { intros [|c chain]; simpl; [done|]. case_bool_decide; subst; split; congruence. }
  split; [|split].
  - unfold deriveCert, deriveCert_skip in Hc. destruct (CreateCertificate _ _ _ _) as [der'|]; [|done]. simpl in Hc.
    destruct (X509KeyPair _ _); [|done]. injection Hc as _ <-. by apply deriveScalar_range.
  - intros skip. exact Hc.
  - unfold tlsConfigFromSecret. rewrite Hc. simpl. eexists _, _.
    split_and!; [done|done|done|apply Hpin; done|apply Hpin; done|apply Hpin|apply Hpin].
Qed.
End options_laws.

(** ** No handle leaks *)

(** Case analysis on an operation that opens a handle or fails, by its law. *)
Ltac acquire lem :=
  match type of lem with
  | match ?op with _ => _ end => let E := fresh "E" in pose proof lem as E; destruct op as [? [?|]]
  end.

Section resources.
Context {W : Type} `{ConnsLaws W}.
Implicit Types (w : W) (s : Session).

(** [opens w w' l]: from [w] to [w'] exactly the handles [l] were opened, the
    last one first. *)
Definition opens w w' (l : list nat) : Prop :=
  NoDup l ∧ (∀ h, h ∈ l → h ∉ held w) ∧ held w' = list_to_set l ∪ held w.

Lemma opens_refl w : opens w w [].
Proof. split_and!; [apply NoDup_nil_2|by intros h ?%not_elem_of_nil|simpl; by rewrite (left_id_L ∅ (∪))]. Qed.

Lemma opens_same w w1 w2 l : opens w w1 l → held w2 = held w1 → opens w w2 l.
Proof. intros (? & ? & E) E2. split_and!; [done..|by rewrite E2]. Qed.

Lemma opens_step w w1 w2 l h :
  opens w w1 l → h ∉ held w1 ∧ held w2 = {[h]} ∪ held w1 → opens w w2 (h :: l).
Proof.
  intros (Hnd & Hf & E) [Hh E2]. rewrite E, not_elem_of_union, not_elem_of_list_to_set in Hh.
  destruct Hh as [Hl Hw]. split_and!.
  - by constructor.
  - intros x [->|Hx]%elem_of_cons; auto.
  - rewrite E2, E. simpl. by rewrite (assoc_L (∪)).
Qed.

Lemma opens_close w w1 l h : opens w w1 (h :: l) → opens w (conn_Close h w1) l.
Proof.
  intros ([Hh Hnd]%NoDup_cons & Hf & E). split_and!.
  - done.
  - intros x Hx. apply Hf. by right.
  - rewrite conn_Close_held, E. pose proof (Hf h (list_elem_of_here _ _)) as Hw. simpl.
    apply set_eq. intros x. rewrite elem_of_difference, !elem_of_union, elem_of_singleton,
      elem_of_list_to_set. split; [tauto|]. intros Hx. split; [tauto|].
    intros ->. tauto.
Qed.

Lemma opens_nil_held w w' : opens w w' [] → held w' = held w.
Proof. intros (_ & _ & ->). simpl. by rewrite (left_id_L ∅ (∪)). Qed.

Lemma close_opt_held h w : held (close_opt h w) = held w ∖ list_to_set (option_list h).
Proof. destruct h; simpl; [rewrite conn_Close_held; set_solver|set_solver]. Qed.

Lemma omap_option_cons (h : option nat) l :
  (list_to_set (omap id (h :: l)) : gset nat) =
    list_to_set (option_list h) ∪ list_to_set (omap id l).
Proof. destruct h; simpl; set_solver. Qed.

(** Closing a session closes every handle it holds and no other. *)
Lemma Session_Close_held s w : held (Session_Close s w) = held w ∖ session_handles s.
Proof.
  unfold Session_Close, session_handles. rewrite !close_opt_held, !omap_option_cons.
  simpl omap. simpl list_to_set. rewrite !difference_difference_l_L. f_equal. set_solver.
Qed.

Lemma dialKCP_opens addr opt pconn w :
  match dialKCP addr opt pconn w with
  | (w', Err _) => opens w w' []
  | (w', Ok s) => ∃ k m, s = mkSession (Some pconn) (Some k) None None None (Some m) ∧
      opens w w' [m; k]
  end.
Proof.
  unfold dialKCP, smuxClient. set (o := opt_KCP opt).
  acquire (kcp_NewConn_held addr (ko_Block o) (ko_DataShard o) (ko_ParityShard o) pconn w).
  2: by eapply opens_same; [apply opens_refl|].
  assert (opens w (kcp_configure n (ApplyKCP opt) w0) [n]) as O1.
  { eapply opens_same; [eapply opens_step; [apply opens_refl|done]|apply kcp_configure_held]. }
  acquire (smux_Client_held n (smuxConfig opt) (kcp_configure n (ApplyKCP opt) w0)).
  - exists n, n0. split; [done|]. by eapply opens_step.
  - apply opens_close. by eapply opens_same.
Qed.

Lemma dialQUIC_opens addr opt pconn w :
  match dialQUIC addr opt pconn w with
  | (w', Err _) => opens w w' []
  | (w', Ok s) => ∃ t q st m, s = mkSession (Some pconn) None (Some t) (Some q) (Some st) (Some m) ∧
      opens w w' [m; st; q; t]
  end.
Proof.
  unfold dialQUIC, smuxClient. destruct (tlsConfigFromSecret _ _ _) as [tls|]; [|apply opens_refl].
  pose proof (quic_NewTransport_held pconn w) as Et.
  destruct (quic_NewTransport pconn w) as [w1 t]. set (qc := mkQConfig _ _ _).
  assert (opens w w1 [t]) as O1 by (eapply opens_step; [apply opens_refl|done]).
  acquire (quic_Dial_held t addr tls qc w1); [|apply opens_close; by eapply opens_same].
  assert (opens w w0 [n; t]) as O2 by by eapply opens_step.
  acquire (quic_OpenStreamSync_held n w0); [|do 2 apply opens_close; by eapply opens_same].
  assert (opens w w2 [n0; n; t]) as O3 by by eapply opens_step.
  acquire (smux_Client_held n0 (smuxConfig opt) w2);
    [|do 3 apply opens_close; by eapply opens_same].
  exists t, n, n0, n1. split; [done|by eapply opens_step].
Qed.

Lemma opens_trans w w1 w2 l k : opens w w1 l → opens w1 w2 k → opens w w2 (k ++ l).
Proof.
  intros (Hn & Hf & E) (Hn' & Hf' & E'). rewrite E in Hf'. split_and!.
  - apply NoDup_app. split_and!; [done| |done]. intros x Hx Hl.
    apply (Hf' x Hx), elem_of_union_l. by apply elem_of_list_to_set.
  - intros x [Hx|Hx]%elem_of_app; [|by apply Hf].
    specialize (Hf' x Hx). by apply not_elem_of_union in Hf' as [_ ?].
  - by rewrite E', E, list_to_set_app_L, (assoc_L (∪)).
Qed.

Lemma Dial_opens addr opt pconn w :
  match Dial addr opt pconn w with
  | (w', Err _) => opens w w' []
  | (w', Ok s) => ∃ m l, opens w w' (m :: l) ∧ PacketConn s = Some pconn ∧ Smux s = Some m ∧
      (DatagramsOK s = true ↔ opt_Protocol opt = ProtocolQUIC) ∧
      session_handles s = list_to_set (m :: l ++ [pconn])
  end.
Proof.
  unfold Dial. destruct (String.eqb_spec (opt_Protocol opt) ProtocolQUIC) as [E|E].
  - pose proof (dialQUIC_opens addr opt pconn w) as Ho.
    destruct (dialQUIC _ _ _ _) as [w' [s|e]]; [|done].
    destruct Ho as (t & q & st & m & -> & Ho). exists m, [st; q; t].
    split; [done|]. split; [done|]. split; [done|]. split; [done|].
    unfold session_handles. simpl. set_solver +.
  - pose proof (dialKCP_opens addr opt pconn w) as Ho.
    destruct (dialKCP _ _ _ _) as [w' [s|e]]; [|done].
    destruct Ho as (k & m & -> & Ho). exists m, [k].
    split; [done|]. split; [done|]. split; [done|]. split; [by split|].
    unfold session_handles. simpl. set_solver +.
Qed.

(** Dialling a session leaks nothing.  Whatever fails on the way, over KCP
    or over QUIC, every handle opened so far is closed again (the pcap
    connection stays the caller's); on success exactly the session's handles
    have been opened, the pcap connection is one of them to close, and
    closing the session closes them all and nothing else. *)
Theorem Dial_no_leak addr opt pconn w w' r
    (Hp : pconn ∈ held w) (Hd : Dial addr opt pconn w = (w', r)) :
  match r with
  | Err _ => held w' = held w
  | Ok s => PacketConn s = Some pconn ∧ is_Some (Smux s) ∧
      (DatagramsOK s = true ↔ opt_Protocol opt = ProtocolQUIC) ∧
      held w' = session_handles s ∪ held w ∧
      held (Session_Close s w') = held w ∖ {[pconn]}
  end.
Proof.
  pose proof (Dial_opens addr opt pconn w) as Ho. rewrite Hd in Ho.
  destruct r as [s|e]; [|by apply opens_nil_held].
  destruct Ho as (m & l & (_ & Hf & E) & Hpc & Hm & Hq & Hs).
  split; [done|]. split; [by eexists|]. split; [done|].
  rewrite Session_Close_held, E, Hs.
  split; apply set_eq; intros x; specialize (Hf x);
    rewrite ?elem_of_difference, ?elem_of_union, ?elem_of_singleton, !elem_of_list_to_set,
      ?app_comm_cons, ?elem_of_app, ?list_elem_of_singleton.
  - split; [tauto|]. intros [[?| ->]|?]; tauto.
  - destruct (decide (x ∈ m :: l)), (decide (x = pconn)); tauto.
Qed.
End resources.

(** ** Concrete libraries and a concrete world, for the examples *)

#[export] Instance toy_crypto : CryptoLib := {
  BlockCrypt := builder * list Z;
  kcp_build b k :=
    match b with
    | NewAESBlockCrypt | NewAESGCMCrypt =>
        if bool_decide (length k ∈ [16; 24; 32]%nat) then Some (b, k) else None
    | _ => Some (b, k)
    end;
  pbkdf2_Key p s n len := take len (p ++ s ++ replicate len n);
  Sum256 m := replicate 32 (Z.of_nat (length m) mod 256);
  ScalarBaseMult d := (d, d + 1);
  CreateCertificate r t pk d := Some (r 0 1 ++ [ct_SerialNumber t; pk.1; pk.2])%nat;
  X509KeyPair der d := true }.

#[export] Instance toy_laws : CryptoLaws.
Proof.
  split; simpl.
  - intros p s n len. rewrite length_take, !length_app, length_replicate. lia.
  - intros k Hk. rewrite bool_decide_true; [eauto|]. set_unfold. lia.
  - intros k Hk. rewrite bool_decide_true; [eauto|]. set_unfold. lia.
  - eauto.
  - eauto.
  - intros m. split; [done|]. assert (is_byte (Z.of_nat (length m) mod 256)) as Hb
      by (apply Z.mod_pos_bound; lia). repeat (apply Forall_cons_2; [exact Hb|]). apply Forall_nil_2.
Qed.

(** Handles are allocated fresh; the operations whose number is in [mk_fail]
    fail; smux sessions in [mk_refuse] refuse to open streams. *)
Record Mock : Type := mkMock {
  mk_open : gset nat; mk_refuse : gset nat; mk_fail : gset nat; mk_ops : nat;
  mk_next : nat; mk_flow : Z; mk_sent : list (nat * list Z) }.

Definition mk_acquire (w : Mock) : Mock * option nat :=
  let '(mkMock o r f n x fl s) := w in
  if bool_decide (n ∈ f) then (mkMock o r f (S n) x fl s, None)
  else let h := fresh o in (mkMock ({[h]} ∪ o) r f (S n) x fl s, Some h).

#[export] Instance mock_conns : Conns Mock := {
  PcapOpen _ w := mk_acquire w;
  SetRemoteTCPFlags _ _ _ w := w;
  kcp_NewConn _ _ _ _ _ w := mk_acquire w;
  kcp_configure _ _ w := w;
  quic_NewTransport _ w :=
    let '(mkMock o r f n x fl s) := w in
    let h := fresh o in (mkMock ({[h]} ∪ o) r f n x fl s, h);
  quic_Dial _ _ _ _ w := mk_acquire w;
  quic_OpenStreamSync _ w := mk_acquire w;
  smux_Client _ _ w := mk_acquire w;
  conn_Close h w :=
    let '(mkMock o r f n x fl s) := w in mkMock (o ∖ {[h]}) r f n x fl s }.

Lemma mk_acquire_held w :
  match mk_acquire w with
  | (w', Some h) => h ∉ mk_open w ∧ mk_open w' = {[h]} ∪ mk_open w
  | (w', None) => mk_open w' = mk_open w
  end.
Proof.
  destruct w as [o r f n x fl s]. simpl. case_bool_decide; [done|].
  split; [apply is_fresh|done].
Qed.

#[export] Instance mock_conn_laws : ConnsLaws Mock.
Proof.
  refine {| held := mk_open |}; try (intros; apply mk_acquire_held); try done.
  - intros h [o r f n x fl s]. simpl. split; [apply is_fresh|done].
  - by intros h [o r f n x fl s].
Defined.

(** [Mock] next to the state [X] of something else. *)
Section paired.
Context {X : Type}.

Definition on_mock {A} (f : Mock → Mock * A) (w : Mock * X) : Mock * X * A :=
  let '(m, a) := f w.1 in ((m, w.2), a).

#[export] Instance paired_conns : Conns (Mock * X) | 10 := {
  PcapOpen rt := on_mock (PcapOpen rt);
  SetRemoteTCPFlags h a f w := (SetRemoteTCPFlags h a f w.1, w.2);
  kcp_NewConn a b d p h := on_mock (kcp_NewConn a b d p h);
  kcp_configure h s w := (kcp_configure h s w.1, w.2);
  quic_NewTransport h := on_mock (quic_NewTransport h);
  quic_Dial h a t q := on_mock (quic_Dial h a t q);
  quic_OpenStreamSync h := on_mock (quic_OpenStreamSync h);
  smux_Client h c := on_mock (smux_Client h c);
  conn_Close h w := (conn_Close h w.1, w.2) }.

Lemma on_mock_acquire (w : Mock * X) :
  match on_mock mk_acquire w with
  | (w', Some h) => h ∉ mk_open w.1 ∧ mk_open w'.1 = {[h]} ∪ mk_open w.1
  | (w', None) => mk_open w'.1 = mk_open w.1
  end.
Proof. unfold on_mock. pose proof (mk_acquire_held w.1) as E. by destruct (mk_acquire w.1) as [m [h|]]. Qed.

#[export] Instance paired_conn_laws : ConnsLaws (Mock * X) | 10.
Proof.
  refine {| held w := mk_open w.1 |}; try (intros; apply on_mock_acquire); try done.
  - intros h [[o r f n x fl s] m]. simpl. split; [apply is_fresh|done].
  - by intros h [[o r f n x fl s] m].
Defined.
End paired.

(** Handles 1 and 2 are open; [mock_failing l] fails the operations of [l]. *)
Definition mock_failing (l : list nat) : Mock := mkMock {[1%nat; 2%nat]} ∅ (list_to_set l) 0 100 7 [].
Definition mock0 : Mock := mock_failing [].

Definition no_durations (_ : string) : option Z := None.

Definition mac0 : list Z := [1; 2; 3; 4; 5; 6].

Definition sample_kcp_valid : TransportConfig :=
  mkTransportConfig "kcp" 1 (mkKCPConfig "fast" "aes" "secret" 1150 10 3 0 0)
    (mkQUICConfig "paqetpremium" "" "").

Lemma NewBlockCrypt_spec_witness :
  is_ok (NewBlockCrypt "aes-192" "secret") = true ∧ is_ok (NewBlockCrypt "blowfish" "secret") = false.
Proof.
  split.
  - apply (NewBlockCrypt_spec "aes-192" "secret"). vm_compute. eauto.
  - destruct (is_ok (NewBlockCrypt "blowfish" "secret")) eqn:E; [|reflexivity].
    apply (NewBlockCrypt_spec "blowfish" "secret") in E. destruct E as [? E]. discriminate E.
Defined.

Lemma sample_kcp_valid_ok : transport_valid sample_kcp_valid.
Proof.
  split; [done|]. split; [reflexivity|]. left. split; [reflexivity|].
  repeat split; simpl; try lia; try reflexivity. vm_compute. discriminate.
Qed.

Lemma OptionsFromConfig_valid_witness :
  is_ok (OptionsFromConfig no_durations RoleClient sample_kcp_valid) = true.
Proof.
  apply (OptionsFromConfig_valid no_durations sample_kcp_valid sample_kcp_valid_ok).
  right. vm_compute. eauto.
Defined.

Lemma pinned_identity_witness :
  ∃ der d, deriveCert "secret" = Some (der, d) ∧ 1 ≤ d ≤ p256_N - 1.
Proof.
  eexists _, _. split; [vm_compute; reflexivity|].
  refine (proj1 (pinned_identity "secret" "h3" _ _ _)). vm_compute. reflexivity.
Defined.

(** The smux handshake of a QUIC session fails: nothing stays open. *)
Lemma Dial_no_leak_witness :
  ∃ w', Dial (mkUDPAddr [10; 0; 0; 1] 443)
          (mkOptions "quic" "secret" zero_KCP (mkQUICOptions "h3" 30 60) 4 2) 2
          (mock_failing [2%nat]) = (w', Err SmuxError) ∧ held w' = held (mock_failing [2%nat]).
Proof.
  eexists. split; [vm_compute; reflexivity|].
  refine (Dial_no_leak (mkUDPAddr [10; 0; 0; 1] 443)
          (mkOptions "quic" "secret" zero_KCP (mkQUICOptions "h3" 30 60) 4 2) 2
          (mock_failing [2%nat]) _ (Err SmuxError) _ _).
  - vm_compute. reflexivity.
  - vm_compute. reflexivity.
Defined.
