(* ===== verification/TunnelPool.v ===== *)
(** [internal/tunnelpool/pool.go]: a pool of tunnel sessions to one upstream,
    the streams and QUIC-datagram flows opened through it.

    The smux sessions and their streams are third-party code: the class
    [Streams] is what the pool asks of them, over an abstract world [W];
    [StreamsLaws] is what it relies on.  The atomic sections of the methods
    (what runs under one lock) are separate definitions, so that interleavings
    can be stated. *)

From S2P Require Import Prelude GoStd NetUtil Protocol Config ConfigResolve Transport.

Local Open Scope Z_scope.

(** ** Sessions and streams *)

(** The first arguments are handles of smux sessions, of streams, or (for
    [SendDatagram]) of a QUIC connection. *)
Class Streams (W : Type) : Type := {
  IsClosed : nat → W → bool;
  OpenStream : nat → W → W * option nat;           (* [None]: an error *)
  StreamWrite : nat → Message → W → W * bool;      (* gob-encode and write *)
  StreamRead : nat → W → W * option Message;       (* gob-decode one message *)
  StreamReadFlowID : nat → W → W * option Z;       (* binary.Read of a uint64 *)
  StreamClose : nat → W → W;
  SendDatagram : nat → list Z → W → W * bool }.

(** Opening a stream on one session leaves the other sessions as they are. *)
Class StreamsLaws (W : Type) `{Streams W} : Prop := {
  OpenStream_IsClosed a b w : a ≠ b → IsClosed b (OpenStream a w).1 = IsClosed b w;
  OpenStream_can_open a b w : a ≠ b → is_Some (OpenStream b w).2 →
    is_Some (OpenStream b (OpenStream a w).1).2 }.

(** A [*transport.Session] is known by its smux session: the dialler never makes
    two sessions with one. *)
Definition sess_id (s : Session) : nat := default 0%nat (Smux s).

Section pool.
Context {W : Type} `{Conns W} `{Streams W}.
(** The type of [deliver] closures. *)
Context {D : Type}.

Record Pool : Type := mkPool {
  sessions : list (option Session);
  idx : Z;
  udp : gmap Z nat;
  dgIdx : Z;
  dgByKey : gmap string (Session * Z);   (* the send closures: session and flow *)
  dgCtrl : option (gmap string nat);        (* [None] is the nil map *)
  dgDeliver : gmap nat (gmap Z D);
  dgRecv : gset nat }.

Inductive pool_error : Type :=
| NoSessions | NoLiveSession | OpenFailed | BadTarget (e : tunneladdr_error)
| StreamWriteFailed | StreamReadFailed | NotPong | NoQUICSession | FlowIDReadFailed
| PanicNilMap.   (* assignment to an entry of a nil map *)

Definition set_sessions v p := let '(mkPool _ b c d e f g h) := p in mkPool v b c d e f g h.
Definition set_idx v p := let '(mkPool a _ c d e f g h) := p in mkPool a v c d e f g h.
Definition set_udp v p := let '(mkPool a b _ d e f g h) := p in mkPool a b v d e f g h.
Definition set_dgIdx v p := let '(mkPool a b c _ e f g h) := p in mkPool a b c v e f g h.
Definition set_dgCtrl v p := let '(mkPool a b c d e _ g h) := p in mkPool a b c d e v g h.

Definition Count (p : Pool) : nat := length (sessions p).

Definition smux_live (s : Session) (w : W) : bool :=
  match Smux s with Some h => negb (IsClosed h w) | None => false end.

Definition Alive (p : Pool) (w : W) : bool :=
  existsb (λ s, match s with Some s => smux_live s w | None => false end) (sessions p).

Definition SupportsDatagrams (p : Pool) (w : W) : bool :=
  existsb (λ s, match s with Some s => DatagramsOK s && smux_live s w | None => false end)
    (sessions p).

Definition sendRemoteFlags (s : Session) (flags : list TCPFlagSet) (w : W) :
    W * result pool_error unit :=
  match OpenStream (sess_id s) w with
  | (w, None) => (w, Err OpenFailed)
  | (w, Some strm) =>
      let '(w, ok) := StreamWrite strm (mkMessage TCPF None flags) w in
      (StreamClose strm w, fail_if (negb ok) StreamWriteFailed)
  end.

(** ** Opening a stream *)

Fixpoint try_open (order : list nat) (ss : list (option Session)) (lastErr : bool) (w : W) :
    W * result pool_error nat :=
  match order with
  | [] => (w, Err (if lastErr then OpenFailed else NoLiveSession))
  | i :: rest =>
      match ss !! i with
      | Some (Some s) =>
          if smux_live s w then
            match OpenStream (sess_id s) w with
            | (w', Some strm) => (w', Ok strm)
            | (w', None) => try_open rest ss true w'
            end
          else try_open rest ss lastErr w
      | _ => try_open rest ss lastErr w
      end
  end.

Definition openStream (p : Pool) (w : W) : Pool * W * result pool_error nat :=
  let n := length (sessions p) in
  if (n =? 0)%nat then (p, w, Err NoSessions) else
  let '(start, idx') := fetch_inc (idx p) in
  let '(w', r) := try_open (rr_order start n) (sessions p) false w in
  (set_idx idx' p, w', r).

Definition pickQUICSession (p : Pool) (w : W) : Pool * option Session :=
  let n := length (sessions p) in
  if (n =? 0)%nat then (p, None) else
  let '(start, idx') := fetch_inc (dgIdx p) in
  let usable i :=
    match sessions p !! i with
    | Some (Some s) => if DatagramsOK s && smux_live s w then Some s else None
    | _ => None
    end in
  (set_dgIdx idx' p, head (omap usable (rr_order start n))).

Definition OpenTCP (target : string) (p : Pool) (w : W) : Pool * W * result pool_error nat :=
  match TunnelAddr.Parse target with
  | Err e => (p, w, Err (BadTarget e))
  | Ok addr =>
      match openStream p w with
      | (p, w, Err e) => (p, w, Err e)
      | (p, w, Ok strm) =>
          match StreamWrite strm (mkMessage TCP (Some addr) []) w with
          | (w, true) => (p, w, Ok strm)
          | (w, false) => (p, StreamClose strm w, Err StreamWriteFailed)
          end
      end
  end.

(** [tunnelpool/dial.go]: a ping over a fresh stream, closed on every path
    (the deadline makes [StreamRead] fail). *)
Definition PingWithTimeout (p : Pool) (w : W) : Pool * W * result pool_error unit :=
  match openStream p w with
  | (p, w, Err e) => (p, w, Err e)
  | (p, w, Ok strm) =>
      match StreamWrite strm (mkMessage Ping None []) w with
      | (w, false) => (p, StreamClose strm w, Err StreamWriteFailed)
      | (w, true) =>
          match StreamRead strm w with
          | (w, None) => (p, StreamClose strm w, Err StreamReadFailed)
          | (w, Some resp) =>
              (p, StreamClose strm w, fail_if (negb (msg_Type resp =? Pong)) NotPong)
          end
      end
  end.

(** ** UDP over streams *)

Definition fnv32_step (h c : Z) : Z := u64 (Z.lxor h c * 16777619).

Definition addrPairKey (a b : string) : Z :=
  foldl (λ h s, foldl fnv32_step h (code <$> bs s)) 2166136261 [a; b].

(** The read under [udpMu.RLock]. *)
Definition OpenUDP_lookup (key : Z) (p : Pool) : option nat := udp p !! key.

(** What runs without the lock when the key is absent. *)
Definition OpenUDP_open (target : string) (p : Pool) (w : W) : Pool * W * result pool_error nat :=
  match TunnelAddr.Parse target with
  | Err e => (p, w, Err (BadTarget e))
  | Ok addr =>
      match openStream p w with
      | (p, w, Err e) => (p, w, Err e)
      | (p, w, Ok strm) =>
          match StreamWrite strm (mkMessage UDP (Some addr) []) w with
          | (w, true) => (p, w, Ok strm)
          | (w, false) => (p, StreamClose strm w, Err StreamWriteFailed)
          end
      end
  end.

(** The write under [udpMu.Lock]. *)
Definition OpenUDP_install (key : Z) (strm : nat) (p : Pool) : Pool :=
  set_udp (<[key := strm]> (udp p)) p.

(** Returns the stream, whether it is new, and the key. *)
Definition OpenUDP (localAddr target : string) (p : Pool) (w : W) :
    Pool * W * result pool_error (nat * bool * Z) :=
  let key := addrPairKey localAddr target in
  match OpenUDP_lookup key p with
  | Some strm => (p, w, Ok (strm, false, key))
  | None =>
      match OpenUDP_open target p w with
      | (p, w, Err e) => (p, w, Err e)
      | (p, w, Ok strm) => (OpenUDP_install key strm p, w, Ok (strm, true, key))
      end
  end.

Definition CloseUDP (key : Z) (p : Pool) (w : W) : Pool * W :=
  match udp p !! key with
  | Some strm => (set_udp (delete key (udp p)) p, StreamClose strm w)
  | None => (p, w)
  end.

(** ** UDP over QUIC datagrams *)

(** The assignments at the end of [OpenUDPDatagram]. *)
Definition register_flow (key : string) (s : Session) (fid : Z) (ctrl : nat) (deliver : D)
    (p : Pool) : Pool * result pool_error unit :=
  let m := default ∅ (dgDeliver p !! sess_id s) in
  let p' := mkPool (sessions p) (idx p) (udp p) (dgIdx p)
              (<[key := (s, fid)]> (dgByKey p)) (dgCtrl p)
              (<[sess_id s := <[fid := deliver]> m]> (dgDeliver p))
              ({[sess_id s]} ∪ dgRecv p) in
  match dgCtrl p with
  | None => (p', Err PanicNilMap)
  | Some c => (set_dgCtrl (Some (<[key := ctrl]> c)) p', Ok tt)
  end.

(** Runs under [dgMu].  The send closure is the pair (session, flow). *)
Definition OpenUDPDatagram (key target : string) (deliver : D) (p : Pool) (w : W) :
    Pool * W * result pool_error (Session * Z * bool) :=
  match dgByKey p !! key with
  | Some (s, fid) => (p, w, Ok (s, fid, false))
  | None =>
      match pickQUICSession p w with
      | (p, None) => (p, w, Err NoQUICSession)
      | (p, Some s) =>
          match TunnelAddr.Parse target with
          | Err e => (p, w, Err (BadTarget e))
          | Ok addr =>
              match OpenStream (sess_id s) w with
              | (w, None) => (p, w, Err OpenFailed)
              | (w, Some ctrl) =>
                  match StreamWrite ctrl (mkMessage UDPDGRAM (Some addr) []) w with
                  | (w, false) => (p, StreamClose ctrl w, Err StreamWriteFailed)
                  | (w, true) =>
                      match StreamReadFlowID ctrl w with
                      | (w, None) => (p, StreamClose ctrl w, Err FlowIDReadFailed)
                      | (w, Some fid) =>
                          match register_flow key s fid ctrl deliver p with
                          | (p, Ok _) => (p, w, Ok (s, fid, true))
                          | (p, Err e) => (p, w, Err e)
                          end
                      end
                  end
              end
          end
      end
  end.

(** [Session.SendDatagram]: fails without a QUIC connection. *)
Definition Session_SendDatagram (s : Session) (b : list Z) (w : W) : W * bool :=
  match quicConn s with Some q => SendDatagram q b w | None => (w, false) end.

(** The [send] closure. *)
Definition send_flow (s : Session) (fid : Z) (payload : list Z) (w : W) : W * bool :=
  Session_SendDatagram s (EncodeDatagram fid payload) w.

(** One turn of [dgramRecvLoop] on the datagram [b]: the closure to call and
    its argument. *)
Definition dgramRecv (sid : nat) (b : list Z) (p : Pool) : option (D * list Z) :=
  '(fid, payload) ← DecodeDatagram b;
  m ← dgDeliver p !! sid;
  deliver ← m !! fid;
  Some (deliver, payload).

(** ** Closing *)

(** Under [dgMu]: close the control streams and drop the map. *)
Definition Close_ctrl (p : Pool) (w : W) : Pool * W :=
  (set_dgCtrl None p,
   foldr (λ kv w, StreamClose kv.2 w) w (map_to_list (default ∅ (dgCtrl p)))).

(** Without a lock: close the sessions and forget them. *)
Definition Close_sessions (p : Pool) (w : W) : Pool * W :=
  (set_sessions [] p,
   foldl (λ w s, match s with Some s => Session_Close s w | None => w end)
     w (sessions p)).

Definition Close (p : Pool) (w : W) : Pool * W :=
  let '(p, w) := Close_ctrl p w in Close_sessions p w.
End pool.
Arguments Pool D : clear implicits.
Arguments pool_error : clear implicits.

(** ** The concrete world of the examples, continued *)

#[export] Instance mock_streams : Streams Mock := {
  IsClosed s w := bool_decide (s ∉ mk_open w);
  OpenStream s w :=
    if bool_decide (s ∈ mk_open w ∖ mk_refuse w) then
      let '(mkMock o r f n x fl sent) := w in (mkMock o r f n (S x) fl sent, Some x)
    else (w, None);
  StreamWrite _ _ w := (w, true);
  StreamRead _ w := (w, Some (mkMessage Pong None []));
  StreamReadFlowID _ w :=
    let '(mkMock o r f n x fl sent) := w in (mkMock o r f n x (fl + 1) sent, Some fl);
  StreamClose _ w := w;
  SendDatagram q b w :=
    let '(mkMock o r f n x fl sent) := w in (mkMock o r f n x fl (sent ++ [(q, b)]), true) }.

#[export] Instance mock_laws : StreamsLaws Mock.
Proof.
  split; intros a b [o r f n x fl sent] _; simpl; destruct (bool_decide (a ∈ _)); try done.
  simpl. intros Hs. destruct (bool_decide (b ∈ _)); [by eexists|by destruct Hs].
Qed.

Definition pool_of {D} (ss : list (option Session)) : Pool D :=
  mkPool ss 0 ∅ 0 ∅ (Some ∅) ∅ ∅.

(** ** Opening a stream *)

Section open_laws.
Context {W : Type} `{StreamsLaws W} {D : Type}.
Implicit Types (p : Pool D) (w : W).

Definition distinct_sessions (ss : list (option Session)) : Prop :=
  ∀ i j s s', ss !! i = Some (Some s) → ss !! j = Some (Some s') →
    sess_id s = sess_id s' → i = j.

(** A session on which a stream can be opened. *)
Definition serving (s : Session) w : Prop :=
  smux_live s w = true ∧ is_Some (OpenStream (sess_id s) w).2.

Lemma serving_frame a s w :
  a ≠ sess_id s → serving s w → serving s (OpenStream a w).1.
Proof.
  unfold serving, smux_live, sess_id. destruct (Smux s) as [h|]; simpl; intros Hne [Hl Ho]; [|done].
  rewrite OpenStream_IsClosed by done. split; [done|by apply OpenStream_can_open].
Qed.

Lemma try_open_serving order ss le w i s :
  distinct_sessions ss → i ∈ order → ss !! i = Some (Some s) → serving s w →
  is_ok (try_open order ss le w).2 = true.
Proof.
  intros Hd. revert le w. induction order as [|j order IH]; intros le w Hin Hs Hsv;
    [by apply not_elem_of_nil in Hin|]. cbn [try_open].
  apply elem_of_cons in Hin as [<-|Hin].
  - rewrite Hs. destruct Hsv as [-> [strm Hstrm]].
    destruct (OpenStream (sess_id s) w) as [w' o]. simpl in *. by subst.
  - destruct (ss !! j) as [[s'|]|] eqn:Hj; try by apply IH.
    destruct (smux_live s' w) eqn:Hl; [|by apply IH].
    destruct (OpenStream (sess_id s') w) as [w' [strm|]] eqn:Ho; [done|].
    destruct (decide (sess_id s' = sess_id s)) as [E|Hne].
    + destruct Hsv as [_ [strm Hstrm]]. rewrite <- E, Ho in Hstrm. done.
    + apply IH; [done..|]. replace w' with (OpenStream (sess_id s') w).1 by by rewrite Ho.
      by apply serving_frame.
Qed.

Lemma try_open_dead order ss le w :
  (∀ i s, ss !! i = Some (Some s) → smux_live s w = false) →
  try_open order ss le w = (w, Err (if le then OpenFailed else NoLiveSession)).
Proof.
  intros Hd. induction order as [|j order IH]; [done|]. cbn [try_open].
  destruct (ss !! j) as [[s|]|] eqn:Hj; try done. by rewrite (Hd _ _ Hj).
Qed.

Lemma try_open_source order ss le w w' strm :
  try_open order ss le w = (w', Ok strm) →
  ∃ i s w1, i ∈ order ∧ ss !! i = Some (Some s) ∧ smux_live s w1 = true ∧
    OpenStream (sess_id s) w1 = (w', Some strm).
Proof.
  revert le w; induction order as [|j order IH]; intros le w; cbn [try_open]; [done|].
  assert (∀ P : nat → Prop, (∃ i, i ∈ order ∧ P i) → ∃ i, i ∈ j :: order ∧ P i) as Hmono.
  { intros P (i & Hi & HP). exists i. split; [by right|done]. }
  destruct (ss !! j) as [[s|]|] eqn:Hj.
  2,3: intros (i & s' & w1 & ? & ?)%IH; exists i, s', w1; (split; [by right|done]).
  destruct (smux_live s w) eqn:Hl.
  - destruct (OpenStream (sess_id s) w) as [w2 [st|]] eqn:Ho.
    + intros [= -> ->]. exists j, s, w. split; [left|done].
    + intros (i & s' & w1 & ? & ?)%IH; exists i, s', w1; (split; [by right|done]).
  - intros (i & s' & w1 & ? & ?)%IH; exists i, s', w1; (split; [by right|done]).
Qed.

Lemma Alive_spec p w :
  Alive p w = true ↔ ∃ i s, sessions p !! i = Some (Some s) ∧ smux_live s w = true.
Proof.
  unfold Alive. rewrite existsb_exists. split.
  - intros ([s|] & Hin & Hl); [|done].
    apply list_elem_of_In, list_elem_of_lookup in Hin as [i Hi]. eauto.
  - intros (i & s & Hi & Hl). exists (Some s). split; [|done].
    apply list_elem_of_In, list_elem_of_lookup. eauto.
Qed.

Lemma openStream_unfold p w :
  sessions p ≠ [] →
  openStream p w =
    (set_idx (fetch_inc (idx p)).2 p,
     (try_open (rr_order (fetch_inc (idx p)).1 (length (sessions p))) (sessions p) false w).1,
     (try_open (rr_order (fetch_inc (idx p)).1 (length (sessions p))) (sessions p) false w).2).
Proof.
  intros Hne. unfold openStream. destruct (Nat.eqb_spec (length (sessions p)) 0) as [E|].
  { by apply nil_length_inv in E. }
  destruct (fetch_inc (idx p)) as [start idx']. simpl. by destruct (try_open _ _ _ _).
Qed.

(** [openStream] skips dead and refusing sessions: it succeeds as soon as
    one session can serve, wherever the round-robin index stands; a returned
    stream was opened on a live session of the pool; and when no session is
    alive it fails and touches nothing but the index. *)
Theorem openStream_skips_dead p w (Hd : distinct_sessions (sessions p)) :
  ((∃ i s, sessions p !! i = Some (Some s) ∧ serving s w) →
     is_ok (openStream p w).2 = true) ∧
  (∀ p' w' strm, openStream p w = (p', w', Ok strm) →
     ∃ i s w1, sessions p !! i = Some (Some s) ∧ smux_live s w1 = true ∧
       OpenStream (sess_id s) w1 = (w', Some strm)) ∧
  (Alive p w = false → ∃ p' e, openStream p w = (p', w, Err e) ∧
     set_idx (idx p) p' = p).
Proof.
  destruct (decide (sessions p = [])) as [Hnil|Hne].
  { unfold openStream. rewrite Hnil. simpl. split_and!.
    - by intros (i & s & ? & _).
    - done.
    - intros _. eexists _, _. split; [done|by destruct p]. }
  rewrite !openStream_unfold by done. cbn [fst snd]. split_and!.
  - intros (i & s & Hi & Hs). eapply try_open_serving; [done| |done|done].
    apply elem_of_rr_order. by eapply lookup_lt_Some.
  - intros p' w' strm [= <- Hw Hr].
    destruct (try_open _ _ _ _) as [w2 r] eqn:E. simpl in *. subst.
    apply try_open_source in E as (i & s & w1 & _ & ? & ? & ?). eauto 6.
  - intros Ha. rewrite try_open_dead.
    + eexists _, _. split; [done|by destruct p].
    + intros i s Hi. destruct (smux_live s w) eqn:Hl; [|done].
      assert (Alive p w = true) as E by by apply Alive_spec; eauto.
      by rewrite Ha in E.
Qed.
End open_laws.

Definition two_sessions : list (option Session) :=
  [Some (mkSession None (Some 11) None None None (Some 1));
   Some (mkSession None (Some 12) None None None (Some 2))]%nat.

Lemma two_sessions_distinct : distinct_sessions two_sessions.
Proof. intros [|[|i]] [|[|j]] s s'; simpl; intros; by simplify_eq. Qed.

(** The first session is dead, the pool serves through the second. *)
Lemma openStream_skips_dead_witness :
  is_ok (openStream (pool_of (D := unit) two_sessions) (conn_Close 1 mock0)).2 = true.
Proof.
  apply openStream_skips_dead; [apply two_sessions_distinct|].
  exists 1%nat, (mkSession None (Some 12%nat) None None None (Some 2%nat)). split; [reflexivity|].
  split; [reflexivity|]. eexists. reflexivity.
Defined.

(** ** The table of UDP streams *)

Section udp_laws.
Context {W : Type} `{Conns W} `{Streams W} {D : Type}.
Implicit Types (p : Pool D) (w : W).

Lemma openStream_udp p w : udp (openStream p w).1.1 = udp p.
Proof.
  unfold openStream. destruct (_ =? 0)%nat; [done|]. destruct (fetch_inc _).
  destruct (try_open _ _ _ _). by destruct p.
Qed.

Lemma OpenUDP_open_udp t p w : udp (OpenUDP_open t p w).1.1 = udp p.
Proof.
  unfold OpenUDP_open. destruct (TunnelAddr.Parse t); [|done].
  pose proof (openStream_udp p w) as E. destruct (openStream p w) as [[p1 w1] [strm|]]; [|done].
  by destruct (StreamWrite _ _ _) as [? []].
Qed.

Lemma OpenUDP_install_lookup key strm p :
  udp (OpenUDP_install key strm p) = <[key := strm]> (udp p).
Proof. by destruct p. Qed.

Lemma OpenUDP_cached la t p w strm :
  udp p !! addrPairKey la t = Some strm →
  OpenUDP la t p w = (p, w, Ok (strm, false, addrPairKey la t)).
Proof. intros E. unfold OpenUDP, OpenUDP_lookup. by rewrite E. Qed.

(** A stream that was returned is in the table. *)
Lemma OpenUDP_stored la t p w p' w' strm isNew key :
  OpenUDP la t p w = (p', w', Ok (strm, isNew, key)) → udp p' !! key = Some strm.
Proof.
  unfold OpenUDP, OpenUDP_lookup. destruct (udp p !! addrPairKey la t) as [s|] eqn:El.
  { intros E. by simplify_eq. }
  destruct (OpenUDP_open t p w) as [[p1 w1] [s|e]]; intros E; simplify_eq.
  by rewrite OpenUDP_install_lookup, lookup_insert_eq.
Qed.

(** The table of UDP streams.  A successful [OpenUDP] leaves the stream
    in the table under the returned key and changes no other key; it is new
    exactly when the key was absent; from then on, in any world, the same
    pair of addresses gets the same stream, not new; and [CloseUDP] of that
    key closes that stream and makes the key absent again.  A failure leaves
    the table as it was. *)
Theorem OpenUDP_table la t p w p' w' r (Ho : OpenUDP la t p w = (p', w', r)) :
  match r with
  | Err _ => udp p' = udp p
  | Ok (strm, isNew, key) =>
      key = addrPairKey la t ∧
      udp p' = <[key := strm]> (udp p) ∧
      (isNew = true ↔ udp p !! key = None) ∧
      (∀ w2, OpenUDP la t p' w2 = (p', w2, Ok (strm, false, key))) ∧
      (∀ w2, ∃ p2, CloseUDP key p' w2 = (p2, StreamClose strm w2) ∧
                   udp p2 = delete key (udp p))
  end.
Proof.
  assert (∀ k strm q, udp q = <[k := strm]> (udp p) → ∀ w2, ∃ p2,
    CloseUDP k q w2 = (p2, StreamClose strm w2) ∧ udp p2 = delete k (udp p)) as Hclose.
  { intros k strm q Hq w2. unfold CloseUDP. rewrite Hq, lookup_insert_eq.
    eexists. split; [done|]. destruct q; simpl in *. by rewrite delete_insert_eq. }
  unfold OpenUDP, OpenUDP_lookup in Ho.
  destruct (udp p !! addrPairKey la t) as [strm|] eqn:El; simplify_eq.
  - assert (<[addrPairKey la t:=strm]> (udp p') = udp p') as E by by apply insert_id.
    split_and!; try done; [by rewrite El|by intros; apply OpenUDP_cached|by apply Hclose].
  - pose proof (OpenUDP_open_udp t p w) as Hu.
    destruct (OpenUDP_open t p w) as [[p1 w1] [strm|e]]; simplify_eq; simpl in Hu; [|done].
    assert (udp (OpenUDP_install (addrPairKey la t) strm p1)
            = <[addrPairKey la t:=strm]> (udp p)) as E
      by by rewrite OpenUDP_install_lookup, Hu.
    split_and!; try done; [|by apply Hclose].
    intros w2. apply OpenUDP_cached. by rewrite E, lookup_insert_eq.
Qed.

Lemma foldl_app_bs (h : Z) a b :
  foldl fnv32_step (foldl fnv32_step h (code <$> bs a)) (code <$> bs b)
  = foldl fnv32_step h (code <$> (bs a ++ bs b)).
Proof. by rewrite fmap_app, foldl_app. Qed.

(** The key hashes the two addresses with nothing between them, so two
    different pairs with the same concatenation share one stream: once one
    of them has a stream, the other is handed it, not new, and the datagrams
    of the second pair are sent to the first pair's target. *)
Theorem OpenUDP_confuses_pairs la t la' t' p w p' w' strm isNew key
    (Hcat : bs la ++ bs t = bs la' ++ bs t')
    (Ho : OpenUDP la t p w = (p', w', Ok (strm, isNew, key))) :
  ∀ w2, OpenUDP la' t' p' w2 = (p', w2, Ok (strm, false, key)).
Proof.
  assert (addrPairKey la t = addrPairKey la' t') as Ek.
  { unfold addrPairKey. simpl. by rewrite !foldl_app_bs, Hcat. }
  intros w2. unfold OpenUDP, OpenUDP_lookup in Ho.
  destruct (udp p !! addrPairKey la t) as [s|] eqn:El; simplify_eq.
  { rewrite Ek. apply OpenUDP_cached. by rewrite <- Ek. }
  destruct (OpenUDP_open t p w) as [[p1 w1] [s|e]]; simplify_eq.
  rewrite Ek. apply OpenUDP_cached. by rewrite OpenUDP_install_lookup, lookup_insert_eq.
Qed.
End udp_laws.

Lemma OpenUDP_table_witness :
  ∃ p', OpenUDP "127.0.0.1:9000" "8.8.8.8:53" (pool_of (D := unit) two_sessions) mock0
        = (p', (OpenStream 1 mock0).1, Ok (100%nat, true, addrPairKey "127.0.0.1:9000" "8.8.8.8:53"))
      ∧ ∀ w2, OpenUDP "127.0.0.1:9000" "8.8.8.8:53" p' w2
        = (p', w2, Ok (100%nat, false, addrPairKey "127.0.0.1:9000" "8.8.8.8:53")).
Proof.
  eexists. split; [vm_compute; reflexivity|].
  refine (proj1 (proj2 (proj2 (proj2 (OpenUDP_table "127.0.0.1:9000" "8.8.8.8:53"
    (pool_of (D := unit) two_sessions) mock0 _ (OpenStream 1 mock0).1
    (Ok (100%nat, true, addrPairKey "127.0.0.1:9000" "8.8.8.8:53")) _))))).
  vm_compute. reflexivity.
Defined.

(** A client at 10.0.0.1:500 talking to 11.1.1.1:53, and one at 10.0.0.1:5001
    talking to 1.1.1.1:53. *)
Lemma OpenUDP_confuses_pairs_witness :
  ∃ p', OpenUDP "10.0.0.1:500" "11.1.1.1:53" (pool_of (D := unit) two_sessions) mock0
        = (p', (OpenStream 1 mock0).1, Ok (100%nat, true, addrPairKey "10.0.0.1:500" "11.1.1.1:53"))
      ∧ ∀ w2, OpenUDP "10.0.0.1:5001" "1.1.1.1:53" p' w2
        = (p', w2, Ok (100%nat, false, addrPairKey "10.0.0.1:500" "11.1.1.1:53")).
Proof.
  eexists. split; [vm_compute; reflexivity|].
  apply (OpenUDP_confuses_pairs "10.0.0.1:500" "11.1.1.1:53" "10.0.0.1:5001" "1.1.1.1:53"
    (pool_of (D := unit) two_sessions) mock0 _ (OpenStream 1 mock0).1 _ true);
    vm_compute; reflexivity.
Defined.

(** ** QUIC-datagram flows: the pool as a transition system *)

Section flows.
Context {W : Type} `{Conns W} `{Streams W} {D : Type}.
Implicit Types (p : Pool D) (w : W).

(** One atomic section of one method; the last rule is everything outside
    the pool (the network, the peer, other pools). *)
Inductive pool_step : Pool D * W → Pool D * W → Prop :=
| step_OpenTCP t p w : pool_step (p, w) (OpenTCP t p w).1
| step_Ping p w : pool_step (p, w) (PingWithTimeout p w).1
| step_OpenUDP_open t p w : pool_step (p, w) (OpenUDP_open t p w).1
| step_OpenUDP_install k strm p w : pool_step (p, w) (OpenUDP_install k strm p, w)
| step_CloseUDP k p w : pool_step (p, w) (CloseUDP k p w)
| step_OpenUDPDatagram k t d p w : pool_step (p, w) (OpenUDPDatagram k t d p w).1
| step_Close_ctrl p w : pool_step (p, w) (Close_ctrl p w)
| step_Close_sessions p w : pool_step (p, w) (Close_sessions p w)
| step_world p w w' : pool_step (p, w) (p, w').

Definition pool_steps : Pool D * W → Pool D * W → Prop := rtc pool_step.

(** The datagram side of the state. *)
Definition dg_view (p : Pool D) := (dgByKey p, dgDeliver p, dgRecv p).

Lemma openStream_dg p w : dg_view (openStream p w).1.1 = dg_view p.
Proof.
  unfold openStream. destruct (_ =? 0)%nat; [done|]. destruct (fetch_inc _).
  destruct (try_open _ _ _ _). by destruct p.
Qed.

Ltac stream_op :=
  match goal with |- context [openStream ?p ?w] =>
    pose proof (openStream_dg p w) as E; destruct (openStream p w) as [[? ?] [?|?]]; simpl in *;
    [|done]
  end.

Lemma OpenTCP_dg t p w : dg_view (OpenTCP t p w).1.1 = dg_view p.
Proof.
  unfold OpenTCP. destruct (TunnelAddr.Parse t); [|done]. stream_op.
  by destruct (StreamWrite _ _ _) as [? []].
Qed.

Lemma OpenUDP_open_dg t p w : dg_view (OpenUDP_open t p w).1.1 = dg_view p.
Proof.
  unfold OpenUDP_open. destruct (TunnelAddr.Parse t); [|done]. stream_op.
  by destruct (StreamWrite _ _ _) as [? []].
Qed.

Lemma PingWithTimeout_dg p w : dg_view (PingWithTimeout p w).1.1 = dg_view p.
Proof.
  unfold PingWithTimeout. stream_op.
  destruct (StreamWrite _ _ _) as [? []]; [|done]. by destruct (StreamRead _ _) as [? []].
Qed.

Lemma CloseUDP_dg k p w : dg_view (CloseUDP k p w).1 = dg_view p.
Proof. unfold CloseUDP. destruct (udp p !! k); [|done]. by destruct p. Qed.

Lemma pickQUICSession_dg p w : dg_view (pickQUICSession p w).1 = dg_view p.
Proof.
  unfold pickQUICSession. destruct (_ =? 0)%nat; [done|]. destruct (fetch_inc _).
  by destruct p.
Qed.

Lemma pickQUICSession_some p w p' s :
  pickQUICSession p w = (p', Some s) →
  Some s ∈ sessions p ∧ DatagramsOK s = true ∧ smux_live s w = true ∧
  p' = set_dgIdx (fetch_inc (dgIdx p)).2 p.
Proof.
  unfold pickQUICSession. destruct (_ =? 0)%nat; [done|].
  destruct (fetch_inc _) as [st idx']. intros [= <- Hh].
  apply head_Some_elem_of in Hh. apply list_elem_of_omap in Hh as (i & _ & Hi).
  destruct (sessions p !! i) as [[s'|]|] eqn:E; try done.
  destruct (DatagramsOK s' && smux_live s' w) eqn:Ed; [|done].
  apply andb_true_iff in Ed as [? ?]. simplify_eq. split; [|done].
  apply list_elem_of_lookup. eauto.
Qed.

(** What [OpenUDPDatagram] does to the datagram side: nothing, or it
    registers one flow for a key that had none. *)
Lemma OpenUDPDatagram_dg k t d p w :
  dg_view (OpenUDPDatagram k t d p w).1.1 = dg_view p ∨
  ∃ s fid, dgByKey p !! k = None ∧ DatagramsOK s = true ∧
    dg_view (OpenUDPDatagram k t d p w).1.1 =
      (<[k := (s, fid)]> (dgByKey p),
       <[sess_id s := <[fid := d]> (default ∅ (dgDeliver p !! sess_id s))]> (dgDeliver p),
       {[sess_id s]} ∪ dgRecv p).
Proof.
  unfold OpenUDPDatagram. destruct (dgByKey p !! k) as [[? ?]|] eqn:Ek; [by left|].
  pose proof (pickQUICSession_dg p w) as Hp.
  destruct (pickQUICSession p w) as [p1 [s|]] eqn:Epick; simpl in Hp; [|by left].
  apply pickQUICSession_some in Epick as (_ & Hq & _ & _).
  destruct (TunnelAddr.Parse t); [|by left].
  destruct (OpenStream _ _) as [w1 [c|]]; [|by left].
  destruct (StreamWrite _ _ _) as [w2 []]; [|by left].
  destruct (StreamReadFlowID _ _) as [w3 [fid|]]; [|by left].
  right. exists s, fid. split_and!; [done..|].
  unfold dg_view in Hp. injection Hp as Hp1 Hp2 Hp3. unfold register_flow, dg_view.
  destruct (dgCtrl p1); simpl; congruence.
Qed.

(** Every registered flow is on a QUIC session whose receive loop runs, and
    has a closure to deliver to. *)
Definition flows_ok (p : Pool D) : Prop :=
  ∀ k s fid, dgByKey p !! k = Some (s, fid) →
    DatagramsOK s = true ∧ sess_id s ∈ dgRecv p ∧
    ∃ m, dgDeliver p !! sess_id s = Some m ∧ is_Some (m !! fid).

Lemma step_dg p w p' w' :
  pool_step (p, w) (p', w') →
  dg_view p' = dg_view p ∨
  ∃ k d s fid, dgByKey p !! k = None ∧ DatagramsOK s = true ∧
    dg_view p' =
      (<[k := (s, fid)]> (dgByKey p),
       <[sess_id s := <[fid := d]> (default ∅ (dgDeliver p !! sess_id s))]> (dgDeliver p),
       {[sess_id s]} ∪ dgRecv p).
Proof.
  remember (p, w) as a eqn:Ea. remember (p', w') as b eqn:Eb. destruct 1; simplify_eq.
  - left. rewrite <- (OpenTCP_dg t p w). by rewrite Eb.
  - left. rewrite <- (PingWithTimeout_dg p w). by rewrite Eb.
  - left. rewrite <- (OpenUDP_open_dg t p w). by rewrite Eb.
  - left. by destruct p.
  - left. rewrite <- (CloseUDP_dg k p w). by rewrite Eb.
  - destruct (OpenUDPDatagram_dg k t d p w) as [E|(s & fid & E)]; rewrite Eb in E; simpl in E;
      [by left|right; by exists k, d, s, fid].
  - left. unfold Close_ctrl in Eb. injection Eb as <- _. by destruct p.
  - left. unfold Close_sessions in Eb. injection Eb as <- _. by destruct p.
  - by left.
Qed.

Lemma step_flows p w p' w' :
  pool_step (p, w) (p', w') → flows_ok p →
  flows_ok p' ∧ (∀ k f, dgByKey p !! k = Some f → dgByKey p' !! k = Some f).
Proof.
  intros Hst Hok. apply step_dg in Hst as [E|(k & d & s & fid & Hk & Hq & E)];
    unfold dg_view in E; injection E as E1 E2 E3; unfold flows_ok; rewrite E1, E2, E3; [done|].
  split.
  - intros k' s' fid' [[-> ?]|[Hne Hk']]%lookup_insert_Some; simplify_eq.
    + split_and!; [done|set_solver|]. eexists. rewrite lookup_insert_eq. split; [done|].
      rewrite lookup_insert_eq. eauto.
    + destruct (Hok _ _ _ Hk') as (Hq' & Hr & m & Hm & Hf). split_and!; [done|set_solver|].
      destruct (decide (sess_id s' = sess_id s)) as [Es|Es].
      * rewrite Es in *. eexists. rewrite lookup_insert_eq, Hm. split; [done|]. simpl.
        destruct (decide (fid' = fid)) as [->|]; [rewrite lookup_insert_eq; eauto|].
        by rewrite lookup_insert_ne.
      * exists m. by rewrite lookup_insert_ne.
  - intros k' f Hf. rewrite lookup_insert_ne; [done|]. intros ->. congruence.
Qed.

(** QUIC-datagram flows, over every interleaving of the pool's operations
    with each other and with the outside world.  Every registered flow stays
    on a QUIC session whose receive loop was started, with a closure to
    deliver its payloads to; and a flow, once registered for a key, is
    registered for good: whatever happens to its session, to its control
    stream or to the flow on the server, [OpenUDPDatagram] of that key
    returns the same session and flow identifier, not new. *)
Theorem flows_persist p w p' w' (Hreach : pool_steps (p, w) (p', w')) (Hok : flows_ok p) :
  flows_ok p' ∧
  ∀ k s fid, dgByKey p !! k = Some (s, fid) →
    ∀ t d w2, OpenUDPDatagram k t d p' w2 = (p', w2, Ok (s, fid, false)).
Proof.
  assert (flows_ok p' ∧ ∀ k f, dgByKey p !! k = Some f → dgByKey p' !! k = Some f)
    as [Hok' Hmono].
  { unfold pool_steps in Hreach. remember (p, w) as a eqn:Ea. remember (p', w') as b eqn:Eb.
    revert p w p' w' Ea Eb Hok. induction Hreach as [a|a [p1 w1] b Hst _ IH]; intros; simplify_eq;
      [done|].
    apply step_flows in Hst as [Hok1 Hm1]; [|done].
    destruct (IH _ _ _ _ eq_refl eq_refl Hok1) as [? Hm2]. eauto. }
  split; [done|]. intros k s fid Hk t d w2. unfold OpenUDPDatagram.
  by rewrite (Hmono _ _ Hk).
Qed.

Lemma dgRecv_deliver sid b p fid payload m d :
  DecodeDatagram b = Some (fid, payload) → dgDeliver p !! sid = Some m → m !! fid = Some d →
  dgramRecv sid b p = Some (d, payload).
Proof. intros Hb Hm Hd. unfold dgramRecv. by rewrite Hb; simpl; rewrite Hm; simpl; rewrite Hd. Qed.
End flows.

(** Two keys on one QUIC session, with the pool closed afterwards. *)
Definition quic_session : Session := mkSession None None (Some 21%nat) (Some 22%nat) (Some 23%nat) (Some 1%nat).

Lemma flows_persist_witness :
  ∃ p' w', pool_steps (pool_of (D := unit) [Some quic_session], mock0) (p', w') ∧
    flows_ok p' ∧ ∀ t d w2,
      OpenUDPDatagram "k" t d p' w2 = (p', w2, Ok (quic_session, 7, false)).
Proof.
  set (a := OpenUDPDatagram "k" "8.8.8.8:53" tt (pool_of [Some quic_session]) mock0).
  set (b := Close_sessions (Close_ctrl a.1.1 a.1.2).1 (Close_ctrl a.1.1 a.1.2).2).
  assert (flows_ok a.1.1) as Ha.
  { refine (proj1 (flows_persist (pool_of [Some quic_session]) mock0 a.1.1 a.1.2 _ _)).
    - apply rtc_once. rewrite <- surjective_pairing. apply step_OpenUDPDatagram.
    - intros k s fid Hk. vm_compute in Hk. discriminate Hk. }
  assert (pool_steps (a.1.1, a.1.2) (b.1, b.2)) as Hab.
  { eapply rtc_l; [apply step_Close_ctrl|]. rewrite (surjective_pairing (Close_ctrl _ _)).
    apply rtc_once. rewrite <- surjective_pairing. apply step_Close_sessions. }
  exists b.1, b.2. split; [|split].
  - eapply rtc_l; [apply (step_OpenUDPDatagram "k" "8.8.8.8:53" tt)|].
    fold a. rewrite (surjective_pairing a.1). apply Hab.
  - apply (flows_persist _ _ _ _ Hab Ha).
  - apply (proj2 (flows_persist _ _ _ _ Hab Ha)). vm_compute. reflexivity.
Defined.

Section flow_laws.
Context {W : Type} `{Conns W} `{Streams W} {D : Type}.
Implicit Types (p : Pool D) (w : W).

(** The steps of a successful registration. *)
Lemma OpenUDPDatagram_new k t d p w p' w' s fid :
  OpenUDPDatagram k t d p w = (p', w', Ok (s, fid, true)) →
  ∃ addr ctrl w1 w2, dgByKey p !! k = None ∧
    pickQUICSession p w = (set_dgIdx (fetch_inc (dgIdx p)).2 p, Some s) ∧ TunnelAddr.Parse t = Ok addr ∧
    OpenStream (sess_id s) w = (w1, Some ctrl) ∧
    StreamWrite ctrl (mkMessage UDPDGRAM (Some addr) []) w1 = (w2, true) ∧
    StreamReadFlowID ctrl w2 = (w', Some fid) ∧
    register_flow k s fid ctrl d (set_dgIdx (fetch_inc (dgIdx p)).2 p) = (p', Ok tt).
Proof.
  unfold OpenUDPDatagram. destruct (dgByKey p !! k) as [[? ?]|]; [congruence|].
  destruct (pickQUICSession p w) as [p1 [s1|]] eqn:Epick; [|congruence].
  pose proof Epick as (_ & _ & _ & ->)%pickQUICSession_some.
  destruct (TunnelAddr.Parse t) as [addr|]; [|congruence].
  destruct (OpenStream _ _) as [w1 [c|]] eqn:Eo; [|congruence].
  destruct (StreamWrite _ _ _) as [w2 []] eqn:Ew; [|congruence].
  destruct (StreamReadFlowID _ _) as [w3 [f|]] eqn:Er; [|congruence].
  destruct (register_flow _ _ _ _ _ _) as [p2 [[]|]] eqn:Eg; [|congruence].
  intros E. simplify_eq. by exists addr, c, w1, w2.
Qed.

(** A new datagram flow is routed both ways.  It is opened on a live
    QUIC session of the pool; what its send closure writes is the payload
    under the flow's header on that session; a datagram with that header
    arriving on the session is delivered, unchanged, to the closure given at
    opening; the dispatch of every other flow is as before; and the control
    stream is kept under the key. *)
Theorem OpenUDPDatagram_routes k t d p w p' w' s fid
    (Ho : OpenUDPDatagram k t d p w = (p', w', Ok (s, fid, true)))
    (Hf : 0 ≤ fid < 2 ^ 64) :
  Some s ∈ sessions p ∧ smux_live s w = true ∧
  (∃ q, quicConn s = Some q ∧ ∀ payload w2, send_flow s fid payload w2 =
     SendDatagram q (EncodeDatagram fid payload) w2) ∧
  (∀ payload, dgramRecv (sess_id s) (EncodeDatagram fid payload) p' = Some (d, payload)) ∧
  (∀ sid b, (∀ payload, DecodeDatagram b = Some (fid, payload) → sid ≠ sess_id s) →
     dgramRecv sid b p' = dgramRecv sid b p) ∧
  (∃ ctrl c, dgCtrl p' = Some c ∧ c !! k = Some ctrl).
Proof.
  apply OpenUDPDatagram_new in Ho as (addr & ctrl & w1 & w2 & _ & Hpick & _ & _ & _ & _ & Hr).
  apply pickQUICSession_some in Hpick as (Hin & Hq & Hl & _).
  unfold register_flow in Hr.
  destruct (dgCtrl (set_dgIdx _ p)) as [c|] eqn:Ec; [|congruence].
  destruct p as [ss ix u di bk ct dl rc]. simpl in *. injection Hr as <-. split_and!.
  - done.
  - done.
  - unfold DatagramsOK in Hq. apply bool_decide_eq_true in Hq as [q Hq]. exists q.
    split; [done|]. intros. unfold send_flow, Session_SendDatagram. by rewrite Hq.
  - intros payload. unfold dgramRecv. rewrite DecodeDatagram_Encode by done. simpl.
    rewrite lookup_insert_eq. simpl. by rewrite lookup_insert_eq.
  - intros sid b Hne. unfold dgramRecv. simpl.
    destruct (DecodeDatagram b) as [[f pl]|] eqn:Eb; [|done]. simpl.
    destruct (decide (sid = sess_id s)) as [->|]; [|by rewrite lookup_insert_ne].
    rewrite lookup_insert_eq. simpl.
    rewrite lookup_insert_ne; [|intros ->; by eapply Hne].
    by destruct (dl !! sess_id s).
  - exists ctrl. eexists. split; [done|]. apply lookup_insert_eq.
Qed.

Lemma dgByKey_set_ctrl c p : dgByKey (set_dgCtrl c p) = dgByKey p.
Proof. by destruct p. Qed.

Lemma pickQUICSession_set_ctrl c p w :
  pickQUICSession (set_dgCtrl c p) w =
    (set_dgCtrl c (pickQUICSession p w).1, (pickQUICSession p w).2).
Proof.
  unfold pickQUICSession. destruct p as [ss ix u di bk ct dl rc]. simpl.
  by destruct (_ =? 0)%nat.
Qed.

(** [Close] forgets the control streams before it forgets the sessions,
    and releases the lock in between.  A call that would have opened a flow
    panics on the nil map when it runs in between; once [Close] is done, a
    key without a flow is refused. *)
Theorem Close_races_OpenUDPDatagram k t d p w p' w' s fid
    (Ho : OpenUDPDatagram k t d p w = (p', w', Ok (s, fid, true))) :
  (∀ w0, (OpenUDPDatagram k t d (Close_ctrl p w0).1 w).2 = Err PanicNilMap) ∧
  (∀ w0, (OpenUDPDatagram k t d (Close p w0).1 w).2 = Err NoQUICSession).
Proof.
  apply OpenUDPDatagram_new in Ho as (addr & ctrl & w1 & w2 & Hk & Hp & Ht & E1 & E2 & E3 & _).
  split; intros w0; unfold OpenUDPDatagram.
  - change (Close_ctrl p w0).1 with (set_dgCtrl None p).
    rewrite dgByKey_set_ctrl, Hk, pickQUICSession_set_ctrl, Hp. cbn [fst snd].
    rewrite Ht, E1, E2, E3. by destruct p.
  - change (Close p w0).1 with (set_sessions [] (set_dgCtrl None p)).
    destruct p; simpl in *. by rewrite Hk.
Qed.
End flow_laws.

Definition one_quic : Pool nat := pool_of [Some quic_session].

Lemma OpenUDPDatagram_routes_witness :
  ∃ p' w', OpenUDPDatagram "k" "8.8.8.8:53" 42%nat one_quic mock0
           = (p', w', Ok (quic_session, 7, true)) ∧
    dgramRecv 1 (EncodeDatagram 7 [1; 2; 3]) p' = Some (42%nat, [1; 2; 3]).
Proof.
  eexists _, _. split; [vm_compute; reflexivity|].
  apply (OpenUDPDatagram_routes "k" "8.8.8.8:53" 42%nat one_quic mock0 _
    (StreamReadFlowID 100 (OpenStream 1 mock0).1).1 quic_session 7); [|lia].
  vm_compute. reflexivity.
Defined.

Lemma Close_races_OpenUDPDatagram_witness :
  (OpenUDPDatagram "k" "8.8.8.8:53" 42%nat (Close_ctrl one_quic mock0).1 mock0).2 = Err PanicNilMap.
Proof.
  apply (Close_races_OpenUDPDatagram "k" "8.8.8.8:53" 42%nat one_quic mock0
    (OpenUDPDatagram "k" "8.8.8.8:53" 42%nat one_quic mock0).1.1
    (StreamReadFlowID 100 (OpenStream 1 mock0).1).1 quic_session 7).
  vm_compute. reflexivity.
Defined.
