(* ===== verification/TunnelDial.v ===== *)
(** [internal/tunnelpool/dial.go]: building the pool of sessions to one
    upstream, over the pcap connections and sessions of [Transport].

    [rnd i] and [rnd' i] are the values drawn by [rand.Intn(32768)] for
    connection [i], in [ResolveNetwork] and in [Dial]. *)

From S2P Require Import Prelude GoStd NetUtil Protocol Config ConfigResolve Transport TunnelPool.

Local Open Scope Z_scope.

Inductive dial_error : Type :=
| DialRemote (e : remote_error) | DialOptions (e : transport_error)
| DialConnection (i : nat) (e : resolve_error) | DialPcap (i : nat)
| DialSession (i : nat) (e : transport_error) | DialFlags (i : nat) (e : pool_error).

Section dial.
Context {W : Type} `{Conns W} `{Streams W} {D : Type}.
Context (ParseDuration : string → option Z) (InterfaceByName : string → bool)
  (ParseMAC : string → option (list Z)) (rnd rnd' : nat → Z).

Definition empty_pool : Pool D := mkPool [] 0 ∅ 0 ∅ (Some ∅) ∅ ∅.

(** [if netRT.Port == 0 { ... }]. *)
Definition ensure_port (i : nat) (rt : NetworkRuntime) : NetworkRuntime :=
  if nr_Port rt =? 0 then
    let port := 32768 + rnd' i in
    mkNetworkRuntime (nr_Interface rt) (mkUDPAddr (udp_ip (nr_IPv4 rt)) port) (nr_RouterMAC rt)
      (nr_IPv6 rt) port (nr_LocalFlags rt) (nr_RemoteFlags rt) (nr_Sockbuf rt)
  else rt.

Definition add_session (s : Session) (p : Pool D) : Pool D :=
  set_sessions (sessions p ++ [Some s]) p.

(** One turn of the loop: connection [i] of the pool. *)
Definition dial_one (cfg : Config) (remote : UDPAddr) (opt : Options)
    (remoteFlags : list TCPFlagSet) (i : nat) (w : W) : W * result dial_error Session :=
  match ResolveNetworkWithPort InterfaceByName ParseMAC (rnd i) cfg 0 with
  | Err e => (w, Err (DialConnection i e))
  | Ok netRT =>
      match PcapOpen (ensure_port i netRT) w with
      | (w, None) => (w, Err (DialPcap i))
      | (w, Some pconn) =>
          let w := SetRemoteTCPFlags pconn remote remoteFlags w in
          match Transport.Dial remote opt pconn w with
          | (w, Err e) => (conn_Close pconn w, Err (DialSession i e))
          | (w, Ok sess) =>
              match sendRemoteFlags sess remoteFlags w with
              | (w, Err e) => (Session_Close sess w, Err (DialFlags i e))
              | (w, Ok _) => (w, Ok sess)
              end
          end
      end
  end.

(** The loop; every failure closes the pool. *)
Fixpoint dial_loop (n i : nat) (cfg : Config) (remote : UDPAddr) (opt : Options)
    (remoteFlags : list TCPFlagSet) (pool : Pool D) (w : W) : W * result dial_error (Pool D) :=
  match n with
  | O => (w, Ok pool)
  | S n' =>
      match dial_one cfg remote opt remoteFlags i w with
      | (w, Err e) => ((Close pool w).2, Err e)
      | (w, Ok sess) => dial_loop n' (S i) cfg remote opt remoteFlags (add_session sess pool) w
      end
  end.

Definition conn_count (cfg : Config) : nat :=
  let count := tr_Conn (cfg_Transport cfg) in
  Z.to_nat (if count <? 1 then 1 else count).

Definition Dial (cfg : Config) (remote : UDPAddr) (transportCfg : TransportConfig)
    (remoteFlags : list TCPFlagSet) (w : W) : W * result dial_error (Pool D) :=
  match OptionsFromConfig ParseDuration RoleClient transportCfg with
  | Err e => (w, Err (DialOptions e))
  | Ok opt => dial_loop (conn_count cfg) 0 cfg remote opt remoteFlags empty_pool w
  end.

Definition New (cfg : Config) (remoteFlags : list TCPFlagSet) (w : W) :
    W * result dial_error (Pool D) :=
  match RemoteServerAddr cfg with
  | Err e => (w, Err (DialRemote e))
  | Ok remote => Dial cfg remote (cfg_Transport cfg) remoteFlags w
  end.
End dial.

(** Streams are not handles of their own: opening, using and closing one leaves
    the open handles as they are. *)
Class StreamsHeld (W : Type) `{ConnsLaws W} `{Streams W} : Prop := {
  OpenStream_held h w : held (OpenStream h w).1 = held w;
  StreamWrite_held h m w : held (StreamWrite h m w).1 = held w;
  StreamRead_held h w : held (StreamRead h w).1 = held w;
  StreamClose_held h w : held (StreamClose h w) = held w }.

Section dial_laws.
Context {W : Type} `{StreamsHeld W} {D : Type}.
Context (ParseDuration : string → option Z) (InterfaceByName : string → bool)
  (ParseMAC : string → option (list Z)) (rnd rnd' : nat → Z).
Implicit Types (p : Pool D) (w : W).

Lemma sendRemoteFlags_held s f w : held (sendRemoteFlags s f w).1 = held w.
Proof.
  unfold sendRemoteFlags. pose proof (OpenStream_held (sess_id s) w) as E.
  destruct (OpenStream (sess_id s) w) as [w1 [st|]]; [|done]. simpl in E.
  pose proof (StreamWrite_held st (mkMessage TCPF None f) w1) as E1.
  destruct (StreamWrite _ _ _) as [w2 ok]. simpl in *. by rewrite StreamClose_held, E1.
Qed.

Lemma opens_drop w w1 w2 l s :
  opens w w1 l → session_handles s = list_to_set l → held w2 = held w1 →
  held (Session_Close s w2) = held w.
Proof.
  intros (_ & Hf & E) Hs E2. rewrite Session_Close_held, E2, E, Hs.
  apply set_eq. intros x. specialize (Hf x).
  rewrite elem_of_difference, elem_of_union, elem_of_list_to_set.
  destruct (decide (x ∈ l)); tauto.
Qed.

(** One connection: on failure nothing stays open, on success the session
    holds exactly what was opened. *)
Lemma dial_one_opens cfg remote opt flags i w :
  match dial_one InterfaceByName ParseMAC rnd rnd' cfg remote opt flags i w with
  | (w', Err _) => held w' = held w
  | (w', Ok s) => ∃ m l, opens w w' (m :: l) ∧ Smux s = Some m ∧
                    session_handles s = list_to_set (m :: l)
  end.
Proof.
  unfold dial_one. destruct (ResolveNetworkWithPort _ _ _ _ _) as [rt|]; [|done].
  pose proof (PcapOpen_held (ensure_port rnd' i rt) w) as Ep.
  destruct (PcapOpen _ _) as [w1 [pc|]]; [|done].
  assert (opens w (SetRemoteTCPFlags pc remote flags w1) [pc]) as O1.
  { eapply opens_same; [eapply opens_step; [apply opens_refl|done]|apply SetRemoteTCPFlags_held]. }
  pose proof (Dial_opens remote opt pc (SetRemoteTCPFlags pc remote flags w1)) as Hd.
  destruct (Transport.Dial _ _ _ _) as [w2 [s|e]].
  2: { apply opens_nil_held. apply opens_close. eapply opens_same; [done|by apply opens_nil_held]. }
  destruct Hd as (m & l & O2 & _ & Hm & _ & Hs).
  pose proof (opens_trans _ _ _ _ _ O1 O2) as O3.
  pose proof (sendRemoteFlags_held s flags w2) as Ef.
  destruct (sendRemoteFlags s flags w2) as [w3 [u|e]]; simpl in Ef.
  - exists m, (l ++ [pc]). split; [|done]. by eapply opens_same.
  - by eapply opens_drop.
Qed.

(** Every handle held by the sessions of a pool. *)
Definition opt_handles (s : option Session) : gset nat :=
  match s with Some s => session_handles s | None => ∅ end.
Definition pool_handles (p : Pool D) : gset nat := ⋃ (opt_handles <$> sessions p).

(** [Close] releases them all, and nothing else. *)
Lemma Close_held p w : held (Close p w).2 = held w ∖ pool_handles p.
Proof.
  transitivity (held (Close_ctrl p w).2 ∖ pool_handles p).
  - unfold Close. destruct (Close_ctrl p w) as [p1 w1] eqn:E. injection E as E1 _.
    unfold Close_sessions, pool_handles. simpl.
    replace (sessions p1) with (sessions p) by by rewrite <- E1; destruct p.
    generalize (sessions p). clear. intros ss. revert w1.
    induction ss as [|s ss IH]; intros w1; simpl; [set_solver +|].
    rewrite IH, <- difference_difference_l_L. f_equal.
    destruct s; simpl; [apply Session_Close_held|set_solver +].
  - f_equal. unfold Close_ctrl. simpl.
    induction (map_to_list (default ∅ (dgCtrl p))) as [|kv l IH]; simpl; [done|].
    by rewrite StreamClose_held.
Qed.

(** A pool under construction: since [w0], exactly its sessions' handles were
    opened, and no two sessions share a smux session. *)
Definition built (w0 w : W) p : Prop :=
  ∃ ss l, sessions p = Some <$> ss ∧ opens w0 w l ∧ pool_handles p = list_to_set l ∧
    NoDup (sess_id <$> ss) ∧ Forall (λ s, is_Some (Smux s) ∧ sess_id s ∈ l) ss.

Lemma pool_handles_add s p :
  pool_handles (add_session s p) = session_handles s ∪ pool_handles p.
Proof.
  unfold pool_handles. destruct p as [ss ix u di bk ct dl rc]. simpl.
  rewrite fmap_app, union_list_app_L. simpl. rewrite (right_id_L ∅ (∪)). apply (comm_L (∪)).
Qed.

Lemma built_add w0 w w' p s m l :
  built w0 w p → opens w w' (m :: l) → Smux s = Some m →
  session_handles s = list_to_set (m :: l) → built w0 w' (add_session s p).
Proof.
  intros (ss & k & Hss & Ho & Hh & Hnd & Hall) Ho' Hm Hs.
  exists (ss ++ [s]), ((m :: l) ++ k). split_and!.
  - destruct p; simpl in *. by rewrite Hss, fmap_app.
  - by eapply opens_trans.
  - by rewrite pool_handles_add, Hs, Hh, list_to_set_app_L.
  - rewrite fmap_app, Permutation_app_comm. simpl. apply NoDup_cons. split; [|done].
    intros (s' & Es & Hin)%list_elem_of_fmap. rewrite Forall_forall in Hall.
    destruct (Hall _ Hin) as [_ Hk]. destruct Ho' as (_ & Hf & _), Ho as (_ & _ & E).
    apply (Hf m); [left|]. rewrite E. apply elem_of_union_l, elem_of_list_to_set.
    unfold sess_id at 1 in Es. rewrite Hm in Es. simpl in Es. by subst.
  - apply Forall_app. split.
    + eapply Forall_impl; [done|]. intros s' [??]. split; [done|]. apply elem_of_app. by right.
    + apply Forall_singleton. unfold sess_id. rewrite Hm. split; [by eexists|].
      apply elem_of_app. left. left.
Qed.

Lemma built_Close w0 w w' p :
  built w0 w p → held w' = held w → held (Close p w').2 = held w0.
Proof.
  intros (ss & l & _ & (_ & Hf & E) & Hh & _) E2. rewrite Close_held, E2, Hh, E.
  apply set_eq. intros x. specialize (Hf x).
  rewrite elem_of_difference, elem_of_union, elem_of_list_to_set.
  destruct (decide (x ∈ l)); tauto.
Qed.

Lemma dial_loop_built n i cfg remote opt flags p w0 w :
  built w0 w p →
  match dial_loop InterfaceByName ParseMAC rnd rnd' n i cfg remote opt flags p w with
  | (w', Err _) => held w' = held w0
  | (w', Ok p') => built w0 w' p' ∧ length (sessions p') = (length (sessions p) + n)%nat
  end.
Proof.
  revert i p w. induction n as [|n IH]; intros i p w Hb; [by rewrite Nat.add_0_r|].
  cbn [dial_loop]. pose proof (dial_one_opens cfg remote opt flags i w) as Ho.
  destruct (dial_one _ _ _ _ _ _ _ _ _ _) as [w1 [s|e]]; [|by eapply built_Close].
  destruct Ho as (m & l & Ho & Hm & Hs).
  pose proof (IH (S i) _ _ (built_add _ _ _ _ _ _ _ Hb Ho Hm Hs)) as Hl.
  destruct (dial_loop _ _ _ _ _ _ _ _ _ _ _ _) as [w2 [p2|e]]; [|done].
  destruct Hl as [? ->]. split; [done|]. destruct p; simpl. rewrite length_app. simpl. lia.
Qed.

Lemma built_distinct w0 w p : built w0 w p → distinct_sessions (sessions p).
Proof.
  intros (ss & l & Hss & _ & _ & Hnd & _) i j s s' Hi Hj E. rewrite Hss in Hi, Hj.
  apply list_lookup_fmap_Some in Hi as (x & Ex & Hi), Hj as (y & Ey & Hj). simplify_eq.
  eapply NoDup_lookup; [exact Hnd|by rewrite list_lookup_fmap, Hi|].
  rewrite list_lookup_fmap, Hj. simpl. by rewrite E.
Qed.

Lemma Dial_built cfg remote t flags w :
  match Dial ParseDuration InterfaceByName ParseMAC rnd rnd' cfg remote t flags w with
  | (w', Err _) => held w' = held w
  | (w', Ok p) => built w w' p ∧ length (sessions p) = conn_count cfg
  end.
Proof.
  unfold Dial. destruct (OptionsFromConfig _ _ _) as [opt|e]; [|done].
  apply (dial_loop_built (conn_count cfg) 0 cfg remote opt flags empty_pool).
  exists [], []. split_and!; [done|apply opens_refl|done|apply NoDup_nil_2|by constructor].
Qed.

Lemma built_held w0 w p :
  built w0 w p → pool_handles p ## held w0 ∧ held w = pool_handles p ∪ held w0.
Proof.
  intros (ss & l & _ & (_ & Hf & E) & Hh & _). rewrite Hh. split; [|done].
  intros x Hx%elem_of_list_to_set. by apply Hf.
Qed.

(** C4: building a pool.  A failure at any connection, at any step of it, leaves no
    handle open.  A success gives as many sessions as the global section
    [transport] asks for with its [conn] (at least one): an upstream's own [conn]
    is not looked at, although the documentation says that an upstream's transport
    overrides the global one.  The sessions are pairwise distinct and hold exactly
    the handles opened, none of which was open before; and closing the pool later,
    whatever streams and flows were used, releases exactly those. *)
Theorem Dial_pool cfg remote t flags w w' r
    (Hd : Dial ParseDuration InterfaceByName ParseMAC rnd rnd' cfg remote t flags w = (w', r)) :
  match r with
  | Err _ => held w' = held w
  | Ok p => Z.of_nat (length (sessions p)) = Z.max 1 (tr_Conn (cfg_Transport cfg)) ∧
      distinct_sessions (sessions p) ∧ pool_handles p ## held w ∧
      held w' = pool_handles p ∪ held w ∧
      ∀ p' w2, sessions p' = sessions p →
        held (Close (p' : Pool D) w2).2 = held w2 ∖ pool_handles p
  end.
Proof.
  pose proof (Dial_built cfg remote t flags w) as Hl. rewrite Hd in Hl.
  destruct r as [p|e]; [|done]. destruct Hl as [Hb Hlen].
  split; [|split; [by eapply built_distinct|]].
  { rewrite Hlen. unfold conn_count.
    destruct (Z.ltb_spec (tr_Conn (cfg_Transport cfg)) 1); lia. }
  destruct (built_held _ _ _ Hb) as [Hdis Hh]. split; [done|]. split; [done|].
  intros p' w2 Es. rewrite Close_held. unfold pool_handles. by rewrite Es.
Qed.
End dial_laws.

#[export] Instance mock_streams_held : StreamsHeld Mock.
Proof.
  split; [|done..]. intros h [o r f n x fl sent]. simpl. by destruct (bool_decide _).
Qed.

(** The second connection's smux handshake fails: the first session is closed. *)
Lemma Dial_pool_witness :
  ∃ w' e, Dial (D := unit) no_durations (λ _, true) (λ _, Some mac0) (λ _, 7) (λ _, 8)
    (set_Transport (mkTransportConfig "kcp" 2 (tr_KCP sample_kcp_valid) (tr_QUIC sample_kcp_valid))
       valid_client)
    (mkUDPAddr [10; 0; 0; 1] 443) sample_kcp_valid [] (mock_failing [5%nat]) = (w', Err e) ∧
    held w' = held (mock_failing [5%nat]).
Proof.
  eexists _, _. split; [vm_compute; reflexivity|].
  refine (Dial_pool (D := unit) no_durations (λ _, true) (λ _, Some mac0) (λ _, 7) (λ _, 8)
    (set_Transport (mkTransportConfig "kcp" 2 (tr_KCP sample_kcp_valid) (tr_QUIC sample_kcp_valid))
       valid_client)
    (mkUDPAddr [10; 0; 0; 1] 443) sample_kcp_valid [] (mock_failing [5%nat]) _ (Err _) _).
  vm_compute. reflexivity.
Defined.
