(* ===== verification/Upstream.v ===== *)
(** [internal/upstream]: the manager of the upstream servers — the choice of a
    server for each connection, the health checks with their thresholds, the
    failover, the reconnection of a dead upstream, the hot reload, and the
    status and benchmark reports.

    The manager keeps pointers to pools; the pools live in a heap [h].  A method
    takes and returns the manager, the heap and the world, and each critical
    section of a method that takes the lock more than once is a definition.
    [time.Now] is the class [Clock]; the iteration order of a map is an
    argument, because Go leaves it open. *)

From S2P Require Import Prelude GoStd NetUtil Protocol Config ConfigResolve Transport TunnelPool TunnelDial.

Local Open Scope Z_scope.

Class Clock (W : Type) : Type := { Now : W → W * Z }.

(** ** State *)

(** [e_id] is the identity of the [*entry] pointer. *)
Record entry : Type := mkEntry {
  e_id : nat; e_ep : UpstreamEndpoint; e_pool : nat; e_healthy : bool;
  e_failures : Z; e_recovers : Z; e_lastRTT : Z; e_reconnecting : bool }.

Record Manager : Type := mkManager {
  m_cfg : Config; m_health : HealthSettings; m_strategy : string;
  m_remoteFlags : list TCPFlagSet;
  m_entries : gmap string entry; m_order : list string; m_active : string; m_rrIdx : Z;
  m_cancelled : bool }.

Definition set_entries v m := let '(mkManager a b c d _ f g i j) := m in mkManager a b c d v f g i j.
Definition set_active v m := let '(mkManager a b c d e f _ i j) := m in mkManager a b c d e f v i j.
Definition set_rrIdx v m := let '(mkManager a b c d e f g _ j) := m in mkManager a b c d e f g v j.

(** An entry of [NewManager] and [Reload]; it is allocated together with its
    pool, whose pointer names it. *)
Definition new_entry (ep : UpstreamEndpoint) (pool : nat) : entry :=
  mkEntry pool ep pool true 0 0 0 false.

(** ** Choosing an upstream *)

Definition contains (l : list string) (v : string) : bool := existsb (String.eqb v) l.

Definition entryHealthyLocked (m : Manager) (name : string) : bool :=
  match m_entries m !! name with Some e => e_healthy e | None => false end.

Definition healthyNamesLocked (m : Manager) : list string :=
  List.filter (entryHealthyLocked m) (m_order m).

(** [m.entries[name].ep.Weight] and [.lastRTT]. *)
Definition weight_of (m : Manager) (name : string) : Z :=
  match m_entries m !! name with Some e => ep_Weight (e_ep e) | None => 0 end.
Definition rtt_of (m : Manager) (name : string) : Z :=
  match m_entries m !! name with Some e => e_lastRTT e | None => 0 end.

Fixpoint weighted_scan (weight : string → Z) (i : Z) (names : list string) : option string :=
  match names with
  | [] => None
  | name :: rest =>
      let w := weight name in
      if i <? w then Some name else weighted_scan weight (i64 (i - w)) rest
  end.

Definition weightedPickLocked (healthy : list string) (m : Manager) : Manager * string :=
  let first := default ""%string (head healthy) in
  let total := foldl (λ t name, i64 (t + weight_of m name)) 0 healthy in
  if total =? 0 then (m, first) else
  let '(old, new) := fetch_inc (m_rrIdx m) in
  let i := Z.rem old total in
  (set_rrIdx new m, default first (weighted_scan (weight_of m) i healthy)).

Definition effective_rtt (m : Manager) (name : string) : Z :=
  if rtt_of m name =? 0 then Millisecond else rtt_of m name.

Fixpoint latency_scan (rtt : string → Z) (best : string) (bestRTT : Z) (names : list string) :
    string :=
  match names with
  | [] => best
  | name :: rest =>
      if rtt name <? bestRTT then latency_scan rtt name (rtt name) rest
      else latency_scan rtt best bestRTT rest
  end.

Definition latencyPickLocked (healthy : list string) (m : Manager) : string :=
  latency_scan (effective_rtt m) (default ""%string (head healthy)) (2 ^ 63 - 1) healthy.

(** [pickLocked] runs under the read lock, and stores to [active] and [rrIdx]. *)
Definition pickLocked (m : Manager) : Manager * string :=
  match healthyNamesLocked m with
  | [] => (m, m_active m)
  | (first :: _) as healthy =>
      if String.eqb (m_strategy m) StrategyRoundRobin then
        let '(i, new) := fetch_inc (m_rrIdx m) in
        (set_rrIdx new m,
         nth (Z.to_nat (Z.rem i (Z.of_nat (length healthy)))) healthy ""%string)
      else if String.eqb (m_strategy m) StrategyWeighted then weightedPickLocked healthy m
      else if String.eqb (m_strategy m) StrategyLeastLatency then
        (m, latencyPickLocked healthy m)
      else if contains healthy (m_active m) then (m, m_active m)
      else (set_active first m, first)
  end.

(** [None] is the nil pool. *)
Definition poolFor (bind : string) (m : Manager) : Manager * option nat :=
  match (if String.eqb bind "" then None else m_entries m !! bind) with
  | Some e => if e_healthy e then (m, Some (e_pool e)) else
      let '(m, name) := pickLocked m in (m, e_pool <$> m_entries m !! name)
  | None => let '(m, name) := pickLocked m in (m, e_pool <$> m_entries m !! name)
  end.

Inductive mgr_error : Type :=
| Unavailable          (* upstream "..." unavailable / no upstream available *)
| PanicNilPool         (* a nil pool is dereferenced *)
| PoolError (e : pool_error)
| Endpoints (e : endpoint_error)
| UpstreamDial (name : string) (e : dial_error).

(** [Manager] itself, and [boundOpener]. *)
Inductive opener : Type := ODefault | OBound (name : string).

Definition ForServer (name : string) : opener :=
  if String.eqb name "" then ODefault else OBound name.

Definition opener_bind (o : opener) : string :=
  match o with ODefault => "" | OBound n => n end.

(** ** Health bookkeeping *)

Definition failoverLocked (m : Manager) : Manager :=
  match List.find (entryHealthyLocked m) (m_order m) with
  | Some name => if String.eqb (m_active m) name then m else set_active name m
  | None => m
  end.

(** What one ping does to the counters of its entry; [r] is the round-trip time,
    [None] an error. *)
Definition check_entry (hs : HealthSettings) (r : option Z) (e : entry) : entry :=
  match r with
  | None =>
      let failures := i64 (e_failures e + 1) in
      let healthy := e_healthy e && negb (hs_FailThreshold hs <=? failures) in
      mkEntry (e_id e) (e_ep e) (e_pool e) healthy failures 0 (e_lastRTT e) (e_reconnecting e)
  | Some rtt =>
      if e_healthy e then
        mkEntry (e_id e) (e_ep e) (e_pool e) true 0 (e_recovers e) rtt (e_reconnecting e)
      else
        let recovers := i64 (e_recovers e + 1) in
        if hs_RecoverThreshold hs <=? recovers
        then mkEntry (e_id e) (e_ep e) (e_pool e) true 0 0 rtt (e_reconnecting e)
        else mkEntry (e_id e) (e_ep e) (e_pool e) false 0 recovers rtt (e_reconnecting e)
  end.

(** The loop body of [runHealthCheck]; the flag says that a [reconnect] is
    started. *)
Definition check_one (name : string) (r : option Z) (m : Manager) : Manager * bool :=
  match m_entries m !! name with
  | None => (m, false)
  | Some e =>
      let e' := check_entry (m_health m) r e in
      let m' := set_entries (<[name := e']> (m_entries m)) m in
      let lost := e_healthy e && negb (e_healthy e') in
      let m' := if lost && String.eqb (m_active m) name then failoverLocked m' else m' in
      (m', match r with None => negb (e_healthy e') && negb (e_reconnecting e') | Some _ => false end)
  end.

Section manager.
Context {W : Type} `{Conns W} `{Streams W} `{Clock W} {D : Type}.

Abbreviation heap := (gmap nat (Pool D)).

(** [e.pool.PingWithTimeout(...)], timed. *)
Definition timed_ping (ptr : nat) (h : heap) (w : W) : heap * W * option Z :=
  match h !! ptr with
  | None => (h, w, None)
  | Some p =>
      let '(w, start) := Now w in
      let '(p, w, r) := PingWithTimeout p w in
      let '(w, stop) := Now w in
      (<[ptr := p]> h, w, if is_ok r then Some (i64 (stop - start)) else None)
  end.

(** Returns the names for which a [reconnect] goroutine was started. *)
Fixpoint runHealthCheck (names : list string) (m : Manager) (h : heap) (w : W) :
    Manager * heap * W * list string :=
  match names with
  | [] => (m, h, w, [])
  | name :: rest =>
      match m_entries m !! name with
      | None => runHealthCheck rest m h w
      | Some e =>
          let '(h, w, r) := timed_ping (e_pool e) h w in
          let '(m, spawn) := check_one name r m in
          let '(m, h, w, l) := runHealthCheck rest m h w in
          (m, h, w, if spawn then name :: l else l)
      end
  end.

(** The first error met, in iteration order. *)
Fixpoint pingAll (names : list string) (m : Manager) (h : heap) (w : W) :
    heap * W * option pool_error :=
  match names with
  | [] => (h, w, None)
  | name :: rest =>
      match m_entries m !! name with
      | None => pingAll rest m h w
      | Some e =>
          match h !! e_pool e with
          | None => pingAll rest m h w
          | Some p =>
              let '(p, w, r) := PingWithTimeout p w in
              let '(h, w, first) := pingAll rest m (<[e_pool e := p]> h) w in
              (h, w, match r with Err e => Some e | Ok _ => first end)
          end
      end
  end.

(** ** Opening through the manager *)

Definition opener_OpenTCP (o : opener) (target : string) (m : Manager) (h : heap) (w : W) :
    Manager * heap * W * result mgr_error nat :=
  let '(m, p) := poolFor (opener_bind o) m in
  match p ≫= (λ ptr, pair ptr <$> h !! ptr), o with
  | Some (ptr, p), _ =>
      let '(p, w, r) := OpenTCP target p w in (m, <[ptr := p]> h, w, wrap_err PoolError r)
  | None, OBound _ => (m, h, w, Err Unavailable)
  | None, ODefault =>
      (m, h, w, match TunnelAddr.Parse target with
                | Err e => Err (PoolError (BadTarget e))
                | Ok _ => Err PanicNilPool
                end)
  end.

Definition opener_OpenUDP (o : opener) (localAddr target : string) (m : Manager) (h : heap) (w : W) :
    Manager * heap * W * result mgr_error (nat * bool * Z) :=
  let '(m, p) := poolFor (opener_bind o) m in
  match p ≫= (λ ptr, pair ptr <$> h !! ptr), o with
  | Some (ptr, p), _ =>
      let '(p, w, r) := OpenUDP localAddr target p w in
      (m, <[ptr := p]> h, w, wrap_err PoolError r)
  | None, OBound _ => (m, h, w, Err Unavailable)
  | None, ODefault => (m, h, w, Err PanicNilPool)
  end.

Definition opener_CloseUDP (o : opener) (key : Z) (m : Manager) (h : heap) (w : W) :
    Manager * heap * W * result mgr_error unit :=
  let '(m, p) := poolFor (opener_bind o) m in
  match p ≫= (λ ptr, pair ptr <$> h !! ptr), o with
  | Some (ptr, p), _ => let '(p, w) := CloseUDP key p w in (m, <[ptr := p]> h, w, Ok tt)
  | None, OBound _ => (m, h, w, Ok tt)
  | None, ODefault => (m, h, w, Err PanicNilPool)
  end.

Definition opener_SupportsDatagrams (o : opener) (m : Manager) (h : heap) (w : W) : Manager * bool :=
  let '(m, p) := poolFor (opener_bind o) m in
  (m, match p ≫= (λ ptr, h !! ptr) with Some p => SupportsDatagrams p w | None => false end).

Definition opener_OpenUDPDatagram (o : opener) (key target : string) (deliver : D)
    (m : Manager) (h : heap) (w : W) :
    Manager * heap * W * result mgr_error (Session * Z * bool) :=
  let '(m, p) := poolFor (opener_bind o) m in
  match p ≫= (λ ptr, pair ptr <$> h !! ptr) with
  | Some (ptr, p) =>
      let '(p, w, r) := OpenUDPDatagram key target deliver p w in
      (m, <[ptr := p]> h, w, wrap_err PoolError r)
  | None => (m, h, w, Err Unavailable)
  end.

(** ** Life cycle *)

Context (ParseDuration : string → option Z) (InterfaceByName : string → bool)
  (ParseMAC : string → option (list Z)) (rnd rnd' : nat → nat → Z).

Definition close_pool (ptr : nat) (h : heap) (w : W) : heap * W :=
  match h !! ptr with
  | Some p => let '(p, w) := Close p w in (<[ptr := p]> h, w)
  | None => (h, w)
  end.

Fixpoint close_pools (ptrs : list nat) (h : heap) (w : W) : heap * W :=
  match ptrs with
  | [] => (h, w)
  | ptr :: rest => let '(h, w) := close_pool ptr h w in close_pools rest h w
  end.

(** The pools of a map of entries, in some order of the map. *)
Definition entry_pools (es : gmap string entry) : list nat := e_pool ∘ snd <$> map_to_list es.

(** [tunnelpool.Dial], and the allocation of the pool. *)
Definition dial_pool (cfg : Config) (ep : UpstreamEndpoint) (flags : list TCPFlagSet)
    (h : heap) (w : W) : heap * W * result dial_error nat :=
  let ptr := fresh (dom h) in
  match Dial (D := D) ParseDuration InterfaceByName ParseMAC (rnd ptr) (rnd' ptr)
          cfg (ep_Addr ep) (ep_Transport ep) flags w with
  | (w, Ok pool) => (<[ptr := pool]> h, w, Ok ptr)
  | (w, Err e) => (h, w, Err e)
  end.

(** The loop of [NewManager] and of [Reload]; on an error, with the entries
    made so far. *)
Fixpoint dial_entries (cfg : Config) (flags : list TCPFlagSet) (eps : list UpstreamEndpoint)
    (es : gmap string entry) (order : list string) (h : heap) (w : W) :
    heap * W * gmap string entry * list string * option mgr_error :=
  match eps with
  | [] => (h, w, es, order, None)
  | ep :: rest =>
      match dial_pool cfg ep flags h w with
      | (h, w, Err e) => (h, w, es, order, Some (UpstreamDial (ep_Name ep) e))
      | (h, w, Ok ptr) =>
          dial_entries cfg flags rest (<[ep_Name ep := new_entry ep ptr]> es)
            (order ++ [ep_Name ep]) h w
      end
  end.

Definition Manager_Close (m : Manager) (h : heap) (w : W) : Manager * heap * W :=
  let '(h, w) := close_pools (entry_pools (m_entries m)) h w in
  (mkManager (m_cfg m) (m_health m) (m_strategy m) (m_remoteFlags m) ∅ [] (m_active m)
     (m_rrIdx m) true, h, w).

Definition defaultStrategy (cfg : Config) : string :=
  match cfg_Upstream cfg with Some u => NormalizedStrategy u | None => StrategyFailover end.

(** [names] is the order of the initial [pingAll]. *)
Definition NewManager (cfg : Config) (flags : list TCPFlagSet) (names : list string)
    (h : heap) (w : W) : heap * W * result mgr_error Manager :=
  match UpstreamEndpoints cfg with
  | Err e => (h, w, Err (Endpoints e))
  | Ok endpoints =>
      let m0 es order active :=
        mkManager cfg (defaultHealth ParseDuration cfg) (defaultStrategy cfg) flags es order
          active 0 false in
      let '(h, w, es, order, err) := dial_entries cfg flags endpoints ∅ [] h w in
      match err with
      | Some e => let '(_, h, w) := Manager_Close (m0 es order ""%string) h w in (h, w, Err e)
      | None =>
          let m := m0 es order (default ""%string (head order)) in
          let '(h, w, _) := pingAll names m h w in
          (h, w, Ok m)
      end
  end.

Definition Reload (cfg : Config) (flags : list TCPFlagSet) (m : Manager) (h : heap) (w : W) :
    Manager * heap * W * result mgr_error unit :=
  match UpstreamEndpoints cfg with
  | Err e => (m, h, w, Err (Endpoints e))
  | Ok endpoints =>
      let '(h, w, es, order, err) := dial_entries cfg flags endpoints ∅ [] h w in
      match err with
      | Some e => let '(h, w) := close_pools (entry_pools es) h w in (m, h, w, Err e)
      | None =>
          let m' := mkManager cfg (defaultHealth ParseDuration cfg) (defaultStrategy cfg) flags
                      es order (default (m_active m) (head order)) (m_rrIdx m) (m_cancelled m) in
          let '(h, w) := close_pools (entry_pools (m_entries m)) h w in
          (m', h, w, Ok tt)
      end
  end.

(** ** Reconnecting: one goroutine, stepping between its critical sections *)

Inductive rstate : Type :=
| RLook (backoff : Z)                       (* top of the loop *)
| RDial (ep : UpstreamEndpoint) (cfg : Config) (rf : list TCPFlagSet) (backoff : Z)
| RWait (backoff : Z)                       (* sleeping *)
| RSwap (ptr : nat)                         (* a pinged pool to install *)
| RDone.

(** The guard: the entry must exist, and its flag is taken. *)
Definition reconnect_begin (name : string) (m : Manager) : option (Manager * nat) :=
  match m_entries m !! name with
  | Some e =>
      if e_reconnecting e then None
      else Some (set_entries (<[name := mkEntry (e_id e) (e_ep e) (e_pool e) (e_healthy e)
                   (e_failures e) (e_recovers e) (e_lastRTT e) true]> (m_entries m)) m, e_id e)
  | None => None
  end.

(** [defer e.reconnecting.Store(false)], on the entry the flag was taken of. *)
Definition reconnect_end (name : string) (eid : nat) (m : Manager) : Manager :=
  match m_entries m !! name with
  | Some e =>
      if (e_id e =? eid)%nat
      then set_entries (<[name := mkEntry (e_id e) (e_ep e) (e_pool e) (e_healthy e)
             (e_failures e) (e_recovers e) (e_lastRTT e) false]> (m_entries m)) m
      else m
  | None => m
  end.

Definition next_backoff (b : Z) : Z := if b <? 30 * Second then b * 2 else b.

Definition settled (name : string) (m : Manager) (h : heap) (w : W) : bool :=
  match m_entries m !! name with
  | Some cur => e_healthy cur && match h !! e_pool cur with Some p => Alive p w | None => false end
  | None => true
  end.

(** Install the new pool; the old one is closed after the lock is released. *)
Definition reconnect_swap (name : string) (ptr : nat) (m : Manager) (h : heap) (w : W) :
    Manager * heap * W :=
  match m_entries m !! name with
  | None => let '(h, w) := close_pool ptr h w in (m, h, w)
  | Some cur =>
      let m' := set_entries (<[name := mkEntry (e_id cur) (e_ep cur) ptr true 0 0 (e_lastRTT cur)
                  (e_reconnecting cur)]> (m_entries m)) m in
      let m' := if String.eqb (m_active m') "" || negb (entryHealthyLocked m' (m_active m'))
                then set_active name m' else m' in
      let '(h, w) := close_pool (e_pool cur) h w in (m', h, w)
  end.

Definition reconnect_step (name : string) (st : rstate) (m : Manager) (h : heap) (w : W) :
    rstate * Manager * heap * W :=
  match st with
  | RLook b =>
      if m_cancelled m then (RDone, m, h, w)
      else if settled name m h w then (RDone, m, h, w)
      else match m_entries m !! name with
           | Some cur => (RDial (e_ep cur) (m_cfg m) (m_remoteFlags m) b, m, h, w)
           | None => (RDone, m, h, w)
           end
  | RDial ep cfg rf b =>
      match dial_pool cfg ep rf h w with
      | (h, w, Err _) => (RWait b, m, h, w)
      | (h, w, Ok ptr) =>
          match timed_ping ptr h w with
          | (h, w, Some _) => (RSwap ptr, m, h, w)
          | (h, w, None) => let '(h, w) := close_pool ptr h w in (RWait b, m, h, w)
          end
      end
  | RWait b => if m_cancelled m then (RDone, m, h, w) else (RLook (next_backoff b), m, h, w)
  | RSwap ptr => let '(m, h, w) := reconnect_swap name ptr m h w in (RDone, m, h, w)
  | RDone => (RDone, m, h, w)
  end.

(** ** Reports (status.go, bench.go) *)

Record ServerStatus : Type := mkServerStatus {
  ss_Name : string; ss_Addr : UDPAddr; ss_Healthy : bool; ss_Active : bool;
  ss_RTTus : Z;               (* [rtt_ms] is this over 1000, in floating point *)
  ss_Failures : Z; ss_Sessions : nat }.

Definition Snapshot (m : Manager) (h : heap) : list ServerStatus :=
  omap (λ name, e ← m_entries m !! name;
    Some (mkServerStatus name (ep_Addr (e_ep e)) (e_healthy e) (String.eqb name (m_active m))
            (if e_lastRTT e >? 0 then e_lastRTT e / 1000 else 0) (e_failures e)
            (match h !! e_pool e with Some p => Count p | None => 0%nat end)))
    (m_order m).

Record BenchResult : Type := mkBenchResult {
  br_Name : string; br_Addr : UDPAddr; br_RTT : Z; br_Err : option pool_error }.

Fixpoint bench_loop (names : list string) (m : Manager) (h : heap) (w : W) :
    heap * W * list BenchResult :=
  match names with
  | [] => (h, w, [])
  | name :: rest =>
      match m_entries m !! name with
      | None => bench_loop rest m h w
      | Some e =>
          match h !! e_pool e with
          | None => bench_loop rest m h w
          | Some p =>
              let '(w, start) := Now w in
              let '(p, w, r) := PingWithTimeout p w in
              let '(w, stop) := Now w in
              let '(h, w, out) := bench_loop rest m (<[e_pool e := p]> h) w in
              (h, w, mkBenchResult name (ep_Addr (e_ep e)) (i64 (stop - start))
                       (match r with Ok _ => None | Err e => Some e end) :: out)
          end
      end
  end.

Definition Benchmark (m : Manager) (h : heap) (w : W) : heap * W * list BenchResult :=
  bench_loop (m_order m) m h w.
End manager.

(** ** The choice of an upstream *)

Lemma healthyNamesLocked_spec m name :
  name ∈ healthyNamesLocked m ↔ name ∈ m_order m ∧ entryHealthyLocked m name = true.
Proof. unfold healthyNamesLocked. by rewrite !list_elem_of_In, filter_In. Qed.

Lemma weighted_scan_elem wt i names name : weighted_scan wt i names = Some name → name ∈ names.
Proof.
  revert i; induction names as [|n names IH]; intros i; simpl; [done|].
  destruct (i <? wt n); [intros [= ->]; left|intros H; right; eauto].
Qed.

Lemma latency_scan_elem rtt b br names : latency_scan rtt b br names ∈ b :: names.
Proof.
  revert b br; induction names as [|n names IH]; intros b br; simpl; [left|].
  destruct (rtt n <? br); [right; apply IH|].
  specialize (IH b br). set_solver.
Qed.

Lemma contains_spec l v : contains l v = true ↔ v ∈ l.
Proof.
  unfold contains. rewrite existsb_exists. split.
  - intros (x & Hx & ->%String.eqb_eq). by apply list_elem_of_In.
  - intros Hv. exists v. split; [by apply list_elem_of_In|apply String.eqb_refl].
Qed.

(** What picking leaves alone. *)
Definition same_but_pick (m m' : Manager) : Prop :=
  m_entries m' = m_entries m ∧ m_order m' = m_order m ∧ m_health m' = m_health m ∧
  m_strategy m' = m_strategy m.

Lemma pickLocked_same m : same_but_pick m (pickLocked m).1.
Proof.
  unfold pickLocked. destruct (healthyNamesLocked m) as [|f l] eqn:E; [done|].
  destruct (String.eqb _ _); [by destruct m|].
  destruct (String.eqb _ _).
  { unfold weightedPickLocked. destruct (_ =? 0); [done|]. by destruct m. }
  destruct (String.eqb _ _); [done|]. destruct (contains _ _); [done|by destruct m].
Qed.

Lemma pickLocked_elem m :
  healthyNamesLocked m ≠ [] → (pickLocked m).2 ∈ healthyNamesLocked m.
Proof.
  unfold pickLocked. destruct (healthyNamesLocked m) as [|f l] eqn:E; [done|]. intros _.
  destruct (String.eqb _ _).
  { destruct (fetch_inc (m_rrIdx m)) as [i idx'] eqn:Ei. cbn [snd]. apply list_elem_of_In, nth_In.
    assert (0 ≤ i) as Hi by (injection Ei as <- _; apply u32_range).
    pose proof (Z.rem_bound_pos i (Z.of_nat (length (f :: l)))) as Hb. simpl length in *. lia. }
  destruct (String.eqb _ _).
  { unfold weightedPickLocked. destruct (_ =? 0); [left|].
    destruct (fetch_inc _) as [i idx']. cbn [snd].
    destruct (weighted_scan _ _ _) as [n|] eqn:Es; [by eapply weighted_scan_elem|left]. }
  destruct (String.eqb _ _).
  { simpl. unfold latencyPickLocked. pose proof (latency_scan_elem (effective_rtt m)
      (default ""%string (head (f :: l))) (2 ^ 63 - 1) (f :: l)) as Hl. simpl in *. set_solver. }
  destruct (contains _ _) eqn:Ec; [by apply contains_spec|left].
Qed.

(** The names a manager lists are the names it has entries for. *)
Definition order_ok (m : Manager) : Prop := ∀ name, name ∈ m_order m ↔ is_Some (m_entries m !! name).

Lemma poolFor_unfold bind m :
  poolFor bind m =
    if negb (String.eqb bind "") && entryHealthyLocked m bind
    then (m, e_pool <$> m_entries m !! bind)
    else ((pickLocked m).1, e_pool <$> m_entries m !! (pickLocked m).2).
Proof.
  unfold poolFor, entryHealthyLocked. destruct (pickLocked m) as [m1 n1] eqn:Ep.
  pose proof (pickLocked_same m) as (E & _). rewrite Ep in E. simpl in E.
  destruct (String.eqb bind ""); simpl; [by rewrite E|].
  destruct (m_entries m !! bind) as [e|] eqn:Eb; simpl; [|by rewrite E].
  destruct (e_healthy e); simpl; [done|by rewrite E].
Qed.

(** C23: traffic goes to a healthy upstream whenever there is one, under every
    strategy: a rule bound to a healthy upstream gets that upstream's pool, and
    everything else, bound rules of unhealthy upstreams included, the pool of a
    healthy upstream; with none healthy it stays with the active one.  Choosing
    never changes an entry or the order. *)
Theorem poolFor_healthy bind m (Hord : order_ok m) :
  same_but_pick m (poolFor bind m).1 ∧
  (bind ≠ ""%string → entryHealthyLocked m bind = true →
     (poolFor bind m).2 = e_pool <$> m_entries m !! bind) ∧
  ((∃ name, entryHealthyLocked m name = true) →
     ∃ name e, m_entries m !! name = Some e ∧ e_healthy e = true ∧
       (poolFor bind m).2 = Some (e_pool e)) ∧
  ((∀ name, entryHealthyLocked m name = false) →
     poolFor bind m = (m, e_pool <$> m_entries m !! m_active m)).
Proof.
  rewrite poolFor_unfold. split_and!.
  - destruct (_ && _); [done|apply pickLocked_same].
  - intros Hb ->. by rewrite (proj2 (String.eqb_neq _ _) Hb).
  - intros [n0 H0].
    assert (∀ name, entryHealthyLocked m name = true → ∃ e, m_entries m !! name = Some e ∧
      e_healthy e = true) as Hent.
    { intros name. unfold entryHealthyLocked. destruct (m_entries m !! name); [eauto|done]. }
    destruct (negb (String.eqb bind "") && entryHealthyLocked m bind) eqn:Eb.
    + apply andb_true_iff in Eb as [_ Eb]. destruct (Hent _ Eb) as (e & He & Hh).
      exists bind, e. by rewrite He.
    + assert ((pickLocked m).2 ∈ healthyNamesLocked m) as Hp%healthyNamesLocked_spec.
      { apply pickLocked_elem. destruct (Hent _ H0) as (e & He & _). intros E.
        apply (not_elem_of_nil (A := string) n0). rewrite <- E. apply healthyNamesLocked_spec.
        split; [|done]. apply Hord. by eexists. }
      destruct Hp as [_ Hp]. destruct (Hent _ Hp) as (e & He & Hh). simpl.
      exists (pickLocked m).2, e. by rewrite He.
  - intros Hno. rewrite Hno, andb_false_r. unfold pickLocked.
    destruct (healthyNamesLocked m) as [|f l] eqn:E; [done|].
    assert (f ∈ healthyNamesLocked m) as [_ Hf]%healthyNamesLocked_spec by (rewrite E; left).
    by rewrite Hno in Hf.
Qed.

(** Consecutive picks. *)
Fixpoint picks (n : nat) (m : Manager) : list string :=
  match n with
  | O => []
  | S n' => let '(m, name) := pickLocked m in name :: picks n' m
  end.

(** The picks of a strategy that only advances the counter. *)
Lemma picks_counter (f : Z → string) n m :
  (∀ m', same_but_pick m m' → in_u32 (m_rrIdx m') →
     pickLocked m' = (set_rrIdx (fetch_inc (m_rrIdx m')).2 m', f (m_rrIdx m'))) →
  in_u32 (m_rrIdx m) →
  picks n m = (λ k : nat, f (u32 (m_rrIdx m + Z.of_nat k))) <$> seq 0 n.
Proof.
  intros Hpick Hm. assert (∀ m', same_but_pick m m' → in_u32 (m_rrIdx m') →
    picks n m' = (λ k : nat, f (u32 (m_rrIdx m' + Z.of_nat k))) <$> seq 0 n) as Hgen.
  { clear Hm. induction n as [|n IH]; intros m' Hs Hi; [done|]. cbn [picks].
    rewrite Hpick by done. simpl. f_equal.
    { rewrite Z.add_0_r. by rewrite u32_id. }
    rewrite IH.
    - rewrite <- fmap_S_seq, <- list_fmap_compose. apply list_fmap_ext.
      intros _ k _. simpl. f_equal. destruct m'; simpl. unfold u32.
      rewrite Zplus_mod_idemp_l. f_equal. lia.
    - destruct m'; done.
    - destruct m'; apply fetch_inc_new. }
  by apply Hgen.
Qed.

(** A strategy that reads a list at its counter goes once around the list. *)
Lemma picks_rotation (l : list string) d m :
  (0 < length l)%nat → in_u32 (m_rrIdx m) → m_rrIdx m + Z.of_nat (length l) ≤ 2 ^ 32 →
  (∀ m', same_but_pick m m' → in_u32 (m_rrIdx m') →
     pickLocked m' = (set_rrIdx (fetch_inc (m_rrIdx m')).2 m',
                      default d (l !! Z.to_nat (Z.rem (m_rrIdx m') (Z.of_nat (length l)))))) →
  picks (length l) m ≡ₚ l.
Proof.
  intros Hl Hi Hwrap Hpick. unfold in_u32 in Hi.
  rewrite (picks_counter (λ r, default d (l !! Z.to_nat (Z.rem r (Z.of_nat (length l)))))) by done.
  transitivity ((λ i, default d (l !! i)) <$> rr_order (m_rrIdx m) (length l)).
  - unfold rr_order. rewrite <- list_fmap_compose. apply reflexive_eq, list_fmap_ext.
    intros i k [-> Hk]%lookup_seq. simpl. rewrite u32_id by (unfold in_u32; lia).
    by rewrite Z.rem_mod_nonneg by lia.
  - rewrite rr_order_Permutation. apply reflexive_eq, list_eq_same_length with (length l);
      [done|by rewrite length_fmap, length_seq|].
    intros i x y Hlt Hx Hy. rewrite list_lookup_fmap, lookup_seq_lt in Hx by done. simpl in Hx.
    rewrite Hy in Hx. by injection Hx.
Qed.

(** Each name as often as its weight. *)
Definition expand (wt : string → Z) (names : list string) : list string :=
  names ≫= λ n, replicate (Z.to_nat (wt n)) n.

Definition sum_weights (wt : string → Z) (names : list string) : Z :=
  foldr (λ n t, wt n + t) 0 names.

Lemma sum_weights_nonneg wt names : (∀ n, 0 ≤ wt n) → 0 ≤ sum_weights wt names.
Proof. intros Hw. induction names as [|n names IH]; simpl; [lia|]. specialize (Hw n). lia. Qed.

Lemma length_expand wt names :
  (∀ n, 0 ≤ wt n) → Z.of_nat (length (expand wt names)) = sum_weights wt names.
Proof.
  intros Hw. induction names as [|n names IH]; [done|]. simpl.
  rewrite length_app, length_replicate, Nat2Z.inj_add, Z2Nat.id by done. by rewrite IH.
Qed.

Lemma total_sum wt names acc :
  (∀ n, 0 ≤ wt n) → 0 ≤ acc → acc + sum_weights wt names < 2 ^ 63 →
  foldl (λ t n, i64 (t + wt n)) acc names = acc + sum_weights wt names.
Proof.
  intros Hw. revert acc. induction names as [|n names IH]; intros acc Ha Hs; simpl in *; [lia|].
  pose proof (Hw n). pose proof (sum_weights_nonneg wt names Hw).
  rewrite i64_id by (unfold in_i64; lia). rewrite IH; lia.
Qed.

Lemma weighted_scan_expand wt names i :
  (∀ n, 0 ≤ wt n) → 0 ≤ i < 2 ^ 63 → sum_weights wt names < 2 ^ 63 →
  weighted_scan wt i names = expand wt names !! Z.to_nat i.
Proof.
  intros Hw. revert i. induction names as [|n names IH]; intros i Hi Hs; [done|]. simpl in *.
  pose proof (Hw n). pose proof (sum_weights_nonneg wt names Hw).
  destruct (Z.ltb_spec i (wt n)) as [Hlt|Hge].
  - rewrite lookup_app_l by (rewrite length_replicate; lia).
    rewrite lookup_replicate_2; [done|lia].
  - rewrite lookup_app_r by (rewrite length_replicate; lia).
    rewrite i64_id by (unfold in_i64; lia). rewrite IH by lia. f_equal.
    rewrite length_replicate. lia.
Qed.

(** The functions of the entries that picking uses. *)
Lemma same_healthy m m' : same_but_pick m m' → healthyNamesLocked m' = healthyNamesLocked m.
Proof.
  intros (E & E' & _). unfold healthyNamesLocked. rewrite E'. apply filter_ext.
  intros n. unfold entryHealthyLocked. by rewrite E.
Qed.

Lemma same_weight m m' : same_but_pick m m' → weight_of m' = weight_of m.
Proof. intros (E & _). unfold weight_of. by rewrite E. Qed.

(** C30: the weighted strategy is exact.  While the health of the upstreams does not
    change and the 32-bit counter does not wrap around, any [total] consecutive
    picks, where [total] is the sum of the weights of the healthy upstreams, contain
    each healthy upstream exactly as many times as its weight.  The weights are not
    negative ([UpstreamEndpoints] makes them positive), and their sum is positive
    and fits a 64-bit integer. *)
Theorem weighted_exact m
    (Hs : m_strategy m = StrategyWeighted)
    (Hw : ∀ n, 0 ≤ weight_of m n)
    (Hsum : 0 < sum_weights (weight_of m) (healthyNamesLocked m) < 2 ^ 63)
    (Hi : in_u32 (m_rrIdx m))
    (Hwrap : m_rrIdx m + sum_weights (weight_of m) (healthyNamesLocked m) ≤ 2 ^ 32) :
  picks (Z.to_nat (sum_weights (weight_of m) (healthyNamesLocked m))) m
    ≡ₚ expand (weight_of m) (healthyNamesLocked m).
Proof.
  set (l := expand (weight_of m) (healthyNamesLocked m)).
  assert (Z.of_nat (length l) = sum_weights (weight_of m) (healthyNamesLocked m)) as Hlen
    by by apply length_expand.
  rewrite <- Hlen, Nat2Z.id.
  apply (picks_rotation l (default ""%string (head (healthyNamesLocked m)))); [lia|done|lia|].
  intros m' Hm Hi'. unfold pickLocked. pose proof Hm as (_ & _ & _ & ->).
  rewrite (same_healthy _ _ Hm), Hs. destruct (healthyNamesLocked m) as [|f names] eqn:Eh.
  { simpl in Hsum. lia. }
  simpl (String.eqb StrategyWeighted _). cbv iota. unfold weightedPickLocked.
  rewrite (same_weight _ _ Hm), total_sum by (try done; lia). rewrite Z.add_0_l.
  rewrite (proj2 (Z.eqb_neq _ _)) by lia.
  destruct (fetch_inc (m_rrIdx m')) as [old new] eqn:Ef.
  assert (old = m_rrIdx m') as -> by (rewrite <- (fetch_inc_old (m_rrIdx m')) by done; by rewrite Ef).
  cbn [snd]. f_equal. f_equal. rewrite Hlen. apply weighted_scan_expand; [done| |lia].
  unfold in_u32 in Hi'. pose proof (Z.rem_bound_pos (m_rrIdx m')
    (sum_weights (weight_of m) (f :: names))). lia.
Qed.

(** The round-robin strategy is fair.  While the counter does not wrap
    around, as many consecutive picks as there are healthy upstreams contain
    each of them once. *)
Theorem round_robin_fair m
    (Hs : m_strategy m = StrategyRoundRobin) (Hh : healthyNamesLocked m ≠ [])
    (Hi : in_u32 (m_rrIdx m))
    (Hwrap : m_rrIdx m + Z.of_nat (length (healthyNamesLocked m)) ≤ 2 ^ 32) :
  picks (length (healthyNamesLocked m)) m ≡ₚ healthyNamesLocked m.
Proof.
  apply (picks_rotation _ ""%string); [destruct (healthyNamesLocked m); simpl; [done|lia]|done|done|].
  intros m' Hm Hi'. unfold pickLocked. pose proof Hm as (_ & _ & _ & ->).
  rewrite (same_healthy _ _ Hm), Hs. destruct (healthyNamesLocked m) as [|f names] eqn:Eh; [done|].
  simpl (String.eqb StrategyRoundRobin _). cbv iota.
  destruct (fetch_inc (m_rrIdx m')) as [old new] eqn:Ef.
  assert (old = m_rrIdx m') as -> by (rewrite <- (fetch_inc_old (m_rrIdx m')) by done; by rewrite Ef).
  cbn [snd]. f_equal. by rewrite nth_lookup.
Qed.

Lemma latency_scan_min rtt b br names :
  (∀ n, n ∈ names → rtt (latency_scan rtt b br names) ≤ rtt n ∨ latency_scan rtt b br names = b ∧ br ≤ rtt n)
  ∧ (latency_scan rtt b br names = b ∨ rtt (latency_scan rtt b br names) < br).
Proof.
  revert b br. induction names as [|n names IH]; intros b br; simpl.
  { split; [by intros n ?%not_elem_of_nil|by left]. }
  destruct (Z.ltb_spec (rtt n) br) as [Hlt|Hge].
  - destruct (IH n (rtt n)) as [Ha Hb]. split.
    + intros x [->|Hx]%elem_of_cons; [destruct Hb as [->|]; lia|].
      destruct (Ha x Hx) as [?|[-> ?]]; lia.
    + destruct Hb as [->|]; lia.
  - destruct (IH b br) as [Ha Hb]. split; [|done].
    intros x [->|Hx]%elem_of_cons; [|by apply Ha]. destruct Hb as [->|]; [right; split; [done|lia]|lia].
Qed.

(** The least-latency strategy picks a healthy upstream whose last measured
    round trip (a missing one counts as 1 ms) is the least among the healthy
    ones, and the manager is left as it was. *)
Theorem least_latency m
    (Hs : m_strategy m = StrategyLeastLatency) (Hh : healthyNamesLocked m ≠ [])
    (Hr : ∀ n, n ∈ healthyNamesLocked m → effective_rtt m n < 2 ^ 63 - 1) :
  (pickLocked m).1 = m ∧ (pickLocked m).2 ∈ healthyNamesLocked m ∧
  ∀ n, n ∈ healthyNamesLocked m → effective_rtt m (pickLocked m).2 ≤ effective_rtt m n.
Proof.
  split; [|split; [by apply pickLocked_elem|]]; unfold pickLocked; rewrite Hs;
    destruct (healthyNamesLocked m) as [|f names] eqn:Eh; try done.
  simpl (String.eqb StrategyLeastLatency _). cbv iota. cbn [snd]. intros n Hn.
  unfold latencyPickLocked.
  destruct (latency_scan_min (effective_rtt m) (default ""%string (head (f :: names)))
    (2 ^ 63 - 1) (f :: names)) as [Ha _].
  destruct (Ha n Hn) as [?|[_ Hc]]; [done|]. specialize (Hr n Hn). lia.
Qed.

(** ** Health checks *)

(** A sequence of ping outcomes for one entry. *)
Definition checks (hs : HealthSettings) (rs : list (option Z)) (e : entry) : entry :=
  foldl (λ e r, check_entry hs r e) e rs.

Lemma checks_failing hs k e :
  0 ≤ e_failures e → e_failures e + Z.of_nat k < 2 ^ 63 → 1 ≤ hs_FailThreshold hs →
  e_failures e < hs_FailThreshold hs ∨ e_healthy e = false →
  e_failures (checks hs (replicate k None) e) = e_failures e + Z.of_nat k ∧
  e_healthy (checks hs (replicate k None) e) =
    e_healthy e && (e_failures e + Z.of_nat k <? hs_FailThreshold hs).
Proof.
  unfold checks. revert e. induction k as [|k IH]; intros e H0 Hb Ht Hh; simpl.
  { split; [lia|]. rewrite Z.add_0_r. destruct (e_healthy e); [|done].
    symmetry. apply Z.ltb_lt. by destruct Hh. }
  assert (i64 (e_failures e + 1) = e_failures e + 1) as Ei by (apply i64_id; unfold in_i64; lia).
  rewrite !Ei.
  match goal with |- context [foldl _ ?x _] => specialize (IH x) end. simpl in IH.
  destruct IH as [-> ->]; [lia|lia|done| |].
  - destruct (Z.leb_spec (hs_FailThreshold hs) (e_failures e + 1)); [right|left; lia].
    apply andb_false_r.
  - split; [lia|]. destruct (e_healthy e); cbn [negb andb]; [|done].
    replace (e_failures e + Z.of_nat (S k)) with (e_failures e + 1 + Z.of_nat k) by lia.
    destruct (Z.leb_spec (hs_FailThreshold hs) (e_failures e + 1)).
    2: done.
    simpl.    symmetry. apply Z.ltb_ge. lia.
Qed.

Lemma checks_stay_up hs rtts e :
  e_healthy e = true → e_healthy (checks hs (Some <$> rtts) e) = true.
Proof.
  unfold checks. revert e. induction rtts as [|r rtts IH]; intros e He; simpl; [done|].
  apply IH. by rewrite He.
Qed.

Lemma checks_recovering hs rtts e :
  e_healthy e = false → 0 ≤ e_recovers e < hs_RecoverThreshold hs →
  e_recovers e + Z.of_nat (length rtts) < 2 ^ 63 →
  e_healthy (checks hs (Some <$> rtts) e) =
    (hs_RecoverThreshold hs <=? e_recovers e + Z.of_nat (length rtts)).
Proof.
  revert e. induction rtts as [|r rtts IH]; intros e He Hr Hb.
  { unfold checks. simpl in *. rewrite He. symmetry. apply Z.leb_gt. lia. }
  change (checks hs (Some <$> (r :: rtts)) e) with
    (checks hs (Some <$> rtts) (check_entry hs (Some r) e)).
  simpl length in *. unfold check_entry at 1. rewrite He.
  assert (i64 (e_recovers e + 1) = e_recovers e + 1) as Ei by (apply i64_id; unfold in_i64; lia).
  rewrite Ei. destruct (Z.leb_spec (hs_RecoverThreshold hs) (e_recovers e + 1)) as [Hle|Hgt].
  - rewrite checks_stay_up by done. symmetry. apply Z.leb_le. lia.
  - rewrite IH; simpl; [|done|lia|lia]. f_equal. lia.
Qed.

(** The thresholds.  A healthy upstream whose last ping succeeded survives
    [k] consecutive failures exactly when [k] is below the failure threshold;
    an unhealthy one whose last ping failed is healthy again after consecutive
    successes exactly when they reach the recovery threshold; and one success
    clears the failures counted so far, one failure the recoveries. *)
Theorem health_thresholds hs e k rtts
    (Hf : 1 ≤ hs_FailThreshold hs) (Hr : 1 ≤ hs_RecoverThreshold hs)
    (Hk : Z.of_nat k < 2 ^ 63) (Hn : Z.of_nat (length rtts) < 2 ^ 63) :
  (e_healthy e = true → e_failures e = 0 →
     e_healthy (checks hs (replicate k None) e) = (Z.of_nat k <? hs_FailThreshold hs)) ∧
  (e_healthy e = false → e_recovers e = 0 →
     e_healthy (checks hs (Some <$> rtts) e) =
       (hs_RecoverThreshold hs <=? Z.of_nat (length rtts))) ∧
  (∀ rtt, e_failures (check_entry hs (Some rtt) e) = 0 ∧
          e_recovers (check_entry hs None e) = 0).
Proof.
  split_and!.
  - intros He H0. destruct (checks_failing hs k e) as [_ ->]; [lia..|lia|]. rewrite He, H0. done.
  - intros He H0. rewrite checks_recovering by (try done; lia). by rewrite H0.
  - intros rtt. split; [|done]. simpl. destruct (e_healthy e); [done|].
    by destruct (_ <=? _).
Qed.

Lemma failoverLocked_same m :
  m_entries (failoverLocked m) = m_entries m ∧ m_order (failoverLocked m) = m_order m ∧
  m_health (failoverLocked m) = m_health m.
Proof.
  unfold failoverLocked. destruct (List.find _ _); [|done].
  destruct (String.eqb _ _); [done|by destruct m].
Qed.

Lemma failoverLocked_active m x :
  x ∈ m_order m → entryHealthyLocked m x = true →
  entryHealthyLocked (failoverLocked m) (m_active (failoverLocked m)) = true.
Proof.
  intros Hx Hh. unfold failoverLocked. destruct (List.find _ _) as [n|] eqn:E.
  - apply find_some in E as [_ Hn]. destruct (String.eqb_spec (m_active m) n) as [->|]; [done|].
    by destruct m.
  - apply list_elem_of_In, (find_none _ _ E) in Hx. congruence.
Qed.

Lemma check_one_same name r m :
  m_order (check_one name r m).1 = m_order m ∧ m_health (check_one name r m).1 = m_health m ∧
  ∀ n, m_entries (check_one name r m).1 !! n =
    (if decide (n = name) then check_entry (m_health m) r <$> m_entries m !! n
     else m_entries m !! n).
Proof.
  unfold check_one. destruct (m_entries m !! name) as [e|] eqn:E; simpl.
  2: { split_and!; [done..|]. intros n. destruct (decide (n = name)) as [->|]; [by rewrite E|done]. }
  set (m1 := set_entries _ m).
  assert (m_order m1 = m_order m ∧ m_health m1 = m_health m ∧
    m_entries m1 = <[name := check_entry (m_health m) r e]> (m_entries m)) as (E1 & E2 & E3)
    by by destruct m.
  assert (∀ m2, (m2 = m1 ∨ m2 = failoverLocked m1) → m_order m2 = m_order m ∧
    m_health m2 = m_health m ∧ m_entries m2 = m_entries m1) as Hm2.
  { destruct (failoverLocked_same m1) as (F1 & F2 & F3).
    intros m2 [->| ->]; split_and!; congruence. }
  destruct (Hm2 (if e_healthy e && negb (e_healthy (check_entry (m_health m) r e)) &&
                    String.eqb (m_active m) name then failoverLocked m1 else m1)) as (-> & -> & ->).
  { destruct (_ && _); auto. }
  split_and!; [done..|]. rewrite E3. intros n. destruct (decide (n = name)) as [->|].
  - by rewrite lookup_insert_eq, E.
  - by rewrite lookup_insert_ne.
Qed.

Lemma check_one_active name r m x :
  x ∈ m_order m → entryHealthyLocked (check_one name r m).1 x = true →
  entryHealthyLocked m (m_active m) = true →
  entryHealthyLocked (check_one name r m).1 (m_active (check_one name r m).1) = true.
Proof.
  unfold check_one. destruct (m_entries m !! name) as [e|] eqn:E; [|done]. cbn [fst].
  set (m1 := set_entries _ m). intros Hx Hh Ha.
  assert (m_order m1 = m_order m ∧ m_active m1 = m_active m) as [E1 E2] by by destruct m.
  destruct (e_healthy e && negb (e_healthy (check_entry (m_health m) r e))) eqn:El; simpl in *.
  - destruct (String.eqb_spec (m_active m) name) as [Ea|Ea].
    + eapply (failoverLocked_active m1 x); [by rewrite E1|].
      unfold entryHealthyLocked in *. by destruct (failoverLocked_same m1) as (<- & _).
    + rewrite E2. unfold entryHealthyLocked in *.
      destruct m; simpl in *. by rewrite lookup_insert_ne.
  - rewrite E2. unfold entryHealthyLocked in *. destruct m; simpl in *.
    destruct (decide (name = m_active0)) as [->|]; [|by rewrite lookup_insert_ne].
    rewrite lookup_insert_eq. rewrite E in Ha. rewrite Ha in El. simpl in El.
    by apply negb_false_iff in El.
Qed.

(** ** Closing a UDP stream through the manager *)

Lemma pickLocked_round_robin m :
  m_strategy m = StrategyRoundRobin → healthyNamesLocked m ≠ [] → in_u32 (m_rrIdx m) →
  pickLocked m =
    (set_rrIdx (fetch_inc (m_rrIdx m)).2 m,
     nth (Z.to_nat (m_rrIdx m mod Z.of_nat (length (healthyNamesLocked m)))) (healthyNamesLocked m) ""%string).
Proof.
  intros Hs Hh Hi. pose proof (fetch_inc_old _ Hi) as Hold. unfold in_u32 in Hi.
  unfold pickLocked. rewrite Hs. destruct (healthyNamesLocked m) as [|f l]; [done|].
  simpl (String.eqb StrategyRoundRobin _). cbv iota.
  destruct (fetch_inc (m_rrIdx m)) as [i idx']. simpl in Hold. subst i.
  rewrite Z.rem_mod_nonneg; [done|lia|simpl; lia].
Qed.

Lemma mod_succ_ne i n : 2 ≤ n → i mod n ≠ (i + 1) mod n.
Proof.
  intros Hn E. pose proof (Z.div_mod i n ltac:(lia)). pose proof (Z.div_mod (i + 1) n ltac:(lia)).
  assert (n * ((i + 1) / n - i / n) = 1) as E2 by lia. apply Z.mul_eq_1 in E2. lia.
Qed.

(** Two consecutive choices differ. *)
Lemma consecutive_picks m :
  m_strategy m = StrategyRoundRobin → (2 ≤ length (healthyNamesLocked m))%nat →
  NoDup (m_order m) → 0 ≤ m_rrIdx m < 2 ^ 32 - 1 →
  (pickLocked m).2 ≠ (pickLocked (pickLocked m).1).2 ∧ m_entries (pickLocked m).1 = m_entries m.
Proof.
  intros Hs Hn Hnd Hi. set (l := healthyNamesLocked m) in *.
  assert (in_u32 (m_rrIdx m)) as Hu by (unfold in_u32; lia).
  assert (l ≠ []) as Hl by (intros E; rewrite E in Hn; simpl in Hn; lia).
  assert (NoDup l) as Hndl.
  { unfold l, healthyNamesLocked. apply NoDup_ListNoDup, List.NoDup_filter. by apply NoDup_ListNoDup. }
  rewrite (pickLocked_round_robin m Hs Hl Hu). cbn [fst snd].
  set (m' := set_rrIdx _ m). assert (same_but_pick m m') as Hsame by by destruct m.
  split; [|by destruct m].
  rewrite (pickLocked_round_robin m'); [|by destruct m|by rewrite (same_healthy m m')|].
  2: { destruct m; apply fetch_inc_new. }
  rewrite (same_healthy m m') by done. fold l. cbn [snd].
  replace (m_rrIdx m') with (m_rrIdx m + 1)
    by (transitivity (u32 (m_rrIdx m + 1)); [symmetry; apply u32_id; unfold in_u32; lia|by destruct m]).
  set (n := Z.of_nat (length l)). assert (2 ≤ n) as Hn2 by (unfold n; lia).
  pose proof (Z.mod_pos_bound (m_rrIdx m) n ltac:(lia)) as Hb1.
  pose proof (Z.mod_pos_bound (m_rrIdx m + 1) n ltac:(lia)) as Hb2.
  intros E. apply (mod_succ_ne (m_rrIdx m) n Hn2), Z2Nat.inj; [lia..|].
  destruct (lookup_lt_is_Some_2 l (Z.to_nat (m_rrIdx m mod n)) ltac:(unfold n in *; lia)) as [a Ha].
  destruct (lookup_lt_is_Some_2 l (Z.to_nat ((m_rrIdx m + 1) mod n)) ltac:(unfold n in *; lia)) as [b Hb].
  rewrite !nth_lookup, Ha, Hb in E. simpl in E. subst b. by apply (NoDup_lookup l _ _ a).
Qed.

Section misrouted.
Context {W : Type} `{Conns W} `{Streams W} {D : Type}.
Implicit Types (m : Manager) (h : gmap nat (Pool D)) (w : W).

Definition pools_distinct m : Prop :=
  ∀ n1 n2 e1 e2, m_entries m !! n1 = Some e1 → m_entries m !! n2 = Some e2 →
    e_pool e1 = e_pool e2 → n1 = n2.

(** Under round-robin a UDP stream is not closed by closing it through the
    manager.  [CloseUDP] picks an upstream anew, so with two or more healthy
    upstreams the call that follows an [OpenUDP] goes to another pool: the
    stream stays open and stays in the table of the pool it was opened in,
    which will hand it out again, not new, although nobody reads it any more. *)
Theorem round_robin_CloseUDP_misses la t m h w m1 h1 w1 strm isNew key
    (Hs : m_strategy m = StrategyRoundRobin)
    (Hn : (2 ≤ length (healthyNamesLocked m))%nat) (Hnd : NoDup (m_order m))
    (Hd : pools_distinct m) (Hi : 0 ≤ m_rrIdx m < 2 ^ 32 - 1)
    (Ho : opener_OpenUDP ODefault la t m h w = (m1, h1, w1, Ok (strm, isNew, key))) :
  ∃ ptr p, h1 !! ptr = Some p ∧ udp p !! key = Some strm ∧
    (opener_CloseUDP ODefault key m1 h1 w1).1.1.2 !! ptr = Some p ∧
    ∀ w2, OpenUDP la t p w2 = (p, w2, Ok (strm, false, key)).
Proof.
  destruct (consecutive_picks m Hs Hn Hnd Hi) as [Hab Hme].
  unfold opener_OpenUDP in Ho. simpl opener_bind in Ho. rewrite poolFor_unfold in Ho.
  simpl in Ho. destruct (pickLocked m) as [m' a] eqn:Epick. cbn [fst snd] in *.
  destruct (m_entries m !! a) as [ea|] eqn:Ea; [|done]. simpl in Ho.
  destruct (h !! e_pool ea) as [p0|] eqn:Ep; [|done]. simpl in Ho.
  destruct (OpenUDP la t p0 w) as [[p w0] [r|e]] eqn:Eo; simpl in Ho; [|discriminate Ho].
  injection Ho as <- <- <- ->.
  assert (udp p !! key = Some strm) as Hudp by by eapply OpenUDP_stored.
  assert (key = addrPairKey la t) as Hkey.
  { unfold OpenUDP in Eo. destruct (OpenUDP_lookup _ _); [by simplify_eq|].
    destruct (OpenUDP_open _ _ _) as [[? ?] [?|?]]; by simplify_eq. }
  exists (e_pool ea), p. split; [by rewrite lookup_insert_eq|]. split; [done|].
  split; [|intros w2; subst key; by apply OpenUDP_cached].
  unfold opener_CloseUDP. simpl opener_bind. rewrite poolFor_unfold. simpl.
  rewrite Hme. destruct (pickLocked m') as [m2 b] eqn:Epick2. cbn [fst snd] in *.
  destruct (m_entries m !! b) as [eb|] eqn:Eb; simpl; [|by rewrite lookup_insert_eq].
  assert (e_pool ea ≠ e_pool eb) as Hpe by (intros E; by apply Hab, (Hd a b ea eb)).
  rewrite lookup_insert_ne by done.
  destruct (h !! e_pool eb) as [pb|]; simpl; [|by rewrite lookup_insert_eq].
  destruct (CloseUDP _ pb w0). simpl. by rewrite lookup_insert_ne, lookup_insert_eq.
Qed.
End misrouted.

Section rounds.
Context {W : Type} `{Conns W} `{Streams W} `{Clock W} {D : Type}.
Implicit Types (m : Manager) (h : gmap nat (Pool D)) (w : W).

(** The pings of a round: one after the other, each to the pool of its entry, with
    the time between the clock before and after it when it is answered. *)
Fixpoint pings (es : gmap string entry) (names : list string) h w :
    gmap nat (Pool D) * W * gmap string (option Z) :=
  match names with
  | [] => (h, w, ∅)
  | name :: rest =>
      match es !! name ≫= (λ e, (e_pool e,.) <$> h !! e_pool e) with
      | None =>
          let '(h, w, obs) := pings es rest h w in
          (h, w, match es !! name with Some _ => <[name := None]> obs | None => obs end)
      | Some (ptr, p) =>
          let '(w1, start) := Now w in
          let '(p, w2, answer) := PingWithTimeout p w1 in
          let '(w3, stop) := Now w2 in
          let '(h, w, obs) := pings es rest (<[ptr := p]> h) w3 in
          (h, w, <[name := match answer with Ok _ => Some (i64 (stop - start)) | Err _ => None end]> obs)
      end
  end.

Lemma pings_cons es name names h w :
  pings es (name :: names) h w =
    match es !! name with
    | None => pings es names h w
    | Some e =>
        let '(h, w, r) := timed_ping (e_pool e) h w in
        let '(h, w, obs) := pings es names h w in (h, w, <[name := r]> obs)
    end.
Proof.
  cbn [pings]. unfold timed_ping. destruct (es !! name) as [e|]; simpl.
  - destruct (h !! e_pool e) as [p|]; simpl; [|done]. destruct (Now w) as [w1 t1].
    destruct (PingWithTimeout p w1) as [[p1 w2] r]. destruct (Now w2) as [w3 t2].
    destruct (pings es names _ w3) as [[h4 w4] obs]. by destruct r.
  - by destruct (pings es names h w) as [[??]?].
Qed.

Lemma pings_ext es es' names h w :
  (∀ n, n ∈ names → e_pool <$> es !! n = e_pool <$> es' !! n) → pings es names h w = pings es' names h w.
Proof.
  revert h w. induction names as [|name names IH]; intros h w Hn; [done|]. rewrite !pings_cons.
  pose proof (Hn name (list_elem_of_here _ _)) as E.
  assert (∀ n, n ∈ names → e_pool <$> es !! n = e_pool <$> es' !! n) as Hn' by (intros n ?; apply Hn; by right).
  destruct (es !! name) as [e|], (es' !! name) as [e'|]; simplify_eq/=; [|done..|by apply IH].
  rewrite E. destruct (timed_ping (e_pool e') h w) as [[h1 w1] r]. by rewrite IH.
Qed.

Lemma pings_notin es names h w n : n ∉ names → (pings es names h w).2 !! n = None.
Proof.
  revert h w. induction names as [|name names IH]; intros h w Hn; [apply lookup_empty|].
  apply not_elem_of_cons in Hn as [Hne Hn]. rewrite pings_cons.
  destruct (es !! name) as [e|]; [|by apply IH]. destruct (timed_ping (e_pool e) h w) as [[h1 w1] r].
  specialize (IH h1 w1 Hn). destruct (pings es names h1 w1) as [[h2 w2] obs].
  simpl in *. by rewrite lookup_insert_ne.
Qed.

Lemma pings_defined es names h w n :
  n ∈ names → is_Some (es !! n) → is_Some ((pings es names h w).2 !! n).
Proof.
  revert h w. induction names as [|name names IH]; intros h w Hn He; [by apply not_elem_of_nil in Hn|].
  rewrite pings_cons. destruct (decide (n = name)) as [->|Hne].
  - destruct He as [e ->]. destruct (timed_ping (e_pool e) h w) as [[h1 w1] r].
    destruct (pings es names h1 w1) as [[h2 w2] obs]. simpl. rewrite lookup_insert_eq. by eexists.
  - apply elem_of_cons in Hn as [?|Hn]; [done|].
    destruct (es !! name) as [e|]; [|by apply IH]. destruct (timed_ping (e_pool e) h w) as [[h1 w1] r].
    specialize (IH h1 w1 Hn He). destruct (pings es names h1 w1) as [[h2 w2] obs].
    simpl in *. by rewrite lookup_insert_ne.
Qed.

(** One round over distinct names: the entries, for the outcomes of the pings. *)
Lemma runHealthCheck_entries names m h w m' h' w' l :
  NoDup names → runHealthCheck names m h w = (m', h', w', l) →
  let obs n := default None ((pings (m_entries m) names h w).2 !! n) in
    (pings (m_entries m) names h w).1 = (h', w') ∧
    m_order m' = m_order m ∧ m_health m' = m_health m ∧
    (∀ n, m_entries m' !! n =
       (if decide (n ∈ names) then check_entry (m_health m) (obs n) <$> m_entries m !! n
        else m_entries m !! n)) ∧
    (∀ n, n ∈ l ↔ n ∈ names ∧ obs n = None ∧
       ∃ e', m_entries m' !! n = Some e' ∧ e_healthy e' = false ∧ e_reconnecting e' = false).
Proof.
  intros Hnd. revert m h w m' h' w' l.
  induction Hnd as [|name names Hni Hnd IH]; intros m h w m' h' w' l Hrun.
  { cbn in Hrun. injection Hrun as <- <- <- <-. split_and!; [done|done|done| |].
    - intros n. by rewrite decide_False by apply not_elem_of_nil.
    - intros n. split; [by intros ?%not_elem_of_nil|by intros [?%not_elem_of_nil _]]. }
  cbn [runHealthCheck] in Hrun. rewrite pings_cons. destruct (m_entries m !! name) as [e|] eqn:Ee.
  2: { destruct (IH _ _ _ _ _ _ _ Hrun) as (E0 & E1 & E2 & E3 & E4).
       split_and!; [done..| |].
       - intros n. rewrite E3. destruct (decide (n = name)) as [->|Hn].
         + rewrite decide_False by done. rewrite decide_True by left. by rewrite Ee.
         + destruct (decide (n ∈ names)); [rewrite decide_True by (by right)|
             rewrite decide_False by (by intros [|]%elem_of_cons)]; done.
       - intros n. rewrite E4, E3. destruct (decide (n = name)) as [->|Hn].
         + split; [by intros [? _]|]. intros (_ & _ & e' & He' & _).
           rewrite decide_False, Ee in He' by done. done.
         + rewrite elem_of_cons. naive_solver. }
  destruct (timed_ping (e_pool e) h w) as [[h1 w1] r].
  destruct (check_one name r m) as [m1 spawn] eqn:Ec.
  destruct (runHealthCheck names m1 h1 w1) as [[[m2 h2] w2] l2] eqn:Er.
  injection Hrun as <- <- <- <-.
  pose proof (check_one_same name r m) as (C1 & C2 & C3). rewrite Ec in C1, C2, C3. simpl in *.
  destruct (IH _ _ _ _ _ _ _ Er) as (E0 & E1 & E2 & E3 & E4).
  rewrite (pings_ext (m_entries m1) (m_entries m) names h1 w1) in E0, E3, E4
    by (intros n Hn; rewrite C3, decide_False by (by intros ->); done).
  pose proof (pings_notin (m_entries m) names h1 w1 name Hni) as Hno.
  destruct (pings (m_entries m) names h1 w1) as [[h3 w3] obs]. simpl in *.
  assert (∀ n, default None (<[name:=r]> obs !! n) = if decide (n = name) then r else default None (obs !! n)) as Ho.
  { intros n. destruct (decide (n = name)) as [->|]; [by rewrite lookup_insert_eq|by rewrite lookup_insert_ne]. }
  assert (∀ n, m_entries m2 !! n =
    (if decide (n ∈ name :: names)
     then check_entry (m_health m) (default None (<[name:=r]> obs !! n)) <$> m_entries m !! n
     else m_entries m !! n)) as E3'.
  { intros n. rewrite Ho, E3, C3, C2. destruct (decide (n = name)) as [->|Hn].
    - rewrite decide_False by done. by rewrite decide_True by left.
    - destruct (decide (n ∈ names)); [rewrite decide_True by (by right)|
        rewrite decide_False by (by intros [|]%elem_of_cons)]; done. }
  split_and!; [done|congruence|congruence|done|].
  intros n. rewrite Ho. destruct (decide (n = name)) as [->|Hn].
  - assert (name ∈ l2 ↔ False) as Hl2 by (rewrite E4; naive_solver).
    assert (name ∈ (if spawn then name :: l2 else l2) ↔ spawn = true) as ->.
    { destruct spawn; [split; [done|left]|rewrite Hl2; by split]. }
    rewrite E3', decide_True, Ho, decide_True, Ee by (done || left). simpl.
    unfold check_one in Ec. rewrite Ee in Ec. injection Ec as _ <-.
    split.
    + destruct r as [rtt|]; [done|]. intros [?%negb_true_iff ?%negb_true_iff]%andb_true_iff.
      split; [left|]. split; [done|]. by eexists.
    + intros (_ & -> & e' & [= <-] & Hh & Hre). simpl in *. by rewrite Hh, Hre.
  - assert (n ∈ (if spawn then name :: l2 else l2) ↔ n ∈ l2) as ->.
    { destruct spawn; [|done]. rewrite elem_of_cons. naive_solver. }
    rewrite E4, elem_of_cons. naive_solver.
Qed.

Lemma runHealthCheck_sublist names m h w m' h' w' l :
  runHealthCheck names m h w = (m', h', w', l) → l `sublist_of` names.
Proof.
  revert m h w m' h' w' l. induction names as [|name names IH]; intros m h w m' h' w' l; cbn [runHealthCheck].
  { by intros [= _ _ _ <-]. }
  destruct (m_entries m !! name) as [e|]; [|intros E; apply sublist_cons; by eapply IH].
  destruct (timed_ping (e_pool e) h w) as [[h1 w1] r]. destruct (check_one name r m) as [m1 spawn].
  destruct (runHealthCheck names m1 h1 w1) as [[[m2 h2] w2] l2] eqn:Er. intros [= _ _ _ <-].
  apply IH in Er. destruct spawn; [by apply sublist_skip|by apply sublist_cons].
Qed.

Lemma runHealthCheck_NoDup names m h w m' h' w' l :
  NoDup names → runHealthCheck names m h w = (m', h', w', l) → NoDup l.
Proof. intros Hnd E. by eapply sublist_NoDup, runHealthCheck_sublist. Qed.

(** What one ping means for an entry: the counters, and the thresholds. *)
Record pinged (hs : HealthSettings) (r : option Z) (e e' : entry) : Prop := mkPinged {
  pg_same : e_id e' = e_id e ∧ e_ep e' = e_ep e ∧ e_pool e' = e_pool e ∧
    e_reconnecting e' = e_reconnecting e;
  pg_failed : r = None →
    e_failures e' = i64 (e_failures e + 1) ∧ e_recovers e' = 0 ∧ e_lastRTT e' = e_lastRTT e ∧
    (e_healthy e' = true ↔ e_healthy e = true ∧ e_failures e' < hs_FailThreshold hs);
  pg_answered rtt : r = Some rtt →
    e_failures e' = 0 ∧ e_lastRTT e' = rtt ∧
    (e_healthy e = true → e_healthy e' = true ∧ e_recovers e' = e_recovers e) ∧
    (e_healthy e = false →
       (e_healthy e' = true ∧ e_recovers e' = 0 ∧ hs_RecoverThreshold hs ≤ i64 (e_recovers e + 1)) ∨
       (e_healthy e' = false ∧ e_recovers e' = i64 (e_recovers e + 1) ∧
          e_recovers e' < hs_RecoverThreshold hs)) }.

Lemma check_entry_pinged hs r e : pinged hs r e (check_entry hs r e).
Proof.
  unfold check_entry. split.
  - destruct r; [|done]. destruct (e_healthy e); [done|]. by destruct (_ <=? _).
  - intros ->. cbn [e_failures e_recovers e_lastRTT e_healthy]. split_and!; [done..|].
    rewrite andb_true_iff, negb_true_iff, Z.leb_gt. done.
  - intros rtt ->. destruct (e_healthy e) eqn:Eh; [by split_and!|].
    destruct (Z.leb_spec (hs_RecoverThreshold hs) (i64 (e_recovers e + 1)));
      cbn [e_failures e_recovers e_lastRTT e_healthy]; (split_and!; [done|done|done|auto]).
Qed.

(** C29: a round of health checks.  Whatever order Go iterates over the map in,
    the pools are pinged one after the other in that order, each entry's own pool
    once; the entry is updated by the outcome of that ping and by nothing else: a
    failure counts, and makes a healthy upstream unhealthy when the failures reach
    their threshold; an answer clears the failures, stores the time it took, and
    makes an unhealthy upstream healthy when the answers reach theirs.  A
    reconnection is started exactly for the entries whose ping failed that are
    unhealthy after the round and have no reconnection running, once each. *)
Theorem health_round names m h w m' h' w' l
    (Hnd : NoDup names) (Hall : ∀ n, n ∈ names ↔ is_Some (m_entries m !! n))
    (Hrun : runHealthCheck names m h w = (m', h', w', l)) :
  let '(h1, w1, obs) := pings (m_entries m) names h w in
  h' = h1 ∧ w' = w1 ∧
  (∀ n e, m_entries m !! n = Some e →
     ∃ r e', obs !! n = Some r ∧ m_entries m' !! n = Some e' ∧ pinged (m_health m) r e e') ∧
  (∀ n, m_entries m !! n = None → m_entries m' !! n = None) ∧
  (∀ n, n ∈ l ↔ ∃ e', m_entries m' !! n = Some e' ∧ obs !! n = Some None ∧
                      e_healthy e' = false ∧ e_reconnecting e' = false) ∧
  NoDup l ∧ m_order m' = m_order m.
Proof.
  pose proof (runHealthCheck_NoDup _ _ _ _ _ _ _ _ Hnd Hrun) as Hl.
  pose proof (λ n, pings_defined (m_entries m) names h w n) as Hdef.
  destruct (runHealthCheck_entries _ _ _ _ _ _ _ _ Hnd Hrun) as (E0 & E1 & _ & E3 & E4).
  destruct (pings (m_entries m) names h w) as [[h1 w1] obs]. simpl in *. simplify_eq.
  split; [done|]. split; [done|]. split; [|split; [|split; [|done]]].
  - intros n e He. assert (n ∈ names) as Hn by (apply Hall; by eexists).
    destruct (Hdef n Hn ltac:(by eexists)) as [r Er]. exists r, (check_entry (m_health m) r e).
    split; [done|]. split; [|apply check_entry_pinged].
    by rewrite E3, decide_True, He, Er.
  - intros n He. rewrite E3, He. by destruct (decide _).
  - intros n. rewrite E4. split.
    + intros (Hn & Ho & e' & He' & Hr). exists e'. split; [done|]. split; [|done].
      destruct (Hdef n Hn) as [r Er]; [by apply Hall|]. rewrite Er in Ho |- *. simpl in Ho. by subst r.
    + intros (e' & He' & Ho & Hr). rewrite Ho. split; [|by eauto]. apply Hall.
      rewrite E3 in He'. destruct (m_entries m !! n); [by eexists|]. by destruct (decide _).
Qed.

(** C20: failover keeps the traffic on a healthy upstream.  If the active
    upstream was healthy and some upstream is healthy throughout the round,
    the active upstream after the round is healthy, whatever the order. *)
Theorem failover_healthy names m h w m' h' w' l x
    (Hnd : NoDup names)
    (Hrun : runHealthCheck names m h w = (m', h', w', l))
    (Hact : entryHealthyLocked m (m_active m) = true)
    (Hx : x ∈ m_order m) (Hb : entryHealthyLocked m x = true)
    (Ha : entryHealthyLocked m' x = true) :
  entryHealthyLocked m' (m_active m') = true.
Proof.
  revert m h w m' h' w' l Hrun Hact Hx Hb Ha.
  induction Hnd as [|name names Hni Hnd IH]; intros m h w m' h' w' l Hrun Hact Hx Hb Ha.
  { cbn in Hrun. by injection Hrun as <- <- <- <-. }
  cbn [runHealthCheck] in Hrun. destruct (m_entries m !! name) as [e|] eqn:Ee; [|by eapply IH].
  destruct (timed_ping (e_pool e) h w) as [[h1 w1] r].
  destruct (check_one name r m) as [m1 spawn] eqn:Ec.
  destruct (runHealthCheck names m1 h1 w1) as [[[m2 h2] w2] l2] eqn:Er.
  injection Hrun as <- <- <- <-.
  pose proof (check_one_same name r m) as (C1 & C2 & C3).
  pose proof (check_one_active name r m x Hx) as Hstep.
  rewrite Ec in C1, C2, C3, Hstep. simpl in *.
  assert (entryHealthyLocked m1 x = true) as Hx1.
  { destruct (decide (x = name)) as [->|Hne].
    - destruct (runHealthCheck_entries _ _ _ _ _ _ _ _ Hnd Er) as (_ & _ & _ & E3 & _).
      unfold entryHealthyLocked in *. rewrite E3, decide_False in Ha by done. done.
    - unfold entryHealthyLocked in *. by rewrite C3, decide_False. }
  eapply IH; [exact Er|by apply Hstep|by rewrite C1|done|done].
Qed.
End rounds.

(** ** Reconnecting *)

Lemma backoff_iter n : Nat.iter n next_backoff Second = Second * 2 ^ Z.of_nat (Nat.min n 5).
Proof.
  induction n as [|n IH]; [done|]. simpl Nat.iter. rewrite IH. unfold next_backoff, Second.
  destruct (decide (n < 5)%nat) as [Hlt|Hge].
  - rewrite !Nat.min_l by lia. rewrite Nat2Z.inj_succ, Z.pow_succ_r by lia.
    assert (2 ^ Z.of_nat n ≤ 2 ^ 4) by (apply Z.pow_le_mono_r; lia).
    destruct (Z.ltb_spec (1000000000 * 2 ^ Z.of_nat n) (30 * 1000000000)); lia.
  - by rewrite !Nat.min_r by lia.
Qed.

Section reconnecting.
Context {W : Type} `{StreamsHeld W} `{Clock W} {D : Type}.
Context (ParseDuration : string → option Z) (InterfaceByName : string → bool)
  (ParseMAC : string → option (list Z)) (rnd rnd' : nat → nat → Z).
Implicit Types (m : Manager) (h : gmap nat (Pool D)) (w : W).

(** The local states a reconnection can reach, with the number of waits it has
    been through; before every step the rest of the program may have done
    anything to the manager, the heap and the world. *)
Inductive rreach (name : string) : nat → rstate → Prop :=
| rreach_start : rreach name 0 (RLook Second)
| rreach_step n st m h w st' m' h' w' :
    rreach name n st →
    reconnect_step ParseDuration InterfaceByName ParseMAC rnd rnd' name st m h w
      = (st', m', h', w') →
    rreach name (match st, st' with RWait _, RLook _ => S n | _, _ => n end) st'.

Definition rbackoff (st : rstate) : option Z :=
  match st with RLook b | RDial _ _ _ b | RWait b => Some b | RSwap _ | RDone => None end.

(** C28: exponential backoff.  At its [n]-th attempt, whatever else happens in
    between, a reconnection that fails waits [2^n] seconds, capped at 32, so
    the wait is never zero and never longer than 32 seconds; and no step of
    it but the final swap touches the manager. *)
Theorem reconnect_backoff name n st (Hr : rreach name n st) :
  (∀ b, rbackoff st = Some b → b = Second * 2 ^ Z.of_nat (Nat.min n 5) ∧
        Second ≤ b ≤ 32 * Second) ∧
  (∀ m h w, (∀ ptr, st ≠ RSwap ptr) →
     (reconnect_step ParseDuration InterfaceByName ParseMAC rnd rnd' name st m h w).1.1.2 = m).
Proof.
  assert (∀ b, rbackoff st = Some b → b = Nat.iter n next_backoff Second) as Hb.
  { induction Hr as [|n st m h w st' m' h' w' Hr IH Hstep]; intros b Hb.
    { simpl in Hb. by injection Hb as <-. }
    destruct st as [b0|ep cfg rf b0|b0|ptr|]; simpl in Hstep.
    - destruct (m_cancelled m); [by simplify_eq|]. destruct (settled _ _ _ _); [by simplify_eq|].
      destruct (m_entries m !! name); simplify_eq. by apply IH.
    - destruct (dial_pool _ _ _ _ _ _ _ _ _ _) as [[h1 w1] [ptr|e]]; [|by simplify_eq; apply IH].
      destruct (timed_ping _ _ _) as [[h2 w2] [r|]]; [by simplify_eq|].
      destruct (close_pool _ _ _). simplify_eq. by apply IH.
    - destruct (m_cancelled m); simplify_eq. simpl in Hb. injection Hb as <-.
      simpl. f_equal. by apply IH.
    - destruct (reconnect_swap _ _ _ _ _) as [[??]?]. by simplify_eq.
    - by simplify_eq. }
  split.
  - intros b Hst. rewrite (Hb b Hst), backoff_iter. split; [done|]. unfold Second.
    assert (2 ^ 0 ≤ 2 ^ Z.of_nat (Nat.min n 5) ≤ 2 ^ 5)
      by (split; apply Z.pow_le_mono_r; lia). lia.
  - intros m h w Hns. destruct st as [b0|ep cfg rf b0|b0|ptr|]; simpl.
    + destruct (m_cancelled m); [done|]. destruct (settled _ _ _ _); [done|].
      by destruct (m_entries m !! name).
    + destruct (dial_pool _ _ _ _ _ _ _ _ _ _) as [[h1 w1] [ptr|e]]; [|done].
      destruct (timed_ping _ _ _) as [[h2 w2] [r|]]; [done|]. by destruct (close_pool _ _ _).
    + by destruct (m_cancelled m).
    + by destruct (Hns ptr).
    + done.
Qed.

(** ** Pools and handles *)

Definition ptr_handles h (ptr : nat) : gset nat :=
  match h !! ptr with Some p => pool_handles p | None => ∅ end.
Definition heap_handles h (ptrs : list nat) : gset nat := ⋃ (ptr_handles h <$> ptrs).

Lemma close_pool_spec ptr h w :
  held (close_pool ptr h w).2 = held w ∖ ptr_handles h ptr ∧
  ∀ p, ptr_handles (close_pool ptr h w).1 p =
    (if decide (p = ptr) then ∅ else ptr_handles h p).
Proof.
  unfold close_pool. destruct (h !! ptr) as [p|] eqn:E.
  - pose proof (Close_held p w) as Ec. destruct (Close p w) as [p1 w1] eqn:Ep. simpl in *.
    split; [by rewrite Ec; unfold ptr_handles; rewrite E|]. intros q. unfold ptr_handles.
    destruct (decide (q = ptr)) as [->|]; [|by rewrite lookup_insert_ne].
    rewrite lookup_insert_eq. unfold Close, Close_sessions, Close_ctrl in Ep. simpl in Ep.
    injection Ep as <- _. by destruct p.
  - unfold ptr_handles. simpl. rewrite E, difference_empty_L. split; [done|]. intros q.
    destruct (decide (q = ptr)) as [->|]; [by rewrite E|done].
Qed.

Lemma close_pools_held ptrs h w :
  held (close_pools ptrs h w).2 = held w ∖ heap_handles h ptrs.
Proof.
  revert h w. induction ptrs as [|ptr ptrs IH]; intros h w; simpl.
  { unfold heap_handles. simpl. by rewrite difference_empty_L. }
  destruct (close_pool_spec ptr h w) as [E1 E2].
  destruct (close_pool ptr h w) as [h1 w1]. simpl in *. rewrite IH, E1.
  rewrite difference_difference_l_L. f_equal. unfold heap_handles. simpl.
  clear -E2. induction ptrs as [|q ptrs IH]; simpl; [done|]. rewrite E2.
  destruct (decide (q = ptr)) as [->|]; [|set_solver].
  set_solver.
Qed.

Lemma close_pools_other ptrs h w q : q ∉ ptrs → (close_pools ptrs h w).1 !! q = h !! q.
Proof.
  revert h w. induction ptrs as [|ptr ptrs IH]; intros h w Hq; [done|]. simpl.
  apply not_elem_of_cons in Hq as [Hne Hq].
  assert ((close_pool ptr h w).1 !! q = h !! q) as E.
  { unfold close_pool. destruct (h !! ptr) as [p|]; [|done]. destruct (Close p w). by apply lookup_insert_ne. }
  destruct (close_pool ptr h w) as [h1 w1]. by rewrite IH.
Qed.

(** The swap.  A pool that answered a ping replaces the pool of the entry
    of that name, whatever endpoint that entry has by now; the entry is
    healthy with clear counters and is otherwise as it was, as are all other
    entries; the active upstream is healthy; and exactly the replaced pool's
    handles are released.  When the entry is gone the new pool is closed
    instead, and nothing else changes. *)
Theorem reconnect_swap_spec name ptr m h w m' h' w'
    (Hs : reconnect_swap name ptr m h w = (m', h', w')) :
  match m_entries m !! name with
  | None => m' = m ∧ held w' = held w ∖ ptr_handles h ptr
  | Some cur =>
      m_entries m' = <[name := mkEntry (e_id cur) (e_ep cur) ptr true 0 0 (e_lastRTT cur)
                         (e_reconnecting cur)]> (m_entries m) ∧
      m_order m' = m_order m ∧
      entryHealthyLocked m' (m_active m') = true ∧
      (m_active m' = m_active m ∨ m_active m' = name) ∧
      held w' = held w ∖ ptr_handles h (e_pool cur)
  end.
Proof.
  unfold reconnect_swap in Hs. destruct (m_entries m !! name) as [cur|] eqn:Ec.
  2: { destruct (close_pool_spec ptr h w) as [E _]. destruct (close_pool ptr h w).
       by simplify_eq. }
  destruct (close_pool_spec (e_pool cur) h w) as [E _]. destruct (close_pool _ h w) as [h1 w1].
  simpl in E. set (e' := mkEntry _ _ _ _ _ _ _ _) in *. injection Hs as Hm <- <-.
  assert (∀ m1, m_entries m1 = <[name:=e']> (m_entries m) → entryHealthyLocked m1 name = true) as Hn.
  { intros m1 E1. unfold entryHealthyLocked. by rewrite E1, lookup_insert_eq. }
  destruct (_ || _) eqn:Ea; subst m'.
  - split_and!; [by destruct m|by destruct m| |by right; destruct m|done].
    replace (m_active _) with name by by destruct m. apply Hn. by destruct m.
  - apply orb_false_iff in Ea as [_ Ea%negb_false_iff].
    split_and!; [by destruct m|by destruct m|done|by left; destruct m|done].
Qed.
End reconnecting.

(** ** Creating and reloading *)

Section reload.
Context {W : Type} `{StreamsHeld W} `{Clock W} {D : Type}.
Context (ParseDuration : string → option Z) (InterfaceByName : string → bool)
  (ParseMAC : string → option (list Z)) (rnd rnd' : nat → nat → Z).
Implicit Types (m : Manager) (h : gmap nat (Pool D)) (w : W).

(** As many sessions as the configuration's transport asks for, and at least one. *)
Definition new_pool (cfg : Config) (p : Pool D) : Prop :=
  Z.of_nat (length (sessions p)) = Z.max 1 (tr_Conn (cfg_Transport cfg)) ∧ distinct_sessions (sessions p).

Lemma dial_pool_spec cfg ep flags h w :
  match dial_pool ParseDuration InterfaceByName ParseMAC rnd rnd' cfg ep flags h w with
  | (h', w', Err _) => h' = h ∧ held w' = held w
  | (h', w', Ok ptr) => ptr ∉ dom h ∧ (∀ q, q ≠ ptr → h' !! q = h !! q) ∧ is_Some (h' !! ptr) ∧
      ptr_handles h' ptr ## held w ∧ held w' = ptr_handles h' ptr ∪ held w
  end ∧
  match dial_pool ParseDuration InterfaceByName ParseMAC rnd rnd' cfg ep flags h w with
  | (h', _, Ok ptr) => ∃ p, h' !! ptr = Some p ∧ new_pool cfg p
  | _ => True
  end.
Proof.
  unfold dial_pool.
  pose proof (Dial_built (D := D) ParseDuration InterfaceByName ParseMAC (rnd (fresh (dom h)))
    (rnd' (fresh (dom h))) cfg (ep_Addr ep) (ep_Transport ep) flags w) as Hd.
  destruct (Dial _ _ _ _ _ _ _ _ _ _) as [w1 [p|e]]; [|done]. destruct Hd as [Hb Hlen].
  pose proof (built_distinct _ _ _ Hb) as Hdist. apply built_held in Hb as [Hdis Hh].
  unfold ptr_handles. rewrite lookup_insert_eq. split.
  - split; [apply is_fresh|]. split; [by intros; rewrite lookup_insert_ne|]. by split; [eexists|].
  - exists p. split; [done|]. split; [|done]. rewrite Hlen. unfold conn_count.
    destruct (Z.ltb_spec (tr_Conn (cfg_Transport cfg)) 1); lia.
Qed.

(** The entries made from the endpoints [new] with their pools. *)
Definition add_entries (new : list (UpstreamEndpoint * nat)) (es : gmap string entry) :=
  foldl (λ es ne, <[ep_Name ne.1 := new_entry ne.1 ne.2]> es) es new.

Definition fresh_pools cfg h h' w w' (ptrs : list nat) : Prop :=
  (∀ q, q ∈ dom h → h' !! q = h !! q) ∧
  (∀ q, q ∈ ptrs → q ∉ dom h ∧ ∃ p, h' !! q = Some p ∧ new_pool cfg p) ∧
  NoDup ptrs ∧ heap_handles h' ptrs ## held w ∧ held w' = heap_handles h' ptrs ∪ held w.

Lemma heap_handles_same h h' ptrs :
  (∀ q, q ∈ ptrs → h' !! q = h !! q) → heap_handles h' ptrs = heap_handles h ptrs.
Proof.
  intros Hq. unfold heap_handles. f_equal. apply list_fmap_ext. intros i q Hi.
  unfold ptr_handles. by rewrite Hq by by eapply list_elem_of_lookup_2.
Qed.

Lemma dial_entries_spec cfg flags eps es order h w :
  ∃ new, match dial_entries ParseDuration InterfaceByName ParseMAC rnd rnd'
                 cfg flags eps es order h w with
  | (h', w', es', order', err) =>
      es' = add_entries new es ∧ order' = order ++ (ep_Name ∘ fst <$> new) ∧
      fresh_pools cfg h h' w w' (snd <$> new) ∧
      (∃ rest, eps = (fst <$> new) ++ rest ∧ (err = None ↔ rest = []))
  end.
Proof.
  revert es order h w. induction eps as [|ep eps IH]; intros es order h w; cbn [dial_entries].
  { exists []. split; [done|]. split; [by rewrite app_nil_r|]. split; [|by exists []].
    unfold fresh_pools, heap_handles. simpl. split_and!; [done| |apply NoDup_nil_2|set_solver +|].
    - by intros q ?%not_elem_of_nil.
    - by rewrite (left_id_L ∅ (∪)). }
  pose proof (dial_pool_spec cfg ep flags h w) as [Hd Hnew].
  destruct (dial_pool _ _ _ _ _ _ _ _ _ _) as [[h1 w1] [ptr|e]].
  - destruct Hd as (Hf & Hsame & Hp & Hdis & Hh).
    destruct (IH (<[ep_Name ep:=new_entry ep ptr]> es) (order ++ [ep_Name ep]) h1 w1) as [new Hn].
    destruct (dial_entries _ _ _ _ _ _ _ _ _ _ _ _) as [[[[h2 w2] es2] order2] err].
    destruct Hn as (-> & -> & (F1 & F2 & F3 & F4 & F5) & rest & -> & Hr).
    assert (ptr ∈ dom h1) as Hpd by by apply elem_of_dom.
    assert (ptr ∉ snd <$> new) as Hpn by (intros Hin; by destruct (F2 _ Hin)).
    assert (ptr_handles h2 ptr = ptr_handles h1 ptr) as Ep.
    { unfold ptr_handles. by rewrite F1. }
    exists ((ep, ptr) :: new). split; [done|]. split; [by rewrite <- app_assoc|].
    split; [|by exists rest]. split_and!.
    + intros q Hq. assert (q ≠ ptr) by (by intros ->).
      rewrite F1; [by apply Hsame|]. apply elem_of_dom. rewrite Hsame by done. by apply elem_of_dom.
    + intros q [->|Hq]%elem_of_cons; [split; [done|]; simpl; rewrite F1; done|].
      destruct (F2 _ Hq) as [Hq1 Hq2]. split; [|done]. intros Hq3. apply Hq1, elem_of_dom.
      rewrite Hsame; [by apply elem_of_dom|]. by intros ->.
    + by constructor.
    + unfold heap_handles in *. simpl. rewrite Ep. rewrite Hh in F4. set_solver.
    + unfold heap_handles in *. simpl. rewrite Ep, F5, Hh. set_solver +.
  - destruct Hd as [-> Hh]. exists []. split; [done|]. split; [by rewrite app_nil_r|].
    split; [|by exists (ep :: eps)].
    unfold fresh_pools, heap_handles. simpl. split_and!; [done| |apply NoDup_nil_2|set_solver +|].
    + by intros q ?%not_elem_of_nil.
    + by rewrite (left_id_L ∅ (∪)).
Qed.

Lemma add_entries_to_map new :
  NoDup (ep_Name ∘ fst <$> new) →
  add_entries new ∅ = list_to_map ((λ ne, (ep_Name ne.1, new_entry ne.1 ne.2)) <$> new).
Proof.
  unfold add_entries. induction new as [|ne new IH] using rev_ind; intros Hnd; [done|].
  rewrite fmap_app, NoDup_app in Hnd. destruct Hnd as (Hnd & Hni & _).
  rewrite foldl_app, fmap_app, IH by done. simpl. rewrite list_to_map_snoc; [done|].
  intros Hin. apply (Hni (ep_Name ne.1)); [|by left].
  by rewrite <- list_fmap_compose in Hin.
Qed.

Lemma add_entries_dom new n :
  NoDup (ep_Name ∘ fst <$> new) → n ∈ ep_Name ∘ fst <$> new ↔ is_Some (add_entries new ∅ !! n).
Proof.
  intros Hnd. rewrite add_entries_to_map by done. rewrite <- not_eq_None_Some.
  rewrite <- not_elem_of_list_to_map. rewrite <- list_fmap_compose.
  change (ep_Name ∘ fst <$> new) with (fst ∘ (λ ne, (ep_Name ne.1, new_entry ne.1 ne.2)) <$> new).
  destruct (decide (n ∈ fst ∘ (λ ne, (ep_Name ne.1, new_entry ne.1 ne.2)) <$> new)); tauto.
Qed.

Lemma entry_pools_new new :
  NoDup (ep_Name ∘ fst <$> new) → entry_pools (add_entries new ∅) ≡ₚ snd <$> new.
Proof.
  intros Hnd. unfold entry_pools. rewrite add_entries_to_map by done.
  rewrite map_to_list_to_map by by rewrite <- list_fmap_compose.
  by rewrite <- list_fmap_compose.
Qed.

Lemma heap_handles_perm h l k : l ≡ₚ k → heap_handles h l = heap_handles h k.
Proof.
  intros Hp. unfold heap_handles. apply set_eq. intros x. rewrite !elem_of_union_list.
  by setoid_rewrite (fmap_Permutation (ptr_handles h) _ _ Hp).
Qed.

Lemma zip_new (new : list (UpstreamEndpoint * nat)) :
  zip_with (λ ep ptr, (ep_Name ep, new_entry ep ptr)) new.*1 new.*2
    = (λ ne, (ep_Name ne.1, new_entry ne.1 ne.2)) <$> new.
Proof. induction new as [|[ep ptr] new IH]; simpl; [done|f_equal; exact IH]. Qed.

(** C1: hot reload is a transaction.  When any endpoint of the new configuration
    cannot be dialled the manager is untouched and exactly the handles that were
    open before are open.  When all can, the entries are exactly the new endpoints,
    in priority order, all healthy, each with a pool of its own that did not exist
    before and has as many sessions as the new global transport asks for; the
    first is active; and the handles open afterwards are those of the new pools,
    none of which was open before, and those open before without the old pools'.
    So nothing the old pools had is left, nothing else is opened, and when the old
    pools' handles were open the new pools have all of theirs.  The names of the
    endpoints must be distinct, which [Validate] does not check: the pool of an
    endpoint whose name comes twice is lost. *)
Theorem Reload_transaction cfg flags m h w m' h' w' r eps
    (Heps : UpstreamEndpoints cfg = Ok eps) (Hnd : NoDup (ep_Name <$> eps))
    (Hold : ∀ q, q ∈ entry_pools (m_entries m) → q ∈ dom h)
    (Hr : Reload ParseDuration InterfaceByName ParseMAC rnd rnd' cfg flags m h w = (m', h', w', r)) :
  match r with
  | Err _ => m' = m ∧ held w' = held w
  | Ok _ => ∃ ptrs, length ptrs = length eps ∧ NoDup ptrs ∧
      (∀ ptr, ptr ∈ ptrs → ptr ∉ dom h ∧ ∃ p, h' !! ptr = Some p ∧
         Z.of_nat (length (sessions p)) = Z.max 1 (tr_Conn (cfg_Transport cfg)) ∧
         distinct_sessions (sessions p)) ∧
      m_entries m' = list_to_map (zip_with (λ ep ptr, (ep_Name ep, new_entry ep ptr)) eps ptrs) ∧
      m_order m' = ep_Name <$> eps ∧
      m_active m' = default (m_active m) (ep_Name <$> head eps) ∧
      order_ok m' ∧
      heap_handles h' ptrs ## held w ∧
      held w' = (heap_handles h' ptrs ∪ held w) ∖ heap_handles h (entry_pools (m_entries m)) ∧
      (heap_handles h (entry_pools (m_entries m)) ⊆ held w → heap_handles h' ptrs ⊆ held w')
  end.
Proof.
  unfold Reload in Hr. rewrite Heps in Hr.
  destruct (dial_entries_spec cfg flags eps ∅ [] h w) as [new Hn].
  destruct (dial_entries _ _ _ _ _ _ _ _ _ _ _ _) as [[[[h1 w1] es] order] err].
  destruct Hn as (-> & -> & (F1 & F2 & F3 & F4 & F5) & rest & -> & Hrest).
  rewrite fmap_app, <- list_fmap_compose in Hnd.
  assert (NoDup (ep_Name ∘ fst <$> new)) as Hnew by by apply NoDup_app in Hnd as (? & _).
  destruct err as [e|].
  - pose proof (close_pools_held (entry_pools (add_entries new ∅)) h1 w1) as Ec.
    destruct (close_pools _ h1 w1) as [h2 w2]. simplify_eq. split; [done|]. simpl in Ec.
    rewrite Ec, F5, (heap_handles_perm _ _ _ (entry_pools_new new Hnew)).
    set_solver.
  - pose proof (proj1 Hrest eq_refl) as ->. rewrite !app_nil_r in Heps |- *.
    pose proof (close_pools_held (entry_pools (m_entries m)) h1 w1) as Ec.
    pose proof (close_pools_other (entry_pools (m_entries m)) h1 w1) as Eo.
    destruct (close_pools _ h1 w1) as [h2 w2]. simplify_eq. simpl in Ec, Eo.
    assert (∀ q, q ∈ snd <$> new → h' !! q = h1 !! q) as Hkeep.
    { intros q Hq. apply Eo. intros Hin%Hold. by destruct (F2 _ Hq). }
    assert (held w' = (heap_handles h1 (snd <$> new) ∪ held w) ∖ heap_handles h (entry_pools (m_entries m))) as Ew.
    { rewrite Ec, F5. f_equal. apply heap_handles_same. intros q Hq. by apply F1, Hold. }
    exists (snd <$> new). split; [by rewrite !length_fmap|]. split; [done|]. split.
    { intros q Hq. rewrite Hkeep by done. by apply F2. }
    rewrite (heap_handles_same h1 h' (snd <$> new)) by done.
    split; [simpl; by rewrite add_entries_to_map, zip_new|].
    split; [simpl; by rewrite <- list_fmap_compose|]. split; [by destruct new|]. split.
    { intros n. simpl. by apply add_entries_dom. }
    split; [done|]. split; [done|]. rewrite Ew. clear -F4. set_solver.
Qed.

(** Once the manager is closed there is no pool to route to.  A bound
    opener then reports the upstream as unavailable, but the manager's own
    methods dereference the nil pool. *)
Theorem closed_manager m h w m' h' w' (Hc : Manager_Close m h w = (m', h', w')) :
  held w' = held w ∖ heap_handles h (entry_pools (m_entries m)) ∧
  ∀ h2 w2 la target addr name, TunnelAddr.Parse target = Ok addr →
    (opener_OpenTCP (OBound name) target m' h2 w2).2 = Err Unavailable ∧
    (opener_OpenTCP ODefault target m' h2 w2).2 = Err PanicNilPool ∧
    (opener_OpenUDP ODefault la target m' h2 w2).2 = Err PanicNilPool.
Proof.
  unfold Manager_Close in Hc.
  pose proof (close_pools_held (entry_pools (m_entries m)) h w) as E.
  destruct (close_pools _ h w) as [h1 w1]. simplify_eq. split; [done|].
  intros h2 w2 la target addr name Ht.
  assert (∀ bind, poolFor bind (mkManager (m_cfg m) (m_health m) (m_strategy m) (m_remoteFlags m)
    ∅ [] (m_active m) (m_rrIdx m) true) = (mkManager (m_cfg m) (m_health m) (m_strategy m)
    (m_remoteFlags m) ∅ [] (m_active m) (m_rrIdx m) true, None)) as Hp.
  { intros bind. rewrite poolFor_unfold. unfold entryHealthyLocked. simpl.
    by rewrite !lookup_empty, andb_false_r. }
  unfold opener_OpenTCP, opener_OpenUDP. rewrite !Hp. simpl. by rewrite Ht.
Qed.
End reload.

(** ** Examples *)

#[export] Instance mock_clock : Clock Mock := { Now w := (w, Z.of_nat (mk_ops w)) }.

Definition sample_ep (name : string) (weight : Z) : UpstreamEndpoint :=
  mkEndpoint name (mkUDPAddr [10; 0; 0; 1] 443) "secret" weight 1 sample_kcp_valid.

(** Upstreams a (weight 2, pool 0) and b (weight 1, pool 1). *)
Definition sample_entries (ha hb : bool) : gmap string entry :=
  <["a"%string := mkEntry 0 (sample_ep "a" 2) 0 ha 0 0 (5 * Millisecond) false]>
    (<["b"%string := mkEntry 1 (sample_ep "b" 1) 1 hb 0 0 (3 * Millisecond) false]> ∅).

Definition sample_manager (strategy : string) (ha hb : bool) : Manager :=
  mkManager valid_client (mkHealthSettings (10 * Second) (3 * Second) 1 2) strategy []
    (sample_entries ha hb) ["a"; "b"]%string "a" 7 false.

(** Pool 0 has the closed session 5, pool 1 the open session 1. *)
Definition sample_heap : gmap nat (Pool unit) :=
  <[0%nat := pool_of [Some (mkSession None (Some 15) None None None (Some 5))%nat]]>
    (<[1%nat := pool_of [Some (mkSession None (Some 11) None None None (Some 1))%nat]]> ∅).

Lemma sample_order_ok s ha hb : order_ok (sample_manager s ha hb).
Proof.
  intros n. simpl. unfold sample_entries.
  destruct (decide (n = "a"%string)) as [->|Ha].
  { rewrite lookup_insert_eq. split; [by eexists|left]. }
  rewrite lookup_insert_ne by done. destruct (decide (n = "b"%string)) as [->|Hb].
  { rewrite lookup_insert_eq. split; [by eexists|right; left]. }
  rewrite lookup_insert_ne, lookup_empty by done.
  split; [set_solver|by intros []].
Qed.

Lemma sample_names n :
  n ∈ ["b"; "a"]%string ↔ is_Some (m_entries (sample_manager StrategyFailover true true) !! n).
Proof.
  rewrite <- (sample_order_ok StrategyFailover true true n). cbn [m_order sample_manager].
  rewrite !elem_of_cons. tauto.
Qed.

(** b is unhealthy: a rule bound to it is served by a. *)
Lemma poolFor_healthy_witness :
  ∃ name e, m_entries (sample_manager StrategyFailover true false) !! name = Some e ∧
    e_healthy e = true ∧
    (poolFor "b" (sample_manager StrategyFailover true false)).2 = Some (e_pool e).
Proof.
  apply (poolFor_healthy "b" (sample_manager StrategyFailover true false)).
  - apply sample_order_ok.
  - exists "a"%string. reflexivity.
Defined.

Lemma weighted_exact_witness :
  picks 3 (sample_manager StrategyWeighted true true) ≡ₚ ["a"; "a"; "b"]%string.
Proof.
  refine (weighted_exact (sample_manager StrategyWeighted true true) _ _ _ _ _).
  - reflexivity.
  - intros n. unfold weight_of. simpl. unfold sample_entries.
    destruct (decide (n = "a"%string)) as [->|Ha]; [by vm_compute|].
    rewrite lookup_insert_ne by done.
    destruct (decide (n = "b"%string)) as [->|Hb]; [by vm_compute|].
    by rewrite lookup_insert_ne, lookup_empty.
  - by vm_compute.
  - by vm_compute.
  - by vm_compute.
Defined.

Lemma round_robin_fair_witness :
  picks 2 (sample_manager StrategyRoundRobin true true) ≡ₚ ["a"; "b"]%string.
Proof.
  refine (round_robin_fair (sample_manager StrategyRoundRobin true true) _ _ _ _).
  - reflexivity.
  - discriminate.
  - by vm_compute.
  - by vm_compute.
Defined.

(** Pools 0 and 1 both serve. *)
Definition live_heap : gmap nat (Pool unit) :=
  <[0%nat := pool_of [Some (mkSession None (Some 12) None None None (Some 2))%nat]]>
    (<[1%nat := pool_of [Some (mkSession None (Some 11) None None None (Some 1))%nat]]> ∅).

Lemma sample_pools_distinct s : pools_distinct (sample_manager s true true).
Proof.
  intros n1 n2 e1 e2 H1 H2 E. simpl in H1, H2. unfold sample_entries in *.
  apply lookup_insert_Some in H1 as [[<- <-]|[? [[<- <-]|[? H1]]%lookup_insert_Some]];
  apply lookup_insert_Some in H2 as [[<- <-]|[? [[<- <-]|[? H2]]%lookup_insert_Some]];
  done.
Qed.

Lemma round_robin_CloseUDP_misses_witness :
  ∃ ptr p, ((opener_OpenUDP ODefault "10.0.0.5:9000" "8.8.8.8:53"
               (sample_manager StrategyRoundRobin true true) live_heap mock0).1.1.2 !! ptr = Some p ∧
    udp p !! addrPairKey "10.0.0.5:9000" "8.8.8.8:53" = Some 100%nat).
Proof.
  destruct (opener_OpenUDP ODefault "10.0.0.5:9000" "8.8.8.8:53"
    (sample_manager StrategyRoundRobin true true) live_heap mock0) as [[[m1 h1] w1] r] eqn:E.
  assert (r = Ok (100%nat, true, addrPairKey "10.0.0.5:9000" "8.8.8.8:53")) as ->.
  { change r with (m1, h1, w1, r).2. rewrite <- E. vm_compute. reflexivity. }
  destruct (round_robin_CloseUDP_misses _ _ (sample_manager StrategyRoundRobin true true)
    live_heap mock0 _ _ _ _ _ _ eq_refl ltac:(apply Nat.leb_le; reflexivity)
    ltac:(apply NoDup_ListNoDup; repeat constructor; simpl; intuition discriminate)
    (sample_pools_distinct _) ltac:(simpl; lia) E) as (ptr & p & Hp & Hu & _).
  exists ptr, p. exact (conj Hp Hu).
Defined.

Lemma least_latency_witness :
  (pickLocked (sample_manager StrategyLeastLatency true true)).2 = "b"%string ∧
  effective_rtt (sample_manager StrategyLeastLatency true true)
    (pickLocked (sample_manager StrategyLeastLatency true true)).2
  ≤ effective_rtt (sample_manager StrategyLeastLatency true true) "a".
Proof.
  split; [reflexivity|].
  refine (proj2 (proj2 (least_latency (sample_manager StrategyLeastLatency true true) _ _ _)) _ _).
  - reflexivity.
  - discriminate.
  - intros n. change (healthyNamesLocked _) with ["a"; "b"]%string.
    intros [->|[->|[]%not_elem_of_nil]%elem_of_cons]%elem_of_cons; by vm_compute.
  - vm_compute. left.
Defined.

Lemma health_thresholds_witness :
  e_healthy (checks (mkHealthSettings 10 3 3 2) (replicate 2 None) (new_entry (sample_ep "a" 1) 0)) = true.
Proof.
  refine (proj1 (health_thresholds (mkHealthSettings 10 3 3 2) (new_entry (sample_ep "a" 1) 0) 2 []
    _ _ _ _) _ _); simpl; try lia; reflexivity.
Defined.

Definition round_of (names : list string) :=
  runHealthCheck names (sample_manager StrategyFailover true true) sample_heap mock0.

Lemma names_NoDup : NoDup ["b"; "a"]%string.
Proof. apply NoDup_ListNoDup. repeat constructor; simpl; intuition discriminate. Qed.

(** a's pool is dead, b's answers: a reconnection is started for a only. *)
Lemma health_round_witness :
  (round_of ["b"; "a"]%string).2 = ["a"%string] ∧
  ∃ e, m_entries (round_of ["b"; "a"]%string).1.1.1 !! "a"%string = Some e ∧
    e_pool e = 0%nat ∧ e_healthy e = false ∧ e_failures e = 1.
Proof.
  split; [vm_compute; reflexivity|].
  destruct (round_of ["b"; "a"]%string) as [[[m' h'] w'] l] eqn:E.
  pose proof (health_round _ _ _ _ _ _ _ _ names_NoDup sample_names E) as Ht.
  assert ((pings (m_entries (sample_manager StrategyFailover true true)) ["b"; "a"]%string sample_heap mock0).2
    !! "a"%string = Some None) as Ea by (vm_compute; reflexivity).
  destruct (pings _ _ _ _) as [[h1 w1] obs]. simpl in Ea.
  destruct Ht as (_ & _ & Ho & _). destruct (Ho "a"%string _ eq_refl) as (r & e' & Er & He & Hp).
  rewrite Ea in Er. injection Er as <-. exists e'. split; [exact He|].
  destruct (pg_same _ _ _ _ Hp) as (_ & _ & Hq & _). destruct (pg_failed _ _ _ _ Hp eq_refl) as (Hf & _ & _ & Hh).
  split; [exact Hq|]. split; [|exact Hf]. destruct (e_healthy e'); [|reflexivity].
  destruct (proj1 Hh eq_refl) as [_ Hlt]. rewrite Hf in Hlt. vm_compute in Hlt. discriminate Hlt.
Defined.

Lemma failover_healthy_witness :
  m_active (round_of ["b"; "a"]%string).1.1.1 = "b"%string ∧
  entryHealthyLocked (round_of ["b"; "a"]%string).1.1.1
    (m_active (round_of ["b"; "a"]%string).1.1.1) = true.
Proof.
  split; [vm_compute; reflexivity|].
  assert (entryHealthyLocked (round_of ["b"; "a"]%string).1.1.1 "b" = true) as Hb
    by (vm_compute; reflexivity).
  destruct (round_of ["b"; "a"]%string) as [[[m' h'] w'] l] eqn:E.
  refine (failover_healthy _ _ _ _ _ _ _ _ "b" names_NoDup E _ _ _ Hb).
  - reflexivity.
  - right. left.
  - reflexivity.
Defined.

Definition sample_step (st : rstate) (w : Mock) :=
  reconnect_step (D := unit) no_durations (λ _, true) (λ _, Some mac0) (λ _ _, 7) (λ _ _, 8)
    "a"%string st (sample_manager StrategyFailover false true) sample_heap w.

Lemma sample_rreach n st w st' :
  rreach (W := Mock) (D := unit) no_durations (λ _, true) (λ _, Some mac0) (λ _ _, 7) (λ _ _, 8)
    "a" n st →
  (sample_step st w).1.1.1 = st' →
  rreach (W := Mock) (D := unit) no_durations (λ _, true) (λ _, Some mac0) (λ _ _, 7) (λ _ _, 8)
    "a" (match st, st' with RWait _, RLook _ => S n | _, _ => n end) st'.
Proof.
  intros Hr Hst. destruct (sample_step st w) as [[[s1 m1] h1] w1] eqn:E. simpl in Hst. subst s1.
  eapply rreach_step; [exact Hr|exact E].
Qed.

(** A reconnection whose first attempt is refused by the network. *)
Lemma reconnect_backoff_witness : 2 * Second = Second * 2 ^ Z.of_nat (Nat.min 1 5).
Proof.
  assert (rreach (W := Mock) (D := unit) no_durations (λ _, true) (λ _, Some mac0)
            (λ _ _, 7) (λ _ _, 8) "a" 1 (RLook (2 * Second))) as Hr.
  { apply (sample_rreach 0 (RWait Second) mock0 (RLook (2 * Second))); [|reflexivity].
    apply (sample_rreach 0 (RDial (sample_ep "a" 2) valid_client [] Second) (mock_failing [0%nat])
             (RWait Second));
      [|vm_compute; reflexivity].
    apply (sample_rreach 0 (RLook Second) mock0
             (RDial (sample_ep "a" 2) valid_client [] Second)); [|reflexivity].
    apply rreach_start. }
  exact (proj1 (proj1 (reconnect_backoff no_durations (λ _, true) (λ _, Some mac0)
    (λ _ _, 7) (λ _ _, 8) "a" 1 _ Hr) _ eq_refl)).
Defined.

Lemma reconnect_swap_spec_witness :
  m_active (reconnect_swap "b" 1 (sample_manager StrategyFailover false false) sample_heap mock0).1.1
    = "b"%string ∧
  entryHealthyLocked
    (reconnect_swap "b" 1 (sample_manager StrategyFailover false false) sample_heap mock0).1.1
    (m_active (reconnect_swap "b" 1 (sample_manager StrategyFailover false false) sample_heap mock0).1.1)
    = true.
Proof.
  split; [reflexivity|].
  destruct (reconnect_swap "b" 1 (sample_manager StrategyFailover false false) sample_heap mock0)
    as [[m' h'] w'] eqn:E.
  exact (proj1 (proj2 (proj2 (reconnect_swap_spec "b" 1 (sample_manager StrategyFailover false false)
    sample_heap mock0 m' h' w' E)))).
Defined.

Definition sample_reload (fails : list nat) :=
  Reload (D := unit) no_durations (λ _, true) (λ _, Some mac0) (λ _ _, 7) (λ _ _, 8)
    (set_Transport sample_kcp_valid valid_client) []
    (sample_manager StrategyFailover true true) sample_heap (mock_failing fails).

(** The dial of the second new upstream fails: the manager keeps running as it
    was.  When nothing fails the two new upstreams have pools of their own, with one
    session each. *)
Lemma Reload_transaction_witness :
  (is_ok (sample_reload [3%nat]).2 = false ∧
   (sample_reload [3%nat]).1.1.1 = sample_manager StrategyFailover true true) ∧
  is_ok (sample_reload []).2 = true ∧
  ∃ ptrs, length ptrs = 2%nat ∧ NoDup ptrs ∧
    (∀ ptr, ptr ∈ ptrs → ptr ∉ dom sample_heap ∧ ∃ p, (sample_reload []).1.1.2 !! ptr = Some p ∧
       length (sessions p) = 1%nat).
Proof.
  assert (∃ eps, UpstreamEndpoints (set_Transport sample_kcp_valid valid_client) = Ok eps ∧
    length eps = 2%nat ∧ NoDup (ep_Name <$> eps)) as (eps & Eeps & Hlen & Hnd).
  { destruct (UpstreamEndpoints (set_Transport sample_kcp_valid valid_client)) as [eps|e] eqn:Eeps;
      [|vm_compute in Eeps; discriminate Eeps].
    vm_compute in Eeps. injection Eeps as <-. eexists. split; [reflexivity|]. split; [reflexivity|].
    apply NoDup_ListNoDup. repeat constructor; simpl; intuition discriminate. }
  assert (∀ q, q ∈ entry_pools (m_entries (sample_manager StrategyFailover true true)) →
    q ∈ dom sample_heap) as Hold.
  { intros q Hq. assert (q = 0 ∨ q = 1)%nat as [->| ->].
    { vm_compute in Hq. apply elem_of_cons in Hq as [->|[->|[]%not_elem_of_nil]%elem_of_cons]; lia. }
    all: apply elem_of_dom; vm_compute; eauto. }
  pose proof (λ fails m' h' w' r, Reload_transaction no_durations (λ _, true) (λ _, Some mac0) (λ _ _, 7) (λ _ _, 8)
    (set_Transport sample_kcp_valid valid_client) [] (sample_manager StrategyFailover true true)
    sample_heap (mock_failing fails) m' h' w' r eps Eeps Hnd Hold) as Ht.
  assert (is_ok (sample_reload [3%nat]).2 = false ∧ is_ok (sample_reload []).2 = true) as [Hf Hs]
    by (split; vm_compute; reflexivity).
  split; [|split; [exact Hs|]].
  - split; [exact Hf|]. destruct (sample_reload [3%nat]) as [[[m' h'] w'] r] eqn:E.
    specialize (Ht _ _ _ _ _ E). destruct r; [discriminate Hf|]. apply Ht.
  - destruct (sample_reload []) as [[[m' h'] w'] r] eqn:E.
    specialize (Ht _ _ _ _ _ E). destruct r; [|discriminate Hs].
    destruct Ht as (ptrs & Hl & Hn & Hp & _). exists ptrs. split; [congruence|]. split; [exact Hn|].
    intros ptr Hin. destruct (Hp ptr Hin) as (Hd & p & Ep & Hc & _). split; [exact Hd|].
    exists p. split; [exact Ep|]. vm_compute (Z.max _ _) in Hc. lia.
Defined.

Lemma closed_manager_witness :
  (opener_OpenTCP (D := unit) ODefault "1.1.1.1:80"
     (Manager_Close (sample_manager StrategyFailover true true) sample_heap mock0).1.1
     ∅ mock0).2 = Err PanicNilPool.
Proof.
  destruct (Manager_Close (sample_manager StrategyFailover true true) sample_heap mock0)
    as [[m' h'] w'] eqn:E.
  refine (proj1 (proj2 (proj2 (closed_manager _ _ _ _ _ _ E) ∅ mock0 "" "1.1.1.1:80" _ "" _))).
  vm_compute. reflexivity.
Defined.
