(* ===== verification/Reconnect.v ===== *)
(** [reconnect] of internal/upstream/manager.go over time: one goroutine against
    an environment that changes the manager, the pools and the world between its
    steps.  [Upstream] has the steps; here are the runs, when they end and what
    they reach.  [ManagerRuns] has it among the manager's other goroutines. *)

From S2P Require Import Prelude GoStd NetUtil Config ConfigResolve Transport TunnelPool TunnelDial Upstream.

Local Open Scope Z_scope.

Section runs.
Context {W : Type} `{Conns W} `{Streams W} `{Clock W} {D : Type}.
Context (ParseDuration : string → option Z) (InterfaceByName : string → bool)
  (ParseMAC : string → option (list Z)) (rnd rnd' : nat → nat → Z).
Abbreviation heap := (gmap nat (Pool D)).
Abbreviation step := (reconnect_step ParseDuration InterfaceByName ParseMAC rnd rnd').

(** What the goroutine finds at its [i]-th step; it is arbitrary, so it can be
    what the goroutine left, changed by anything that happened since. *)
Definition view : Type := Manager * heap * W.
Context (env : nat → view) (name : string).

Definition env_step (st : rstate) (v : view) : rstate * view :=
  let '(m, h, w) := v in let '(st, m, h, w) := step name st m h w in (st, (m, h, w)).

(** The state of the goroutine before its [i]-th step, and what the step leaves. *)
Fixpoint run (i : nat) : rstate :=
  match i with O => RLook Second | S i => (env_step (run i) (env i)).1 end.

Definition left_by (i : nat) : view := (env_step (run i) (env i)).2.

Definition cancelled (i : nat) : Prop := m_cancelled (env i).1.1 = true.
Definition is_settled (i : nat) : Prop :=
  let '(m, h, w) := env i in settled name m h w = true.

(** The endpoint dialled at a step can be reached and answers a ping. *)
Definition reachable (i : nat) : Prop :=
  ∀ ep cfg rf b, run i = RDial ep cfg rf b → ∃ ptr, run (S i) = RSwap ptr.

(** A pool was installed at step [i], in an entry that is now healthy; or the
    entry was gone. *)
Definition installed_at (i : nat) : Prop :=
  ∃ ptr, run i = RSwap ptr ∧
    match m_entries (env i).1.1 !! name with
    | None => m_entries (left_by i).1.1 !! name = None
    | Some cur => ∃ e, m_entries (left_by i).1.1 !! name = Some e ∧ e_pool e = ptr ∧
                    e_healthy e = true ∧ e_id e = e_id cur
    end.

Lemma run_S i : run (S i) = (env_step (run i) (env i)).1.
Proof. done. Qed.

Lemma run_done_le i j : (i ≤ j)%nat → run i = RDone → run j = RDone.
Proof.
  intros Hij Hi. induction Hij as [|j Hij IH]; [done|]. rewrite run_S, IH. unfold env_step.
  by destruct (env j) as [[m h] w].
Qed.

(** One step from each state. *)
Lemma run_look i b : run i = RLook b →
  (run (S i) = RDone ∧ (cancelled i ∨ is_settled i)) ∨
  (∃ ep cfg rf, run (S i) = RDial ep cfg rf b ∧ ¬ cancelled i ∧ ¬ is_settled i).
Proof.
  intros Hi. rewrite run_S, Hi. unfold env_step, cancelled, is_settled.
  destruct (env i) as [[m h] w]. simpl. destruct (m_cancelled m); [by left; auto|].
  destruct (settled name m h w) eqn:Es; [by left; auto|]. unfold settled in Es.
  destruct (m_entries m !! name) as [cur|]; [|done]. right. by eauto 10.
Qed.

Lemma run_dial i ep cfg rf b : run i = RDial ep cfg rf b →
  run (S i) = RWait b ∨ ∃ ptr, run (S i) = RSwap ptr.
Proof.
  intros Hi. rewrite run_S, Hi. unfold env_step. destruct (env i) as [[m h] w]. simpl.
  destruct (dial_pool _ _ _ _ _ _ _ _ _ _) as [[h1 w1] [ptr|e]]; [|by left].
  destruct (timed_ping ptr h1 w1) as [[h2 w2] [t|]]; [by right; eauto|].
  destruct (close_pool ptr h2 w2). by left.
Qed.

Lemma run_wait i b : run i = RWait b →
  (run (S i) = RDone ∧ cancelled i) ∨ (run (S i) = RLook (next_backoff b) ∧ ¬ cancelled i).
Proof.
  intros Hi. rewrite run_S, Hi. unfold env_step, cancelled. destruct (env i) as [[m h] w]. simpl.
  destruct (m_cancelled m); [by left|by right].
Qed.

Lemma run_swap i ptr : run i = RSwap ptr → run (S i) = RDone ∧ installed_at i.
Proof.
  intros Hi. unfold installed_at, left_by. rewrite run_S, Hi. unfold env_step.
  destruct (env i) as [[m h] w]. simpl. unfold reconnect_swap.
  destruct (m_entries m !! name) as [cur|] eqn:Ec.
  - destruct (close_pool (e_pool cur) h w) as [h1 w1]. split; [done|]. exists ptr. split; [done|].
    simpl. set (e' := mkEntry _ _ _ _ _ _ _ _). exists e'. split; [|done].
    destruct (_ || _); destruct m; apply lookup_insert_eq.
  - destruct (close_pool ptr h w) as [h1 w1]. split; [done|]. by exists ptr.
Qed.

(** A reconnection ends when the manager is closed.  Once the context is
    cancelled, wherever the goroutine was and whatever else happens, two steps
    later it has returned. *)
Theorem reconnect_cancelled k (Hc : ∀ i, (k ≤ i)%nat → cancelled i) :
  ∀ j, (S (S k) ≤ j)%nat → run j = RDone.
Proof.
  intros j Hj. apply (run_done_le (S (S k))); [done|].
  assert (∀ i, run i = RDone → run (S i) = RDone) as Hd by (intros i; apply run_done_le; lia).
  destruct (run k) as [b|ep cfg rf b|b|ptr|] eqn:Ek.
  - destruct (run_look k b Ek) as [[? _]|(? & ? & ? & _ & Hn & _)]; [by apply Hd|].
    destruct Hn. by apply Hc.
  - destruct (run_dial k _ _ _ _ Ek) as [Hw|[ptr Hs]].
    + destruct (run_wait _ _ Hw) as [[? _]|[_ Hn]]; [done|]. destruct Hn. apply Hc. lia.
    + by apply run_swap in Hs as [? _].
  - destruct (run_wait _ _ Ek) as [[? _]|[_ Hn]]; [by apply Hd|]. destruct Hn. by apply Hc.
  - apply run_swap in Ek as [? _]. by apply Hd.
  - by do 2 apply Hd.
Qed.

(** The goroutine has returned after step [i] for this reason. *)
Definition ended_at (i : nat) : Prop :=
  run (S i) = RDone ∧ (cancelled i ∨ is_settled i ∨ installed_at i).

(** C19: a reconnection succeeds once the server is reachable.  If from some step
    on every dial and the ping after it succeed, the goroutine returns within
    four steps of it: because the manager was closed, because the upstream was
    removed or is healthy already, or because it installed a pool that answered
    in the entry of the upstream and marked it healthy.  Until then it does not give up:
    while it has not ended it dials again within three steps, for ever. *)
Theorem reconnect_converges k :
  ((∀ i, (k ≤ i)%nat → reachable i) → ∃ i, (i < k + 4)%nat ∧ ended_at i) ∧
  ((∀ i, ¬ cancelled i ∧ ¬ is_settled i) → (∀ i, ¬ installed_at i) →
     ∃ i ep cfg rf b, (k ≤ i < k + 3)%nat ∧ run i = RDial ep cfg rf b).
Proof.
  assert (∀ i b, run i = RLook b → (∀ j, (k ≤ j)%nat → reachable j) → (k ≤ i)%nat →
    ∃ j, (i ≤ j < i + 3)%nat ∧ ended_at j) as Hlook.
  { intros i b Hi Hr Hk. destruct (run_look i b Hi) as [[Hd Hc]|(ep & cfg & rf & Hd & _)].
    - exists i. split; [lia|]. split; [done|]. tauto.
    - destruct (Hr (S i) ltac:(lia) _ _ _ _ Hd) as [ptr Hp].
      exists (S (S i)). split; [lia|]. apply run_swap in Hp as [? ?]. split; auto. }
  assert (∀ i, run i = RDone → ∃ j, (j < i)%nat ∧ ended_at j) as Hdone.
  { induction i as [|i IH]; [done|]. intros Hi. destruct (run i) as [b|ep cfg rf b|b|ptr|] eqn:Ei.
    - exists i. split; [lia|]. split; [done|].
      destruct (run_look i b Ei) as [[_ ?]|(? & ? & ? & E & _)]; [tauto|congruence].
    - destruct (run_dial i _ _ _ _ Ei) as [?|[? ?]]; congruence.
    - exists i. split; [lia|]. split; [done|].
      destruct (run_wait i b Ei) as [[_ ?]|[? _]]; [tauto|congruence].
    - exists i. split; [lia|]. apply run_swap in Ei as [? ?]. split; auto.
    - destruct (IH eq_refl) as (j & ? & ?). exists j. split; [lia|done]. }
  split.
  - intros Hr. destruct (run k) as [b|ep cfg rf b|b|ptr|] eqn:Ek.
    + destruct (Hlook k b Ek Hr ltac:(lia)) as (j & ? & ?). exists j. split; [lia|done].
    + destruct (Hr k ltac:(lia) _ _ _ _ Ek) as [ptr Hp]. exists (S k). split; [lia|].
      apply run_swap in Hp as [? ?]. split; auto.
    + destruct (run_wait k b Ek) as [[Hd ?]|[Hl _]].
      * exists k. split; [lia|]. split; auto.
      * destruct (Hlook (S k) _ Hl Hr ltac:(lia)) as (j & ? & ?). exists j. split; [lia|done].
    + exists k. split; [lia|]. apply run_swap in Ek as [? ?]. split; auto.
    + destruct (Hdone k Ek) as (j & ? & ?). exists j. split; [lia|done].
  - intros Hn Hi.
    assert (∀ i, run i ≠ RDone) as Hnd.
    { intros i Hd. destruct (Hdone i Hd) as (j & _ & _ & [?|[?|?]]);
        [by apply (proj1 (Hn j))|by apply (proj2 (Hn j))|by apply (Hi j)]. }
    assert (∀ i b, run i = RLook b → ∃ ep cfg rf, run (S i) = RDial ep cfg rf b) as Hl.
    { intros i b Ei. destruct (run_look i b Ei) as [[Hd _]|(ep & cfg & rf & Hd & _)]; [|eauto].
      by destruct (Hnd (S i)). }
    destruct (run k) as [b|ep cfg rf b|b|ptr|] eqn:Ek.
    + destruct (Hl k b Ek) as (ep & cfg & rf & Hd). exists (S k), ep, cfg, rf, b. split; [lia|done].
    + exists k, ep, cfg, rf, b. split; [lia|done].
    + destruct (run_wait k b Ek) as [[Hd _]|[Hw _]]; [by destruct (Hnd (S k))|].
      destruct (Hl _ _ Hw) as (ep & cfg & rf & Hd).
      exists (S (S k)), ep, cfg, rf, (next_backoff b). split; [lia|done].
    + apply run_swap in Ek as [_ ?]. by destruct (Hi k).
    + by destruct (Hnd k).
Qed.
End runs.

(** ** Example: upstream [a] is down, its first dial is refused *)

Definition is_swap (st : rstate) : bool := match st with RSwap _ => true | _ => false end.
Definition is_done (st : rstate) : bool := match st with RDone => true | _ => false end.

Definition is_dial (st : rstate) : bool := match st with RDial _ _ _ _ => true | _ => false end.

Lemma is_done_spec st : is_done st = true → st = RDone.
Proof. by destruct st. Qed.

Lemma is_swap_spec st : is_swap st = true → ∃ ptr, st = RSwap ptr.
Proof. destruct st; try done. eauto. Qed.

Definition flaky_env (i : nat) : view (W := Mock) (D := unit) :=
  (sample_manager StrategyFailover false true, sample_heap,
   if (i =? 1)%nat then mock_failing [0%nat] else mock0).

Definition flaky_run : nat → rstate :=
  run (W := Mock) (D := unit) no_durations (λ _, true) (λ _, Some mac0) (λ _ _, 7) (λ _ _, 8)
    flaky_env "a".

Lemma reconnect_converges_witness : ∃ i, (i < 6)%nat ∧ flaky_run (S i) = RDone.
Proof.
  destruct (proj1 (reconnect_converges (W := Mock) (D := unit) no_durations (λ _, true)
    (λ _, Some mac0) (λ _ _, 7) (λ _ _, 8) flaky_env "a" 2)) as (i & Hi & Hd & _).
  - intros i Hi ep cfg rf b E. fold flaky_run in E |- *. apply is_swap_spec.
    assert (is_dial (flaky_run i) = true) as Ed by by rewrite E.
    destruct (decide (6 ≤ i)%nat) as [H6|H6].
    + assert (flaky_run 6 = RDone) as H by (apply is_done_spec; vm_compute; reflexivity).
      pose proof (run_done_le no_durations (λ _, true) (λ _, Some mac0) (λ _ _, 7) (λ _ _, 8)
        flaky_env "a" 6 i H6 H) as Hd. unfold flaky_run in Ed. rewrite Hd in Ed. discriminate Ed.
    + clear E. revert Ed.
      assert (implb (is_dial (flaky_run i)) (is_swap (flaky_run (S i))) = true) as Hb
        by (destruct i as [|[|[|[|[|[|i]]]]]]; [lia|lia|vm_compute; reflexivity..|lia]).
      intros Ed. by rewrite Ed in Hb.
  - exists i. split; [lia|exact Hd].
Defined.

Definition closed_env (i : nat) : view (W := Mock) (D := unit) :=
  ((Manager_Close (sample_manager StrategyFailover false true) sample_heap mock0).1.1, ∅, mock0).

Lemma reconnect_cancelled_witness :
  run (W := Mock) (D := unit) no_durations (λ _, true) (λ _, Some mac0) (λ _ _, 7) (λ _ _, 8)
    closed_env "a" 9 = RDone.
Proof.
  apply (reconnect_cancelled no_durations (λ _, true) (λ _, Some mac0) (λ _ _, 7) (λ _ _, 8)
    closed_env "a" 3); [reflexivity|lia].
Defined.
