(* ===== verification/Opener.v ===== *)
(** [internal/tunnelpool/opener.go] and the [DatagramOpener] of pool.go: the
    interface through which the listeners of the client open streams and flows.

    [S] is the state behind the interface, [E] its errors, [D] the closures that
    receive the payloads of a flow.  A pool and an opener of the upstream manager
    implement it.  A pool keeps the promise [OpenerLaws] about its table of UDP
    streams; the manager chooses a pool anew at each call, and keeps it only as
    long as the choice stays the same ([pinned]). *)

From S2P Require Import Prelude GoStd NetUtil Protocol Config ConfigResolve Transport TunnelPool TunnelDial Upstream.

Local Open Scope Z_scope.

(** [op_Send] writes bytes to a stream, [op_SendFlow] is the [send] closure of
    [OpenUDPDatagram]. *)
Class Opener (S E D : Type) : Type := {
  op_OpenTCP : string → S → S * result E nat;
  op_OpenUDP : string → string → S → S * result E (nat * bool * Z);
  op_CloseUDP : Z → S → S * result E unit;
  op_SupportsDatagrams : S → S * bool;
  op_OpenUDPDatagram : string → string → D → S → S * result E (Session * Z * bool);
  op_Send : nat → list Z → S → S * bool;
  op_StreamClose : nat → S → S;
  op_SendFlow : Session → Z → list Z → S → S * bool }.

(** The table of open UDP streams, in the states [op_ok]: [OpenUDP] hands out the
    stream of its key, and opens one exactly when there is none; [CloseUDP]
    removes it and closes it; nothing else touches the table, and a closed stream
    stays closed. *)
Class OpenerLaws (S E D : Type) `{Opener S E D} : Type := {
  op_ok : S → Prop;
  udp_table : S → gmap Z nat;
  op_closed : S → gset nat;
  udp_key : string → string → Z;
  (* what an operation that leaves the table alone does *)
  quiet s s' := op_ok s' ∧ udp_table s' = udp_table s ∧ op_closed s ⊆ op_closed s';
  OpenUDP_law la t s : op_ok s →
    match op_OpenUDP la t s with
    | (s', Ok (strm, isNew, key)) =>
        op_ok s' ∧ op_closed s ⊆ op_closed s' ∧
        key = udp_key la t ∧ udp_table s' = <[key := strm]> (udp_table s) ∧
        udp_table s !! key = (if isNew then None else Some strm)
    | (s', Err _) => quiet s s'
    end;
  CloseUDP_law k s : op_ok s →
    op_ok (op_CloseUDP k s).1 ∧ udp_table (op_CloseUDP k s).1 = delete k (udp_table s) ∧
    op_closed s ⊆ op_closed (op_CloseUDP k s).1 ∧
    (∀ strm, udp_table s !! k = Some strm → strm ∈ op_closed (op_CloseUDP k s).1);
  SupportsDatagrams_law s : op_ok s → quiet s (op_SupportsDatagrams s).1;
  OpenUDPDatagram_law k t d s : op_ok s → quiet s (op_OpenUDPDatagram k t d s).1;
  Send_law strm b s : op_ok s → quiet s (op_Send strm b s).1;
  SendFlow_law x f b s : op_ok s → quiet s (op_SendFlow x f b s).1 }.

(** Bytes written to a smux stream. *)
Class RawStreams (W : Type) : Type := {
  StreamSend : nat → list Z → W → W * bool }.

(** ** A pool *)

#[export] Instance pool_opener {W D} `{Conns W} `{Streams W} `{RawStreams W} :
    Opener (Pool D * W) pool_error D := {
  op_OpenTCP t s := OpenTCP t s.1 s.2;
  op_OpenUDP la t s := OpenUDP la t s.1 s.2;
  op_CloseUDP k s := (CloseUDP k s.1 s.2, Ok tt);
  op_SupportsDatagrams s := (s, SupportsDatagrams s.1 s.2);
  op_OpenUDPDatagram k t d s := OpenUDPDatagram k t d s.1 s.2;
  op_Send strm b s := let '(w, ok) := StreamSend strm b s.2 in ((s.1, w), ok);
  op_StreamClose strm s := (s.1, StreamClose strm s.2);
  op_SendFlow x f b s := let '(w, ok) := send_flow x f b s.2 in ((s.1, w), ok) }.

(** The streams that have been closed.  A handle is never handed out again. *)
Class Closing (W : Type) `{Streams W} `{RawStreams W} : Type := {
  closed : W → gset nat;
  OpenStream_closed q w : closed (OpenStream q w).1 = closed w ∧
    ∀ strm, (OpenStream q w).2 = Some strm → strm ∉ closed w;
  StreamWrite_closed strm m w : closed (StreamWrite strm m w).1 = closed w;
  StreamReadFlowID_closed strm w : closed (StreamReadFlowID strm w).1 = closed w;
  SendDatagram_closed q b w : closed (SendDatagram q b w).1 = closed w;
  StreamSend_closed strm b w : closed (StreamSend strm b w).1 = closed w;
  StreamClose_closed strm w : closed (StreamClose strm w) = {[strm]} ∪ closed w }.

Section pool.
Context {W D : Type} `{Conns W} `{Closing W}.
Implicit Types (p : Pool D) (w : W).

Lemma try_open_closed order ss le w : closed (try_open order ss le w).1 = closed w.
Proof.
  revert le w. induction order as [|i order IH]; intros le w; simpl; [done|].
  destruct (ss !! i) as [[s|]|]; [|by apply IH..]. destruct (smux_live s w); [|by apply IH].
  pose proof (proj1 (OpenStream_closed (sess_id s) w)) as Ho.
  destruct (OpenStream _ _) as [w1 [t|]]; simpl in *; [done|]. by rewrite IH.
Qed.

Lemma openStream_closed p w : closed (openStream p w).1.2 = closed w.
Proof.
  unfold openStream. destruct (_ =? 0)%nat; [done|]. destruct (fetch_inc _) as [start ix].
  pose proof (try_open_closed (rr_order start (length (sessions p))) (sessions p) false w) as Ht.
  by destruct (try_open _ _ _ _).
Qed.

Lemma OpenUDP_open_closed t p w : closed w ⊆ closed (OpenUDP_open t p w).1.2.
Proof.
  unfold OpenUDP_open. destruct (TunnelAddr.Parse t) as [a|]; [|done].
  pose proof (openStream_closed p w) as Ho. destruct (openStream p w) as [[p1 w1] [strm|]]; simpl in Ho.
  2: { simpl. by rewrite Ho. }
  pose proof (StreamWrite_closed strm (mkMessage UDP (Some a) []) w1) as Hw.
  destruct (StreamWrite _ _ _) as [w2 []]; simpl in *.
  - by rewrite Hw, Ho.
  - rewrite StreamClose_closed, Hw, Ho. set_solver.
Qed.

Lemma OpenUDPDatagram_quiet k t d p w :
  udp (OpenUDPDatagram k t d p w).1.1 = udp p ∧ closed w ⊆ closed (OpenUDPDatagram k t d p w).1.2.
Proof.
  unfold OpenUDPDatagram. destruct (dgByKey p !! k) as [[s fid]|]; [done|].
  assert (udp (pickQUICSession p w).1 = udp p) as E.
  { unfold pickQUICSession. destruct (_ =? 0)%nat; [done|]. destruct (fetch_inc _). by destruct p. }
  destruct (pickQUICSession p w) as [p1 [s|]]; simpl in E; [|done].
  destruct (TunnelAddr.Parse t) as [a|]; [|done].
  pose proof (proj1 (OpenStream_closed (sess_id s) w)) as Ho.
  destruct (OpenStream _ _) as [w1 [ctrl|]]; simpl in Ho; [|simpl; by rewrite Ho].
  pose proof (StreamWrite_closed ctrl (mkMessage UDPDGRAM (Some a) []) w1) as Hw.
  destruct (StreamWrite _ _ _) as [w2 []]; simpl in Hw.
  2: { simpl. rewrite StreamClose_closed, Hw, Ho. set_solver. }
  pose proof (StreamReadFlowID_closed ctrl w2) as Hr.
  destruct (StreamReadFlowID _ _) as [w3 [fid|]]; simpl in Hr.
  2: { simpl. rewrite StreamClose_closed, Hr, Hw, Ho. set_solver. }
  unfold register_flow. destruct (dgCtrl p1); simpl; (split; [done|by rewrite Hr, Hw, Ho]).
Qed.

Lemma send_flow_closed x f b w : closed (send_flow x f b w).1 = closed w.
Proof.
  unfold send_flow, Session_SendDatagram. destruct (quicConn x); [apply SendDatagram_closed|done].
Qed.

#[export] Instance pool_opener_laws : OpenerLaws (Pool D * W) pool_error D.
Proof.
  refine {| op_ok s := True; udp_table s := udp s.1; op_closed s := closed s.2; udp_key := addrPairKey |}.
  - intros la t [p w] _. simpl. unfold OpenUDP, OpenUDP_lookup.
    destruct (udp p !! addrPairKey la t) as [strm|] eqn:El.
    { split_and!; try done. simpl. by rewrite insert_id. }
    pose proof (OpenUDP_open_udp t p w) as Hu. pose proof (OpenUDP_open_closed t p w) as Hc.
    destruct (OpenUDP_open t p w) as [[p1 w1] [strm|e]]; simpl in *; [|done].
    split_and!; try done. by rewrite OpenUDP_install_lookup, Hu.
  - intros k [p w] _. simpl. unfold CloseUDP. destruct (udp p !! k) as [strm|] eqn:Ek; simpl.
    + rewrite StreamClose_closed. split_and!; [done|by destruct p|set_solver|]. intros ? [= <-]. set_solver.
    + split_and!; [done|by rewrite delete_id|done|done].
  - done.
  - intros k t d [p w] _. destruct (OpenUDPDatagram_quiet k t d p w). by split_and!.
  - intros strm b [p w] _. simpl. pose proof (StreamSend_closed strm b w).
    destruct (StreamSend strm b w); simpl in *. split_and!; [done..|set_solver].
  - intros x f b [p w] _. simpl. pose proof (send_flow_closed x f b w).
    destruct (send_flow x f b w); simpl in *. split_and!; [done..|set_solver].
Defined.
End pool.

(** ** An opener of the manager: [Manager] itself, or a [boundOpener] *)

Definition manager_opener {W D} `{Conns W} `{Streams W} `{RawStreams W} (o : opener) :
    Opener (Manager * gmap nat (Pool D) * W) mgr_error D := {|
  op_OpenTCP t s := opener_OpenTCP o t s.1.1 s.1.2 s.2;
  op_OpenUDP la t s := opener_OpenUDP o la t s.1.1 s.1.2 s.2;
  op_CloseUDP k s := opener_CloseUDP o k s.1.1 s.1.2 s.2;
  op_SupportsDatagrams s :=
    let '(m, b) := opener_SupportsDatagrams o s.1.1 s.1.2 s.2 in ((m, s.1.2, s.2), b);
  op_OpenUDPDatagram k t d s := opener_OpenUDPDatagram o k t d s.1.1 s.1.2 s.2;
  op_Send strm b s := let '(w, ok) := StreamSend strm b s.2 in ((s.1, w), ok);
  op_StreamClose strm s := (s.1, StreamClose strm s.2);
  op_SendFlow x f b s := let '(w, ok) := send_flow x f b s.2 in ((s.1, w), ok) |}.

(** The opener keeps choosing the pool at [ptr], with no change to the manager. *)
Definition pinned (o : opener) (ptr : nat) (m : Manager) : Prop :=
  poolFor (opener_bind o) m = (m, Some ptr).

(** A rule bound to a healthy upstream is pinned to its pool, and under failover
    every rule that is not bound is pinned to the pool of a healthy active one. *)
Lemma pinned_bound n m e :
  n ≠ ""%string → m_entries m !! n = Some e → e_healthy e = true → pinned (OBound n) (e_pool e) m.
Proof.
  intros Hn He Hh. unfold pinned, poolFor. simpl. apply String.eqb_neq in Hn. by rewrite Hn, He, Hh.
Qed.

Lemma pinned_failover m e :
  m_strategy m = StrategyFailover → m_active m ∈ m_order m →
  m_entries m !! m_active m = Some e → e_healthy e = true → pinned ODefault (e_pool e) m.
Proof.
  intros Hs Ho He Hh. unfold pinned, poolFor. simpl. unfold pickLocked.
  assert (m_active m ∈ healthyNamesLocked m) as Hin.
  { apply list_elem_of_In, List.filter_In. split; [by apply list_elem_of_In|].
    unfold entryHealthyLocked. by rewrite He. }
  assert (contains (healthyNamesLocked m) (m_active m) = true) as Hc.
  { apply existsb_exists. eexists. split; [by apply list_elem_of_In|apply String.eqb_refl]. }
  destruct (healthyNamesLocked m) as [|n l]; [by apply not_elem_of_nil in Hin|].
  rewrite Hs. change (String.eqb StrategyFailover StrategyRoundRobin) with false.
  change (String.eqb StrategyFailover StrategyWeighted) with false.
  change (String.eqb StrategyFailover StrategyLeastLatency) with false. cbn iota. by rewrite Hc, He.
Qed.

Section pinned.
Context {W D : Type} `{Conns W} `{Streams W} `{RawStreams W} (o : opener) (ptr : nat) (m : Manager)
  (h : gmap nat (Pool D)).
Context (Hpin : pinned o ptr m).
#[local] Existing Instance manager_opener.

(** Such an opener is its pool: each operation does to the state of the pool in
    the heap what the operation of the pool does. *)
Definition in_heap (s : Pool D * W) : Manager * gmap nat (Pool D) * W := (m, <[ptr := s.1]> h, s.2).

Lemma pinned_poolFor : poolFor (opener_bind o) m = (m, Some ptr).
Proof. exact Hpin. Qed.

Lemma in_heap_OpenUDP la t s :
  op_OpenUDP (Opener := manager_opener o) la t (in_heap s) =
    (in_heap (op_OpenUDP la t s).1, wrap_err PoolError (op_OpenUDP la t s).2).
Proof.
  destruct s as [p w]. simpl. unfold opener_OpenUDP. rewrite pinned_poolFor. simpl.
  rewrite lookup_insert_eq. simpl. destruct (OpenUDP la t p w) as [[p' w'] r]. simpl.
  unfold in_heap. simpl. by rewrite insert_insert_eq.
Qed.

Lemma in_heap_CloseUDP k s :
  (op_CloseUDP (Opener := manager_opener o) k (in_heap s)).1 = in_heap (op_CloseUDP k s).1.
Proof.
  destruct s as [p w]. simpl. unfold opener_CloseUDP. rewrite pinned_poolFor. simpl.
  rewrite lookup_insert_eq. simpl. destruct (CloseUDP k p w) as [p' w']. simpl.
  unfold in_heap. simpl. by rewrite insert_insert_eq.
Qed.

Lemma in_heap_SupportsDatagrams s :
  op_SupportsDatagrams (Opener := manager_opener o) (in_heap s) =
    (in_heap (op_SupportsDatagrams s).1, (op_SupportsDatagrams s).2).
Proof.
  destruct s as [p w]. simpl. unfold opener_SupportsDatagrams. rewrite pinned_poolFor. simpl.
  by rewrite lookup_insert_eq.
Qed.

Lemma in_heap_OpenUDPDatagram k t d s :
  op_OpenUDPDatagram (Opener := manager_opener o) k t d (in_heap s) =
    (in_heap (op_OpenUDPDatagram k t d s).1, wrap_err PoolError (op_OpenUDPDatagram k t d s).2).
Proof.
  destruct s as [p w]. simpl. unfold opener_OpenUDPDatagram. rewrite pinned_poolFor. simpl.
  rewrite lookup_insert_eq. simpl. destruct (OpenUDPDatagram k t d p w) as [[p' w'] r]. simpl.
  unfold in_heap. simpl. by rewrite insert_insert_eq.
Qed.

Lemma in_heap_Send strm b s :
  op_Send (Opener := manager_opener o) strm b (in_heap s) =
    (in_heap (op_Send strm b s).1, (op_Send strm b s).2).
Proof. destruct s as [p w]. simpl. by destruct (StreamSend strm b w). Qed.

Lemma in_heap_SendFlow x f b s :
  op_SendFlow (Opener := manager_opener o) x f b (in_heap s) =
    (in_heap (op_SendFlow x f b s).1, (op_SendFlow x f b s).2).
Proof. destruct s as [p w]. simpl. by destruct (send_flow x f b w). Qed.
End pinned.

(** So it keeps the promise of [OpenerLaws] about the table of that pool; an opener
    that is not pinned does not. *)
Section pinned_laws.
Context {W D : Type} `{Conns W} `{Closing W} (o : opener) (ptr : nat).

Abbreviation state := (Manager * gmap nat (Pool D) * W)%type.

Definition pinned_ok (s : state) : Prop := pinned o ptr s.1.1 ∧ is_Some (s.1.2 !! ptr).
Definition pinned_table (s : state) : gmap Z nat := default ∅ (udp <$> s.1.2 !! ptr).

Lemma pinned_in_heap s : pinned_ok s →
  ∃ p, s = in_heap ptr s.1.1 s.1.2 (p, s.2) ∧ pinned o ptr s.1.1 ∧ s.1.2 !! ptr = Some p.
Proof.
  destruct s as [[m h] w]. intros [Hp [p Hh]]. exists p. split_and!; [|done..].
  unfold in_heap. simpl in *. by rewrite insert_id.
Qed.

Lemma in_heap_ok m h (s : Pool D * W) : pinned o ptr m → pinned_ok (in_heap ptr m h s).
Proof. intros Hp. split; [done|]. simpl. rewrite lookup_insert_eq. by eexists. Qed.

Lemma in_heap_table m h (s : Pool D * W) : pinned_table (in_heap ptr m h s) = udp s.1.
Proof. unfold pinned_table. simpl. by rewrite lookup_insert_eq. Qed.

Definition pinned_opener_laws : OpenerLaws (H := manager_opener o) state mgr_error D.
Proof.
  refine {| op_ok := pinned_ok; udp_table := pinned_table; op_closed s := closed s.2;
            udp_key := addrPairKey |}.
  - intros la t s (p & -> & Hp & _)%pinned_in_heap.
    rewrite (in_heap_OpenUDP o ptr _ _ Hp). pose proof (OpenUDP_law (OpenerLaws := pool_opener_laws) la t (p, s.2) I) as L.
    destruct (op_OpenUDP la t (p, s.2)) as [s' [[[strm isNew] key]|e]]; cbn -[in_heap pinned_table] in *;
      rewrite !in_heap_table.
    + destruct L as (_ & Hc & Hk & Et & El). split_and!; try done. by apply in_heap_ok.
    + destruct L as (_ & Et & Hc). split_and!; try done. by apply in_heap_ok.
  - intros k s (p & -> & Hp & _)%pinned_in_heap. rewrite (in_heap_CloseUDP o ptr _ _ Hp), !in_heap_table.
    destruct (CloseUDP_law (OpenerLaws := pool_opener_laws) k (p, s.2) I) as (_ & L). split; [by apply in_heap_ok|exact L].
  - intros s (p & -> & Hp & _)%pinned_in_heap. rewrite (in_heap_SupportsDatagrams o ptr _ _ Hp). simpl.
    split; [by apply in_heap_ok|done].
  - intros k t d s (p & -> & Hp & _)%pinned_in_heap. rewrite (in_heap_OpenUDPDatagram o ptr _ _ Hp).
    destruct (OpenUDPDatagram_law (OpenerLaws := pool_opener_laws) k t d (p, s.2) I) as (_ & L). simpl. rewrite !in_heap_table.
    split; [by apply in_heap_ok|exact L].
  - intros strm b s (p & -> & Hp & _)%pinned_in_heap. rewrite (in_heap_Send o ptr).
    destruct (Send_law (OpenerLaws := pool_opener_laws) strm b (p, s.2) I) as (_ & L). cbn -[in_heap pinned_table]. rewrite !in_heap_table.
    split; [by apply in_heap_ok|exact L].
  - intros x f b s (p & -> & Hp & _)%pinned_in_heap. rewrite (in_heap_SendFlow o ptr).
    destruct (SendFlow_law (OpenerLaws := pool_opener_laws) x f b (p, s.2) I) as (_ & L). cbn -[in_heap pinned_table]. rewrite !in_heap_table.
    split; [by apply in_heap_ok|exact L].
Defined.
End pinned_laws.

(** The concrete world records what is written. *)
#[export] Instance mock_raw : RawStreams Mock := {
  StreamSend strm b w :=
    let '(mkMock o r f n x fl sent) := w in (mkMock o r f n x fl (sent ++ [(strm, b)]), true) }.

(** ** The concrete world, next to the set of the streams that have been closed *)

Notation closing := (Mock * gset nat)%type.

#[export] Instance closing_streams : Streams closing := {
  IsClosed s w := IsClosed s w.1;
  OpenStream q w :=
    match OpenStream q w.1 with
    | (m, Some s) => if decide (s ∈ w.2) then (w, None) else ((m, w.2), Some s)
    | (m, None) => ((m, w.2), None)
    end;
  StreamWrite s m := on_mock (StreamWrite s m);
  StreamRead s := on_mock (StreamRead s);
  StreamReadFlowID s := on_mock (StreamReadFlowID s);
  StreamClose s w := (w.1, {[s]} ∪ w.2);
  SendDatagram q b := on_mock (SendDatagram q b) }.

#[export] Instance closing_raw : RawStreams closing := {
  StreamSend s b := on_mock (StreamSend s b) }.

#[export] Instance closing_closing : Closing closing.
Proof.
  refine {| closed w := w.2 |}; try done.
  - intros q [m x]. cbn. destruct (bool_decide _); [|by split]. destruct m as [o r f n x' fl s].
    destruct (decide (x' ∈ x)) as [|Hn]; cbn; [by split|]. split; [done|]. by intros ? [= <-].
  - intros s [m x]. cbn. by destruct m.
  - intros q b [m x]. cbn. by destruct m.
  - intros s b [m x]. cbn. by destruct m.
Defined.
