(* ===== verification/Netfilter.v ===== *)
(** The command line of iptables, as internal/redirect and internal/iptables use
    it: an interface over the packet filter of the kernel.

    [chains] are the rules per command (family), table and chain, in the form in
    which the command lists them ([canon]).  [cmd_effect] is what iptables(8)
    says each command does when it succeeds; a command that fails changes
    nothing.  A command may fail for reasons of its own (no permission, the lock
    is held), unless [NetfilterReliable] is assumed, where it fails only when
    iptables(8) says so ([can_run]). *)

From S2P Require Import Prelude GoStd.
From Stdlib Require Import Ascii.

Local Open Scope Z_scope.

(** Family, table and chain. *)
Abbreviation chain_id := (string * string * string)%type.
Abbreviation chain_map := (gmap chain_id (list (list string))).

Inductive nf_cmd : Type :=
| NewChain | Flush | DeleteChain
| Append (spec : list string) | Delete (spec : list string) | CheckRule (spec : list string).

Definition cmd_args (t c : string) (cmd : nf_cmd) : list string :=
  ["-t"; t] ++
  match cmd with
  | NewChain => ["-N"; c]
  | Flush => ["-F"; c]
  | DeleteChain => ["-X"; c]
  | Append spec => "-A" :: c :: spec
  | Delete spec => "-D" :: c :: spec
  | CheckRule spec => "-C" :: c :: spec
  end%string.

(** What a rule does with a TCP packet it matches. *)
Inductive nf_verdict : Type := VReturn | VRedirect (port : Z) | VOther.

#[export] Instance nf_verdict_eq_dec : EqDecision nf_verdict.
Proof. solve_decision. Defined.

(** The first of the rules equal to [x] is removed. *)
Fixpoint remove1 {A} `{EqDecision A} (x : A) (l : list A) : option (list A) :=
  match l with
  | [] => None
  | y :: l => if decide (x = y) then Some l else cons y <$> remove1 x l
  end.

(** The effect of a command that succeeds. *)
Definition cmd_effect (canon : list string → list string) (k : chain_id) (cmd : nf_cmd) (m : chain_map) : option chain_map :=
  match cmd, m !! k with
  | NewChain, None => Some (<[k := []]> m)
  | NewChain, Some _ | _, None => None
  | Flush, Some _ => Some (<[k := []]> m)
  | DeleteChain, Some rs => if decide (rs = []) then Some (delete k m) else None
  | Append spec, Some rs => Some (<[k := rs ++ [canon spec]]> m)
  | Delete spec, Some rs => (λ rs, <[k := rs]> m) <$> remove1 (canon spec) rs
  | CheckRule spec, Some rs => if decide (canon spec ∈ rs) then Some m else None
  end.

(** [Exec prog args] is the standard output, [None] for a non-zero exit status.
    [spec_verdict spec p] is what a rule does with a TCP packet to port [p] and
    [jumps spec] the user-defined chain it continues in. *)
Class Netfilter (W : Type) : Type := {
  Exec : string → list string → W → W * option string;
  LookPath : string → W → bool;
  chains : W → chain_map;
  canon : list string → list string;
  rule_line : string → list string → string;
  spec_verdict : list string → Z → option nf_verdict;
  jumps : list string → option string;
  wellformed : list string → Prop }.

Section effect.
Context {W : Type} `{Netfilter W}.

(** Some rule of the table continues in the chain. *)
Definition referenced (k : chain_id) (m : chain_map) : Prop :=
  ∃ c rs spec, m !! (k.1, c) = Some rs ∧ spec ∈ rs ∧ jumps spec = Some k.2.

(** The command is one that iptables(8) accepts in this state. *)
Definition can_run (k : chain_id) (cmd : nf_cmd) (m : chain_map) : Prop :=
  is_Some (cmd_effect canon k cmd m) ∧
  match cmd with
  | NewChain => word k.2 ∧ (length (bs k.2) ≤ 28)%nat
  | DeleteChain => ¬ referenced k m
  | Append spec | Delete spec | CheckRule spec =>
      wellformed spec ∧ ∀ c, jumps spec = Some c → is_Some (m !! (k.1, c))
  | Flush => True
  end.

(** The rules whose verdict on a packet to port [p] counts: the first one. *)
Definition chain_verdict (rs : list (list string)) (p : Z) : option nf_verdict :=
  head (omap (λ spec, spec_verdict spec p) rs).
End effect.

Definition newline : ascii := chr 10.
Definition quotes (s : string) : bool := has (chr 34) (bs s).

(** A port or an inclusive range, as [--dport] takes it. *)
Definition dport (lo hi : Z) : string :=
  if hi =? lo then Itoa lo else Itoa lo +:+ ":" +:+ Itoa hi.

Definition jump_args (v : nf_verdict) : list string :=
  match v with
  | VReturn => ["-j"; "RETURN"]
  | VRedirect q => ["-j"; "REDIRECT"; "--to-ports"; Itoa q]
  | VOther => []
  end%string.

Definition port_spec (lo hi : Z) (v : nf_verdict) : list string :=
  ["-p"; "tcp"; "--dport"; dport lo hi]%string ++ jump_args v.

Definition jump_spec (c : string) : list string := ["-p"; "tcp"; "-j"; c]%string.

Definition is_port (p : Z) : Prop := 0 < p < 65536.

Class NetfilterLaws (W : Type) `{Netfilter W} : Prop := {
  Exec_cmd b t c cmd w :
    match Exec b (cmd_args t c cmd) w with
    | (w', Some _) => cmd_effect canon (b, t, c) cmd (chains w) = Some (chains w')
    | (w', None) => chains w' = chains w
    end;
  (** [-S]: policies and chains first, then a line for each rule. *)
  Exec_list b t w :
    let '(w', o) := Exec b ["-t"; t; "-S"]%string w in
    chains w' = chains w ∧
    ∀ out, o = Some out → ∃ heads order,
      NoDup order ∧ (∀ c, c ∈ order ↔ is_Some (chains w !! (b, t, c))) ∧
      Forall (λ l, HasPrefix (TrimSpace l) "-A " = false) heads ∧
      Split out newline =
        heads ++ (order ≫= λ c, rule_line c <$> default [] (chains w !! (b, t, c))) ++ [""]%string;
  Exec_LookPath b b' args w : LookPath b (Exec b' args w).1 = LookPath b w;
  rule_line_trimmed c spec : TrimSpace (rule_line c spec) = rule_line c spec;
  rule_line_append c spec : HasPrefix (rule_line c spec) "-A " = true;
  (** A line without quoted text can be given back to the command. *)
  rule_line_words c spec : quotes (rule_line c spec) = false →
    ∃ args, Fields (rule_line c spec) = "-A"%string :: c :: args ∧ canon args = spec ∧ wellformed args;
  port_spec_verdict lo hi v p : is_port lo → is_port hi → lo ≤ hi → v ≠ VOther →
    (∀ q, v = VRedirect q → is_port q) →
    spec_verdict (canon (port_spec lo hi v)) p =
      (if (lo <=? p) && (p <=? hi) then Some v else None);
  port_spec_jumps lo hi v : jumps (port_spec lo hi v) = None;
  jump_spec_jumps c : word c → c ∉ ["ACCEPT"; "DROP"; "RETURN"; "REDIRECT"; "NOTRACK"]%string →
    jumps (jump_spec c) = Some c;
  canon_jumps spec : jumps (canon spec) = jumps spec;
  port_spec_wellformed lo hi v : is_port lo → is_port hi → lo ≤ hi → v ≠ VOther →
    (∀ q, v = VRedirect q → is_port q) → wellformed (port_spec lo hi v);
  jump_spec_wellformed c : word c → wellformed (jump_spec c) }.

(** A command that iptables(8) accepts succeeds. *)
Class NetfilterReliable (W : Type) `{Netfilter W} : Prop := {
  Exec_runs b t c cmd w : t ∈ ["nat"; "raw"; "mangle"]%string → LookPath b w = true →
    can_run (b, t, c) cmd (chains w) → is_Some (Exec b (cmd_args t c cmd) w).2;
  Exec_lists b t w : t ∈ ["nat"; "raw"; "mangle"]%string → LookPath b w = true →
    is_Some (Exec b ["-t"; t; "-S"]%string w).2 }.

(** ** Rules built from matches

    The matches of the rules this program adds for a server, as iptables(8) and
    iptables-extensions(8) describe them. *)
Inductive tcp_match : Type :=
| MDport (p : Z) | MSport (p : Z) | MFlags (mask comp : string) | MComment (text : string).

Definition match_args (m : tcp_match) : list string :=
  match m with
  | MDport p => ["--dport"; Itoa p]
  | MSport p => ["--sport"; Itoa p]
  | MFlags mask comp => ["--tcp-flags"; mask; comp]
  | MComment text => ["-m"; "comment"; "--comment"; text]
  end%string.

Definition tcp_spec (ms : list tcp_match) (target : string) : list string :=
  ["-p"; "tcp"]%string ++ (ms ≫= match_args) ++ ["-j"; target]%string.

Definition tcp_flag_names : list string := ["SYN"; "ACK"; "FIN"; "RST"; "URG"; "PSH"]%string.

(** A word without a quotation mark. *)
Definition bare (s : string) : Prop := word s ∧ quotes s = false.

Definition match_ok (m : tcp_match) : Prop :=
  match m with
  | MDport p | MSport p => is_port p
  | MFlags mask comp => mask ∈ tcp_flag_names ∧ comp ∈ tcp_flag_names
  | MComment text => bare text ∧ (length (bs text) ≤ 256)%nat
  end.

Definition builtin_chains : list string :=
  ["PREROUTING"; "INPUT"; "FORWARD"; "OUTPUT"; "POSTROUTING"]%string.
Definition plain_targets : list string := ["ACCEPT"; "DROP"; "NOTRACK"]%string.

(** Such a rule is accepted and continues in no other chain; the listing of a
    built-in chain shows it with the text of its comment and with its target, and
    quotes nothing in it. *)
Class NetfilterMatches (W : Type) `{Netfilter W} : Prop := {
  tcp_spec_wellformed ms target : Forall match_ok ms → target ∈ plain_targets →
    wellformed (tcp_spec ms target);
  tcp_spec_jumps ms target : Forall match_ok ms → target ∈ plain_targets →
    jumps (tcp_spec ms target) = None;
  tcp_spec_unquoted c ms target : c ∈ builtin_chains → Forall match_ok ms → target ∈ plain_targets →
    quotes (rule_line c (canon (tcp_spec ms target))) = false;
  tcp_spec_target c ms target : c ∈ builtin_chains → Forall match_ok ms → target ∈ plain_targets →
    target ∈ Fields (rule_line c (canon (tcp_spec ms target)));
  tcp_spec_comment c ms target text : c ∈ builtin_chains → Forall match_ok ms →
    target ∈ plain_targets → MComment text ∈ ms →
    text ∈ Fields (rule_line c (canon (tcp_spec ms target))) }.

(** ** Lemmas *)

Section laws.
Context {W : Type} `{NetfilterLaws W}.

Lemma remove1_Some {A} `{EqDecision A} (x : A) l k :
  remove1 x l = Some k ↔ ∃ l1 l2, l = l1 ++ x :: l2 ∧ k = l1 ++ l2 ∧ x ∉ l1.
Proof.
  revert k. induction l as [|y l IH]; intros k; simpl.
  { split; [done|]. intros (l1 & l2 & E & _). by destruct l1. }
  case_decide as Hd.
  - subst y. split.
    + intros [= <-]. exists [], l. split_and!; [done..|apply not_elem_of_nil].
    + intros (l1 & l2 & E & -> & Hx). destruct l1 as [|z l1]; simplify_eq/=; [done|].
      destruct Hx. by left.
  - rewrite fmap_Some. split.
    + intros (k' & Hk & ->). apply IH in Hk as (l1 & l2 & -> & -> & Hx).
      exists (y :: l1), l2. split_and!; [done..|]. by apply not_elem_of_cons.
    + intros (l1 & l2 & E & -> & Hx). destruct l1 as [|z l1]; simplify_eq/=.
      apply not_elem_of_cons in Hx as [_ Hx]. exists (l1 ++ l2). split; [|done].
      apply IH. by exists l1, l2.
Qed.

Lemma remove1_None {A} `{EqDecision A} (x : A) l : remove1 x l = None ↔ x ∉ l.
Proof.
  induction l as [|y l IH]; simpl; [split; [intros _; apply not_elem_of_nil|done]|].
  rewrite not_elem_of_cons. case_decide as Hd.
  - split; [done|]. intros [? _]. by destruct Hd.
  - rewrite fmap_None, IH. tauto.
Qed.

Lemma remove1_last {A} `{EqDecision A} (x : A) l : x ∉ l → remove1 x (l ++ [x]) = Some l.
Proof. intros. apply remove1_Some. exists l, []. by rewrite app_nil_r. Qed.

(** A command that ran. *)
Lemma Exec_ran b t c cmd w w' out :
  Exec b (cmd_args t c cmd) w = (w', Some out) →
  cmd_effect canon (b, t, c) cmd (chains w) = Some (chains w').
Proof. intros E. pose proof (Exec_cmd b t c cmd w) as L. by rewrite E in L. Qed.

(** A command whose error is ignored. *)
Lemma Exec_maybe b t c cmd w :
  chains (Exec b (cmd_args t c cmd) w).1 = chains w ∨
  cmd_effect canon (b, t, c) cmd (chains w) = Some (chains (Exec b (cmd_args t c cmd) w).1).
Proof.
  pose proof (Exec_cmd b t c cmd w) as L.
  destruct (Exec _ _ _) as [w' [out|]]; [by right|by left].
Qed.

Lemma Exec_reliable `{!NetfilterReliable W} b t c cmd w m :
  t ∈ ["nat"; "raw"; "mangle"]%string → LookPath b w = true →
  can_run (b, t, c) cmd (chains w) → cmd_effect canon (b, t, c) cmd (chains w) = Some m →
  ∃ w' out, Exec b (cmd_args t c cmd) w = (w', Some out) ∧ chains w' = m ∧ LookPath b w' = true.
Proof.
  intros Ht Hb Hc Hm. destruct (Exec_runs b t c cmd w Ht Hb Hc) as [out Ho].
  pose proof (Exec_cmd b t c cmd w) as L. pose proof (Exec_LookPath b b (cmd_args t c cmd) w) as Lp.
  destruct (Exec _ _ _) as [w' o]. simpl in *. subst o. exists w', out.
  split; [done|]. split; congruence.
Qed.

Lemma Exec_LookPath_eq b b' args w w' o : Exec b' args w = (w', o) → LookPath b w' = LookPath b w.
Proof. intros E. pose proof (Exec_LookPath b b' args w) as L. by rewrite E in L. Qed.

(** A command that iptables(8) refuses fails. *)
Lemma Exec_refused b t c cmd w :
  cmd_effect canon (b, t, c) cmd (chains w) = None →
  ∃ w', Exec b (cmd_args t c cmd) w = (w', None) ∧ chains w' = chains w.
Proof.
  intros Hm. pose proof (Exec_cmd b t c cmd w) as L.
  destruct (Exec _ _ _) as [w' [out|]]; [by rewrite Hm in L|]. by exists w'.
Qed.
End laws.

(** ** A packet filter for the examples: rules are listed as they were given *)

Definition toy_op (op : string) (spec : list string) : option nf_cmd :=
  if String.eqb op "-N" then Some NewChain
  else if String.eqb op "-F" then Some Flush
  else if String.eqb op "-X" then Some DeleteChain
  else if String.eqb op "-A" then Some (Append spec)
  else if String.eqb op "-D" then Some (Delete spec)
  else if String.eqb op "-C" then Some (CheckRule spec) else None.

Definition line_ok (l : string) (args : list string) : Prop :=
  Fields l = args ∧ TrimSpace l = l ∧ HasPrefix l "-A " = true ∧ newline ∉ bs l.

#[local] Instance line_ok_dec l args : Decision (line_ok l args).
Proof. unfold line_ok. apply _. Defined.

Definition toy_line (c : string) (spec : list string) : string :=
  let args := ("-A" :: c :: spec)%string in
  if decide (line_ok (join_words args) args) then join_words args
  else str (bs "-A " ++ [chr 34]).

Lemma toy_line_ok c spec :
  TrimSpace (toy_line c spec) = toy_line c spec ∧ HasPrefix (toy_line c spec) "-A " = true ∧
  newline ∉ bs (toy_line c spec) ∧
  (quotes (toy_line c spec) = false → Fields (toy_line c spec) = "-A"%string :: c :: spec).
Proof.
  unfold toy_line. destruct (decide _) as [(? & ? & ? & ?)|_]; [by split_and!|].
  split; [reflexivity|]. split; [reflexivity|]. split; [|done].
  by apply has_false.
Qed.

Definition toy_chains (b t : string) (m : chain_map) : list string :=
  omap (λ '((b', t', c), _), if bool_decide (b' = b ∧ t' = t) then Some c else None) (map_to_list m).

Definition toy_list (b t : string) (m : chain_map) : string :=
  str (join_on newline (bs <$>
    (toy_chains b t m ≫= λ c, toy_line c <$> default [] (m !! (b, t, c))) ++ [""%string])).

Definition toy_Exec (b : string) (args : list string) (m : chain_map) : chain_map * option string :=
  match args with
  | [_; t; _] => (m, Some (toy_list b t m))
  | _ :: t :: op :: c :: spec =>
      match cmd ← toy_op op spec; cmd_effect id (b, t, c) cmd m with
      | Some m => (m, Some ""%string)
      | None => (m, None)
      end
  | _ => (m, None)
  end.

(** The ports of a rule, and what it does. *)
Definition toy_ports (d : string) : option (Z * Z) :=
  match cut (chr 58) (bs d) with
  | None => p ← Atoi d; Some (p, p)
  | Some (a, b) => lo ← atoi a; hi ← atoi b; Some (lo, hi)
  end.

Definition toy_jump (j : list string) : option nf_verdict :=
  match j with
  | [_; t] => if String.eqb t "RETURN" then Some VReturn else Some VOther
  | [_; _; _; q] => VRedirect <$> Atoi q
  | _ => None
  end.

Definition toy_verdict (spec : list string) (p : Z) : option nf_verdict :=
  match spec with
  | _ :: _ :: o :: d :: j =>
      if String.eqb o "--dport" then
        '(lo, hi) ← toy_ports d; if (lo <=? p) && (p <=? hi) then toy_jump j else None
      else None
  | _ => None
  end.

Definition builtin_targets : list string :=
  ["ACCEPT"; "DROP"; "RETURN"; "REDIRECT"; "NOTRACK"]%string.

#[export] Instance toy_netfilter : Netfilter chain_map := {
  Exec := toy_Exec; LookPath _ _ := true; chains m := m; canon := id; rule_line := toy_line;
  spec_verdict := toy_verdict; wellformed _ := True;
  jumps spec := match spec with
                | [_; _; o; c] =>
                    if String.eqb o "-j" && negb (bool_decide (c ∈ builtin_targets)) then Some c else None
                | _ => None
                end }.

Lemma toy_ports_dport lo hi : is_port lo → is_port hi → toy_ports (dport lo hi) = Some (lo, hi).
Proof.
  intros Hlo Hhi. unfold toy_ports, dport. destruct (Z.eqb_spec hi lo) as [->|].
  - assert (cut (chr 58) (bs (Itoa lo)) = None) as ->.
    { apply cut_None. unfold Itoa. rewrite bs_str. by apply itoa_not_elem. }
    rewrite Atoi_Itoa by (unfold is_port, in_i64 in *; lia). done.
  - change (Itoa lo +:+ ":" +:+ Itoa hi) with (Itoa lo +:+ (":" +:+ Itoa hi)).
    rewrite !bs_app. unfold Itoa. rewrite !bs_str. change (bs ":" ++ ?x) with (chr 58 :: x).
    rewrite cut_app by by apply itoa_not_elem. simpl.
    by rewrite !atoi_itoa by (unfold is_port, in_i64 in *; lia).
Qed.

Lemma toy_Exec_cmd b t c cmd m :
  toy_Exec b (cmd_args t c cmd) m =
    match cmd_effect id (b, t, c) cmd m with
    | Some m => (m, Some ""%string)
    | None => (m, None)
    end.
Proof. by destruct cmd. Qed.

Lemma toy_list_split b t m :
  Split (toy_list b t m) newline =
    (toy_chains b t m ≫= λ c, toy_line c <$> default [] (m !! (b, t, c))) ++ [""%string].
Proof.
  unfold Split, toy_list. rewrite bs_str, split_join.
  - rewrite <- list_fmap_compose. rewrite <- (list_fmap_id (_ ++ _)) at 2.
    apply list_fmap_ext. intros ? x _. apply str_bs.
  - rewrite fmap_app. by destruct (bs <$> (_ ≫= _)).
  - rewrite Forall_fmap, Forall_app. split; [|by repeat constructor; apply not_elem_of_nil].
    apply Forall_forall. intros x (c & Hx & _)%list_elem_of_bind.
    apply list_elem_of_fmap in Hx as (spec & -> & _). simpl. apply toy_line_ok.
Qed.

Lemma toy_chains_spec b t m :
  NoDup (toy_chains b t m) ∧ ∀ c, c ∈ toy_chains b t m ↔ is_Some (m !! (b, t, c)).
Proof.
  unfold toy_chains. split.
  - assert (NoDup (map_to_list m).*1) as Hn by apply NoDup_fst_map_to_list.
    induction (map_to_list m) as [|[[[b' t'] c] rs] l IH]; simpl; [constructor|].
    rewrite fmap_cons in Hn. apply NoDup_cons in Hn as [Hk Hn]. case_bool_decide as Hd; [|auto].
    destruct Hd as [-> ->]. constructor; [|auto].
    rewrite list_elem_of_omap. intros ([[[b' t'] c'] rs'] & Hin & E). case_bool_decide; simplify_eq.
    destruct_and!. simplify_eq. apply Hk, list_elem_of_fmap. by exists (b, t, c, rs').
  - intros c. rewrite list_elem_of_omap. split.
    + intros ([[[b' t'] c'] rs'] & Hin & E). case_bool_decide; simplify_eq. destruct_and!. simplify_eq.
      apply elem_of_map_to_list in Hin. by eexists.
    + intros [rs Hrs]. exists ((b, t, c), rs). split; [by apply elem_of_map_to_list|].
      by rewrite bool_decide_true.
Qed.

#[export] Instance toy_netfilter_laws : NetfilterLaws chain_map.
Proof.
  split; cbn -[cmd_args toy_Exec]; try done.
  - intros b t c cmd m. rewrite (toy_Exec_cmd b t c cmd m). by destruct (cmd_effect _ _ _ _).
  - intros b t m. split; [done|]. intros out [= <-]. exists [], (toy_chains b t m).
    pose proof (toy_chains_spec b t m) as [??]. split_and!; [done..|constructor|]. apply toy_list_split.
  - intros c spec. apply toy_line_ok.
  - intros c spec. apply toy_line_ok.
  - intros c spec Hq. exists spec. split_and!; [by apply toy_line_ok|done|done].
  - intros lo hi v p Hlo Hhi Hle Hv Hq. unfold toy_verdict, port_spec. simpl.
    rewrite toy_ports_dport by done. simpl. destruct (_ && _); [|done].
    destruct v as [|q|]; [done| |done]. simpl. rewrite Atoi_Itoa; [done|].
    specialize (Hq q eq_refl). unfold is_port, in_i64 in *. lia.
  - by intros lo hi [].
  - intros c _ Hc. unfold builtin_targets. by rewrite bool_decide_false.
Qed.

#[export] Instance toy_netfilter_reliable : NetfilterReliable chain_map.
Proof.
  split; cbn -[cmd_args toy_Exec]; [|by eexists].
  intros b t c cmd m _ _ [[m' Hm] _]. rewrite (toy_Exec_cmd b t c cmd m).
  change (cmd_effect id (b, t, c) cmd m = Some m') in Hm. rewrite Hm. by eexists.
Qed.

(** Lines of words. *)
Definition line_char (c : ascii) : Prop := (plain c ∨ c = chr 32) ∧ c ≠ chr 34.

Lemma bare_chars s : bare s → Forall line_char (bs s).
Proof.
  intros [[_ Hp] Hq]. apply has_false in Hq. apply Forall_forall. intros c Hc. split.
  - left. by apply (proj1 (Forall_forall _ _) Hp).
  - by intros ->.
Qed.

Lemma join_bare_chars l : Forall bare l → Forall line_char (join_on (chr 32) (bs <$> l)).
Proof.
  induction 1 as [|s l Hs Hl IH]; [constructor|]. apply bare_chars in Hs. destruct l as [|t l]; [done|].
  change (join_on (chr 32) (bs <$> s :: t :: l)) with (bs s ++ chr 32 :: join_on (chr 32) (bs <$> t :: l)).
  apply Forall_app. split; [done|]. constructor; [|done]. split; [by right|done].
Qed.

Lemma join_bare_end l : l ≠ [] → Forall bare l →
  ∃ front d, join_on (chr 32) (bs <$> l) = front ++ [d] ∧ plain d.
Proof.
  intros Hne Hl. induction Hl as [|s l [[Hs Hp] _] Hl IH]; [done|]. destruct l as [|t l].
  - simpl. destruct (bs s) as [|d k _] eqn:E using rev_ind; [by apply bs_empty in E|].
    apply Forall_app in Hp as [_ [Hd _]%Forall_cons]. by exists k, d.
  - destruct IH as (front & d & E & Hd); [done|].
    change (join_on (chr 32) (bs <$> s :: t :: l)) with (bs s ++ chr 32 :: join_on (chr 32) (bs <$> t :: l)).
    rewrite E. exists (bs s ++ chr 32 :: front), d. split; [|done]. by rewrite <- (assoc_L (++)).
Qed.

Definition bareb (s : string) : bool :=
  negb (String.eqb s "") && forallb (λ c, (33 <=? code c) && (code c <? 127) && negb (bool_decide (c = chr 34))) (bs s).

Lemma bareb_true s : bareb s = true → bare s.
Proof.
  unfold bareb. rewrite andb_true_iff, negb_true_iff, forallb_forall. intros [Hs Hc].
  assert (∀ c, c ∈ bs s → plain c ∧ c ≠ chr 34) as Hc'.
  { intros c Hin%list_elem_of_In. specialize (Hc c Hin).
    rewrite !andb_true_iff, negb_true_iff, bool_decide_eq_false, Z.leb_le, Z.ltb_lt in Hc. unfold plain. tauto. }
  split; [split|].
  - intros ->. by rewrite String.eqb_refl in Hs.
  - apply Forall_forall. intros c Hin. by apply Hc'.
  - apply has_false. intros Hin. by destruct (Hc' _ Hin).
Qed.

Lemma bareb_all l s : forallb bareb l = true → s ∈ l → bare s.
Proof. rewrite forallb_forall. intros H Hs%list_elem_of_In. by apply bareb_true, H. Qed.

Lemma toy_line_bare c spec : bare c → Forall bare spec →
  Fields (toy_line c spec) = "-A"%string :: c :: spec ∧ quotes (toy_line c spec) = false.
Proof.
  intros Hc Hs. assert (bare "-A") as Ha by by apply bareb_true.
  assert (Forall bare ("-A"%string :: c :: spec)) as Hall by by constructor; [|constructor].
  assert (Forall word ("-A"%string :: c :: spec)) as Hw by (eapply Forall_impl; [exact Hall|by intros x []]).
  pose proof (join_bare_chars _ Hall) as Hch.
  destruct (join_bare_end (c :: spec)) as (front & d & E & Hd); [done|by constructor|].
  assert (join_words ("-A"%string :: c :: spec) = str (chr 45 :: (chr 65 :: chr 32 :: front) ++ [d])) as El.
  { unfold join_words. change (join_on (chr 32) (bs <$> "-A"%string :: c :: spec))
      with (chr 45 :: chr 65 :: chr 32 :: join_on (chr 32) (bs <$> c :: spec)). by rewrite E. }
  assert (∀ x, x ≠ chr 32 → ¬ plain x ∨ x = chr 34 → x ∉ bs (join_words ("-A"%string :: c :: spec))) as Hno.
  { intros x Hx Hp Hin. unfold join_words in Hin. rewrite bs_str in Hin.
    destruct (proj1 (Forall_forall _ _) Hch x Hin) as [[?|?] ?]; [|done]. by destruct Hp. }
  unfold toy_line. cbv zeta. rewrite decide_True.
  - split; [by apply Fields_join|]. apply has_false, Hno; [done|by right].
  - split; [by apply Fields_join|]. split; [|split].
    + rewrite El. by apply TrimSpace_ends.
    + rewrite El. change (str (chr 45 :: (chr 65 :: chr 32 :: front) ++ [d]))
        with ("-A " +:+ str (front ++ [d])). apply HasPrefix_app.
    + apply Hno; [done|]. left. vm_compute. intros [H1 _]. by apply H1.
Qed.

Lemma bare_Itoa p : is_port p → bare (Itoa p).
Proof.
  intros Hp. split; [split|].
  - intros E. assert (atoi (itoa p) = Some p) as Ea by (apply atoi_itoa; unfold is_port, in_i64 in *; lia).
    unfold Itoa in E. apply (f_equal bs) in E. rewrite bs_str in E. by rewrite E in Ea.
  - unfold Itoa. rewrite bs_str. apply itoa_plain.
  - apply has_false. unfold Itoa. rewrite bs_str. apply itoa_not_elem; [reflexivity|vm_compute; discriminate].
Qed.

Lemma tcp_spec_bare ms target : Forall match_ok ms → target ∈ plain_targets → Forall bare (tcp_spec ms target).
Proof.
  intros Hm Ht. unfold tcp_spec. rewrite !Forall_app. split; [|split].
  - constructor; [by apply bareb_true|]. constructor; [by apply bareb_true|constructor].
  - apply Forall_forall. intros x (m & Hx & Hin)%list_elem_of_bind.
    pose proof (proj1 (Forall_forall _ _) Hm m Hin) as Hok.
    destruct m as [p|p|mask comp|text]; simpl in Hok, Hx;
      repeat match goal with H : _ ∈ _ :: _ |- _ => apply elem_of_cons in H as [->|H] end;
      try (by apply not_elem_of_nil in Hx); try (by apply bareb_true); try (by apply bare_Itoa); try apply Hok.
    all: destruct Hok; by eapply (bareb_all tcp_flag_names).
  - constructor; [by apply bareb_true|]. constructor; [|constructor]. by eapply (bareb_all plain_targets).
Qed.

#[export] Instance toy_netfilter_matches : NetfilterMatches chain_map.
Proof.
  assert (∀ c ms target, c ∈ builtin_chains → Forall match_ok ms → target ∈ plain_targets →
    Fields (toy_line c (tcp_spec ms target)) = "-A"%string :: c :: tcp_spec ms target ∧
    quotes (toy_line c (tcp_spec ms target)) = false) as Hline.
  { intros c ms target Hc Hm Ht. apply toy_line_bare; [by eapply (bareb_all builtin_chains)|by apply tcp_spec_bare]. }
  split; cbn -[tcp_spec].
  - done.
  - intros ms target Hm Ht. destruct ms as [|m ms].
    + simpl. rewrite bool_decide_true; [done|]. revert Ht. unfold plain_targets, builtin_targets. set_solver.
    + destruct m; simpl; try done; by destruct (_ ++ ["-j"; target]%string).
  - intros c ms target Hc Hm Ht. by apply Hline.
  - intros c ms target Hc Hm Ht. change (target ∈ Fields (toy_line c (tcp_spec ms target))).
    rewrite (proj1 (Hline c ms target Hc Hm Ht)).
    unfold tcp_spec. rewrite !elem_of_cons, !elem_of_app. do 2 right. right. right. right. by left.
  - intros c ms target text Hc Hm Ht Hin. change (text ∈ Fields (toy_line c (tcp_spec ms target))).
    rewrite (proj1 (Hline c ms target Hc Hm Ht)).
    unfold tcp_spec. rewrite !elem_of_cons, !elem_of_app. do 2 right. right. left.
    apply list_elem_of_bind. exists (MComment text). split; [|done]. simpl. set_solver.
Qed.
