(* ===== verification/Redirect.v ===== *)
(** [internal/redirect/redirect_linux.go]: the redirected port ranges of a client.

    [applyRules] and [removeRules] are sequences of commands to the packet filter
    ([Netfilter]), [Start] and [stopped] (the goroutine that waits for the end of
    the context) change a [Manager].  Connections are handled as in forward, with
    the original destination port instead of a configured one. *)

From S2P Require Import Prelude GoStd NetUtil Transport TunnelPool Metrics Relay Opener Netfilter.

Local Open Scope Z_scope.

Definition chainName : string := "PAQET_REDIRECT".

Record RedirectConfig : Type := mkRedirect {
  rd_RedirectPort : Z; rd_TargetHost : string; rd_PortRanges : list (Z * Z);
  rd_Exclude : list Z; rd_BindUpstream : string }.

Record RedirectManager : Type := mkRM { rm_cfg : option RedirectConfig; rm_applied : bool }.

Definition NewManager : RedirectManager := mkRM None false.

Inductive redirect_error : Type := RulesFailed | ListenFailed.

(** ** The original destination *)

(** [originalDst] on the sixteen bytes that getsockopt filled, a sockaddr_in. *)
Definition originalDst (mreq : option (list Z)) : option (list Z * Z) :=
  match mreq with
  | Some (_ :: _ :: b2 :: b3 :: b4 :: b5 :: b6 :: b7 :: _) =>
      Some ([b4; b5; b6; b7], Z.lor (Z.shiftl b2 8) b3)
  | _ => None
  end.

(** ** The rules *)

Section rules.
Context {W : Type} `{Netfilter W}.

Definition run (args : list string) (w : W) : W * bool :=
  let '(w, o) := Exec "iptables" args w in (w, bool_decide (is_Some o)).

Definition hook_spec : list string := ["-p"; "tcp"; "-j"; chainName].

Definition exclude_spec (p : Z) : list string := ["-p"; "tcp"; "--dport"; Itoa p; "-j"; "RETURN"].

Definition range_spec (port : Z) (r : Z * Z) : list string :=
  let spec := if r.2 =? r.1 then Itoa r.1 else Itoa r.1 +:+ ":" +:+ Itoa r.2 in
  ["-p"; "tcp"; "--dport"; spec; "-j"; "REDIRECT"; "--to-ports"; Itoa port].

(** Append rules to the chain until one fails. *)
Fixpoint append_rules (specs : list (list string)) (w : W) : W * bool :=
  match specs with
  | [] => (w, true)
  | spec :: specs =>
      match run (["-t"; "nat"; "-A"; chainName] ++ spec) w with
      | (w, false) => (w, false)
      | (w, true) => append_rules specs w
      end
  end.

Definition exclusions (cfg : RedirectConfig) : list Z := rd_Exclude cfg ++ [rd_RedirectPort cfg].

Definition rule_specs (cfg : RedirectConfig) : list (list string) :=
  (exclude_spec <$> exclusions cfg) ++ (range_spec (rd_RedirectPort cfg) <$> rd_PortRanges cfg).

Definition applyRules (cfg : RedirectConfig) (w : W) : W * bool :=
  let '(w, _) := run ["-t"; "nat"; "-N"; chainName] w in
  match run ["-t"; "nat"; "-F"; chainName] w with
  | (w, false) => (w, false)
  | (w, true) =>
      match append_rules (rule_specs cfg) w with
      | (w, false) => (w, false)
      | (w, true) =>
          let '(w, _) := run (["-t"; "nat"; "-D"; "PREROUTING"] ++ hook_spec) w in
          run (["-t"; "nat"; "-A"; "PREROUTING"] ++ hook_spec) w
      end
  end.

Definition removeRules (m : RedirectManager) (w : W) : RedirectManager * W :=
  if negb (rm_applied m) then (m, w) else
  let '(w, _) := run (["-t"; "nat"; "-D"; "PREROUTING"] ++ hook_spec) w in
  let '(w, _) := run ["-t"; "nat"; "-F"; chainName] w in
  let '(w, _) := run ["-t"; "nat"; "-X"; chainName] w in
  (mkRM (rm_cfg m) false, w).

(** [Start]; [Listen] is [net.Listen] on the redirect port. *)
Definition Start (Listen : Z → W → W * bool) (cfg : RedirectConfig) (m : RedirectManager) (w : W) :
    RedirectManager * W * result redirect_error unit :=
  let m := mkRM (Some cfg) (rm_applied m) in
  match applyRules cfg w with
  | (w, false) => (removeRules m w, Err RulesFailed)
  | (w, true) =>
      let m := mkRM (rm_cfg m) true in
      match Listen (rd_RedirectPort cfg) w with
      | (w, false) => (removeRules m w, Err ListenFailed)
      | (w, true) => (m, w, Ok tt)
      end
  end.

(** The goroutine of [Start] after the context has ended and the listener is
    closed. *)
Definition stopped (m : RedirectManager) (w : W) : RedirectManager * W := removeRules m w.
End rules.

(** ** Connections *)

Section handle.
Context {S E D : Type} {op : Opener S E D}.

Inductive redirect_end : Type :=
| RNoDestination | RNoOpener | ROpenError | RRelayed (target : string) (up down : half) (e : relay_end).

(** [handle]; [mreq] is the result of getsockopt on the connection. *)
Definition handle (cfg : RedirectConfig) (routed : bool) (mreq : option (list Z)) (up down : half)
    (sched : list bool) (s : S) (c : Collector) : S * Collector * redirect_end :=
  match originalDst mreq with
  | None => (s, c, RNoDestination)
  | Some (_, port) =>
      let target := JoinHostPort (rd_TargetHost cfg) (Itoa port) in
      if negb routed then (s, c, RNoOpener) else
      match op_OpenTCP target s with
      | (s, Err _) => (s, IncError c, ROpenError)
      | (s, Ok strm) =>
          let '(up, down, c, r) := relay_run (MeterWriter true) (MeterWriter false) sched up down c in
          (op_StreamClose strm s, c, RRelayed target up down (relay_end_of r))
      end
  end.
End handle.

(** ** The ports that are redirected *)

Definition kc : chain_id := ("iptables", "nat", chainName)%string.
Definition kp : chain_id := ("iptables", "nat", "PREROUTING")%string.

Definition ports_ok (cfg : RedirectConfig) : Prop :=
  is_port (rd_RedirectPort cfg) ∧ Forall is_port (rd_Exclude cfg) ∧
  Forall (λ r, is_port r.1 ∧ is_port r.2 ∧ r.1 ≤ r.2) (rd_PortRanges cfg).

(** What the configuration says of a connection to port [p]: the ports the user
    excludes and the redirect port go on untouched, those of the ranges go to the
    redirect port. *)
Definition redirected (cfg : RedirectConfig) (p : Z) : option nf_verdict :=
  if bool_decide (p ∈ rd_Exclude cfg) || (p =? rd_RedirectPort cfg) then Some VReturn
  else if existsb (λ r, (r.1 <=? p) && (p <=? r.2)) (rd_PortRanges cfg)
       then Some (VRedirect (rd_RedirectPort cfg)) else None.

Section ports.
Context {W : Type} `{NetfilterLaws W}.

Lemma exclude_spec_port p : exclude_spec p = port_spec p p VReturn.
Proof. unfold exclude_spec, port_spec, dport. by rewrite Z.eqb_refl. Qed.

Lemma range_spec_port q r : range_spec q r = port_spec r.1 r.2 (VRedirect q).
Proof. done. Qed.

Lemma exclusions_ports cfg : ports_ok cfg → Forall is_port (exclusions cfg).
Proof. intros (Hq & He & _). apply Forall_app. split; [done|]. by constructor. Qed.

Lemma exclusions_elem cfg p :
  bool_decide (p ∈ rd_Exclude cfg) || (p =? rd_RedirectPort cfg) = bool_decide (p ∈ exclusions cfg).
Proof.
  unfold exclusions. apply eq_iff_eq_true.
  by rewrite orb_true_iff, !bool_decide_eq_true, Z.eqb_eq, elem_of_app, list_elem_of_singleton.
Qed.

Lemma redirected_iff cfg p :
  redirected cfg p = Some (VRedirect (rd_RedirectPort cfg)) ↔
    (∃ r, r ∈ rd_PortRanges cfg ∧ r.1 ≤ p ≤ r.2) ∧ p ∉ rd_Exclude cfg ∧ p ≠ rd_RedirectPort cfg.
Proof.
  assert (existsb (λ r, (r.1 <=? p) && (p <=? r.2)) (rd_PortRanges cfg) = true ↔
    ∃ r, r ∈ rd_PortRanges cfg ∧ r.1 ≤ p ≤ r.2) as Hx.
  { rewrite existsb_exists. setoid_rewrite andb_true_iff. setoid_rewrite Z.leb_le.
    by setoid_rewrite list_elem_of_In. }
  unfold redirected. case_bool_decide as Hin; simpl; [naive_solver|].
  destruct (Z.eqb_spec p (rd_RedirectPort cfg)); [naive_solver|].
  destruct (existsb _ _); [naive_solver|]. split; [done|]. intros (Hr & _). by apply Hx in Hr.
Qed.

Lemma redirected_cases cfg p :
  (∀ port, redirected cfg p = Some (VRedirect port) ↔
     port = rd_RedirectPort cfg ∧
     (∃ r, r ∈ rd_PortRanges cfg ∧ r.1 ≤ p ≤ r.2) ∧ p ∉ rd_Exclude cfg ∧ p ≠ rd_RedirectPort cfg) ∧
  (redirected cfg p = Some VReturn ↔ p ∈ rd_Exclude cfg ∨ p = rd_RedirectPort cfg) ∧
  redirected cfg p ≠ Some VOther.
Proof.
  split; [|split].
  - intros port. rewrite <- redirected_iff. split; [|by intros [-> E]]. intros E.
    assert (port = rd_RedirectPort cfg) as ->; [|done].
    unfold redirected in E. destruct (_ || _); [done|]. destruct (existsb _ _); [by injection E as <-|done].
  - unfold redirected. case_bool_decide; simpl; [naive_solver|].
    destruct (Z.eqb_spec p (rd_RedirectPort cfg)); [naive_solver|].
    destruct (existsb _ _); naive_solver.
  - unfold redirected. destruct (_ || _); [done|]. by destruct (existsb _ _).
Qed.

Lemma exclude_verdict p q : is_port q →
  spec_verdict (canon (exclude_spec q)) p = if p =? q then Some VReturn else None.
Proof.
  intros Hq. rewrite exclude_spec_port, port_spec_verdict by done.
  destruct (Z.eqb_spec p q), (Z.leb_spec q p), (Z.leb_spec p q); try done; lia.
Qed.

Lemma range_verdict p q r : is_port q → is_port r.1 → is_port r.2 → r.1 ≤ r.2 →
  spec_verdict (canon (range_spec q r)) p =
    if (r.1 <=? p) && (p <=? r.2) then Some (VRedirect q) else None.
Proof. intros. rewrite range_spec_port, port_spec_verdict; try done. by intros ? [= <-]. Qed.

Lemma chain_verdict_cons spec rs p :
  chain_verdict (spec :: rs) p =
    match spec_verdict spec p with Some v => Some v | None => chain_verdict rs p end.
Proof. unfold chain_verdict. simpl. by destruct (spec_verdict spec p). Qed.

Lemma rule_specs_verdict cfg p : ports_ok cfg →
  chain_verdict (canon <$> rule_specs cfg) p = redirected cfg p.
Proof.
  intros Hok. pose proof (exclusions_ports cfg Hok) as He. destruct Hok as (Hrp & _ & Hr).
  unfold rule_specs, redirected. rewrite exclusions_elem. set (q := rd_RedirectPort cfg) in *. clearbody q.
  induction He as [|e el He _ IH].
  - rewrite bool_decide_false by apply not_elem_of_nil. simpl.
    induction Hr as [|r rl (H1 & H2 & H3) _ IH]; [done|].
    rewrite !fmap_cons, chain_verdict_cons, range_verdict by done. cbn [existsb].
    by destruct (_ && _).
  - rewrite !fmap_cons. cbn [app]. rewrite fmap_cons, chain_verdict_cons, exclude_verdict by done.
    destruct (Z.eqb_spec p e) as [->|Hne].
    + by rewrite bool_decide_true by left.
    + rewrite IH. erewrite bool_decide_ext; [done|]. rewrite elem_of_cons. naive_solver.
Qed.

Lemma run_cmd c cmd w w' b :
  run (cmd_args "nat" c cmd) w = (w', b) →
  if b then cmd_effect canon ("iptables", "nat", c)%string cmd (chains w) = Some (chains w')
  else chains w' = chains w.
Proof.
  unfold run. pose proof (Exec_cmd "iptables" "nat" c cmd w) as L.
  destruct (Exec _ _ _) as [w1 [out|]]; intros [= <- <-]; exact L.
Qed.

Lemma append_rules_chain specs w w' rs b :
  append_rules specs w = (w', b) → chains w !! kc = Some rs →
  ∃ done todo, specs = done ++ todo ∧ (b = true → todo = []) ∧
    chains w' = <[kc := rs ++ (canon <$> done)]> (chains w).
Proof.
  revert w rs. induction specs as [|spec specs IH]; intros w rs; cbn [append_rules].
  - intros [= <- <-] Hrs. exists [], []. split_and!; [done..|].
    by rewrite app_nil_r, insert_id.
  - destruct (run _ w) as [w1 b1] eqn:E. apply (run_cmd chainName (Append spec)) in E.
    intros Ha Hrs. destruct b1.
    + unfold cmd_effect in E. fold kc in E. rewrite Hrs in E. injection E as E.
      destruct (IH w1 (rs ++ [canon spec]) Ha) as (dn & todo & -> & Hb & ->).
      { rewrite <- E. apply lookup_insert_eq. }
      exists (spec :: dn), todo. split_and!; [done..|].
      by rewrite <- E, insert_insert_eq, fmap_cons, <- (assoc_L (++)).
    + injection Ha as <- <-. exists [], (spec :: specs). split_and!; [done..|].
      by rewrite E, app_nil_r, insert_id.
Qed.

(** C16: the installed rules redirect the configured ports.  For a configuration
    whose ports are ports and whose ranges are not empty (for the ranges and the
    excluded ports [Validate] checks this, for the redirect port it does not),
    when [applyRules] succeeds, the chain sends a connection to the redirect port
    exactly when its port is in one of the ranges, is not one of the ports the
    user excludes and is not the redirect port itself (no loop), and to no other
    port; the excluded ports and the redirect port return from the chain at once;
    PREROUTING ends with the jump to the chain, its other rules are kept but for
    one earlier copy of that jump, and no other chain of the packet filter
    changes.  (Port 22 is excluded only by a list that names it, which the default
    list does.) *)
Theorem applyRules_redirects cfg w w' pre
    (Hp : ports_ok cfg) (Hpre : chains w !! kp = Some pre) (E : applyRules cfg w = (w', true)) :
  ∃ rs pre', chains w' = <[kp := pre' ++ [canon hook_spec]]> (<[kc := rs]> (chains w)) ∧
    (pre' = pre ∨ remove1 (canon hook_spec) pre = Some pre') ∧
    ∀ p,
      (∀ port, chain_verdict rs p = Some (VRedirect port) ↔
         port = rd_RedirectPort cfg ∧
         (∃ r, r ∈ rd_PortRanges cfg ∧ r.1 ≤ p ≤ r.2) ∧ p ∉ rd_Exclude cfg ∧ p ≠ rd_RedirectPort cfg) ∧
      (chain_verdict rs p = Some VReturn ↔ p ∈ rd_Exclude cfg ∨ p = rd_RedirectPort cfg) ∧
      chain_verdict rs p ≠ Some VOther.
Proof.
  exists (canon <$> rule_specs cfg). unfold applyRules in E.
  destruct (run _ w) as [w1 b1] eqn:E1. apply (run_cmd chainName NewChain) in E1.
  destruct (run _ w1) as [w2 []] eqn:E2; [|done]. apply (run_cmd chainName Flush) in E2.
  destruct (append_rules _ w2) as [w3 []] eqn:E3; [|done].
  destruct (run _ w3) as [w4 b4] eqn:E4. apply (run_cmd "PREROUTING" (Delete hook_spec)) in E4.
  apply (run_cmd "PREROUTING" (Append hook_spec)) in E.
  unfold cmd_effect in *. fold kc kp in *.
  assert (chains w2 = <[kc := []]> (chains w)) as H2.
  { destruct b1; [destruct (chains w !! kc) eqn:Ek; [done|]|]; simplify_eq.
    - rewrite <- E1, lookup_insert_eq, insert_insert_eq in E2. congruence.
    - rewrite E1 in E2. destruct (chains w !! kc); congruence. }
  destruct (append_rules_chain _ _ _ [] _ E3) as (dn & todo & Hs & Ht & H3).
  { rewrite H2. apply lookup_insert_eq. }
  rewrite (Ht eq_refl), app_nil_r in Hs. subst dn. rewrite H2, insert_insert_eq in H3. simpl in H3.
  assert (chains w3 !! kp = Some pre) as Hp3 by (rewrite H3; by rewrite lookup_insert_ne).
  assert (∃ pre', chains w4 = <[kp := pre']> (chains w3) ∧
            (pre' = pre ∨ remove1 (canon hook_spec) pre = Some pre')) as (pre' & H4 & Hd).
  { destruct b4; [|exists pre; split; [|by left]; by rewrite insert_id].
    rewrite Hp3 in E4. apply fmap_Some in E4 as (pre' & Hd & ->). eauto. }
  exists pre'. split; [|split; [done|intros p; rewrite rule_specs_verdict by done; apply redirected_cases]].
  rewrite H4, lookup_insert_eq, insert_insert_eq, H3 in E. by injection E as <-.
Qed.
End ports.

(** ** Installing and removing, when commands do not fail on their own *)

(** The packet filter [m] with [P] in PREROUTING and [C] as the chain. *)
Definition nat_with (P : list (list string)) (C : option (list (list string))) (m : chain_map) :
    chain_map := <[kp := P]> (match C with Some rs => <[kc := rs]> m | None => delete kc m end).

Section nat_with_laws.
Context (m : chain_map).

Lemma nat_with_kp P C : nat_with P C m !! kp = Some P.
Proof. apply lookup_insert_eq. Qed.
Lemma nat_with_kc P C : nat_with P C m !! kc = C.
Proof.
  unfold nat_with. rewrite lookup_insert_ne by done.
  destruct C; [apply lookup_insert_eq|apply lookup_delete_eq].
Qed.
Lemma nat_with_insert_kp P C P' : <[kp := P']> (nat_with P C m) = nat_with P' C m.
Proof. apply insert_insert_eq. Qed.
Lemma nat_with_insert_kc P C rs : <[kc := rs]> (nat_with P C m) = nat_with P (Some rs) m.
Proof.
  unfold nat_with. rewrite insert_insert_ne by done. f_equal.
  destruct C; [apply insert_insert_eq|apply insert_delete_eq].
Qed.
Lemma nat_with_delete_kc P C : delete kc (nat_with P C m) = nat_with P None m.
Proof.
  unfold nat_with. rewrite delete_insert_ne by done. f_equal.
  destruct C; [apply delete_insert_eq|apply delete_delete_eq].
Qed.
Lemma nat_with_id P C : m !! kp = Some P → m !! kc = C → nat_with P C m = m.
Proof.
  intros HP <-. unfold nat_with. destruct (m !! kc) eqn:E.
  - rewrite (insert_id m kc) by done. by apply insert_id.
  - rewrite delete_id by done. by apply insert_id.
Qed.
End nat_with_laws.

Section reliable.
Context {W : Type} `{NetfilterLaws W} `{!NetfilterReliable W}.
(** [net.Listen] does not change the packet filter. *)
Context (Listen : Z → W → W * bool).
Hypothesis Listen_chains : ∀ p w, chains (Listen p w).1 = chains w.
Hypothesis Listen_LookPath : ∀ b p w, LookPath b (Listen p w).1 = LookPath b w.

(** The packet filter has no trace of a redirect, iptables is installed. *)
Record clean (m : chain_map) (pre : list (list string)) : Prop := {
  clean_kp : m !! kp = Some pre;
  clean_kc : m !! kc = None;
  clean_hook : canon hook_spec ∉ pre;
  clean_unref : ¬ referenced kc m }.

Definition at_state (m : chain_map) (w : W) : Prop := chains w = m ∧ LookPath "iptables" w = true.

(** The state with the rules of [cfg] installed. *)
Definition installed (cfg : RedirectConfig) (pre : list (list string)) (m : chain_map) : chain_map :=
  nat_with (pre ++ [canon hook_spec]) (Some (canon <$> rule_specs cfg)) m.

Lemma run_ok c cmd m m' w :
  at_state m w → can_run ("iptables", "nat", c)%string cmd m →
  cmd_effect canon ("iptables", "nat", c)%string cmd m = Some m' →
  ∃ w', run (cmd_args "nat" c cmd) w = (w', true) ∧ at_state m' w'.
Proof.
  intros [<- Hl] Hc Hm. destruct (Exec_reliable "iptables" "nat" c cmd w m') as (w' & out & E & ? & ?);
    [set_solver|done..|]. exists w'. unfold run. by rewrite E.
Qed.

Lemma run_refused c cmd m w :
  at_state m w → cmd_effect canon ("iptables", "nat", c)%string cmd m = None →
  ∃ w', run (cmd_args "nat" c cmd) w = (w', false) ∧ at_state m w'.
Proof.
  intros [<- Hl] Hm. destruct (Exec_refused "iptables" "nat" c cmd w Hm) as (w' & E & Hw).
  pose proof (Exec_LookPath "iptables" "iptables" (cmd_args "nat" c cmd) w) as Lp.
  exists w'. unfold run. rewrite E in *. split; [done|]. split; [done|]. simpl in Lp. congruence.
Qed.

Lemma chainName_word : word chainName.
Proof. split; [done|]. repeat constructor; done. Qed.

Lemma hook_jumps : jumps (canon hook_spec) = Some chainName.
Proof.
  rewrite canon_jumps. apply (jump_spec_jumps chainName); [apply chainName_word|].
  rewrite !not_elem_of_cons. split_and!; try done. apply not_elem_of_nil.
Qed.

Lemma rule_spec_valid cfg spec : ports_ok cfg → spec ∈ rule_specs cfg →
  wellformed spec ∧ jumps spec = None.
Proof.
  intros Hok. pose proof (exclusions_ports cfg Hok) as He. destruct Hok as (Hrp & _ & Hr).
  unfold rule_specs. rewrite elem_of_app, !list_elem_of_fmap.
  intros [(p & -> & Hp)|(r & -> & Hin)];
    [pose proof (proj1 (Forall_forall _ _) He p Hp) as Hpp
    |destruct (proj1 (Forall_forall _ _) Hr r Hin) as (? & ? & ?)].
  - rewrite exclude_spec_port. split; [|apply port_spec_jumps].
    by apply port_spec_wellformed.
  - rewrite range_spec_port. split; [|apply port_spec_jumps].
    apply port_spec_wellformed; try done. by intros ? [= <-].
Qed.

Lemma append_rules_ok specs P rs m w :
  Forall (λ spec, wellformed spec ∧ jumps spec = None) specs → at_state (nat_with P (Some rs) m) w →
  ∃ w', append_rules specs w = (w', true) ∧
    at_state (nat_with P (Some (rs ++ (canon <$> specs))) m) w'.
Proof.
  intros Hv. revert rs w. induction Hv as [|spec specs [Hw Hj] Hv IH]; intros rs w Hs.
  { exists w. split; [done|]. by rewrite app_nil_r. }
  assert (cmd_effect canon kc (Append spec) (nat_with P (Some rs) m)
          = Some (nat_with P (Some (rs ++ [canon spec])) m)) as He.
  { unfold cmd_effect. by rewrite nat_with_kc, nat_with_insert_kc. }
  destruct (run_ok chainName (Append spec) _ (nat_with P (Some (rs ++ [canon spec])) m) w Hs) as (w1 & E & H1); [|exact He|].
  { split; [by eexists|]. split; [done|]. intros c. by rewrite Hj. }
  destruct (IH _ _ H1) as (w' & E' & H'). exists w'. split.
  - cbn [append_rules]. change (["-t"; "nat"; "-A"; chainName]%string ++ spec)
      with (cmd_args "nat" chainName (Append spec)). by rewrite E.
  - by rewrite fmap_cons, cons_middle, (assoc_L (++)).
Qed.

(** The commands on PREROUTING. *)
Lemma run_hook P C m w : is_Some C → at_state (nat_with P C m) w →
  ∃ w', run (cmd_args "nat" "PREROUTING" (Append hook_spec)) w = (w', true) ∧
    at_state (nat_with (P ++ [canon hook_spec]) C m) w'.
Proof.
  intros HC Hs. apply (run_ok "PREROUTING" (Append hook_spec) _ _ w Hs).
  - split; [unfold cmd_effect; fold kp; rewrite nat_with_kp; by eexists|].
    split; [apply jump_spec_wellformed, chainName_word|].
    intros c. rewrite <- canon_jumps, hook_jumps. intros [= <-].
    change (is_Some (nat_with P C m !! kc)). by rewrite nat_with_kc.
  - unfold cmd_effect. fold kp. by rewrite nat_with_kp, nat_with_insert_kp.
Qed.

Lemma run_unhook P C m w : canon hook_spec ∉ P → is_Some C →
  at_state (nat_with (P ++ [canon hook_spec]) C m) w →
  ∃ w', run (cmd_args "nat" "PREROUTING" (Delete hook_spec)) w = (w', true) ∧
    at_state (nat_with P C m) w'.
Proof.
  intros HP HC Hs. 
  assert (cmd_effect canon kp (Delete hook_spec) (nat_with (P ++ [canon hook_spec]) C m)
          = Some (nat_with P C m)) as He.
  { unfold cmd_effect. rewrite nat_with_kp, remove1_last by done. simpl. by rewrite nat_with_insert_kp. }
  apply (run_ok "PREROUTING" (Delete hook_spec) _ _ w Hs); [|exact He].
  split; [by eexists|]. split; [apply jump_spec_wellformed, chainName_word|].
  intros c. rewrite <- canon_jumps, hook_jumps. intros [= <-].
  change (is_Some (nat_with (P ++ [canon hook_spec]) C m !! kc)). by rewrite nat_with_kc.
Qed.

Lemma run_unhook_absent P C m w : canon hook_spec ∉ P → at_state (nat_with P C m) w →
  ∃ w', run (cmd_args "nat" "PREROUTING" (Delete hook_spec)) w = (w', false) ∧
    at_state (nat_with P C m) w'.
Proof.
  intros HP Hs. apply (run_refused "PREROUTING" (Delete hook_spec) _ w Hs).
  unfold cmd_effect. fold kp. by rewrite nat_with_kp, (proj2 (remove1_None _ _) HP).
Qed.

Lemma run_flush P rs m w : at_state (nat_with P (Some rs) m) w →
  ∃ w', run (cmd_args "nat" chainName Flush) w = (w', true) ∧
    at_state (nat_with P (Some []) m) w'.
Proof.
  intros Hs. assert (cmd_effect canon kc Flush (nat_with P (Some rs) m)
    = Some (nat_with P (Some []) m)) as He.
  { unfold cmd_effect. by rewrite nat_with_kc, nat_with_insert_kc. }
  apply (run_ok chainName Flush _ _ w Hs); [|exact He]. split; [by eexists|done].
Qed.

Lemma run_new P C m w : at_state (nat_with P C m) w →
  ∃ w' b, run (cmd_args "nat" chainName NewChain) w = (w', b) ∧
    at_state (nat_with P (Some (default [] C)) m) w'.
Proof.
  intros Hs. destruct C as [rs|].
  - destruct (run_refused chainName NewChain _ w Hs) as (w' & E & H'); [|by exists w', false].
    unfold cmd_effect. fold kc. by rewrite nat_with_kc.
  - assert (cmd_effect canon kc NewChain (nat_with P None m) = Some (nat_with P (Some []) m)) as He.
    { unfold cmd_effect. by rewrite nat_with_kc, nat_with_insert_kc. }
    destruct (run_ok chainName NewChain _ (nat_with P (Some []) m) w Hs) as (w' & E & H'); [|exact He|by exists w', true].
    split; [by eexists|]. split; [apply chainName_word|]. apply Nat.leb_le. reflexivity.
Qed.

Lemma run_delete P m w : ¬ referenced kc (nat_with P (Some []) m) → at_state (nat_with P (Some []) m) w →
  ∃ w', run (cmd_args "nat" chainName DeleteChain) w = (w', true) ∧ at_state (nat_with P None m) w'.
Proof.
  intros Hr Hs. assert (cmd_effect canon kc DeleteChain (nat_with P (Some []) m)
    = Some (nat_with P None m)) as He.
  { unfold cmd_effect. rewrite nat_with_kc. cbn -[nat_with]. by rewrite nat_with_delete_kc. }
  apply (run_ok chainName DeleteChain _ _ w Hs); [|exact He]. split; [by eexists|done].
Qed.

Lemma clean_nat_with m pre : clean m pre → nat_with pre None m = m.
Proof. intros [Hp Hk _ _]. by apply nat_with_id. Qed.

Lemma clean_unref_empty m pre : clean m pre → ¬ referenced kc (nat_with pre (Some []) m).
Proof.
  intros [Hp Hk _ Hu] (c & rs & spec & Hm & Hs & Hj). apply Hu. exists c, rs, spec.
  split; [|done]. simpl in *. destruct (decide (c = chainName)) as [->|Hc].
  - fold kc in Hm. rewrite nat_with_kc in Hm. simplify_eq. by apply not_elem_of_nil in Hs.
  - destruct (decide (c = "PREROUTING"%string)) as [->|Hc'].
    + fold kp in Hm. rewrite nat_with_kp in Hm. change (m !! kp = Some rs). by rewrite Hp.
    + unfold nat_with in Hm. rewrite !lookup_insert_ne in Hm; [done|..];
        unfold kc, kp; intros ?; simplify_eq.
Qed.

(** ** The operations on a packet filter where commands do not fail *)

Lemma applyRules_cmds cfg w :
  applyRules cfg w =
    let '(w, _) := run (cmd_args "nat" chainName NewChain) w in
    match run (cmd_args "nat" chainName Flush) w with
    | (w, false) => (w, false)
    | (w, true) =>
        match append_rules (rule_specs cfg) w with
        | (w, false) => (w, false)
        | (w, true) =>
            let '(w, _) := run (cmd_args "nat" "PREROUTING" (Delete hook_spec)) w in
            run (cmd_args "nat" "PREROUTING" (Append hook_spec)) w
        end
    end.
Proof. done. Qed.

Lemma removeRules_cmds c w :
  removeRules (mkRM c true) w =
    let '(w, _) := run (cmd_args "nat" "PREROUTING" (Delete hook_spec)) w in
    let '(w, _) := run (cmd_args "nat" chainName Flush) w in
    let '(w, _) := run (cmd_args "nat" chainName DeleteChain) w in
    (mkRM c false, w).
Proof. done. Qed.

Lemma applyRules_ok cfg m pre w (hooked : bool) C :
  clean m pre → ports_ok cfg →
  at_state (nat_with (if hooked then pre ++ [canon hook_spec] else pre) C m) w →
  ∃ w', applyRules cfg w = (w', true) ∧ at_state (installed cfg pre m) w'.
Proof.
  intros Hc Hp Hs. rewrite applyRules_cmds.
  destruct (run_new _ _ _ _ Hs) as (w1 & b & -> & H1).
  destruct (run_flush _ _ _ _ H1) as (w2 & -> & H2).
  destruct (append_rules_ok (rule_specs cfg)
    (if hooked then pre ++ [canon hook_spec] else pre) [] m w2) as (w3 & -> & H3); [|done|].
  { apply Forall_forall. intros spec. by apply rule_spec_valid. }
  destruct hooked.
  - destruct (run_unhook _ _ _ _ (clean_hook _ _ Hc) (mk_is_Some _ _ eq_refl) H3) as (w4 & -> & H4).
    apply (run_hook _ _ _ _ (mk_is_Some _ _ eq_refl) H4).
  - destruct (run_unhook_absent _ _ _ _ (clean_hook _ _ Hc) H3) as (w4 & -> & H4).
    apply (run_hook _ _ _ _ (mk_is_Some _ _ eq_refl) H4).
Qed.

Lemma removeRules_ok cfg m pre w c :
  clean m pre → at_state (installed cfg pre m) w →
  ∃ w', removeRules (mkRM c true) w = (mkRM c false, w') ∧ at_state m w'.
Proof.
  intros Hc Hs. rewrite removeRules_cmds.
  destruct (run_unhook _ _ _ _ (clean_hook _ _ Hc) (mk_is_Some _ _ eq_refl) Hs) as (w1 & -> & H1).
  destruct (run_flush _ _ _ _ H1) as (w2 & -> & H2).
  destruct (run_delete _ _ _ (clean_unref_empty _ _ Hc) H2) as (w3 & -> & H3).
  exists w3. split; [done|]. by rewrite (clean_nat_with _ _ Hc) in H3.
Qed.

Lemma Listen_at_state m p w : at_state m w → at_state m (Listen p w).1.
Proof. intros [H1 H2]. split; [by rewrite Listen_chains|by rewrite Listen_LookPath]. Qed.

Lemma Start_ok cfg rm m pre w (hooked : bool) C :
  clean m pre → ports_ok cfg →
  at_state (nat_with (if hooked then pre ++ [canon hook_spec] else pre) C m) w →
  ∃ w', match Start Listen cfg rm w with
        | (rm', w1, Ok _) => rm' = mkRM (Some cfg) true ∧ w1 = w' ∧ at_state (installed cfg pre m) w'
        | (rm', w1, Err e) => e = ListenFailed ∧ rm' = mkRM (Some cfg) false ∧ w1 = w' ∧ at_state m w'
        end.
Proof.
  intros Hc Hp Hs. unfold Start.
  destruct (applyRules_ok cfg m pre w hooked C Hc Hp Hs) as (w1 & -> & H1).
  pose proof (Listen_at_state _ (rd_RedirectPort cfg) _ H1) as H2. cbn [rm_cfg].
  destruct (Listen _ w1) as [w2 []]; [by exists w2|].
  destruct (removeRules_ok cfg m pre w2 (Some cfg) Hc H2) as (w3 & -> & H3). by exists w3.
Qed.

(** C14: a redirect that is stopped leaves nothing behind, on a machine where the
    commands do not fail on their own: iptables is installed, a command that it
    documents as possible succeeds, and opening a port does not touch the packet
    filter.  Then, for a configuration whose redirect port, excluded ports and
    ranges are ports, from a packet filter without a redirect, [Start] installs a
    chain that does to every port what the configuration says, with one jump to it
    at the end of PREROUTING, and when the context ends the packet filter is
    exactly what it was; when the redirect port cannot be opened [Start] fails and
    has already undone everything.  (Outside of these conditions it is not so:
    [Validate] accepts a redirect port above 65535, and the rules that were added
    before the command that fails stay — [redirect_start_fails].) *)
Theorem redirect_start_stop cfg rm m pre w (Hc : clean m pre) (Hp : ports_ok cfg)
    (Hs : at_state m w) :
  match Start Listen cfg rm w with
  | (rm', w1, Ok _) =>
      rm_applied rm' = true ∧
      (∃ rs, chains w1 = <[kp := pre ++ [canon hook_spec]]> (<[kc := rs]> m) ∧
         ∀ p, chain_verdict rs p = redirected cfg p) ∧
      rm_applied (stopped rm' w1).1 = false ∧ chains (stopped rm' w1).2 = m
  | (rm', w1, Err e) => e = ListenFailed ∧ rm_applied rm' = false ∧ chains w1 = m
  end.
Proof.
  rewrite <- (clean_nat_with _ _ Hc) in Hs.
  destruct (Start_ok cfg rm m pre w false None Hc Hp Hs) as (w' & HS).
  destruct (Start Listen cfg rm w) as [[rm' w1] [[]|e]].
  - destruct HS as (-> & -> & H1).
    destruct (removeRules_ok cfg m pre w' (Some cfg) Hc H1) as (w2 & E & H2).
    unfold stopped. rewrite E. split_and!; try done; [|apply H2].
    exists (canon <$> rule_specs cfg). split; [apply H1|]. intros p. by apply rule_specs_verdict.
  - destruct HS as (-> & -> & -> & H1). split_and!; try done. apply H1.
Qed.

(** A reload can switch the redirect off.  The goroutine that removes the
    rules of the old manager is not waited for.  When it runs before the new
    manager starts, the rules of the new configuration end up installed; when it
    runs after, it removes them, with the chain and the jump to it, while the new
    manager believes that they are applied. *)
Theorem redirect_reload_race cfg1 cfg2 m pre w rm2 w2 (Hc : clean m pre) (Hp : ports_ok cfg2)
    (Hs : at_state (installed cfg1 pre m) w)
    (E : Start Listen cfg2 NewManager w = (rm2, w2, Ok tt)) :
  let old := mkRM (Some cfg1) true in
  (match Start Listen cfg2 NewManager (stopped old w).2 with
   | (rm', w', Ok _) => rm_applied rm' = true ∧ chains w' = installed cfg2 pre m
   | (_, w', Err _) => chains w' = m
   end) ∧
  rm_applied rm2 = true ∧ chains w2 = installed cfg2 pre m ∧
  chains (stopped old w2).2 = m ∧ m !! kc = None.
Proof.
  intros old. split.
  - destruct (removeRules_ok cfg1 m pre w (Some cfg1) Hc Hs) as (w1 & E1 & H1).
    unfold stopped, old. rewrite E1. simpl. rewrite <- (clean_nat_with _ _ Hc) in H1.
    destruct (Start_ok cfg2 NewManager m pre w1 false None Hc Hp H1) as (w' & HS).
    destruct (Start Listen cfg2 NewManager w1) as [[rm' w3] [[]|e]].
    + destruct HS as (-> & -> & H2). split; [done|]. apply H2.
    + destruct HS as (-> & -> & -> & H2). apply H2.
  - destruct (Start_ok cfg2 NewManager m pre w true (Some (canon <$> rule_specs cfg1)) Hc Hp Hs) as (w' & HS). rewrite E in HS.
    destruct HS as (-> & -> & H2). split; [done|]. split; [apply H2|].
    destruct (removeRules_ok cfg2 m pre w' (Some cfg1) Hc H2) as (w3 & E3 & H3).
    unfold stopped, old. rewrite E3. split; [apply H3|apply Hc].
Qed.
End reliable.

(** ** When the rules cannot be installed *)

Section start_fails.
Context {W : Type} `{NetfilterLaws W}.

(** A failure to install the rules is not undone.  When a command of
    [applyRules] fails, [Start] returns the error and its cleanup does nothing,
    because the manager has not recorded the rules as applied: the packet filter
    stays as the failed command found it, with an empty chain, some of the rules,
    or all of them, unless not even the chain could be touched. *)
Theorem redirect_start_fails Listen cfg w w' (E : applyRules cfg w = (w', false)) :
  Start Listen cfg NewManager w = (mkRM (Some cfg) false, w', Err RulesFailed) ∧
  (chains w' = chains w ∨
   ∃ done todo, rule_specs cfg = done ++ todo ∧ chains w' !! kc = Some (canon <$> done)).
Proof.
  split; [unfold Start; by rewrite E|]. unfold applyRules in E.
  destruct (run _ w) as [w1 b1] eqn:E1. apply (run_cmd chainName NewChain) in E1.
  destruct (run _ w1) as [w2 b2] eqn:E2. apply (run_cmd chainName Flush) in E2.
  unfold cmd_effect in E1, E2. fold kc in E1, E2. destruct b2.
  - assert (chains w2 !! kc = Some []) as H2.
    { destruct (chains w1 !! kc); [|done]. injection E2 as <-. apply lookup_insert_eq. }
    destruct (append_rules _ w2) as [w3 b3] eqn:E3.
    destruct (append_rules_chain _ _ _ [] _ E3 H2) as (dn & todo & Hs & _ & H3). right.
    assert (chains w3 !! kc = Some (canon <$> dn)) as H3' by (rewrite H3; apply lookup_insert_eq).
    exists dn, todo. split; [done|]. destruct b3; [|by injection E as <-].
    destruct (run _ w3) as [w4 b4] eqn:E4. apply (run_cmd "PREROUTING" (Delete hook_spec)) in E4.
    apply (run_cmd "PREROUTING" (Append hook_spec)) in E. unfold cmd_effect in E4. fold kp in E4.
    rewrite E, <- H3'. destruct b4; [|by rewrite E4].
    destruct (chains w3 !! kp); [|done]. apply fmap_Some in E4 as (rs & _ & ->).
    by rewrite lookup_insert_ne.
  - injection E as <-. rewrite E2. destruct b1; [|by left].
    destruct (chains w !! kc); [done|]. injection E1 as E1. right. exists [], (rule_specs cfg).
    split; [done|]. rewrite <- E1. apply lookup_insert_eq.
Qed.
End start_fails.

(** ** A redirected connection *)

Section handled.
Context {S E D : Type} {op : Opener S E D}.

Lemma originalDst_port f1 f2 ip rest p : 0 ≤ p < 65536 → length ip = 4%nat →
  originalDst (Some (f1 :: f2 :: u8 (Z.shiftr p 8) :: u8 p :: ip ++ rest)) = Some (ip, p).
Proof.
  intros Hp Hip. destruct ip as [|b4 [|b5 [|b6 [|b7 [|]]]]]; try done. simpl.
  do 2 f_equal. unfold u8. rewrite Z.shiftr_div_pow2, Z.shiftl_mul_pow2 by lia.
  change (2 ^ 8) with 256. rewrite (Z.mod_small (p / 256)) by (split; [apply Z.div_pos|apply Z.div_lt_upper_bound]; lia).
  rewrite <- Z.add_nocarry_lor; [rewrite (Z.mul_comm _ 256); symmetry; apply Z.div_mod; lia|].
  apply Z.bits_inj'. intros n Hn. rewrite Z.land_spec, Z.bits_0.
  change 256 with (2 ^ 8). rewrite <- (Z.shiftl_mul_pow2 _ 8), <- Z.land_ones by lia.
  destruct (decide (n < 8)).
  - by rewrite Z.shiftl_spec_low.
  - rewrite Z.land_spec, Z.ones_spec_high, andb_false_r, andb_false_r by lia. done.
Qed.

(** A redirected connection reaches its original port on the target host.
    The port the kernel reports is decoded, the stream is opened to the target
    host and that port, which the other end parses back; a stream that cannot be
    opened is counted as an error, one that was opened is closed at the end, and
    its relay delivers and counts prefixes of what was sent in order. *)
Theorem redirect_handle cfg f1 f2 ip rest p up down sched s c
    (Hp : 0 ≤ p < 65536) (Hip : length ip = 4%nat) (Hc : in_range c)
    (Hh : lbrack ∉ bs (rd_TargetHost cfg) ∧ rbrack ∉ bs (rd_TargetHost cfg))
    (mreq := Some (f1 :: f2 :: u8 (Z.shiftr p 8) :: u8 p :: ip ++ rest))
    (target := JoinHostPort (rd_TargetHost cfg) (Itoa p)) :
  TunnelAddr.Parse target = Ok (mkAddr (rd_TargetHost cfg) p) ∧
  match op_OpenTCP target s with
  | (s1, Err _) => handle cfg true mreq up down sched s c = (s1, IncError c, ROpenError)
  | (s1, Ok strm) =>
      ∃ up' down' c' r, handle cfg true mreq up down sched s c =
          (op_StreamClose strm s1, c', RRelayed target up' down' (relay_end_of r)) ∧
        relayed CBytesOut CBytesIn up down up' down' c c' r
  end.
Proof.
  split.
  - apply (Addr_roundtrip (mkAddr (rd_TargetHost cfg) p) Hh). unfold in_i64. simpl. lia.
  - unfold handle, mreq. rewrite originalDst_port by done. cbn [negb]. fold target.
    destruct (op_OpenTCP target s) as [s1 [strm|]]; [|done]. cbn [MeterWriter].
    destruct (relay_run _ _ _ _ _ _) as [[[up' down'] c'] r] eqn:Er.
    exists up', down', c', r. split; [done|]. by apply relay_run_spec in Er.
Qed.
End handled.

(** ** Examples: web ports but not 8443, redirected to 47999 *)

Definition web : RedirectConfig := mkRedirect 47999 "10.0.0.7" [(80, 80); (8000, 8999)] [8443] "".

Definition empty_nat : chain_map := {[ kp := [] ]}.

Lemma web_ports : ports_ok web.
Proof. split; repeat constructor; simpl; unfold is_port; lia. Qed.

Lemma empty_nat_clean : clean empty_nat [].
Proof.
  split; [reflexivity|reflexivity|apply not_elem_of_nil|].
  intros (c & rs & spec & Hm & Hs & _). unfold empty_nat in Hm.
  apply lookup_singleton_Some in Hm as [_ <-]. by apply not_elem_of_nil in Hs.
Qed.

Definition listens (ok : bool) (p : Z) (m : chain_map) : chain_map * bool := (m, ok).

(** Whether a command sequence succeeds is computed, its state is left as it is. *)
Lemma pair_snd {A B} (x : A * B) b : x.2 = b → x = (x.1, b).
Proof. destruct x. by intros [= ->]. Qed.

Lemma applyRules_redirects_witness :
  ∃ rs, chains (applyRules web empty_nat).1 !! kc = Some rs ∧
    chain_verdict rs 8080 = Some (VRedirect 47999) ∧ chain_verdict rs 8443 = Some VReturn ∧
    chain_verdict rs 22 = None.
Proof.
  assert ((applyRules web empty_nat).2 = true) as E by (vm_compute; reflexivity).
  destruct (applyRules_redirects web empty_nat (applyRules web empty_nat).1 [] web_ports)
    as (rs & pre' & Hm & _ & Hv); [reflexivity|exact (pair_snd _ _ E)|].
  exists rs. split; [rewrite Hm; rewrite lookup_insert_ne by done; apply lookup_insert_eq|].
  split; [|split].
  - apply (proj1 (Hv 8080)). split; [reflexivity|]. split; [|split; [|discriminate]].
    + exists (8000, 8999). split; [right; left|simpl; lia].
    + by intros E1%list_elem_of_singleton.
  - apply (proj1 (proj2 (Hv 8443))). left. by left.
  - destruct (chain_verdict rs 22) as [[|port|]|] eqn:E1; [| | |reflexivity].
    + apply (proj1 (proj2 (Hv 22))) in E1 as [E1%list_elem_of_singleton|E1]; discriminate E1.
    + apply (proj1 (Hv 22)) in E1 as (_ & (r & Hr & Hle) & _).
      apply elem_of_cons in Hr as [->|Hr%list_elem_of_singleton]; [|subst r]; simpl in Hle; lia.
    + destruct (proj2 (proj2 (Hv 22)) E1).
Defined.

Lemma redirect_start_stop_witness :
  chains (stopped (Start (listens true) web NewManager empty_nat).1.1
            (Start (listens true) web NewManager empty_nat).1.2).2 = empty_nat.
Proof.
  pose proof (redirect_start_stop (listens true) (λ _ _, eq_refl) (λ _ _ _, eq_refl) web NewManager
    empty_nat [] empty_nat empty_nat_clean web_ports (conj eq_refl eq_refl)) as H.
  assert (is_ok (Start (listens true) web NewManager empty_nat).2 = true) as E
    by (vm_compute; reflexivity).
  destruct (Start (listens true) web NewManager empty_nat) as [[rm w1] [[]|e]]; [|discriminate E].
  destruct H as (_ & _ & _ & H). exact H.
Defined.

(** A reload from port 80 to the web ports. *)
Definition http : RedirectConfig := mkRedirect 47999 "10.0.0.7" [(80, 80)] [] "".

Lemma redirect_reload_race_witness :
  let w1 := (Start (listens true) http NewManager empty_nat).1.2 in
  let '(rm2, w2, _) := Start (listens true) web NewManager w1 in
  rm_applied rm2 = true ∧ chains (stopped (mkRM (Some http) true) w2).2 = empty_nat.
Proof.
  cbv zeta.
  assert (is_ok (Start (listens true) http NewManager empty_nat).2 = true) as E1
    by (vm_compute; reflexivity).
  assert (is_ok (Start (listens true) web NewManager
            (Start (listens true) http NewManager empty_nat).1.2).2 = true) as E2
    by (vm_compute; reflexivity).
  assert (ports_ok http) as Hp by (split; repeat constructor; simpl; unfold is_port; lia).
  pose proof (Start_ok (listens true) (λ _ _, eq_refl) (λ _ _ _, eq_refl) http NewManager
    empty_nat [] empty_nat false None empty_nat_clean Hp
    (conj (eq_sym (clean_nat_with _ _ empty_nat_clean)) eq_refl)) as H.
  destruct (Start (listens true) http NewManager empty_nat) as [[rm1 w1] [[]|e]]; [|discriminate E1].
  cbn [fst snd] in *. destruct H as (w' & _ & <- & Hs).
  destruct (Start (listens true) web NewManager w1) as [[rm2 w2] [[]|e]] eqn:Es; [|discriminate E2].
  pose proof (redirect_reload_race (listens true) (λ _ _, eq_refl) (λ _ _ _, eq_refl) http web
    empty_nat [] w1 rm2 w2 empty_nat_clean web_ports) as H.
  specialize (H Hs Es).
  exact (conj (proj1 (proj2 H)) (proj1 (proj2 (proj2 (proj2 H))))).
Defined.

(** The packet filter has no PREROUTING chain. *)
Lemma redirect_start_fails_witness :
  Start (listens true) web NewManager ∅ =
    (mkRM (Some web) false, (applyRules web ∅).1, Err RulesFailed).
Proof.
  assert ((applyRules web ∅).2 = false) as E by (vm_compute; reflexivity).
  exact (proj1 (redirect_start_fails (listens true) web ∅ _ (pair_snd _ _ E))).
Defined.

Lemma redirect_handle_witness :
  TunnelAddr.Parse "10.0.0.7:8080" = Ok (mkAddr "10.0.0.7" 8080).
Proof.
  refine (proj1 (redirect_handle (op := pool_opener (W := Mock) (D := string)) web 0 2 [1; 2; 3; 4] []
    8080 (mkHalf [] None [] []) (mkHalf [] None [] []) [] (pool_of two_sessions, mock0)
    zero_collector _ eq_refl zero_in_range _)); [lia|].
  split; apply has_false; reflexivity.
Defined.
