(* ===== verification/Iptables.v ===== *)
(** [internal/iptables/iptables_linux.go]: the rules that keep the kernel of the
    server from tracking the tunnel's port and from answering its crafted
    segments, installed at the start and removed at the end by their comment. *)

From S2P Require Import Prelude GoStd NetUtil ConfigResolve Netfilter.

Local Open Scope Z_scope.

Definition comment : string := "paqetpremium".

Inductive iptables_error : Type :=
| NetworkMissing | InvalidPort | NotFound (bin : string) | CommandFailed (bin : string).

(** ** Installing *)

Section iptables.
Context {W : Type} `{Netfilter W}.

(** Table, chain and arguments of the rules of a port. *)
Definition family_rules (port : Z) : list (string * string * list string) :=
  [("raw", "PREROUTING",
    ["-p"; "tcp"; "--dport"; Itoa port; "-m"; "comment"; "--comment"; comment; "-j"; "NOTRACK"]);
   ("raw", "OUTPUT",
    ["-p"; "tcp"; "--sport"; Itoa port; "-m"; "comment"; "--comment"; comment; "-j"; "NOTRACK"]);
   ("mangle", "OUTPUT",
    ["-p"; "tcp"; "--sport"; Itoa port; "--tcp-flags"; "RST"; "RST";
     "-m"; "comment"; "--comment"; comment; "-j"; "DROP"])]%string.

Definition ensureRule (bin table chain : string) (rule : list string) (w : W) :
    W * result iptables_error unit :=
  match Exec bin (["-t"; table; "-C"; chain] ++ rule) w with
  | (w, Some _) => (w, Ok tt)
  | (w, None) =>
      match Exec bin (["-t"; table; "-A"; chain] ++ rule) w with
      | (w, Some _) => (w, Ok tt)
      | (w, None) => (w, Err (CommandFailed bin))
      end
  end.

Fixpoint ensureRules (bin : string) (rules : list (string * string * list string)) (w : W) :
    W * result iptables_error unit :=
  match rules with
  | [] => (w, Ok tt)
  | (table, chain, args) :: rules =>
      match ensureRule bin table chain args w with
      | (w, Err e) => (w, Err e)
      | (w, Ok _) => ensureRules bin rules w
      end
  end.

Definition applyFamily (bin : string) (port : Z) (w : W) : W * result iptables_error unit :=
  if (port <? 1) || (port >? 65535) then (w, Err InvalidPort) else
  if negb (LookPath bin w) then (w, Err (NotFound bin)) else
  ensureRules bin (family_rules port) w.

(** The port of the IPv6 family, if it is used. *)
Definition port6 (net : NetworkRuntime) : option Z :=
  '(v6, _) ← nr_IPv6 net; Some (if udp_port v6 =? 0 then nr_Port net else udp_port v6).

Definition Apply (net : option NetworkRuntime) (w : W) : W * result iptables_error unit :=
  match net with
  | None => (w, Err NetworkMissing)
  | Some net =>
      match applyFamily "iptables" (nr_Port net) w with
      | (w, Err e) => (w, Err e)
      | (w, Ok _) =>
          match port6 net with
          | Some port => applyFamily "ip6tables" port w
          | None => (w, Ok tt)
          end
      end
  end.

Definition ApplyTCPPort (port : Z) (w : W) : W * result iptables_error unit :=
  applyFamily "iptables" port w.

(** ** Removing *)

(** One line of the listing. *)
Definition remove_line (bin table : string) (line : string) (w : W) : W :=
  let line := TrimSpace line in
  if negb (HasPrefix line "-A ") || negb (Contains line comment) then w else
  match Fields line with
  | _ :: chain :: arg :: args =>
      (Exec bin (["-t"; table; "-D"; chain] ++ arg :: args) w).1
  | _ => w
  end.

Definition remove_table (bin table : string) (w : W) : W :=
  match Exec bin ["-t"; table; "-S"]%string w with
  | (w, None) => w
  | (w, Some out) => foldl (λ w line, remove_line bin table line w) w (Split out newline)
  end.

Definition removeCommented (bin : string) (w : W) : W :=
  foldl (λ w table, remove_table bin table w) w ["raw"; "mangle"]%string.

Definition Remove (w : W) : W :=
  foldl (λ w bin, if LookPath bin w then removeCommented bin w else w) w
    ["iptables"; "ip6tables"]%string.
End iptables.

(** What commands do not change, [Apply] and [Remove] do not change. *)
Section frame.
Context {W A : Type} `{Netfilter W} (f : W → A).
Hypothesis Hf : ∀ b args w, f (Exec b args w).1 = f w.

Lemma Exec_frame b args w w' o : Exec b args w = (w', o) → f w' = f w.
Proof. intros E. pose proof (Hf b args w) as L. by rewrite E in L. Qed.

Lemma ensureRules_frame bin rules w : f (ensureRules bin rules w).1 = f w.
Proof.
  revert w. induction rules as [|[[t c] args] rules IH]; intros w; [done|]. cbn [ensureRules].
  unfold ensureRule. destruct (Exec bin (_ ++ args) w) as [w1 [o|]] eqn:E1; apply Exec_frame in E1;
    [by rewrite IH|].
  destruct (Exec bin _ w1) as [w2 [o|]] eqn:E2; apply Exec_frame in E2; simpl; rewrite ?IH; congruence.
Qed.

Lemma applyFamily_frame bin port w : f (applyFamily bin port w).1 = f w.
Proof.
  unfold applyFamily. destruct (_ || _); [done|]. destruct (negb _); [done|]. apply ensureRules_frame.
Qed.

Lemma Apply_frame net w : f (Apply net w).1 = f w.
Proof.
  unfold Apply. destruct net as [net|]; [|done].
  pose proof (applyFamily_frame "iptables" (nr_Port net) w) as E.
  destruct (applyFamily _ _ w) as [w1 [u|e]]; [|done]. simpl in E.
  destruct (port6 net) as [p|]; [|done]. by rewrite applyFamily_frame.
Qed.

Lemma remove_table_frame bin table w : f (remove_table bin table w) = f w.
Proof.
  assert (∀ lines w, f (foldl (λ w line, remove_line bin table line w) w lines) = f w) as Hl.
  { intros lines. induction lines as [|l lines IH]; intros w1; [done|]. simpl. rewrite IH.
    unfold remove_line. destruct (_ || _); [done|].
    by destruct (Fields _) as [|? [|? [|? ?]]]. }
  unfold remove_table. destruct (Exec _ _ _) as [w1 [out|]] eqn:E; apply Exec_frame in E; [|done].
  by rewrite Hl.
Qed.

Lemma Remove_frame w : f (Remove w) = f w.
Proof.
  unfold Remove, removeCommented. simpl.
  repeat (destruct (LookPath _ _)); by rewrite ?remove_table_frame.
Qed.
End frame.

(** ** What is removed *)

Section removal.
Context {W : Type} `{NetfilterLaws W} `{!NetfilterReliable W}.

(** The line of the rule contains the comment and an argument. *)
Definition removable (chain : string) (spec : list string) : bool :=
  Contains (rule_line chain spec) comment && (3 <=? length (Fields (rule_line chain spec)))%nat.

Definition keep (chain : string) (rs : list (list string)) : list (list string) :=
  List.filter (λ spec, negb (removable chain spec)) rs.

(** The packet filter without the removable rules of a table. *)
Definition purge (bin table : string) (m : chain_map) : chain_map :=
  map_imap (λ k rs, Some (if bool_decide (k.1 = (bin, table)) then keep k.2 rs else rs)) m.

(** What the removal relies on: lines with the comment have no quoted text, and
    jumps lead to chains that exist. *)
Definition listable (bin table : string) (m : chain_map) : Prop :=
  ∀ c rs spec, m !! (bin, table, c) = Some rs → spec ∈ rs → removable c spec = true →
    quotes (rule_line c spec) = false ∧ jumps spec = None.

Lemma keep_app c rs1 rs2 : keep c (rs1 ++ rs2) = keep c rs1 ++ keep c rs2.
Proof. apply List.filter_app. Qed.

Context (bin table : string) (Ht : table ∈ ["nat"; "raw"; "mangle"]%string).

Lemma remove_line_spec c l1 spec l2 w :
  LookPath bin w = true → chains w !! (bin, table, c) = Some (l1 ++ spec :: l2) →
  (removable c spec = true → spec ∉ l1 ∧ quotes (rule_line c spec) = false ∧ jumps spec = None) →
  let w' := remove_line bin table (rule_line c spec) w in
  LookPath bin w' = true ∧
  chains w' = <[(bin, table, c) := l1 ++ (if removable c spec then l2 else spec :: l2)]> (chains w).
Proof.
  intros Hl Hc Hq. unfold remove_line. rewrite rule_line_trimmed, rule_line_append. simpl negb.
  cbn [orb]. unfold removable in *.
  destruct (Contains (rule_line c spec) comment); cbn [negb andb] in *; [|by rewrite insert_id].
  destruct (Fields (rule_line c spec)) as [|f0 [|f1 [|arg args]]] eqn:Ef; try by rewrite insert_id.
  destruct (Hq eq_refl) as (Hs & Hqu & Hj).
  destruct (rule_line_words c spec Hqu) as (args' & Ef' & Hcan & Hwf). rewrite Ef in Ef'.
  injection Ef' as _ Hf1 Hargs. subst f1 args'.
  assert (cmd_effect canon (bin, table, c) (Delete (arg :: args)) (chains w)
    = Some (<[(bin, table, c) := l1 ++ l2]> (chains w))) as He.
  { unfold cmd_effect. rewrite Hc, Hcan. rewrite (proj2 (remove1_Some _ _ (l1 ++ l2))); [done|].
    by exists l1, l2. }
  assert (can_run (bin, table, c) (Delete (arg :: args)) (chains w)) as Hcr.
  { split; [by eexists|]. split; [done|]. intros c'. by rewrite <- canon_jumps, Hcan, Hj. }
  destruct (Exec_reliable bin table c _ w _ Ht Hl Hcr He) as (w' & out & E & Hw & Hl').
  change (["-t"; table; "-D"; c]%string ++ arg :: args) with (cmd_args table c (Delete (arg :: args))).
  by rewrite E.
Qed.

Lemma remove_line_other line w :
  HasPrefix (TrimSpace line) "-A " = false → remove_line bin table line w = w.
Proof. intros Hp. unfold remove_line. by rewrite Hp. Qed.

(** The lines of a chain. *)
Lemma remove_chain c todo l1 w :
  LookPath bin w = true → chains w !! (bin, table, c) = Some (keep c l1 ++ todo) →
  (∀ spec, spec ∈ todo → removable c spec = true →
     quotes (rule_line c spec) = false ∧ jumps spec = None) →
  let w' := foldl (λ w line, remove_line bin table line w) w (rule_line c <$> todo) in
  LookPath bin w' = true ∧
  chains w' = <[(bin, table, c) := keep c (l1 ++ todo)]> (chains w).
Proof.
  revert l1 w. induction todo as [|spec todo IH]; intros l1 w Hl Hc Hq;
    [|rewrite fmap_cons; cbn [foldl]].
  { simpl. rewrite app_nil_r in *. split; [done|]. by rewrite insert_id. }
  destruct (remove_line_spec c (keep c l1) spec todo w Hl Hc) as [Hl' Hw'].
  { intros Hr. split; [|apply Hq; [by left|done]].
    intros Hin. unfold keep in Hin. apply list_elem_of_In, List.filter_In in Hin as [_ Hn].
    by rewrite Hr in Hn. }
  cbv zeta in Hl', Hw'.
  assert (keep c [spec] ++ todo = if removable c spec then todo else spec :: todo) as Hk.
  { unfold keep. simpl. by destruct (removable c spec). }
  destruct (IH (l1 ++ [spec]) (remove_line bin table (rule_line c spec) w) Hl') as [Hl2 Hw2].
  - rewrite Hw', lookup_insert_eq, keep_app, <- (assoc_L (++)), Hk. done.
  - intros s Hs. apply Hq. by right.
  - cbv zeta in Hw2. split; [done|]. rewrite Hw2, Hw', insert_insert_eq, <- (assoc_L (++)). done.
Qed.

(** The lines of all chains; [seen] are those already gone through. *)
Lemma remove_chains order m w seen :
  NoDup order → (∀ c, c ∈ order → c ∉ seen) → LookPath bin w = true → listable bin table m →
  (∀ k, chains w !! k =
     (if bool_decide (k.1 = (bin, table) ∧ k.2 ∈ seen) then keep k.2 else id) <$> m !! k) →
  let w' := foldl (λ w line, remove_line bin table line w) w
              (order ≫= λ c, rule_line c <$> default [] (m !! (bin, table, c))) in
  LookPath bin w' = true ∧
  ∀ k, chains w' !! k =
    (if bool_decide (k.1 = (bin, table) ∧ k.2 ∈ order ++ seen) then keep k.2 else id) <$> m !! k.
Proof.
  intros Hn. revert w seen. induction Hn as [|c order Hc Hn IH]; intros w seen Hs Hl Hq Hm; [done|].
  rewrite bind_cons, foldl_app.
  assert (∃ w1, w1 = foldl (λ w line, remove_line bin table line w) w
                   (rule_line c <$> default [] (m !! (bin, table, c))) ∧ LookPath bin w1 = true ∧
            ∀ k, chains w1 !! k = (if bool_decide (k.1 = (bin, table) ∧ k.2 ∈ c :: seen)
                                   then keep k.2 else id) <$> m !! k) as (w1 & <- & Hl1 & Hm1).
  { eexists. split; [done|]. assert (c ∉ seen) as Hcs by (apply Hs; by left).
    assert (∀ k, k ≠ (bin, table, c) →
      bool_decide (k.1 = (bin, table) ∧ k.2 ∈ c :: seen) = bool_decide (k.1 = (bin, table) ∧ k.2 ∈ seen))
      as Hother.
    { intros [[b t] c'] Hk. apply bool_decide_ext. simpl. rewrite elem_of_cons. naive_solver. }
    destruct (m !! (bin, table, c)) as [rs|] eqn:Ec.
    - assert (chains w !! (bin, table, c) = Some rs) as Hw.
      { rewrite Hm, Ec, bool_decide_false; [done|]. by intros [_ ?]. }
      destruct (remove_chain c rs [] w Hl Hw) as [Hl' Hw'].
      { intros spec. apply (Hq c rs spec Ec). }
      split; [exact Hl'|]. intros k. cbv zeta in Hw'. simpl default. rewrite Hw'.
      destruct (decide (k = (bin, table, c))) as [->|Hk].
      + rewrite lookup_insert_eq, Ec, bool_decide_true; [done|]. split; [done|by left].
      + by rewrite lookup_insert_ne, Hm, Hother.
    - split; [exact Hl|]. intros k. simpl. rewrite Hm.
      destruct (decide (k = (bin, table, c))) as [->|Hk]; [by rewrite Ec|]. by rewrite Hother. }
  destruct (IH w1 (c :: seen)) as [Hl2 Hm2]; [|exact Hl1|exact Hq|exact Hm1|].
  { intros c' Hc' [->|Hin]%elem_of_cons; [done|]. revert Hin. apply Hs. by right. }
  split; [exact Hl2|]. intros k. rewrite Hm2. erewrite bool_decide_ext; [done|].
  rewrite !elem_of_app, !elem_of_cons. tauto.
Qed.

Lemma foldl_other lines w :
  Forall (λ l, HasPrefix (TrimSpace l) "-A " = false) lines →
  foldl (λ w line, remove_line bin table line w) w lines = w.
Proof. induction 1 as [|l lines Hl _ IH]; [done|]. simpl. by rewrite remove_line_other. Qed.

Lemma remove_table_spec w :
  LookPath bin w = true → listable bin table (chains w) →
  LookPath bin (remove_table bin table w) = true ∧
  chains (remove_table bin table w) = purge bin table (chains w).
Proof.
  intros Hl Hq. unfold remove_table. pose proof (Exec_list bin table w) as L.
  pose proof (Exec_lists bin table w Ht Hl) as [out Ho].
  pose proof (Exec_LookPath bin bin ["-t"; table; "-S"]%string w) as Lp.
  destruct (Exec bin ["-t"; table; "-S"]%string w) as [w1 o]. simpl in Ho, Lp. subst o.
  destruct L as [Hc L]. destruct (L out eq_refl) as (heads & order & Hn & Hord & Hh & ->).
  rewrite !foldl_app, (foldl_other heads w1 Hh).
  destruct (remove_chains order (chains w) w1 []) as [Hl2 Hm2];
    [done|intros; apply not_elem_of_nil|congruence|done| |].
  { intros k. rewrite Hc, bool_decide_false; [by destruct (chains w !! k)|].
    intros [_ ?%not_elem_of_nil]. done. }
  cbv zeta in Hm2. set (w2 := foldl _ w1 _) in *.
  rewrite (foldl_other [""%string]) by (repeat constructor). split; [done|].
  apply map_eq. intros k. rewrite Hm2. unfold purge. rewrite map_lookup_imap.
  destruct (chains w !! k) as [rs|] eqn:Ek; [|done]. simpl. f_equal. rewrite app_nil_r.
  destruct (decide (k.1 = (bin, table))) as [Hk|Hk].
  - rewrite !bool_decide_true; [done|done|]. split; [done|]. apply Hord.
    destruct k as [[b t] c]. simpl in *. simplify_eq. by eexists.
  - rewrite !bool_decide_false; [done|done|]. by intros [? _].
Qed.
End removal.

(** ** Removing in all tables *)

Section remove_all.
Context {W : Type} `{NetfilterLaws W} `{!NetfilterReliable W}.

Definition families : list string := ["iptables"; "ip6tables"]%string.
Definition tables : list string := ["raw"; "mangle"]%string.

Lemma remove_table_LookPath b bin table w : LookPath b (remove_table bin table w) = LookPath b w.
Proof. apply (remove_table_frame (LookPath b)). intros. apply Exec_LookPath. Qed.

(** The packet filter without the removable rules of the tables [bts]. *)
Definition purged (bts : list (string * string)) (m m' : chain_map) : Prop :=
  ∀ k, m' !! k = (if bool_decide (k.1 ∈ bts) then keep k.2 else id) <$> m !! k.

Lemma keep_idemp c rs : keep c (keep c rs) = keep c rs.
Proof.
  unfold keep. induction rs as [|s rs IH]; [done|]. simpl.
  destruct (removable c s) eqn:E; [done|]. simpl. rewrite E. simpl. by rewrite IH.
Qed.

Lemma keep_elem c rs spec : spec ∈ keep c rs → spec ∈ rs ∧ removable c spec = false.
Proof.
  unfold keep. rewrite list_elem_of_In, List.filter_In, <- list_elem_of_In, negb_true_iff. done.
Qed.

Lemma purged_listable bin table bts m m' :
  purged bts m m' → listable bin table m → listable bin table m'.
Proof.
  intros Hp Hl c rs spec Hm Hs Hr. rewrite Hp in Hm. apply fmap_Some in Hm as (rs0 & Hm & ->).
  apply (Hl c rs0); [done| |done]. case_bool_decide; [by apply keep_elem in Hs as [? _]|done].
Qed.

Lemma purged_step bts m m' b t :
  purged bts m m' → purged ((b, t) :: bts) m (purge b t m').
Proof.
  intros Hp k. unfold purge. rewrite map_lookup_imap, Hp.
  destruct (m !! k) as [rs|]; [|done]. simpl. f_equal.
  destruct (decide (k.1 = (b, t))) as [E|E].
  - rewrite bool_decide_true by done. rewrite (bool_decide_true (k.1 ∈ (b, t) :: bts)) by (rewrite E; by left).
    case_bool_decide; [apply keep_idemp|done].
  - rewrite bool_decide_false by done. erewrite bool_decide_ext; [done|].
    rewrite elem_of_cons. naive_solver.
Qed.

Definition all_listable (m : chain_map) : Prop :=
  ∀ b t, b ∈ families → t ∈ tables → listable b t m.

Lemma removeCommented_purged b bts m w :
  b ∈ families → LookPath b w = true → all_listable m → purged bts m (chains w) →
  purged ((b, "mangle") :: (b, "raw") :: bts)%string m (chains (removeCommented b w)).
Proof.
  intros Hb Hl Ha Hp. unfold removeCommented. simpl.
  destruct (remove_table_spec b "raw" ltac:(set_solver) w Hl) as [Hl1 Hc1].
  { eapply purged_listable; [done|]. apply Ha; [done|set_solver]. }
  assert (purged ((b, "raw") :: bts)%string m (chains (remove_table b "raw" w))) as Hp1.
  { rewrite Hc1. by apply purged_step. }
  destruct (remove_table_spec b "mangle" ltac:(set_solver) (remove_table b "raw" w) Hl1) as [_ Hc2].
  { eapply purged_listable; [done|]. apply Ha; [done|set_solver]. }
  rewrite Hc2. by apply purged_step.
Qed.

Lemma removeCommented_LookPath b b' w : LookPath b (removeCommented b' w) = LookPath b w.
Proof. unfold removeCommented. simpl. by rewrite !remove_table_LookPath. Qed.

Lemma Remove_purged w :
  (∀ b, b ∈ families → LookPath b w = true) → all_listable (chains w) →
  purged (families ≫= λ b, pair b <$> tables) (chains w) (chains (Remove w)).
Proof.
  intros Hl Ha. assert (LookPath "iptables" w = true) as H4 by (apply Hl; set_solver).
  assert (LookPath "ip6tables" w = true) as H6 by (apply Hl; set_solver).
  unfold Remove. simpl. rewrite H4, removeCommented_LookPath, H6.
  assert (purged [] (chains w) (chains w)) as P0.
  { intros k. rewrite bool_decide_false by apply not_elem_of_nil. by destruct (chains w !! k). }
  assert (purged [("iptables", "mangle"); ("iptables", "raw")]%string (chains w)
            (chains (removeCommented "iptables" w))) as P1.
  { apply removeCommented_purged; [set_solver|done..]. }
  assert (LookPath "ip6tables" (removeCommented "iptables" w) = true) as Hl6
    by by rewrite removeCommented_LookPath.
  pose proof (removeCommented_purged "ip6tables" _ _ _ ltac:(set_solver) Hl6 Ha P1) as P2.
  intros k. rewrite P2. erewrite bool_decide_ext; [done|]. simpl. set_solver.
Qed.
End remove_all.

(** ** Installing twice, and removing what was installed *)

Section apply.
Context {W : Type} `{NetfilterLaws W} `{!NetfilterReliable W} `{!NetfilterMatches W}.

Definition removables : list (string * string) := families ≫= λ b, pair b <$> tables.

(** A rule of the program: iptables accepts it, it is listed with its comment
    and needs no quotes. *)
Definition listed (r : string * string * list string) : Prop :=
  let '(t, c, args) := r in
  wellformed args ∧ jumps args = None ∧
  removable c (canon args) = true ∧ quotes (rule_line c (canon args)) = false.

(** A rule with the comment of the program is listed with it, and has a target
    after the chain. *)
Lemma tcp_listed t c ms target :
  c ∈ builtin_chains → target ∉ ["-A"; c]%string → Forall match_ok ms → target ∈ plain_targets →
  MComment comment ∈ ms → listed (t, c, tcp_spec ms target).
Proof.
  intros Hc Hne Hm Ht Hcom. pose proof (tcp_spec_unquoted c ms target Hc Hm Ht) as Hq.
  split; [by apply tcp_spec_wellformed|]. split; [by apply tcp_spec_jumps|]. split; [|done].
  unfold removable. rewrite (Fields_Contains _ comment) by by apply tcp_spec_comment.
  destruct (rule_line_words c _ Hq) as (args & Ef & _). rewrite Ef. destruct args as [|arg args]; [|done].
  pose proof (tcp_spec_target c ms target Hc Hm Ht) as Hin. by rewrite Ef in Hin.
Qed.

Lemma family_rules_tcp port :
  family_rules port =
    [("raw", "PREROUTING", tcp_spec [MDport port; MComment comment] "NOTRACK");
     ("raw", "OUTPUT", tcp_spec [MSport port; MComment comment] "NOTRACK");
     ("mangle", "OUTPUT", tcp_spec [MSport port; MFlags "RST" "RST"; MComment comment] "DROP")]%string.
Proof. done. Qed.

(** So the three rules of a port carry the text that the removal looks for. *)
Lemma family_listed port : is_port port → Forall listed (family_rules port).
Proof.
  intros Hp. rewrite family_rules_tcp.
  assert (match_ok (MComment comment)) as Hc by by (split; [apply bareb_true|apply Nat.leb_le]).
  assert (match_ok (MFlags "RST" "RST")) as Hf by (split; unfold tcp_flag_names; set_solver).
  assert (match_ok (MDport port) ∧ match_ok (MSport port)) as [Hd Hs] by done.
  constructor; [|constructor; [|constructor; [|constructor]]];
    (apply tcp_listed; [unfold builtin_chains; set_solver|set_solver|by repeat (constructor; [done|])
                       |unfold plain_targets; set_solver|set_solver]).
Qed.

(** Only rules of the program were appended. *)
Definition extends (bin : string) (m m' : chain_map) : Prop :=
  ∀ k, match m !! k with
       | None => m' !! k = None
       | Some rs => ∃ extra, m' !! k = Some (rs ++ extra) ∧
           Forall (λ s, removable k.2 s = true ∧ quotes (rule_line k.2 s) = false ∧ jumps s = None) extra ∧
           (extra = [] ∨ k.1 ∈ pair bin <$> tables)
       end.

Lemma extends_refl bin m : extends bin m m.
Proof. intros k. destruct (m !! k); [|done]. exists []. rewrite app_nil_r. auto. Qed.

Lemma extends_trans bin m1 m2 m3 : extends bin m1 m2 → extends bin m2 m3 → extends bin m1 m3.
Proof.
  intros E12 E23 k. specialize (E12 k). specialize (E23 k).
  destruct (m1 !! k) as [rs|]; [|by rewrite E12 in E23].
  destruct E12 as (x & Em & Hx & Kx). rewrite Em in E23. destruct E23 as (y & -> & Hy & Ky).
  exists (x ++ y). rewrite (assoc_L (++)). split; [done|]. split; [by apply Forall_app|].
  destruct Kx as [->|?]; [|by right]. destruct Ky as [->|?]; [by left|by right].
Qed.

Definition present (bin : string) (m : chain_map) (r : string * string * list string) : Prop :=
  let '(t, c, args) := r in ∃ rs, m !! (bin, t, c) = Some rs ∧ canon args ∈ rs.

Lemma present_extends bin bin' m m' r : extends bin m m' → present bin' m r → present bin' m' r.
Proof.
  destruct r as [[t c] args]. intros E (rs & Hm & Hin). specialize (E (bin', t, c)).
  rewrite Hm in E. destruct E as (x & Hx & _). exists (rs ++ x). split; [done|].
  apply elem_of_app. by left.
Qed.

Lemma ensureRule_ok bin t c args w :
  LookPath bin w = true → t ∈ tables → is_Some (chains w !! (bin, t, c)) → listed (t, c, args) →
  ∃ w', ensureRule bin t c args w = (w', Ok tt) ∧ (∀ b, LookPath b w' = LookPath b w) ∧
    extends bin (chains w) (chains w') ∧ present bin (chains w') (t, c, args) ∧
    (present bin (chains w) (t, c, args) → chains w' = chains w).
Proof.
  intros Hl Ht [rs Hrs] (Hwf & Hj & Hrm & Hq). unfold ensureRule.
  assert (t ∈ ["nat"; "raw"; "mangle"]%string) as Ht' by (unfold tables in Ht; set_solver).
  change (["-t"; t; "-C"; c]%string ++ args) with (cmd_args t c (CheckRule args)).
  change (["-t"; t; "-A"; c]%string ++ args) with (cmd_args t c (Append args)).
  assert (∀ cmd, cmd = CheckRule args ∨ cmd = Append args →
    is_Some (cmd_effect canon (bin, t, c) cmd (chains w)) → can_run (bin, t, c) cmd (chains w)) as Hrun.
  { intros cmd [->| ->] Hs; (split; [done|]; split; [done|]); intros c'; by rewrite Hj. }
  destruct (decide (canon args ∈ rs)) as [Hin|Hin].
  - assert (cmd_effect canon (bin, t, c) (CheckRule args) (chains w) = Some (chains w)) as He.
    { unfold cmd_effect. by rewrite Hrs, decide_True. }
    destruct (Exec_reliable bin t c _ w _ Ht' Hl (Hrun _ (or_introl eq_refl) (mk_is_Some _ _ He)) He)
      as (w1 & out & E & Hw & _).
    exists w1. rewrite E. split; [done|]. split; [intros b; exact (Exec_LookPath_eq b _ _ _ _ _ E)|].
    rewrite Hw. split; [apply extends_refl|]. split; [by exists rs|done].
  - destruct (Exec_refused bin t c (CheckRule args) w) as (w1 & E & Hw).
    { unfold cmd_effect. by rewrite Hrs, decide_False. }
    rewrite E. assert (∀ b, LookPath b w1 = LookPath b w) as L1
      by (intros b; exact (Exec_LookPath_eq b _ _ _ _ _ E)).
    assert (cmd_effect canon (bin, t, c) (Append args) (chains w)
            = Some (<[(bin, t, c) := rs ++ [canon args]]> (chains w))) as He.
    { unfold cmd_effect. by rewrite Hrs. }
    pose proof (Hrun _ (or_intror eq_refl) (mk_is_Some _ _ He)) as Hcr. rewrite <- Hw in He, Hcr.
    destruct (Exec_reliable bin t c _ w1 _ Ht' (eq_trans (L1 bin) Hl) Hcr He) as (w2 & out & E2 & Hw2 & _).
    exists w2. rewrite E2. split; [done|].
    split; [intros b; rewrite <- L1; exact (Exec_LookPath_eq b _ _ _ _ _ E2)|].
    rewrite Hw2, Hw. split; [|split].
    + intros k. destruct (decide (k = (bin, t, c))) as [->|Hk].
      * rewrite Hrs, lookup_insert_eq. exists [canon args]. split; [done|]. split.
        { repeat constructor; try done. simpl. by rewrite canon_jumps. }
        right. apply list_elem_of_fmap. by exists t.
      * rewrite lookup_insert_ne by done. apply (extends_refl bin).
    + exists (rs ++ [canon args]). rewrite lookup_insert_eq. split; [done|]. set_solver.
    + intros (rs' & Hrs' & Hin'). congruence.
Qed.

Lemma ensureRules_ok bin rules w :
  LookPath bin w = true → Forall listed rules →
  Forall (λ '(t, c, _), t ∈ tables ∧ is_Some (chains w !! (bin, t, c))) rules →
  ∃ w', ensureRules bin rules w = (w', Ok tt) ∧ (∀ b, LookPath b w' = LookPath b w) ∧
    extends bin (chains w) (chains w') ∧ Forall (present bin (chains w')) rules ∧
    (Forall (present bin (chains w)) rules → chains w' = chains w).
Proof.
  intros Hl Hr. revert w Hl. induction Hr as [|[[t c] args] rules Hr Hrs IH]; intros w Hl Hc.
  { exists w. split_and!; try done. apply extends_refl. }
  apply Forall_cons in Hc as [[Ht Hk] Hc].
  destruct (ensureRule_ok bin t c args w Hl Ht Hk Hr) as (w1 & E1 & L1 & X1 & P1 & I1).
  destruct (IH w1) as (w2 & E2 & L2 & X2 & P2 & I2).
  { by rewrite L1. }
  { eapply Forall_impl; [exact Hc|]. intros [[t' c'] args'] [? [rs Hrs']]. split; [done|].
    specialize (X1 (bin, t', c')). rewrite Hrs' in X1. destruct X1 as (x & -> & _). by eexists. }
  exists w2. cbn [ensureRules]. rewrite E1. split; [done|]. split; [intros b; by rewrite L2|].
  split; [by eapply extends_trans|]. split; [constructor; [by eapply present_extends|done]|].
  intros Hp. apply Forall_cons in Hp as [Hp1 Hp2]. rewrite <- (I1 Hp1). apply I2. by rewrite (I1 Hp1).
Qed.

(** The port is valid and the chains exist. *)
Definition ready (bin : string) (port : Z) (m : chain_map) : Prop :=
  is_port port ∧ is_Some (m !! (bin, "raw", "PREROUTING")%string) ∧
  is_Some (m !! (bin, "raw", "OUTPUT")%string) ∧ is_Some (m !! (bin, "mangle", "OUTPUT")%string).

Lemma ready_extends bin bin' port m m' : extends bin' m m' → ready bin port m → ready bin port m'.
Proof.
  intros X. assert (∀ k, is_Some (m !! k) → is_Some (m' !! k)) as Hk.
  { intros k [rs Hrs]. specialize (X k). rewrite Hrs in X. destruct X as (x & -> & _). by eexists. }
  intros (Hp & H1 & H2 & H3). split_and!; auto.
Qed.

Lemma applyFamily_ok bin port w :
  LookPath bin w = true → ready bin port (chains w) →
  ∃ w', applyFamily bin port w = (w', Ok tt) ∧ (∀ b, LookPath b w' = LookPath b w) ∧
    extends bin (chains w) (chains w') ∧ Forall (present bin (chains w')) (family_rules port) ∧
    (Forall (present bin (chains w)) (family_rules port) → chains w' = chains w).
Proof.
  intros Hl (Hp & C1 & C2 & C3). pose proof (family_listed port Hp) as Hr. unfold applyFamily.
  unfold is_port in Hp.
  replace ((port <? 1) || (port >? 65535)) with false by lia. rewrite Hl. cbn [negb].
  apply ensureRules_ok; [done|done|].
  unfold family_rules, tables. rewrite !Forall_cons. split_and!; try done; set_solver.
Qed.

(** The families that [Apply] works on, with their ports. *)
Definition family_ports (net : NetworkRuntime) : list (string * Z) :=
  ("iptables"%string, nr_Port net) :: option_list (pair "ip6tables"%string <$> port6 net).

Definition all_present (net : NetworkRuntime) (m : chain_map) : Prop :=
  Forall (λ '(bin, port), Forall (present bin m) (family_rules port)) (family_ports net).

(** Both commands are installed, and each family used is [ready]. *)
Definition server_ready (net : NetworkRuntime) (w : W) : Prop :=
  (∀ b, b ∈ families → LookPath b w = true) ∧
  Forall (λ '(bin, port), ready bin port (chains w)) (family_ports net).

(** Rules of the program were appended in either family. *)
Definition extends46 (m m' : chain_map) : Prop :=
  ∃ m1, extends "iptables" m m1 ∧ extends "ip6tables" m1 m'.

Lemma Apply_ok net w : server_ready net w →
  ∃ w', Apply (Some net) w = (w', Ok tt) ∧ server_ready net w' ∧
    extends46 (chains w) (chains w') ∧ all_present net (chains w') ∧
    (all_present net (chains w) → chains w' = chains w).
Proof.
  intros [Hl Hr]. unfold Apply, all_present, server_ready, family_ports in *.
  apply Forall_cons in Hr as [R4 R6].
  destruct (applyFamily_ok "iptables" (nr_Port net) w) as (w1 & E1 & L1 & X1 & P1 & I1);
    [apply Hl; set_solver|done|].
  rewrite E1. destruct (port6 net) as [p6|]; simpl in *.
  - rewrite Forall_singleton in R6.
    destruct (applyFamily_ok "ip6tables" p6 w1) as (w2 & E2 & L2 & X2 & P2 & I2);
      [rewrite L1; apply Hl; set_solver|by apply (ready_extends _ _ _ _ _ X1)|].
    exists w2. split; [done|]. split; [split|].
    + intros b Hb. rewrite L2, L1. by apply Hl.
    + rewrite Forall_cons, Forall_singleton.
      split; by apply (ready_extends _ _ _ _ _ X2), (ready_extends _ _ _ _ _ X1).
    + split; [by exists (chains w1)|]. split.
      * rewrite Forall_cons, Forall_singleton. split; [|done].
        eapply Forall_impl; [exact P1|]. intros r. exact (present_extends _ _ _ _ r X2).
      * intros Hp. apply Forall_cons in Hp as [Hp4 Hp6]. rewrite Forall_singleton in Hp6.
        rewrite <- (I1 Hp4). apply I2. by rewrite (I1 Hp4).
  - exists w1. split; [done|]. split; [split|].
    + intros b Hb. rewrite L1. by apply Hl.
    + apply Forall_singleton. by apply (ready_extends _ _ _ _ _ X1).
    + split; [exists (chains w1); split; [done|apply extends_refl]|]. split.
      * by apply Forall_singleton.
      * intros Hp. apply Forall_cons in Hp as [Hp4 _]. by apply I1.
Qed.

(** [Apply] installs the rules and can be repeated.  For each family the
    three rules of its port end up in their chains, whatever was there; applied a
    second time it succeeds and changes nothing, so that a restart after a crash
    leaves no duplicates. *)
Theorem iptables_apply net w (Hr : server_ready net w) :
  ∃ w', Apply (Some net) w = (w', Ok tt) ∧ all_present net (chains w') ∧
    ∃ w'', Apply (Some net) w' = (w'', Ok tt) ∧ chains w'' = chains w'.
Proof.
  destruct (Apply_ok net w Hr) as (w1 & E1 & R1 & _ & P1 & _). exists w1. split_and!; [done..|].
  destruct (Apply_ok net w1 R1) as (w2 & E2 & _ & _ & _ & I2). exists w2. split; [done|]. by apply I2.
Qed.

(** [Remove] removes by the comment and nothing else.  In the tables raw and
    mangle of both families the rules whose listed line contains the comment are
    gone, the other rules stay in their order, and no other table changes.  The
    rules of every server on the machine carry the same comment: the first one to
    end removes them for all. *)
Theorem iptables_remove w
    (Hl : ∀ b, b ∈ families → LookPath b w = true) (Ha : all_listable (chains w)) :
  ∀ b t c, chains (Remove w) !! (b, t, c) =
    (if bool_decide (b ∈ families ∧ t ∈ tables)
     then List.filter (λ spec, negb (removable c spec)) else id) <$> chains w !! (b, t, c).
Proof.
  intros b t c. rewrite (Remove_purged w Hl Ha). cbn [fst snd]. fold (keep c).
  erewrite bool_decide_ext; [done|]. unfold families, tables. simpl. set_solver.
Qed.

(** No rule of the tables looks like one of the program. *)
Definition unmarked (m : chain_map) : Prop :=
  ∀ k rs, k.1 ∈ removables → m !! k = Some rs → Forall (λ spec, removable k.2 spec = false) rs.

Lemma keep_unmarked c rs : Forall (λ spec, removable c spec = false) rs → keep c rs = rs.
Proof.
  unfold keep. induction 1 as [|s rs Hs _ IH]; [done|]. simpl. rewrite Hs. simpl. by rewrite IH.
Qed.

Lemma keep_extra c extra : Forall (λ s, removable c s = true) extra → keep c extra = [].
Proof.
  unfold keep. induction 1 as [|s rs Hs _ IH]; [done|]. simpl. by rewrite Hs.
Qed.

Lemma extends46_lookup m m' k : extends46 m m' →
  match m !! k with
  | None => m' !! k = None
  | Some rs => ∃ extra, m' !! k = Some (rs ++ extra) ∧
      Forall (λ s, removable k.2 s = true ∧ quotes (rule_line k.2 s) = false ∧ jumps s = None) extra ∧
      (extra = [] ∨ k.1 ∈ removables)
  end.
Proof.
  intros (m1 & X4 & X6). specialize (X4 k). specialize (X6 k).
  destruct (m !! k) as [rs|]; [|by rewrite X4 in X6].
  destruct X4 as (x & Em & Hx & Kx). rewrite Em in X6. destruct X6 as (y & -> & Hy & Ky).
  exists (x ++ y). rewrite (assoc_L (++)). split; [done|]. split; [by apply Forall_app|].
  assert (∀ b, b ∈ families → k.1 ∈ pair b <$> tables → k.1 ∈ removables) as Hk.
  { intros b Hb Hin. apply list_elem_of_bind. by exists b. }
  destruct Kx as [->|?]; [|right; apply (Hk "iptables"%string); [set_solver|done]].
  destruct Ky as [->|?]; [by left|right; apply (Hk "ip6tables"%string); [set_solver|done]].
Qed.

(** Whatever happens in between to the rest of the world. *)
Lemma Apply_Remove net w (Hr : server_ready net w) (Hu : unmarked (chains w)) :
  ∃ w1, Apply (Some net) w = (w1, Ok tt) ∧
    ∀ w2, chains w2 = chains w1 → (∀ b, LookPath b w2 = LookPath b w1) → chains (Remove w2) = chains w.
Proof.
  destruct (Apply_ok net w Hr) as (w1 & E1 & [Hl _] & X & _). exists w1. split; [done|].
  intros w2 Hc2 Hl2. rewrite <- Hc2 in X.
  assert (∀ b, b ∈ families → LookPath b w2 = true) as Hl' by (intros b Hb; rewrite Hl2; by apply Hl).
  assert (all_listable (chains w2)) as Ha.
  { intros b t Hb Ht c rs spec Hm Hs Hrm. pose proof (extends46_lookup _ _ (b, t, c) X) as Hx.
    destruct (chains w !! (b, t, c)) as [rs0|] eqn:Em; [|congruence].
    destruct Hx as (x & Hx & Hxs & _). rewrite Hm in Hx. injection Hx as ->.
    apply elem_of_app in Hs as [Hs|Hs].
    - assert ((b, t) ∈ removables) as Hbt.
      { apply list_elem_of_bind. exists b. split; [|done]. by apply list_elem_of_fmap_2. }
      pose proof (proj1 (Forall_forall _ _) (Hu (b, t, c) rs0 Hbt Em) spec Hs) as Hn.
      simpl in Hn. congruence.
    - destruct (proj1 (Forall_forall _ _) Hxs spec Hs) as (_ & ? & ?). done. }
  apply map_eq. intros k. rewrite (Remove_purged w2 Hl' Ha k). fold removables.
  pose proof (extends46_lookup _ _ k X) as Hx.
  destruct (chains w !! k) as [rs|] eqn:Em; [|by rewrite Hx].
  destruct Hx as (x & -> & Hxs & Hk). simpl. f_equal. case_bool_decide as Hin.
  - rewrite keep_app, (keep_unmarked _ _ (Hu k rs Hin Em)), keep_extra; [apply app_nil_r|].
    eapply Forall_impl; [exact Hxs|]. by intros s [? _].
  - destruct Hk as [->|]; [|done]. apply app_nil_r.
Qed.

(** C15: a server leaves the packet filter as it found it.  On a machine where both
    commands are installed and do what iptables(8) documents, where the three
    chains of each family exist, and where no rule carried the comment before: for
    any ports, [Apply] succeeds, the three rules of each family's port are then
    present, and after [Remove] every chain of every table is exactly what it was.
    (That each of these rules carries the comment that [Remove] searches for is
    proved from what the listing documents, not assumed.) *)
Theorem iptables_roundtrip net w (Hr : server_ready net w) (Hu : unmarked (chains w)) :
  ∃ w', Apply (Some net) w = (w', Ok tt) ∧ all_present net (chains w') ∧
    chains (Remove w') = chains w.
Proof.
  destruct (Apply_Remove net w Hr Hu) as (w1 & E & Hw).
  destruct (Apply_ok net w Hr) as (w2 & E2 & _ & _ & Hp & _). rewrite E in E2. injection E2 as <-.
  exists w1. split; [done|]. split; [done|]. by apply Hw.
Qed.
End apply.

(** ** Example: port 8443 and port 9443 on one machine *)

Definition plain_filter : chain_map :=
  <[("iptables", "raw", "PREROUTING")%string := [["-j"; "ACCEPT"]%string]]>
  (<[("iptables", "raw", "OUTPUT")%string := []]>
  {[ ("iptables", "mangle", "OUTPUT")%string := [] ]}).

Definition net8443 : NetworkRuntime :=
  mkNetworkRuntime "eth0" (mkUDPAddr [10; 0; 0; 1] 8443) [] None 8443 [] [] 0.

Lemma plain_filter_ready : server_ready net8443 plain_filter.
Proof.
  split; [done|]. constructor; [|constructor]. repeat split; by eexists.
Qed.

Lemma plain_filter_unmarked : unmarked plain_filter.
Proof.
  intros k rs _ Hm. unfold chains, toy_netfilter, plain_filter in Hm.
  apply lookup_insert_Some in Hm as [[<- <-]|[_ Hm]].
  { repeat constructor. }
  apply lookup_insert_Some in Hm as [[<- <-]|[_ Hm]]; [constructor|].
  apply lookup_singleton_Some in Hm as [<- <-]. constructor.
Qed.

Lemma iptables_apply_witness :
  ∃ w', Apply (Some net8443) plain_filter = (w', Ok tt) ∧ all_present net8443 (chains w').
Proof.
  destruct (iptables_apply net8443 plain_filter plain_filter_ready) as (w' & H1 & H2 & _).
  exists w'. exact (conj H1 H2).
Defined.

Lemma iptables_roundtrip_witness :
  ∃ w', Apply (Some net8443) plain_filter = (w', Ok tt) ∧ chains (Remove w') = plain_filter.
Proof.
  destruct (iptables_roundtrip net8443 plain_filter plain_filter_ready plain_filter_unmarked)
    as (w' & H1 & _ & H3).
  exists w'. exact (conj H1 H3).
Defined.

(** The rule of another server, on port 9443, goes with the first [Remove]. *)
Definition two_servers : chain_map :=
  {[ ("iptables", "raw", "OUTPUT")%string :=
       [["-j"; "ACCEPT"];
        ["-p"; "tcp"; "--sport"; "9443"; "-m"; "comment"; "--comment"; comment; "-j"; "NOTRACK"]]%string ]}.

Lemma two_servers_listable : all_listable two_servers.
Proof.
  intros b t _ _ c rs spec Hm Hs Hr. unfold two_servers in Hm.
  apply lookup_singleton_Some in Hm as [[= <- <- <-] <-].
  apply elem_of_cons in Hs as [->|Hs]; [by vm_compute in Hr|].
  apply list_elem_of_singleton in Hs as ->. split; reflexivity.
Qed.

Lemma iptables_remove_witness :
  chains (Remove two_servers) !! ("iptables", "raw", "OUTPUT")%string = Some [["-j"; "ACCEPT"]]%string.
Proof.
  assert (∀ b, b ∈ families → LookPath b two_servers = true) as Hl by done.
  rewrite (iptables_remove two_servers Hl two_servers_listable).
  reflexivity.
Defined.
