(* ===== verification/Listener.v ===== *)
(** The listening side: [Listen], [Listener] and [quicListener] of
    internal/transport, and [Run] and [serveSession] of internal/tunnel/server.go
    around them.

    The handles are those of [Transport]; the operations of the libraries that
    only a server uses are the class [Accepts].  [srv_step] interleaves the accept
    loop with the sessions that are being served; [ServerRuns] has the whole life
    of [Run]. *)

From S2P Require Import Prelude GoStd NetUtil Config ConfigResolve Transport Netfilter Iptables.

Local Open Scope Z_scope.

Class Accepts (W : Type) `{Conns W} : Type := {
  kcp_ServeConn : option BlockCrypt → Z → Z → nat → W → W * option nat;
  AcceptKCP : nat → W → W * option nat;
  quic_Listen : nat → tlsConfig → quic_config → W → W * option nat;
  quic_Accept : nat → W → W * option nat;
  quic_AcceptStream : nat → W → W * option nat;
  smux_Server : nat → smux_config → W → W * option nat }.

Class AcceptsLaws (W : Type) `{ConnsLaws W, !Accepts W} : Prop := {
  kcp_ServeConn_held b d p c w :
    match kcp_ServeConn b d p c w with
    | (w', Some h) => h ∉ held w ∧ held w' = {[h]} ∪ held w
    | (w', None) => held w' = held w end;
  AcceptKCP_held l w :
    match AcceptKCP l w with
    | (w', Some h) => h ∉ held w ∧ held w' = {[h]} ∪ held w
    | (w', None) => held w' = held w end;
  quic_Listen_held t c q w :
    match quic_Listen t c q w with
    | (w', Some h) => h ∉ held w ∧ held w' = {[h]} ∪ held w
    | (w', None) => held w' = held w end;
  quic_Accept_held l w :
    match quic_Accept l w with
    | (w', Some h) => h ∉ held w ∧ held w' = {[h]} ∪ held w
    | (w', None) => held w' = held w end;
  quic_AcceptStream_held q w :
    match quic_AcceptStream q w with
    | (w', Some h) => h ∉ held w ∧ held w' = {[h]} ∪ held w
    | (w', None) => held w' = held w end;
  smux_Server_held c s w :
    match smux_Server c s w with
    | (w', Some h) => h ∉ held w ∧ held w' = {[h]} ∪ held w
    | (w', None) => held w' = held w end }.

(** ** The listener *)

Inductive listen_error : Type :=
| KCPListen | QUICTLS | QUICListen | AcceptFailed | AcceptStreamFailed | SmuxServerFailed.

Section listener.
Context {W : Type} `{Accepts W}.

Record quicListener : Type := mkQL {
  ql_packetConn : option nat; ql_opt : Options; ql_transport : option nat; ql_listener : option nat }.

Record Listener : Type := mkListener {
  l_packetConn : option nat; l_opt : Options; l_kcpLn : option nat; l_quicLn : option quicListener }.

Definition listenQUIC (opt : Options) (pconn : nat) (w : W) : W * result listen_error quicListener :=
  match tlsConfigFromSecret (opt_SecretKey opt) (qo_ALPN (opt_QUIC opt)) true with
  | None => (w, Err QUICTLS)
  | Some tlsConf =>
      let qconf := mkQConfig (qo_MaxIdleTimeout (opt_QUIC opt)) (qo_IdleTimeout (opt_QUIC opt)) true in
      let '(w, tr) := quic_NewTransport pconn w in
      match quic_Listen tr tlsConf qconf w with
      | (w, None) => (conn_Close tr w, Err QUICListen)
      | (w, Some ln) => (w, Ok (mkQL (Some pconn) opt (Some tr) (Some ln)))
      end
  end.

Definition Listen (opt : Options) (pconn : nat) (w : W) : W * result listen_error Listener :=
  if String.eqb (opt_Protocol opt) ProtocolQUIC then
    match listenQUIC opt pconn w with
    | (w, Err e) => (w, Err e)
    | (w, Ok qln) => (w, Ok (mkListener (Some pconn) opt None (Some qln)))
    end
  else
    let k := opt_KCP opt in
    match kcp_ServeConn (ko_Block k) (ko_DataShard k) (ko_ParityShard k) pconn w with
    | (w, None) => (w, Err KCPListen)
    | (w, Some ln) => (w, Ok (mkListener (Some pconn) opt (Some ln) None))
    end.

Definition smuxServer (conn : nat) (opt : Options) (w : W) : W * result listen_error nat :=
  match smux_Server conn (smuxConfig opt) w with
  | (w, None) => (w, Err SmuxServerFailed)
  | (w, Some sess) => (w, Ok sess)
  end.

(** [quicListener.Accept]: the session has no packet connection of its own. *)
Definition quic_accept (l : quicListener) (ln : nat) (w : W) : W * result listen_error Session :=
  match quic_Accept ln w with
  | (w, None) => (w, Err AcceptFailed)
  | (w, Some qconn) =>
      match quic_AcceptStream qconn w with
      | (w, None) => (conn_Close qconn w, Err AcceptStreamFailed)
      | (w, Some stream) =>
          match smuxServer stream (ql_opt l) w with
          | (w, Err e) => (conn_Close qconn (conn_Close stream w), Err e)
          | (w, Ok sess) =>
              (w, Ok (mkSession None None None (Some qconn) (Some stream) (Some sess)))
          end
      end
  end.

Definition Accept (l : Listener) (w : W) : W * result listen_error Session :=
  match l_quicLn l, l_kcpLn l with
  | Some q, _ => quic_accept q (default 0%nat (ql_listener q)) w
  | None, kcpLn =>
      match AcceptKCP (default 0%nat kcpLn) w with
      | (w, None) => (w, Err AcceptFailed)
      | (w, Some kcpConn) =>
          let w := kcp_configure kcpConn (ApplyKCP (l_opt l)) w in
          match smuxServer kcpConn (l_opt l) w with
          | (w, Err e) => (conn_Close kcpConn w, Err e)
          | (w, Ok sess) => (w, Ok (mkSession None (Some kcpConn) None None None (Some sess)))
          end
      end
  end.

(** [Listener.Addr]: of a KCP listener only. *)
Definition Listener_Addr {A} (kcp_addr : nat → A) (l : Listener) : option A := kcp_addr <$> l_kcpLn l.

Definition quic_close (q : quicListener) (w : W) : W :=
  close_opt (ql_packetConn q) (close_opt (ql_transport q) (close_opt (ql_listener q) w)).

Definition Listener_Close (l : Listener) (w : W) : W :=
  match l_quicLn l with
  | Some q => quic_close q w
  | None => close_opt (l_packetConn l) (close_opt (l_kcpLn l) w)
  end.

(** Every handle of a listener. *)
Definition listener_handles (l : Listener) : gset nat :=
  match l_quicLn l with
  | Some q => list_to_set (omap id [ql_packetConn q; ql_transport q; ql_listener q])
  | None => list_to_set (omap id [l_packetConn l; l_kcpLn l])
  end.
End listener.

(** ** Nothing leaks *)

Section laws.
Context {W : Type} `{AcceptsLaws W}.
Implicit Types (w : W).

Lemma Accept_opens l w :
  match Accept l w with
  | (w', Err _) => opens w w' []
  | (w', Ok s) => ∃ hs, opens w w' hs ∧ session_handles s = list_to_set hs
  end.
Proof.
  unfold Accept. destruct (l_quicLn l) as [q|].
  - unfold quic_accept, smuxServer. acquire (quic_Accept_held (default 0%nat (ql_listener q)) w).
    2: by eapply opens_same; [apply opens_refl|].
    assert (opens w w0 [n]) as O1 by (eapply opens_step; [apply opens_refl|done]).
    acquire (quic_AcceptStream_held n w0).
    2: { apply opens_close. by eapply opens_same. }
    assert (opens w w1 [n0; n]) as O2 by by eapply opens_step.
    acquire (smux_Server_held n0 (smuxConfig (ql_opt q)) w1).
    + exists [n1; n0; n]. split; [by eapply opens_step|]. unfold session_handles. simpl. set_solver.
    + apply opens_close, opens_close. by eapply opens_same.
  - unfold smuxServer. set (ln := default 0%nat (l_kcpLn l)). acquire (AcceptKCP_held ln w).
    2: by eapply opens_same; [apply opens_refl|].
    assert (opens w (kcp_configure n (ApplyKCP (l_opt l)) w0) [n]) as O1.
    { eapply opens_same; [eapply opens_step; [apply opens_refl|done]|apply kcp_configure_held]. }
    acquire (smux_Server_held n (smuxConfig (l_opt l)) (kcp_configure n (ApplyKCP (l_opt l)) w0)).
    + exists [n0; n]. split; [by eapply opens_step|]. unfold session_handles. simpl. set_solver.
    + apply opens_close. by eapply opens_same.
Qed.

Lemma Listen_opens opt pconn w :
  match Listen opt pconn w with
  | (w', Err _) => opens w w' []
  | (w', Ok l) => ∃ hs, opens w w' hs ∧ listener_handles l = {[pconn]} ∪ list_to_set hs
  end.
Proof.
  unfold Listen. destruct (String.eqb _ _).
  - unfold listenQUIC. destruct (tlsConfigFromSecret _ _ _) as [tls|]; [|apply opens_refl].
    pose proof (quic_NewTransport_held pconn w) as Et.
    destruct (quic_NewTransport pconn w) as [w1 t]. set (qc := mkQConfig _ _ _).
    assert (opens w w1 [t]) as O1 by (eapply opens_step; [apply opens_refl|done]).
    acquire (quic_Listen_held t tls qc w1).
    + exists [n; t]. split; [by eapply opens_step|]. unfold listener_handles. simpl. set_solver.
    + apply opens_close. by eapply opens_same.
  - set (k := opt_KCP opt).
    acquire (kcp_ServeConn_held (ko_Block k) (ko_DataShard k) (ko_ParityShard k) pconn w).
    + exists [n]. split; [eapply opens_step; [apply opens_refl|done]|].
      unfold listener_handles. simpl. set_solver.
    + by eapply opens_same; [apply opens_refl|].
Qed.

Lemma Listener_Close_held l w : held (Listener_Close l w) = held w ∖ listener_handles l.
Proof.
  unfold Listener_Close, listener_handles, quic_close.
  destruct (l_quicLn l); rewrite !close_opt_held, !omap_option_cons; simpl omap; simpl list_to_set;
    rewrite !difference_difference_l_L; f_equal; set_solver.
Qed.
End laws.

(** ** The server around it *)

Section server.
Context {W : Type} `{Accepts W} `{Netfilter W}.
Context (ParseDuration : string → option Z) (InterfaceByName : string → bool)
  (ParseMAC : string → option (list Z)) (rport : Z).

Inductive server_error : Type :=
| ServerNetwork (e : resolve_error) | ServerOptions (e : transport_error) | ServerPcap | ServerListen (e : listen_error).

(** [Run] up to its accept loop; the last component is whether the deferred
    [iptables.Remove] is registered. *)
Definition Run_listen (cfg : Config) (w : W) :
    W * result server_error (Listener * nat) * bool :=
  match ResolveNetwork InterfaceByName ParseMAC rport cfg with
  | Err e => (w, Err (ServerNetwork e), false)
  | Ok netRT =>
      let '(w, applied) := Apply (Some netRT) w in
      let applied := is_ok applied in
      match OptionsFromConfig ParseDuration RoleServer (cfg_Transport cfg) with
      | Err e => (w, Err (ServerOptions e), applied)
      | Ok opt =>
          match PcapOpen netRT w with
          | (w, None) => (w, Err ServerPcap, applied)
          | (w, Some pconn) =>
              match Listen opt pconn w with
              | (w, Err e) => (w, Err (ServerListen e), applied)
              | (w, Ok ln) => (w, Ok (ln, pconn), applied)
              end
          end
      end
  end.

(** The deferred calls of [Run]. *)
Definition Run_return (r : result server_error (Listener * nat)) (applied : bool) (w : W) : W :=
  let w := match r with Ok (ln, _) => Listener_Close ln w | Err _ => w end in
  if applied then Remove w else w.
End server.

(** ** Sessions being served *)

Section sessions.
Context {W : Type} `{AcceptsLaws W}.

(** How far the goroutine of a session is: started, counted by
    [s.sessions.Add(1)], or past [s.sessions.Add(-1)] with [sess.Close] to run. *)
Inductive phase : Type := Started | Counted | Ending.

(** [sv_active] is the atomic counter of the status report. *)
Record srv_state : Type := mkSrv { sv_serving : list (Session * phase); sv_active : Z; sv_w : W }.

Inductive srv_step (l : Listener) : srv_state → srv_state → Prop :=
| srv_accept ss n w w' s :
    Accept l w = (w', Ok s) →
    srv_step l (mkSrv ss n w) (mkSrv ((s, Started) :: ss) n w')
| srv_accept_fails ss n w w' e :
    Accept l w = (w', Err e) → srv_step l (mkSrv ss n w) (mkSrv ss n w')
| srv_count ss1 s ss2 n w :
    srv_step l (mkSrv (ss1 ++ (s, Started) :: ss2) n w)
      (mkSrv (ss1 ++ (s, Counted) :: ss2) (i64 (n + 1)) w)
| srv_uncount ss1 s ss2 n w :
    srv_step l (mkSrv (ss1 ++ (s, Counted) :: ss2) n w)
      (mkSrv (ss1 ++ (s, Ending) :: ss2) (i64 (n - 1)) w)
| srv_close ss1 s ss2 n w :
    srv_step l (mkSrv (ss1 ++ (s, Ending) :: ss2) n w)
      (mkSrv (ss1 ++ ss2) n (Session_Close s w))
| srv_world ss n w w' : held w' = held w → srv_step l (mkSrv ss n w) (mkSrv ss n w').

Definition counted (ss : list (Session * phase)) : Z :=
  foldr (λ x n, match x.2 with Counted => n + 1 | _ => n end) 0 ss.

Lemma counted_app ss1 ss2 : counted (ss1 ++ ss2) = counted ss1 + counted ss2.
Proof.
  unfold counted. induction ss1 as [|[s []] ss1 IH]; simpl; [done|..]; rewrite IH; lia.
Qed.

(** Relative to the handles [base] that are not a session's: the open handles
    are those and the sessions', no two sessions share one, and the counter is
    the number of counted sessions. *)
Definition srv_inv (base : gset nat) (x : srv_state) : Prop :=
  (∃ hss, Forall2 (λ (s : Session * phase) hs, session_handles s.1 = list_to_set hs) (sv_serving x) hss ∧
     NoDup (concat hss) ∧ (∀ h, h ∈ concat hss → h ∉ base) ∧
     held (sv_w x) = base ∪ list_to_set (concat hss)) ∧
  sv_active x = i64 (counted (sv_serving x)).

Lemma restart_phase ss1 s p q ss2 (hss : list (list nat)) :
  Forall2 (λ (s : Session * phase) hs, session_handles s.1 = list_to_set hs) (ss1 ++ (s, p) :: ss2) hss →
  Forall2 (λ (s : Session * phase) hs, session_handles s.1 = list_to_set hs) (ss1 ++ (s, q) :: ss2) hss.
Proof.
  intros (h1 & h2 & Hf1 & Hf2 & ->)%Forall2_app_inv_l.
  apply Forall2_cons_inv_l in Hf2 as (hs & h2' & Es & Hf2 & ->).
  apply Forall2_app; [done|]. by constructor.
Qed.

Lemma srv_step_inv base l x y : srv_step l x y → srv_inv base x → srv_inv base y.
Proof.
  intros Hs [(hss & Hf & Hn & Hb & Hh) Hc].
  destruct Hs as [ss n w w' s E|ss n w w' e E|ss1 s ss2 n w|ss1 s ss2 n w|ss1 s ss2 n w|ss n w w' E];
    unfold srv_inv; simpl in *.
  - pose proof (Accept_opens l w) as Ho. rewrite E in Ho.
    destruct Ho as (hs & (Hnd & Hfr & Eh) & Es). split.
    + exists (hs :: hss). split; [by constructor|]. simpl. rewrite Hh in Hfr, Eh. split; [|split].
      * apply NoDup_app. split_and!; [done| |done]. intros h Hx Hy. apply (Hfr h Hx).
        apply elem_of_union_r. by apply elem_of_list_to_set.
      * intros h [Hx|Hx]%elem_of_app; [|by apply Hb]. specialize (Hfr h Hx).
        by apply not_elem_of_union in Hfr as [??].
      * rewrite Eh, list_to_set_app_L. set_solver.
    + done.
  - pose proof (Accept_opens l w) as Ho. rewrite E in Ho. apply opens_nil_held in Ho.
    split; [|done]. exists hss. by rewrite Ho.
  - split.
    + exists hss. split; [|done]. by eapply restart_phase.
    + rewrite Hc, i64_add_l, !counted_app. f_equal. simpl. lia.
  - split.
    + exists hss. split; [|done]. by eapply restart_phase.
    + rewrite Hc. unfold Z.sub. rewrite i64_add_l, !counted_app. f_equal. simpl. lia.
  - apply Forall2_app_inv_l in Hf as (h1 & h2 & Hf1 & Hf2 & ->).
    apply Forall2_cons_inv_l in Hf2 as (hs & h2' & Es & Hf2 & ->). simpl in Es.
    assert (concat (h1 ++ hs :: h2') ≡ₚ hs ++ concat (h1 ++ h2')) as Hp.
    { rewrite !concat_app. simpl. solve_Permutation. }
    rewrite Hp in Hn. apply NoDup_app in Hn as (_ & Hd & Hn). split.
    + exists (h1 ++ h2'). split; [by apply Forall2_app|]. split; [done|]. split.
      * intros h Hin. apply Hb. rewrite Hp. apply elem_of_app. by right.
      * assert (∀ h, h ∈ hs → h ∉ base) as Hbs.
        { intros h Hin. apply Hb. rewrite Hp. apply elem_of_app. by left. }
        rewrite Session_Close_held, Hh, Es, (list_to_set_perm_L _ _ Hp), list_to_set_app_L. apply set_eq. intros h.
        rewrite elem_of_difference, !elem_of_union, !elem_of_list_to_set.
        split; [intuition|]. intros [Hin|Hin].
        -- split; [tauto|]. intros Hx. by apply (Hbs h Hx).
        -- split; [tauto|]. intros Hx. by apply (Hd h Hx).
    + rewrite Hc, !counted_app. done.
  - split; [|done]. exists hss. by rewrite E.
Qed.

(** The server's sessions.  Over every interleaving of accepted connections,
    of connections that fail while they are accepted, and of sessions that end,
    the open handles are those of the server and of the sessions being served,
    with none shared, and the reported number is that of the sessions whose
    goroutine is between its two counter updates; so when no session is left,
    nothing of any session is left. *)
Theorem server_sessions l w0 x (Hs : rtc (srv_step l) (mkSrv [] 0 w0) x) :
  srv_inv (held w0) x ∧ (sv_serving x = [] → held (sv_w x) = held w0 ∧ sv_active x = 0).
Proof.
  assert (srv_inv (held w0) x) as Hi.
  { eapply rtc_preserves; [exact Hs|apply srv_step_inv|].
    split; [|done]. exists []. simpl. split; [constructor|]. split; [apply NoDup_nil_2|].
    split; [by intros h ?%not_elem_of_nil|]. set_solver. }
  split; [done|]. intros He. destruct Hi as [(hss & Hf & _ & _ & Hh) Hc]. rewrite He in Hf, Hc.
  apply Forall2_nil_inv_l in Hf as ->. split; [|done]. rewrite Hh. simpl. set_solver.
Qed.
End sessions.

(** ** Starting and stopping *)

Section start_stop.
Context {W : Type} `{AcceptsLaws W} `{NetfilterLaws W}.
Context (ParseDuration : string → option Z) (InterfaceByName : string → bool)
  (ParseMAC : string → option (list Z)) (rport : Z).

(** The packet filter is as it was. *)
Definition same_filter (w w' : W) : Prop :=
  chains w' = chains w ∧ ∀ b, LookPath b w' = LookPath b w.

(** The capture and session libraries leave the packet filter alone, iptables
    leaves the handles alone. *)
Class Separate : Prop := {
  Exec_held b args w : held (Exec b args w).1 = held w;
  PcapOpen_filter rt w : same_filter w (PcapOpen rt w).1;
  kcp_ServeConn_filter b d p c w : same_filter w (kcp_ServeConn b d p c w).1;
  quic_NewTransport_filter c w : same_filter w (quic_NewTransport c w).1;
  quic_Listen_filter t c q w : same_filter w (quic_Listen t c q w).1;
  conn_Close_filter h w : same_filter w (conn_Close h w) }.

Context `{!Separate}.

Lemma same_filter_trans w1 w2 w3 : same_filter w1 w2 → same_filter w2 w3 → same_filter w1 w3.
Proof. intros [A1 B1] [A2 B2]. split; [congruence|]. intros b. by rewrite B2. Qed.

Lemma close_opt_filter h w w' : same_filter w w' → same_filter w (close_opt h w').
Proof.
  intros Hs. eapply same_filter_trans; [exact Hs|]. destruct h; [apply conn_Close_filter|done].
Qed.

Lemma Listener_Close_filter l w : same_filter w (Listener_Close l w).
Proof.
  unfold Listener_Close, quic_close.
  destruct (l_quicLn l); repeat apply close_opt_filter; done.
Qed.

Lemma Listen_filter opt pconn w : same_filter w (Listen opt pconn w).1.
Proof.
  unfold Listen. destruct (String.eqb _ _).
  - unfold listenQUIC. destruct (tlsConfigFromSecret _ _ _) as [tls|]; [|done].
    pose proof (quic_NewTransport_filter pconn w) as F1.
    destruct (quic_NewTransport pconn w) as [w1 tr]. simpl in F1. set (qc := mkQConfig _ _ _).
    pose proof (quic_Listen_filter tr tls qc w1) as F2.
    destruct (quic_Listen tr tls qc w1) as [w2 [ln|]]; simpl in *;
      repeat (eapply same_filter_trans; [eassumption|]); [done|apply conn_Close_filter].
  - set (k := opt_KCP opt).
    pose proof (kcp_ServeConn_filter (ko_Block k) (ko_DataShard k) (ko_ParityShard k) pconn w) as F.
    by destruct (kcp_ServeConn _ _ _ _ _) as [w1 [ln|]].
Qed.

(** The cleanup of [Run] and the handles. *)
Lemma Run_return_held r applied w :
  held (Run_return r applied w) =
    held w ∖ match r with Ok (l, _) => listener_handles l | Err _ => ∅ end.
Proof.
  assert (∀ w2 : W, held (if applied then Remove w2 else w2) = held w2) as Hr.
  { intros w2. destruct applied; [by apply Remove_frame, Exec_held|done]. }
  unfold Run_return. rewrite Hr. destruct r as [[l pconn]|e]; [apply Listener_Close_held|].
  by rewrite difference_empty_L.
Qed.

(** The cleanup and the packet filter. *)
Lemma Run_return_filter r applied w1 w :
  same_filter w1 w →
  ∃ w2, same_filter w1 w2 ∧ Run_return r applied w = if applied then Remove w2 else w2.
Proof.
  intros Hs. unfold Run_return. destruct r as [[l pconn]|e]; [|by exists w].
  exists (Listener_Close l w). split; [|done]. eapply same_filter_trans; [exact Hs|]. apply Listener_Close_filter.
Qed.

(** Everything after [Apply] leaves the packet filter alone. *)
Lemma Run_listen_filter cfg w rt :
  ResolveNetwork InterfaceByName ParseMAC rport cfg = Ok rt →
  let '(w1, r, applied) := Run_listen ParseDuration InterfaceByName ParseMAC rport cfg w in
  applied = is_ok (Apply (Some rt) w).2 ∧ same_filter (Apply (Some rt) w).1 w1.
Proof.
  intros Hrt. unfold Run_listen. rewrite Hrt. destruct (Apply (Some rt) w) as [w1 a]. cbn [fst snd].
  destruct (OptionsFromConfig _ _ _) as [opt|e]; [|done].
  pose proof (PcapOpen_filter rt w1) as Fp. destruct (PcapOpen rt w1) as [w2 [pconn|]]; simpl in Fp; [|done].
  pose proof (Listen_filter opt pconn w2) as Fl. destruct (Listen opt pconn w2) as [w3 [ln|e]]; simpl in Fl;
    (split; [done|]); by eapply same_filter_trans.
Qed.

Lemma Run_listen_held cfg w :
  let '(w1, r, applied) := Run_listen ParseDuration InterfaceByName ParseMAC rport cfg w in
  match r with
  | Ok (l, pconn) => listener_handles l ## held w ∧ held w1 = listener_handles l ∪ held w
  | Err (ServerListen _) => ∃ pconn, pconn ∉ held w ∧ held w1 = {[pconn]} ∪ held w
  | Err _ => held w1 = held w
  end.
Proof.
  unfold Run_listen. destruct (ResolveNetwork _ _ _ cfg) as [rt|e]; [|done].
  pose proof (Apply_frame held Exec_held (Some rt) w) as Hh. destruct (Apply (Some rt) w) as [w1 a]. simpl in Hh.
  destruct (OptionsFromConfig _ _ _) as [opt|e]; [|done].
  pose proof (PcapOpen_held rt w1) as Hp. destruct (PcapOpen rt w1) as [w2 [pconn|]]; [|congruence].
  destruct Hp as [Hp Hp2]. rewrite Hh in Hp, Hp2.
  pose proof (Listen_opens opt pconn w2) as Ho. destruct (Listen opt pconn w2) as [w3 [ln|e]].
  - destruct Ho as (hs & (_ & Hf & Eh) & El). rewrite El, Eh, Hp2. split; [|set_solver +].
    intros h [->%elem_of_singleton|Hin%elem_of_list_to_set]%elem_of_union Hw; [done|].
    apply (Hf h Hin). rewrite Hp2. set_solver.
  - apply opens_nil_held in Ho. exists pconn. split; [done|congruence].
Qed.

(** C13: what a server leaves behind.  However far the start of a server gets, and
    when it ends, whether or not its rules could be installed, every handle it
    opened is closed, with one exception: when the listener cannot be created, the
    capture handle stays open.  As for the packet filter: on a machine where
    iptables is installed and reliable, the chains exist and no rule carried the
    comment before, the rules are installed and afterwards every chain is exactly
    what it was.  When [Apply] fails, nothing is removed: the packet filter stays
    as the failed [Apply] left it, with the rules that it had added, and the server
    runs all the same. *)
Theorem server_start_stop cfg w :
  let '(w1, r, applied) := Run_listen ParseDuration InterfaceByName ParseMAC rport cfg w in
  match r with
  | Err (ServerListen _) => ∃ pconn, pconn ∉ held w ∧ held (Run_return r applied w1) = {[pconn]} ∪ held w
  | _ => held (Run_return r applied w1) = held w
  end ∧
  match ResolveNetwork InterfaceByName ParseMAC rport cfg with
  | Err e => r = Err (ServerNetwork e) ∧ chains (Run_return r applied w1) = chains w
  | Ok rt =>
      (NetfilterReliable W → NetfilterMatches W → server_ready rt w → unmarked (chains w) →
         applied = true ∧ chains (Run_return r applied w1) = chains w) ∧
      (∀ e, (Apply (Some rt) w).2 = Err e →
         applied = false ∧ chains (Run_return r applied w1) = chains (Apply (Some rt) w).1)
  end.
Proof.
  pose proof (Run_listen_held cfg w) as Hh. pose proof (λ rt, Run_listen_filter cfg w rt) as Hf.
  destruct (Run_listen _ _ _ _ cfg w) as [[w1 r] applied] eqn:E. split.
  - destruct r as [[l pconn]|e]; rewrite Run_return_held.
    + destruct Hh as [Hd ->]. clear -Hd. set_solver.
    + destruct e; rewrite difference_empty_L; exact Hh.
  - destruct (ResolveNetwork _ _ _ cfg) as [rt|e] eqn:Hrt.
    2: { unfold Run_listen in E. rewrite Hrt in E. by injection E as <- <- <-. }
    destruct (Hf rt eq_refl) as [Ha Hs]. destruct (Run_return_filter r applied _ _ Hs) as (w2 & [Hc Hl] & ->). split.
    + intros Hrel Hm Hr Hu. destruct (Apply_Remove rt w Hr Hu) as (w1' & E1 & Hrem).
      rewrite E1 in Ha, Hc, Hl. simpl in Ha. subst applied. split; [done|]. by apply Hrem.
    + intros e He. rewrite He in Ha. simpl in Ha. subst applied. done.
Qed.
End start_stop.

(** ** Examples *)

#[export] Instance mock_accepts : Accepts Mock := {
  kcp_ServeConn _ _ _ _ w := mk_acquire w;
  AcceptKCP _ w := mk_acquire w;
  quic_Listen _ _ _ w := mk_acquire w;
  quic_Accept _ w := mk_acquire w;
  quic_AcceptStream _ w := mk_acquire w;
  smux_Server _ _ w := mk_acquire w }.

#[export] Instance mock_accepts_laws : AcceptsLaws Mock.
Proof. split; intros; apply mk_acquire_held. Qed.

Definition kcp_listener : Listener :=
  mkListener (Some 1%nat)
    (mkOptions "kcp" "secret" (mkKCPOptions None "fast" 1150 128 128 10 3) (mkQUICOptions "" 0 0) 0 0)
    (Some 2%nat) None.

(** A session is accepted and ends. *)
Lemma server_sessions_witness : ∃ s w,
  is_ok (Accept kcp_listener mock0).2 = true ∧ held (Session_Close s w) = held mock0.
Proof.
  assert (is_ok (Accept kcp_listener mock0).2 = true) as Hok by (vm_compute; reflexivity).
  destruct (Accept kcp_listener mock0) as [w [s|e]] eqn:E; [|discriminate Hok].
  exists s, w. split; [reflexivity|].
  refine (proj1 (proj2 (server_sessions kcp_listener mock0 (mkSrv [] _ (Session_Close s w)) _) eq_refl)).
  eapply rtc_l; [exact (srv_accept kcp_listener [] 0 mock0 w s E)|].
  eapply rtc_l; [exact (srv_count kcp_listener [] s [] _ w)|].
  eapply rtc_l; [exact (srv_uncount kcp_listener [] s [] _ w)|].
  eapply rtc_l; [exact (srv_close kcp_listener [] s [] _ w)|]. apply rtc_refl.
Defined.

(** The handles of [Mock] next to the packet filter of [Netfilter]. *)
Notation host := (Mock * chain_map)%type.

#[export] Instance host_accepts : Accepts host := {
  kcp_ServeConn _ _ _ _ := on_mock mk_acquire;
  AcceptKCP _ := on_mock mk_acquire;
  quic_Listen _ _ _ := on_mock mk_acquire;
  quic_Accept _ := on_mock mk_acquire;
  quic_AcceptStream _ := on_mock mk_acquire;
  smux_Server _ _ := on_mock mk_acquire }.

#[export] Instance host_accepts_laws : AcceptsLaws host.
Proof. split; intros; apply on_mock_acquire. Qed.

#[export] Instance host_netfilter : Netfilter host := {
  Exec b args w := let '(m, o) := Exec b args w.2 in ((w.1, m), o);
  LookPath b w := LookPath b w.2;
  chains w := chains w.2;
  canon := canon (W := chain_map); rule_line := rule_line (W := chain_map);
  spec_verdict := spec_verdict (W := chain_map); jumps := jumps (W := chain_map);
  wellformed := wellformed (W := chain_map) }.

#[export] Instance host_netfilter_laws : NetfilterLaws host.
Proof.
  split; try apply toy_netfilter_laws.
  - intros b t c cmd [m f]. pose proof (Exec_cmd b t c cmd f) as E.
    cbn [Exec host_netfilter fst snd chains].
    destruct (Exec b (cmd_args t c cmd) f) as [f' [out|]]; exact E.
  - intros b t [m f]. exact (Exec_list b t f).
  - intros b b' args [m f]. exact (Exec_LookPath b b' args f).
Qed.

#[export] Instance host_netfilter_matches : NetfilterMatches host.
Proof. split; apply toy_netfilter_matches. Qed.

#[export] Instance host_netfilter_reliable : NetfilterReliable host.
Proof.
  split.
  - intros b t c cmd [m f] Ht Hl Hr. pose proof (Exec_runs b t c cmd f Ht Hl Hr) as E.
    cbn [Exec host_netfilter fst snd].
    destruct (Exec b (cmd_args t c cmd) f) as [f' [out|]]; exact E.
  - intros b t [m f] Ht Hl. exact (Exec_lists b t f Ht Hl).
Qed.

Lemma on_mock_filter {A} (f : Mock → Mock * A) (w : host) : same_filter w (on_mock f w).1.
Proof. unfold on_mock. by destruct (f w.1). Qed.

#[export] Instance host_separate : Separate (W := host).
Proof.
  split; intros; try apply on_mock_filter; try by repeat split.
  cbn [Exec host_netfilter]. by destruct (Exec b args w.2).
Qed.

Definition server_config : Config :=
  mkConfig "" 1 RoleServer "kharej-1" "" None [] [] None (Some ":8443"%string)
    (mkNetworkConfig "eth0" (mkIPConfig "10.0.0.2:8443" "aa:bb:cc:dd:ee:ff") None
      (mkTCPFlagsConfig ["PA"%string] [])) None sample_kcp_valid None.

Definition host0 : host := (mock_failing [1%nat], plain_filter).

Definition server_net : NetworkRuntime :=
  match ResolveNetwork (λ _, true) (λ _, Some mac0) 8443 server_config with
  | Ok rt => rt
  | Err _ => net8443
  end.

(** The capture handle is open and the listener cannot be created. *)
Lemma server_start_stop_witness :
  let '(w1, r, applied) :=
    Run_listen no_durations (λ _, true) (λ _, Some mac0) 8443 server_config host0 in
  applied = true ∧ chains (Run_return r applied w1) = plain_filter.
Proof.
  assert (ResolveNetwork (λ _, true) (λ _, Some mac0) 8443 server_config = Ok server_net) as E
    by (vm_compute; reflexivity).
  pose proof (server_start_stop no_durations (λ _, true) (λ _, Some mac0) 8443 server_config host0) as T.
  rewrite E in T. destruct (Run_listen _ _ _ _ _ _) as [[w1 r] applied].
  apply (proj1 (proj2 T)).
  - exact host_netfilter_reliable.
  - exact host_netfilter_matches.
  - split; [done|]. destruct plain_filter_ready as [_ Hr]. exact Hr.
  - exact plain_filter_unmarked.
Defined.
