(* ===== verification/ServerRuns.v ===== *)
(** [Server.Run] of internal/tunnel/server.go from its listener to its return: the
    accept loop, the goroutine that closes the listener when the context ends, the
    goroutines of the sessions, and the deferred calls.  [Listener] has the start
    and the sessions on their own. *)

From S2P Require Import Prelude GoStd NetUtil Config ConfigResolve Transport Netfilter Iptables Listener.

Local Open Scope Z_scope.

(** Where the loop is: at its test of the context, in [ln.Accept], in [wg.Wait],
    or out of [Run]. *)
Inductive loop_at : Type := Top | Accepting | Waiting | Returned.

Section run.
Context {W : Type} `{Accepts W} `{Netfilter W}.
Context (l : Listener) (pconn : nat) (applied : bool).

(** [rn_closer]: the goroutine that closes the listener has still to do so;
    [rn_listening]: the listener is open. *)
Record run_state : Type := mkRun {
  rn_cancelled : bool; rn_at : loop_at; rn_closer : bool; rn_listening : bool;
  rn_srv : srv_state (W := W) }.

Definition run_start (w : W) : run_state := mkRun false Top true true (mkSrv [] 0 w).

(** [ln.Close]: a second one does nothing. *)
Definition close_once (listening : bool) (w : W) : W := if listening then Listener_Close l w else w.

(** The deferred calls of [Run]. *)
Definition run_deferred (listening : bool) (w : W) : W :=
  if listening then Run_return (Ok (l, pconn)) applied w else if applied then Remove w else w.

Definition on_srv (f : W → W) (x : srv_state) : srv_state := mkSrv (sv_serving x) (sv_active x) (f (sv_w x)).

(** A step of the goroutine of one session. *)
Inductive session_step : srv_state (W := W) → srv_state (W := W) → Prop :=
| ses_count ss1 s ss2 n w :
    session_step (mkSrv (ss1 ++ (s, Started) :: ss2) n w) (mkSrv (ss1 ++ (s, Counted) :: ss2) (i64 (n + 1)) w)
| ses_uncount ss1 s ss2 n w :
    session_step (mkSrv (ss1 ++ (s, Counted) :: ss2) n w) (mkSrv (ss1 ++ (s, Ending) :: ss2) (i64 (n - 1)) w)
| ses_close ss1 s ss2 n w :
    session_step (mkSrv (ss1 ++ (s, Ending) :: ss2) n w) (mkSrv (ss1 ++ ss2) n (Session_Close s w)).

(** The steps that bring a server whose context has ended nearer to its end. *)
Inductive run_progress : run_state → run_state → Prop :=
| run_stop b li x : run_progress (mkRun true Top b li x) (mkRun true Waiting b li x)
| run_accepted b li ss n w w' s :
    Accept l w = (w', Ok s) →
    run_progress (mkRun true Accepting b li (mkSrv ss n w)) (mkRun true Top b li (mkSrv ((s, Started) :: ss) n w'))
| run_accept_end b li ss n w w' e :
    Accept l w = (w', Err e) →
    run_progress (mkRun true Accepting b li (mkSrv ss n w))
      (mkRun true Returned b false (mkSrv ss n (run_deferred li w')))
| run_wait b li n w :
    run_progress (mkRun true Waiting b li (mkSrv [] n w)) (mkRun true Returned b false (mkSrv [] n (run_deferred li w)))
| run_close a li x :
    run_progress (mkRun true a true li x) (mkRun true a false false (on_srv (close_once li) x))
| run_session k a b li x y : session_step x y → run_progress (mkRun k a b li x) (mkRun k a b li y).

Inductive run_step : run_state → run_state → Prop :=
| rs_progress x y : run_progress x y → run_step x y
| rs_go b li x : run_step (mkRun false Top b li x) (mkRun false Accepting b li x)
| rs_accepted b li ss n w w' s :
    Accept l w = (w', Ok s) →
    run_step (mkRun false Accepting b li (mkSrv ss n w)) (mkRun false Top b li (mkSrv ((s, Started) :: ss) n w'))
| rs_accept_fails b li ss n w w' e :
    Accept l w = (w', Err e) →
    run_step (mkRun false Accepting b li (mkSrv ss n w)) (mkRun false Top b li (mkSrv ss n w'))
| rs_cancel a b li x : run_step (mkRun false a b li x) (mkRun true a b li x).
End run.
Arguments run_state : clear implicits.
Arguments mkRun {W} _ _ _ _ _.

(** Running, closed, over. *)
Definition run_over {W} (x : run_state W) : Prop :=
  rn_at x = Returned ∧ rn_closer x = false ∧ sv_serving (rn_srv x) = [].

Definition phase_weight (s : Session * phase) : nat := match s.2 with Started => 3 | Counted => 2 | Ending => 1 end.
Definition run_weight {W} (x : run_state W) : nat :=
  match rn_at x with Top => 2 | Accepting => 6 | Waiting => 1 | Returned => 0 end +
  (if rn_closer x then 1 else 0) + sum_list_with phase_weight (sv_serving (rn_srv x)).

Section laws.
Context {W : Type} `{AcceptsLaws W} `{NetfilterLaws W} `{!NetfilterReliable W} `{!Separate (W := W)}.
Context (ParseDuration : string → option Z) (InterfaceByName : string → bool)
  (ParseMAC : string → option (list Z)) (rport : Z).
Implicit Types (w : W).

(** What [Run] has opened when it starts to accept. *)
Lemma Run_listen_handles cfg w w' l pconn applied :
  Run_listen ParseDuration InterfaceByName ParseMAC rport cfg w = (w', Ok (l, pconn), applied) →
  listener_handles l ## held w ∧ held w' = listener_handles l ∪ held w.
Proof.
  intros E. pose proof (Run_listen_held ParseDuration InterfaceByName ParseMAC rport cfg w) as Hh.
  by rewrite E in Hh.
Qed.

Section invariant.
Context (l : Listener) (pconn : nat) (applied : bool) (base : gset nat).
Hypothesis apart : listener_handles l ## base.
Abbreviation run_step := (run_step l pconn applied).
Abbreviation run_progress := (run_progress l pconn applied).

Definition run_base (listening : bool) : gset nat := base ∪ (if listening then listener_handles l else ∅).

Definition run_inv (x : run_state W) : Prop :=
  srv_inv (run_base (rn_listening x)) (rn_srv x) ∧
  (rn_at x = Returned → rn_listening x = false ∧ rn_cancelled x = true) ∧
  (rn_closer x = false → rn_listening x = false).

Lemma srv_inv_held B ss n w w' : held w' = held w → srv_inv B (mkSrv ss n w) → srv_inv B (mkSrv ss n w').
Proof. intros E [(hss & Hf & Hn & Hb & Hh) Hc]. split; [|done]. exists hss. cbn in *. by rewrite E. Qed.

Lemma srv_inv_close ss n w w' :
  held w' = held w ∖ listener_handles l → srv_inv (run_base true) (mkSrv ss n w) →
  srv_inv (run_base false) (mkSrv ss n w').
Proof.
  unfold run_base. intros E [(hss & Hf & Hn & Hb & Hh) Hc]. split; [|done]. exists hss. cbn in *.
  split; [done|]. split; [done|]. split.
  - intros h Hin Hx. apply (Hb h Hin). set_solver.
  - assert (∀ h, h ∈ concat hss → h ∉ listener_handles l) as Hl.
    { intros h Hin Hx. apply (Hb h Hin). set_solver. }
    rewrite E, Hh. apply set_eq. intros h. specialize (Hl h).
    rewrite elem_of_difference, !elem_of_union, !elem_of_list_to_set. set_solver.
Qed.

Lemma run_deferred_inv li ss n w :
  srv_inv (run_base li) (mkSrv ss n w) → srv_inv (run_base false) (mkSrv ss n (run_deferred l pconn applied li w)).
Proof.
  assert (∀ w2 : W, held (if applied then Remove w2 else w2) = held w2) as Hr.
  { intros w2. destruct applied; [by apply Remove_frame, Exec_held|done]. }
  unfold run_deferred. destruct li.
  - apply srv_inv_close. unfold Run_return. rewrite Hr. apply Listener_Close_held.
  - by apply srv_inv_held.
Qed.

Lemma session_step_srv (x y : srv_state (W := W)) : session_step x y → srv_step l x y.
Proof. intros []; by econstructor. Qed.

Lemma run_progress_inv x y : run_progress x y → run_inv x → run_inv y.
Proof.
  intros Hp (Hs & Hr & Hc). destruct Hp as [b li x|b li ss n w w' s E|b li ss n w w' e E|b li n w|a li x|k a b li x y Hst];
    unfold run_inv in *; cbn [rn_cancelled rn_at rn_closer rn_listening rn_srv] in *.
  - by split_and!.
  - split; [|by split]. eapply srv_step_inv; [by apply srv_accept|done].
  - split; [|by split]. apply run_deferred_inv. eapply srv_step_inv; [by eapply srv_accept_fails|done].
  - split; [|by split]. by apply run_deferred_inv.
  - split; [|split; [|done]].
    + destruct x as [ss n w]. unfold on_srv, close_once. cbn in *. destruct li; [|done].
      eapply srv_inv_close; [apply Listener_Close_held|done].
    + intros Ha. split; [done|by apply Hr].
  - split; [|done]. by eapply srv_step_inv; [apply session_step_srv|].
Qed.

Lemma run_step_inv x y : run_step x y → run_inv x → run_inv y.
Proof.
  intros [? ? Hp|b li z|b li ss n w w' s E|b li ss n w w' e E|a b li z] Hi; [by eapply run_progress_inv|..];
    destruct Hi as (Hs & Hr & Hc); unfold run_inv in *; cbn [rn_cancelled rn_at rn_closer rn_listening rn_srv] in *.
  - by split_and!.
  - split; [|by split]. eapply srv_step_inv; [by apply srv_accept|done].
  - split; [|by split]. eapply srv_step_inv; [by eapply srv_accept_fails|done].
  - split; [done|]. split; [|done]. intros Ha. split; [by apply Hr|done].
Qed.

Lemma run_progress_weight x y :
  run_progress x y → rn_cancelled x = true → rn_cancelled y = true ∧ (run_weight y < run_weight x)%nat.
Proof.
  intros Hp Hk. destruct Hp as [b li x|b li ss n w w' s E|b li ss n w w' e E|b li n w|a li x|k a b li x y Hst];
    (split; [exact Hk|]); unfold run_weight; cbn; try lia.
  destruct Hst; cbn; rewrite !sum_list_with_app; cbn; unfold phase_weight; cbn; lia.
Qed.

Lemma run_progress_steps m x y :
  nsteps run_progress m x y → run_inv x → rn_cancelled x = true →
  run_inv y ∧ rn_cancelled y = true ∧ (m + run_weight y ≤ run_weight x)%nat.
Proof.
  induction 1 as [|m x y z Hs _ IH]; intros Hi Hk; [done|].
  destruct (run_progress_weight _ _ Hs Hk) as [Hk' Hlt].
  destruct IH as (I1 & I2 & I3); [by eapply run_progress_inv|done|]. split_and!; [done|done|lia].
Qed.

Lemma run_unfinished x : rn_cancelled x = true → ¬ run_over x → ∃ y, run_progress x y.
Proof.
  destruct x as [k a b li [ss n w]]. unfold run_over. cbn. intros -> Ho.
  destruct b; [eexists; by apply run_close|]. destruct ss as [|[s ph] ss].
  2: { destruct ph; eexists; apply run_session.
       - apply (ses_count []).
       - apply (ses_uncount []).
       - apply (ses_close []). }
  destruct a; [eexists; apply run_stop| |eexists; apply run_wait|by destruct Ho].
  destruct (Accept l w) as [w' [s|e1]] eqn:E; eexists; [by apply run_accepted|by eapply run_accept_end].
Qed.
End invariant.

(** C11: a server from its first [Accept] to its end.  Over every interleaving, the
    handles that are open beyond those from before [Run] are the listener's, until
    it is closed, and the sessions', and the reported number of sessions is right.
    [Run] returns only when its context has ended, with the listener closed; from
    the end of the context on, the loop, the closing goroutine and the sessions
    need a bounded number of steps, one can always be taken until all have ended,
    and then every handle opened since before [Run] is closed.  But [Run] does not
    always wait for its sessions: an [Accept] that fails because the context ended
    makes it return while they are being served. *)
Theorem server_run cfg w0 w1 l pconn applied x
    (Hl : Run_listen ParseDuration InterfaceByName ParseMAC rport cfg w0 = (w1, Ok (l, pconn), applied))
    (Hx : rtc (run_step l pconn applied) (run_start w1) x) :
  srv_inv (run_base l (held w0) (rn_listening x)) (rn_srv x) ∧
  (rn_at x = Returned → rn_listening x = false ∧ rn_cancelled x = true) ∧
  (rn_cancelled x = true → ∀ m y, nsteps (run_progress l pconn applied) m x y →
     (m ≤ run_weight x ≤ 7 + 3 * length (sv_serving (rn_srv x)))%nat ∧
     (¬ run_over y → ∃ z, run_progress l pconn applied y z) ∧
     (run_over y → held (sv_w (rn_srv y)) = held w0 ∧ sv_active (rn_srv y) = 0)) ∧
  (∀ e, rn_cancelled x = true → rn_at x = Accepting → (Accept l (sv_w (rn_srv x))).2 = Err e →
     ∃ y, run_progress l pconn applied x y ∧ rn_at y = Returned ∧
          sv_serving (rn_srv y) = sv_serving (rn_srv x)).
Proof.
  destruct (Run_listen_handles _ _ _ _ _ _ Hl) as [Hd Hh].
  assert (run_inv l (held w0) x) as Hi.
  { eapply rtc_preserves; [exact Hx|intros ???; by eapply run_step_inv|].
    split; [|done]. split; [|done]. exists []. cbn. split; [constructor|]. split; [constructor|].
    split; [by intros h ?%not_elem_of_nil|]. rewrite Hh. unfold run_base. set_solver. }
  split; [apply Hi|]. split; [apply Hi|]. split.
  - intros Hk m y Hy. destruct (run_progress_steps l pconn applied (held w0) Hd m x y Hy Hi Hk) as (Hi' & Hk' & Hle).
    split; [|split].
    + split; [lia|]. unfold run_weight.
      assert (∀ ss, sum_list_with phase_weight ss ≤ 3 * length ss)%nat as Hw.
      { induction ss as [|[s ph] ss IH]; [done|]. cbn. unfold phase_weight at 1. destruct ph; cbn; lia. }
      specialize (Hw (sv_serving (rn_srv x))). destruct (rn_at x), (rn_closer x); lia.
    + by apply run_unfinished.
    + intros (Ha & Hb & Hs). destruct Hi' as ([(hss & Hf & _ & _ & Eh) Hc] & Hr & _).
      rewrite Hs in Hf, Hc. apply Forall2_nil_inv_l in Hf as ->. rewrite (proj1 (Hr Ha)) in Eh.
      split; [|done]. rewrite Eh. unfold run_base. cbn. set_solver.
  - intros e Hk Ha He. destruct x as [k a b li [ss n w]]. cbn in *. subst k a.
    destruct (Accept l w) as [w' r] eqn:E. cbn in He. subst r. eexists. split; [by eapply run_accept_end|done].
Qed.
End laws.

(** ** A server that is stopped *)

Definition host1 : Mock * chain_map := (mock0, plain_filter).

Lemma host1_listens :
  ∃ w1 l pconn, Run_listen no_durations (λ _, true) (λ _, Some mac0) 8443 server_config host1 = (w1, Ok (l, pconn), true).
Proof.
  assert (is_ok (Run_listen no_durations (λ _, true) (λ _, Some mac0) 8443 server_config host1).1.2 = true ∧
    (Run_listen no_durations (λ _, true) (λ _, Some mac0) 8443 server_config host1).2 = true) as [E1 E2]
    by (split; vm_compute; reflexivity).
  destruct (Run_listen _ _ _ _ _ _) as [[w1 [[l pconn]|e]] a]; [|discriminate E1]. cbn in E2. subst a. by exists w1, l, pconn.
Qed.

(** The context ends before anything is accepted. *)
Lemma server_run_witness :
  ∃ (x y : run_state (Mock * chain_map)), run_over y ∧ rn_at x = Top ∧ held (sv_w (rn_srv y)) = held host1.
Proof.
  destruct host1_listens as (w1 & l & pconn & E).
  pose (x := mkRun true Top true true (mkSrv [] 0 w1)).
  pose (w2 := close_once l true w1).
  pose (y := mkRun true Returned false false (mkSrv [] 0 (run_deferred l pconn true false w2))).
  exists x, y. split; [exact (conj eq_refl (conj eq_refl eq_refl))|]. split; [exact eq_refl|].
  refine (proj1 (proj2 (proj2 (proj1 (proj2 (proj2 (server_run no_durations (λ _, true) (λ _, Some mac0) 8443 server_config
    host1 w1 l pconn true x E _))) eq_refl 3%nat y _)) _)).
  - apply rtc_once. apply rs_cancel.
  - eapply nsteps_l; [apply run_close|]. eapply nsteps_l; [apply run_stop|].
    eapply nsteps_l; [apply run_wait|apply nsteps_O].
  - exact (conj eq_refl (conj eq_refl eq_refl)).
Defined.
