(* ===== verification/Forward.v ===== *)
(** [internal/forward/manager.go]: the TCP and UDP listeners of the forward
    rules.

    The listeners are clients of the interface [Opener].  What reaches a
    listener (connections, datagrams) and what a stream will yield are arguments.
    A UDP listener is one goroutine that handles datagrams in turn and one pump
    per new stream; the definitions are split where another goroutine can run in
    between, and [UDPLoop] interleaves a listener, its pumps and the others.

    A [deliver] closure is the address of the client it writes to. *)

From S2P Require Import Prelude GoStd NetUtil Protocol Config Transport TunnelPool Upstream Metrics Relay Opener.

Local Open Scope Z_scope.

Record Rule : Type := mkRule {
  r_Listen : string; r_Target : string; r_Proto : string; r_BindUpstream : string }.

Inductive service : Type := ServeTCP (r : Rule) | ServeUDP (r : Rule).

(** [Start]: the goroutines started, and the unsupported protocol if any; those
    started before it are not stopped. *)
Fixpoint Start (rules : list Rule) : list service * option string :=
  match rules with
  | [] => ([], None)
  | r :: rest =>
      if String.eqb (r_Proto r) "tcp" || String.eqb (r_Proto r) "" then
        let '(l, e) := Start rest in (ServeTCP r :: l, e)
      else if String.eqb (r_Proto r) "udp" then
        let '(l, e) := Start rest in (ServeUDP r :: l, e)
      else ([], Some (r_Proto r))
  end.

Section forward.
Context {S E : Type} {op : Opener S E string}.

(** ** TCP *)

Inductive tcp_end : Type := NoOpener | OpenError | Relayed (up down : half) (e : relay_end).

(** A connection accepted by [serveTCP], through [handleTCP]; [up] is the copy
    from the connection to the stream.  [routed] is whether the route function
    returned an opener. *)
Definition handleTCP (routed : bool) (target : string) (up down : half) (sched : list bool)
    (s : S) (c : Collector) : S * Collector * tcp_end :=
  let c := Add CTCPActive 1 (Add CTCPAccepted 1 c) in
  let '(s, c, r) :=
    if negb routed then (s, c, NoOpener) else
    match op_OpenTCP target s with
    | (s, Err _) => (s, IncError c, OpenError)
    | (s, Ok strm) =>
        let '(up, down, c, r) := relay_run (MeterWriter true) (MeterWriter false) sched up down c in
        (op_StreamClose strm s, c, Relayed up down (relay_end_of r))
    end in
  (s, Add CTCPActive (-1) c, r).

(** ** UDP *)

(** What became of a datagram. *)
Inductive udp_end : Type :=
| UIgnored                                    (* empty, or no opener *)
| UOpenFailed                                 (* stream or flow could not be opened *)
| UFlow (x : Session) (fid : Z) (sent : bool) (* sent on a QUIC-datagram flow *)
| UWriteFailed (strm : nat) (key : Z)
| UStream (strm : nat) (key : Z) (pump : bool). (* framed on a stream *)

(** The datagram path. *)
Definition serveUDP_flow (caddr target : string) (pkt : list Z) (s : S) (c : Collector) :
    S * Collector * udp_end :=
  match op_OpenUDPDatagram (caddr +:+ "|" +:+ target) target caddr s with
  | (s, Err _) => (s, c, UOpenFailed)
  | (s, Ok (x, fid, _)) =>
      match op_SendFlow x fid pkt s with
      | (s, true) => (s, Add CBytesOut (Z.of_nat (length pkt)) (Add CUDPDgramOut 1 c), UFlow x fid true)
      | (s, false) => (s, Add CUDPDgramDropped 1 c, UFlow x fid false)
      end
  end.

(** The stream path up to the write; on an error the key is zero. *)
Definition serveUDP_open (caddr target : string) (s : S) : S * option (nat * bool * Z) :=
  match op_OpenUDP caddr target s with
  | (s, Err _) => ((op_CloseUDP 0 s).1, None)
  | (s, Ok r) => (s, Some r)
  end.

(** The write and what follows it; a new stream gets a pump. *)
Definition serveUDP_write (r : nat * bool * Z) (pkt : list Z) (s : S) (c : Collector) :
    S * Collector * udp_end :=
  let '(strm, isNew, key) := r in
  let '(s, ok) := match WriteDatagram pkt with
                  | Ok f => op_Send strm f s
                  | Err _ => (s, false)
                  end in
  if ok then (s, Add CBytesOut (Z.of_nat (length pkt)) c, UStream strm key isNew)
  else ((op_CloseUDP key s).1, IncError c, UWriteFailed strm key).

(** One turn of [serveUDP] on a datagram. *)
Definition serveUDP_turn (routed : bool) (caddr target : string) (pkt : list Z) (s : S)
    (c : Collector) : S * Collector * udp_end :=
  match pkt with
  | [] => (s, c, UIgnored)
  | _ =>
      let c := Add CUDPPackets 1 c in
      if negb routed then (s, c, UIgnored) else
      match op_SupportsDatagrams s with
      | (s, true) => serveUDP_flow caddr target pkt s c
      | (s, false) =>
          match serveUDP_open caddr target s with
          | (s, None) => (s, c, UOpenFailed)
          | (s, Some r) => serveUDP_write r pkt s c
          end
      end
  end.

(** [pumpUDP]: the bytes [r] that the stream yields until it ends, fails or is
    idle for a minute; [sink] is how many datagrams the socket takes before a
    write fails ([None]: all).  The result is what the client received. *)
Fixpoint pump_loop (fuel : nat) (sink : option nat) (r : list Z) (c : Collector) :
    list (list Z) * Collector :=
  match fuel with
  | O => ([], c)
  | Datatypes.S fuel =>
      match ReadDatagram (64 * 1024) r with
      | Err _ => ([], c)
      | Ok (p, r) =>
          let c := Add CBytesIn (Z.of_nat (length p)) c in
          match sink with
          | Some O => ([], c)
          | _ => let '(l, c) := pump_loop fuel (Nat.pred <$> sink) r c in (p :: l, c)
          end
      end
  end.

(** The deferred [CloseUDP] at its end. *)
Definition pumpUDP (key : Z) (sink : option nat) (r : list Z) (s : S) (c : Collector) :
    S * Collector * list (list Z) :=
  let '(l, c) := pump_loop (Datatypes.S (length r)) sink r c in
  ((op_CloseUDP key s).1, c, l).

(** The pump that the end of a turn starts. *)
Definition started (e : udp_end) : list (nat * Z) :=
  match e with UStream strm key true => [(strm, key)] | _ => [] end.

(** ** What they do to the table of streams *)

Context `{!OpenerLaws S E string}.

(** No stream is lost: one that leaves the table is closed. *)
Definition settles (s s' : S) : Prop :=
  op_ok s' ∧ op_closed s ⊆ op_closed s' ∧
  ∀ key strm, udp_table s !! key = Some strm → udp_table s' !! key = Some strm ∨ strm ∈ op_closed s'.

Lemma quiet_settles s s' : quiet s s' → settles s s' ∧ udp_table s' = udp_table s.
Proof.
  intros (H1 & H2 & H3). split; [|done]. split; [done|]. split; [done|].
  intros key strm Hk. left. by rewrite H2.
Qed.

Lemma settles_trans s1 s2 s3 : settles s1 s2 → settles s2 s3 → settles s1 s3.
Proof.
  intros (_ & C1 & T1) (O2 & C2 & T2). split; [done|]. split; [by etrans|].
  intros key strm [Hk|Hk]%T1; [by apply T2|right; by apply C2].
Qed.

Lemma CloseUDP_settles key s : op_ok s →
  settles s (op_CloseUDP key s).1 ∧ udp_table (op_CloseUDP key s).1 = delete key (udp_table s).
Proof.
  intros (H1 & H2 & H3 & H4)%(CloseUDP_law key). split; [|done]. split; [done|]. split; [done|].
  intros k strm Hk. rewrite H2. destruct (decide (k = key)) as [->|]; [right; by apply H4|left].
  by rewrite lookup_delete_ne.
Qed.

Lemma serveUDP_flow_settles caddr target pkt s c : op_ok s →
  settles s (serveUDP_flow caddr target pkt s c).1.1 ∧
  udp_table (serveUDP_flow caddr target pkt s c).1.1 = udp_table s.
Proof.
  intros Ho. unfold serveUDP_flow.
  pose proof (OpenUDPDatagram_law (caddr +:+ "|" +:+ target) target caddr s Ho) as Q1.
  destruct (op_OpenUDPDatagram _ _ _ _) as [s1 [[[x fid] isNew]|e]]; cbn in Q1; [|by apply quiet_settles].
  pose proof (SendFlow_law x fid pkt s1 (proj1 Q1)) as Q2.
  apply quiet_settles in Q1 as [S1 E1].
  destruct (op_SendFlow _ _ _ _) as [s2 []]; cbn in *; apply quiet_settles in Q2 as [S2 E2];
    (split; [by eapply settles_trans|congruence]).
Qed.

(** A stream to write to is the one of its key. *)
Lemma serveUDP_open_settles caddr target s s' r : op_ok s → serveUDP_open caddr target s = (s', r) →
  settles s s' ∧
  match r with
  | None => udp_table s' ⊆ udp_table s
  | Some (strm, isNew, key) =>
      key = udp_key caddr target ∧ udp_table s' = <[key := strm]> (udp_table s) ∧
      (isNew = false → udp_table s !! key = Some strm)
  end.
Proof.
  intros Ho. unfold serveUDP_open. pose proof (OpenUDP_law caddr target s Ho) as L.
  destruct (op_OpenUDP caddr target s) as [s1 [[[strm isNew] key]|e]]; intros [= <- <-].
  - destruct L as (O1 & C1 & -> & Et & El). split; [|by destruct isNew].
    split; [done|]. split; [done|]. intros k strm' Hk. left. rewrite Et.
    destruct (decide (k = udp_key caddr target)) as [->|]; [|by rewrite lookup_insert_ne].
    rewrite lookup_insert_eq. destruct isNew; congruence.
  - pose proof (CloseUDP_settles 0 s1 (proj1 L)) as [S2 E2]. apply quiet_settles in L as [S1 E1].
    split; [by eapply settles_trans|]. rewrite E2, E1. apply delete_subseteq.
Qed.

(** A stream that could not be written to is closed. *)
Lemma serveUDP_write_settles strm isNew key pkt s c s' c' e : op_ok s →
  serveUDP_write (strm, isNew, key) pkt s c = (s', c', e) →
  settles s s' ∧ udp_table s' ⊆ udp_table s ∧
  (e = UStream strm key isNew ∨ (e = UWriteFailed strm key ∧ udp_table s' !! key = None)).
Proof.
  intros Ho. unfold serveUDP_write.
  destruct (match WriteDatagram pkt with Ok f => op_Send strm f s | Err _ => (s, false) end)
    as [s1 ok] eqn:Es.
  assert (quiet s s1) as Q.
  { destruct (WriteDatagram pkt); [|by simplify_eq].
    pose proof (Send_law strm a s Ho) as H. by rewrite Es in H. }
  pose proof (proj1 Q) as Ho1. apply quiet_settles in Q as [S1 E1].
  destruct ok; intros [= <- <- <-].
  - split; [done|]. split; [by rewrite E1|by left].
  - destruct (CloseUDP_settles key s1 Ho1) as [S2 E2]. split; [by eapply settles_trans|].
    rewrite E2, E1. split; [apply delete_subseteq|]. right. split; [done|apply lookup_delete_eq].
Qed.
End forward.
