(* ===== verification/AcceptLoop.v ===== *)
(** The accept loops of the client: [serveTCP] of internal/forward/manager.go and
    the one of internal/redirect/redirect_linux.go, with the goroutine of each
    connection and the goroutine that closes the listener when the context ends.

    [al_step] interleaves them; a connection is at [Opening] until its stream is
    open and at [Relaying] until its relay ends.  [conn_run] says that the steps
    of one connection amount to [Forward.handleTCP]. *)

From S2P Require Import Prelude GoStd NetUtil Protocol Config Transport TunnelPool Upstream Metrics Relay Opener Forward.

Local Open Scope Z_scope.

(** ** Local sockets *)

(** [net.Listen], [Accept] on a listener, [Close] of either; [None] is an error. *)
Class LocalNet (W : Type) : Type := {
  NetListen : string → W → W * option nat;
  NetAccept : nat → W → W * option nat;
  NetClose : nat → W → W }.

Class LocalNetLaws (W : Type) `{LocalNet W} : Type := {
  socks : W → gset nat;
  NetListen_socks a w :
    match NetListen a w with
    | (w', Some l) => l ∉ socks w ∧ socks w' = {[l]} ∪ socks w
    | (w', None) => socks w' = socks w end;
  NetAccept_socks l w :
    match NetAccept l w with
    | (w', Some c) => c ∉ socks w ∧ socks w' = {[c]} ∪ socks w
    | (w', None) => socks w' = socks w end;
  NetClose_socks c w : socks (NetClose c w) = socks w ∖ {[c]} }.

Inductive conn_task : Type := Opening (c : nat) | Relaying (c strm : nat).

Definition conn_of (t : conn_task) : nat := match t with Opening c | Relaying c _ => c end.

(** [al_looping]: the accept loop runs; [al_listening]: its listener is open. *)
Record al_state (S W : Type) : Type := mkAL {
  al_cancelled : bool; al_looping : bool; al_listening : bool; al_tasks : list conn_task;
  al_s : S; al_c : Collector; al_w : W }.
Arguments mkAL {S W} _ _ _ _ _ _ _.
Arguments al_cancelled {S W} _.
Arguments al_looping {S W} _.
Arguments al_listening {S W} _.
Arguments al_tasks {S W} _.
Arguments al_s {S W} _.
Arguments al_c {S W} _.
Arguments al_w {S W} _.

Section loop.
Context {S E W : Type} {op : Opener S E string} `{LocalNet W}.
(** [metered]: the listener counts its connections, and [closes]: its loop defers
    [ln.Close]; [forward] does both, [redirect] neither. *)
Context (metered closes routed : bool) (target : nat → string).
Implicit Types (s : S) (c : Collector) (w : W).

(** The counters of a goroutine when it starts, and its deferred one. *)
Definition conn_begin c : Collector :=
  if metered then Add CTCPActive 1 (Add CTCPAccepted 1 c) else c.
Definition conn_end c : Collector := if metered then Add CTCPActive (-1) c else c.

(** From the start to an open stream: the stream, or the end of the handler. *)
Definition conn_open (x : nat) s c : S * Collector * option nat :=
  if negb routed then (s, c, None) else
  match op_OpenTCP (target x) s with
  | (s, Err _) => (s, IncError c, None)
  | (s, Ok strm) => (s, c, Some strm)
  end.

(** The relay, to its end, and the deferred [strm.Close]. *)
Definition conn_relay (strm : nat) (up down : half) (sched : list bool) s c :
    S * Collector * (half * half * relay_end) :=
  let '(up, down, c, r) := relay_run (MeterWriter true) (MeterWriter false) sched up down c in
  (op_StreamClose strm s, c, (up, down, relay_end_of r)).

(** The state of [serveTCP] once it listens, and when it cannot. *)
Definition serveTCP_listen (addr : string) s c w : option nat * al_state S W :=
  match NetListen addr w with
  | (w, None) => (None, mkAL false false false [] s c w)
  | (w, Some ln) => (Some ln, mkAL false true true [] s c w)
  end.

(** The deferred [ln.Close] of the loop. *)
Definition close_listener (ln : nat) (listening : bool) (w : W) : W :=
  if closes && listening then NetClose ln w else w.

Inductive al_step (ln : nat) : al_state S W → al_state S W → Prop :=
| al_accept k ts s c w w' x :
    NetAccept ln w = (w', Some x) →
    al_step ln (mkAL k true true ts s c w) (mkAL k true true (Opening x :: ts) s (conn_begin c) w')
| al_accept_error b ts s c w w' :
    NetAccept ln w = (w', None) →           (* not cancelled: logged, and once more *)
    al_step ln (mkAL false true b ts s c w) (mkAL false true b ts s c w')
| al_exit b ts s c w :
    al_step ln (mkAL true true b ts s c w) (mkAL true false (negb closes && b) ts s c (close_listener ln b w))
| al_cancel lo b ts s c w : al_step ln (mkAL false lo b ts s c w) (mkAL true lo b ts s c w)
| al_close lo ts s c w : al_step ln (mkAL true lo true ts s c w) (mkAL true lo false ts s c (NetClose ln w))
| al_fail k lo b ts1 x ts2 s s' c c' w :
    conn_open x s c = (s', c', None) →
    al_step ln (mkAL k lo b (ts1 ++ Opening x :: ts2) s c w)
      (mkAL k lo b (ts1 ++ ts2) s' (conn_end c') (NetClose x w))
| al_open k lo b ts1 x ts2 s s' c c' w strm :
    conn_open x s c = (s', c', Some strm) →
    al_step ln (mkAL k lo b (ts1 ++ Opening x :: ts2) s c w)
      (mkAL k lo b (ts1 ++ Relaying x strm :: ts2) s' c' w)
| al_relay k lo b ts1 x strm ts2 s c w up down sched :
    al_step ln (mkAL k lo b (ts1 ++ Relaying x strm :: ts2) s c w)
      (mkAL k lo b (ts1 ++ ts2) (conn_relay strm up down sched s c).1.1
         (conn_end (conn_relay strm up down sched s c).1.2) (NetClose x w)).

(** The steps of one connection are [Forward.handleTCP]. *)
Lemma conn_run x up down sched s c :
  metered = true →
  handleTCP routed (target x) up down sched s c =
    match conn_open x s (conn_begin c) with
    | (s, c, None) => (s, conn_end c, if routed then OpenError else NoOpener)
    | (s, c, Some strm) =>
        let '(s, c, (up, down, e)) := conn_relay strm up down sched s c in (s, conn_end c, Relayed up down e)
    end.
Proof.
  intros Hm. unfold handleTCP, conn_open, conn_begin, conn_end, conn_relay. rewrite Hm.
  destruct routed; cbn [negb]; [|done]. destruct (op_OpenTCP (target x) s) as [s' [strm|e]]; [|done].
  by destruct (relay_run _ _ sched up down _) as [[[u d] c'] r].
Qed.
End loop.

(** ** What the loop holds *)

#[local] Arguments Load : simpl never.
#[local] Arguments Add : simpl never.

Section laws.
Context {S Er W : Type} {op : Opener S Er string} `{LocalNetLaws W}.
Context (metered closes routed : bool) (target : nat → string).

Abbreviation step := (al_step (op := op) metered closes routed target).

Definition conns (ts : list conn_task) : list nat := conn_of <$> ts.

(** The sockets are those of the rest of the process, the listener while it is
    open, and one for each connection that is being served; the gauge counts
    these; a loop that has ended has closed its listener, if it does. *)
Record al_inv (ln : nat) (base : gset nat) (a0 : Z) (x : al_state S W) : Prop := mkALInv {
  ai_socks : socks (al_w x) = base ∪ (if al_listening x then {[ln]} else ∅) ∪ list_to_set (conns (al_tasks x));
  ai_conns : NoDup (conns (al_tasks x)) ∧ (∀ c, c ∈ conns (al_tasks x) → c ∉ base ∧ c ≠ ln) ∧ ln ∉ base;
  ai_active : metered = true → Load CTCPActive (al_c x) = i64 (a0 + Z.of_nat (length (al_tasks x)));
  ai_loop : closes = true → al_looping x = false → al_listening x = false }.

Lemma conn_open_active x s c s' c' r :
  conn_open (op := op) routed target x s c = (s', c', r) → Load CTCPActive c' = Load CTCPActive c.
Proof.
  unfold conn_open. destruct routed; cbn [negb]; [|by intros [= <- <- <-]].
  destruct (op_OpenTCP (target x) s) as [s1 [strm|e]]; intros [= <- <- <-]; [done|].
  unfold IncError. by rewrite Load_Add_ne.
Qed.

Lemma relay_run_active ku kd sched u d c :
  ku ≠ CTCPActive → kd ≠ CTCPActive →
  Load CTCPActive (relay_run ku kd sched u d c).1.2 = Load CTCPActive c.
Proof.
  intros Hu Hd. revert u d c. induction sched as [|[] sched IH]; intros u d c; cbn [relay_run]; [done|..].
  - destruct (copy_turn (Some ku) u c) as [[u1 c1] r] eqn:Et.
    apply copy_turn_spec in Et as (l & _ & Hc & _).
    assert (Load CTCPActive c1 = Load CTCPActive c) as E1
      by (rewrite Hc; destruct (length l); [done|by rewrite Load_Add_ne]).
    destruct r; cbn; [done|]. by rewrite IH.
  - destruct (copy_turn (Some kd) d c) as [[d1 c1] r] eqn:Et.
    apply copy_turn_spec in Et as (l & _ & Hc & _).
    assert (Load CTCPActive c1 = Load CTCPActive c) as E1
      by (rewrite Hc; destruct (length l); [done|by rewrite Load_Add_ne]).
    destruct r; cbn; [done|]. by rewrite IH.
Qed.

Lemma conn_relay_active strm up down sched s c :
  Load CTCPActive (conn_relay (op := op) strm up down sched s c).1.2 = Load CTCPActive c.
Proof.
  unfold conn_relay. pose proof (relay_run_active (MeterWriter true) (MeterWriter false) sched up down c) as E.
  destruct (relay_run _ _ sched up down c) as [[[u d] c'] r]. cbn in *. by apply E.
Qed.

(** A connection that ends gives back its socket and its count. *)
Lemma conn_ends ln base a0 k lo b ts1 t ts2 s s' c c' w :
  Load CTCPActive c' = Load CTCPActive c →
  al_inv ln base a0 (mkAL k lo b (ts1 ++ t :: ts2) s c w) →
  al_inv ln base a0 (mkAL k lo b (ts1 ++ ts2) s' (conn_end metered c') (NetClose (conn_of t) w)).
Proof.
  intros Ec [Hs (Hn & Hb & Hl) Ha Hlo]. cbn in *.
  assert (conns (ts1 ++ t :: ts2) ≡ₚ conn_of t :: conns (ts1 ++ ts2)) as Hp.
  { unfold conns. rewrite !fmap_app, fmap_cons. solve_Permutation. }
  assert (∀ y, y ∈ conns (ts1 ++ ts2) → y ∈ conns (ts1 ++ t :: ts2)) as Hsub by (intros y Hy; rewrite Hp; by right).
  destruct (Hb (conn_of t)) as [Hcb Hcl]; [rewrite Hp; by left|].
  rewrite Hp in Hn. apply NoDup_cons in Hn as [Hnin Hn].
  split; cbn; [|split; [done|split; [|done]]| |done].
  - rewrite NetClose_socks, Hs, (list_to_set_perm_L _ _ Hp). cbn.
    rewrite <- (not_elem_of_list_to_set (C := gset nat)) in Hnin.
    assert (conn_of t ∉ base ∧ conn_of t ≠ ln) as [Hx1 Hx2] by done.
    apply set_eq. intros x. rewrite elem_of_difference, !elem_of_union, !elem_of_singleton.
    destruct (decide (x = conn_of t)) as [->|]; [|tauto]. destruct b; rewrite ?elem_of_singleton, ?elem_of_empty; tauto.
  - intros y Hy. apply Hb. by apply Hsub.
  - intros Hm. unfold conn_end. rewrite Hm, Load_Add_active, Ec, Ha, i64_add_l by done. f_equal.
    rewrite !length_app. cbn. lia.
Qed.

Lemma al_step_inv ln base a0 x y : step ln x y → al_inv ln base a0 x → al_inv ln base a0 y.
Proof.
  intros Hs Hi. destruct Hs as [k ts s c w w' x Ea|b ts s c w w' Ea|b ts s c w|lo b ts s c w|lo ts s c w
    |k lo b ts1 x ts2 s s' c c' w Eo|k lo b ts1 x ts2 s s' c c' w strm Eo|k lo b ts1 x strm ts2 s c w up down sched].
  - destruct Hi as [Hs (Hn & Hb & Hl) Ha Hlo]. pose proof (NetAccept_socks ln w) as Ho. rewrite Ea in Ho.
    destruct Ho as [Hfr Ew]. cbn in *. rewrite Hs in Hfr, Ew.
    rewrite !not_elem_of_union, not_elem_of_singleton, not_elem_of_list_to_set in Hfr.
    split; cbn; [|split; [|split; [|done]]| |done].
    + rewrite Ew. set_solver +.
    + apply NoDup_cons. tauto.
    + intros y [->|Hy]%elem_of_cons; [tauto|by apply Hb].
    + intros Hm. unfold conn_begin. rewrite Hm, Load_Add_active, Load_Add_ne, Ha, i64_add_l by done. f_equal. lia.
  - destruct Hi as [Hs Hc Ha Hlo]. pose proof (NetAccept_socks ln w) as Ho. rewrite Ea in Ho.
    split; cbn in *; try done. congruence.
  - destruct Hi as [Hs Hc Ha Hlo]. split; cbn in *; try done. destruct Hc as (_ & Hb & Hl).
    2: { intros ->. done. }
    unfold close_listener. destruct closes, b; cbn [negb andb]; try done. rewrite NetClose_socks, Hs. apply set_eq. intros y.
    rewrite elem_of_difference, !elem_of_union, !elem_of_singleton, elem_of_empty, elem_of_list_to_set.
    split; [tauto|]. intros [[Hy|[]]|Hy]; (split; [tauto|]); intros ->; [done|]. by apply (Hb ln).
  - destruct Hi as [Hs Hc Ha Hlo]. by split.
  - destruct Hi as [Hs Hc Ha Hlo]. split; cbn in *; try done. destruct Hc as (_ & Hb & Hl).
    rewrite NetClose_socks, Hs. apply set_eq. intros y.
    rewrite elem_of_difference, !elem_of_union, !elem_of_singleton, elem_of_empty, elem_of_list_to_set.
    split; [tauto|]. intros [[Hy|[]]|Hy]; (split; [tauto|]); intros ->; [done|]. by apply (Hb ln).
  - apply (conn_ends ln base a0 k lo b ts1 (Opening x) ts2 s s' c c' w); [|done]. by eapply conn_open_active.
  - destruct Hi as [Hs Hc Ha Hlo]. apply conn_open_active in Eo.
    assert (conn_of <$> ts1 ++ Relaying x strm :: ts2 = conn_of <$> ts1 ++ Opening x :: ts2) as Et
      by by rewrite !fmap_app.
    split; cbn in *; rewrite ?Et; try done. intros Hm. rewrite Eo, Ha, !length_app by done. done.
  - eapply (conn_ends ln base a0 k lo b ts1 (Relaying x strm) ts2); [|done]. apply conn_relay_active.
Qed.

Lemma serveTCP_listen_inv addr s c w ln x :
  in_i64 (Load CTCPActive c) → serveTCP_listen addr s c w = (Some ln, x) →
  al_inv ln (socks w) (Load CTCPActive c) x.
Proof.
  intros Hc. unfold serveTCP_listen. pose proof (NetListen_socks addr w) as Hl.
  destruct (NetListen addr w) as [w' [l|]]; [|done]. intros [= -> <-]. destruct Hl as [Hf Ew].
  split; cbn; [|split; [by constructor|split; [|done]]| |done].
  - rewrite Ew. set_solver +.
  - by intros y ?%not_elem_of_nil.
  - intros _. by rewrite Z.add_0_r, i64_id.
Qed.

(** ** Shutting down *)

Definition task_weight (t : conn_task) : nat := match t with Opening _ => 2 | Relaying _ _ => 1 end.

Definition al_weight (x : al_state S W) : nat :=
  (if al_looping x then 1 else 0) + sum_list_with task_weight (al_tasks x).

(** The listener is closed for good: no further connection can come. *)
Definition al_closed (x : al_state S W) : Prop := al_cancelled x = true ∧ al_listening x = false.

(** [m.wg] is zero. *)
Definition al_idle (x : al_state S W) : Prop := al_looping x = false ∧ al_tasks x = [].

Lemma al_closed_step ln x y :
  step ln x y → al_closed x → al_closed y ∧ (al_weight y < al_weight x)%nat.
Proof.
  intros Hs [Hk Hb]. destruct Hs; cbn in Hk, Hb; try discriminate; subst;
    unfold al_closed, al_weight; cbn; rewrite ?andb_false_r, ?sum_list_with_app; cbn; (split; [done|]); lia.
Qed.

Lemma al_closed_steps ln m x y :
  nsteps (step ln) m x y → al_closed x → al_closed y ∧ (m + al_weight y ≤ al_weight x)%nat.
Proof.
  induction 1 as [x|m x y z Hxy _ IH]; [done|]. intros Hx.
  destruct (al_closed_step _ _ _ Hxy Hx) as [Hy Hlt]. destruct (IH Hy) as [Hz Hle]. split; [done|lia].
Qed.

Lemma al_busy_steps ln x : al_cancelled x = true → ¬ al_idle x → ∃ y, step ln x y.
Proof.
  destruct x as [k lo b ts s c w]. intros Hk Hi. cbn in Hk. subst k. destruct ts as [|[x|x strm] ts].
  - destruct lo; [|by destruct Hi]. eexists. apply al_exit.
  - destruct (conn_open (op := op) routed target x s c) as [[s' c'] [strm|]] eqn:Eo; eexists.
    + by apply (al_open _ _ _ _ _ _ _ _ []).
    + by apply (al_fail _ _ _ _ _ _ _ _ []).
  - eexists. apply (al_relay _ _ _ _ _ _ _ _ [] x strm ts s c w (mkHalf [] None [] []) (mkHalf [] None [] []) []).
Qed.

(** C26: a listener of the client, from its start to its end.  Over every
    interleaving of connections that arrive, streams that open or fail, relays and
    the end of the context, the open sockets are those of the rest of the process,
    the listener until it is closed, and one for each connection being served, and
    the gauge of active connections is their number.  When the context has ended
    the listener can be closed at once; from then on every step brings the end
    nearer, each connection takes at most two and the loop one, as long as one is
    left one can step, and when the wait group is empty all sockets the listener
    ever opened are closed and the gauge is what it was. *)
Theorem listener_shutdown addr s c w ln x0 x
    (Hc : in_i64 (Load CTCPActive c)) (Hl : serveTCP_listen addr s c w = (Some ln, x0))
    (Hx : rtc (step ln) x0 x) :
  al_inv ln (socks w) (Load CTCPActive c) x ∧
  (al_cancelled x = true → al_listening x = true → ∃ y, step ln x y ∧ al_closed y) ∧
  (al_closed x → ∀ m y, nsteps (step ln) m x y →
     (m ≤ al_weight x ≤ 1 + 2 * length (al_tasks x))%nat ∧
     (¬ al_idle y → ∃ z, step ln y z) ∧
     (al_idle y → socks (al_w y) = socks w ∧ (metered = true → Load CTCPActive (al_c y) = Load CTCPActive c))).
Proof.
  assert (∀ z, rtc (step ln) x0 z → al_inv ln (socks w) (Load CTCPActive c) z) as Hinv.
  { intros z Hz. eapply rtc_preserves; [done|intros ???; by eapply al_step_inv|].
    by eapply serveTCP_listen_inv. }
  split; [by apply Hinv|]. split.
  { destruct x as [k lo b ts s1 c1 w1]. cbn. intros -> ->. eexists. split; [apply al_close|by split]. }
  intros Hcl m y Hy. destruct (al_closed_steps _ _ _ _ Hy Hcl) as [[Hk Hb] Hle]. split; [|split].
  - split; [lia|]. unfold al_weight. assert (∀ ts, sum_list_with task_weight ts ≤ 2 * length ts)%nat as Hw.
    { induction ts as [|t ts IH]; [done|]. cbn. destruct t; cbn; lia. }
    specialize (Hw (al_tasks x)). destruct (al_looping x); lia.
  - by apply al_busy_steps.
  - intros [Hlo Ht].
    destruct (Hinv y) as [Hs _ Ha _]; [etrans; [done|apply rtc_nsteps; eauto]|].
    rewrite Hs, Hb, Ht. cbn. rewrite !(right_id_L ∅ (∪)). split; [done|]. intros Hm.
    rewrite Ha, Ht by done. cbn. by rewrite Z.add_0_r, i64_id.
Qed.
End laws.

(** ** A connection that is being served when the context ends *)

#[export] Instance local_sets : LocalNet (gset nat) := {
  NetListen a w := if String.eqb a "" then (w, None) else ({[fresh w]} ∪ w, Some (fresh w));
  NetAccept _ w := ({[fresh w]} ∪ w, Some (fresh w));
  NetClose c w := w ∖ {[c]} }.

#[export] Instance local_sets_laws : LocalNetLaws (gset nat).
Proof.
  refine {| socks w := w |}; [|intros l w; split; [apply is_fresh|done]|done].
  intros a w. simpl. destruct (String.eqb a ""); [done|]. split; [apply is_fresh|done].
Defined.

Abbreviation sample_step := (al_step (op := pool_opener (W := Mock) (D := string)) (W := gset nat) true true false (λ _, "t"%string) 0).

Definition sample_opener : Pool string * Mock := (pool_of two_sessions, mock0).

Definition counted_once : Collector := Add CTCPActive 1 (Add CTCPAccepted 1 zero_collector).

(** Accepted, cancelled, the listener closed, the loop left, the handler done. *)
Lemma listener_shutdown_witness :
  socks (NetClose 1 (NetClose 0 {[0%nat; 1%nat]})) = (∅ : gset nat).
Proof.
  assert (serveTCP_listen "a" sample_opener zero_collector (∅ : gset nat) =
    (Some 0%nat, mkAL false true true [] sample_opener zero_collector {[0%nat]})) as El
    by (unfold serveTCP_listen; simpl; f_equal; by rewrite (right_id_L ∅ (∪))).
  assert (rtc sample_step (mkAL false true true [] sample_opener zero_collector {[0%nat]})
    (mkAL true true false [Opening 1] sample_opener counted_once (NetClose 0 {[0%nat; 1%nat]}))) as Hx.
  { eapply rtc_l; [apply (al_accept _ _ _ _ _ false [] sample_opener zero_collector {[0%nat]} {[0%nat; 1%nat]} 1%nat)|].
    - vm_compute. reflexivity.
    - eapply rtc_l; [apply al_cancel|]. eapply rtc_l; [apply al_close|]. apply rtc_refl. }
  destruct (listener_shutdown true true false (λ _, "t"%string) "a" sample_opener zero_collector ∅ 0
    _ _ ltac:(vm_compute; split; congruence) El Hx) as (_ & _ & H).
  refine (proj1 (proj2 (proj2 (H _ 2%nat (mkAL true false false [] sample_opener (conn_end true counted_once)
    (NetClose 1 (NetClose 0 {[0%nat; 1%nat]}))) _)) _)).
  - by split.
  - eapply nsteps_l; [apply al_exit|]. eapply nsteps_l; [|apply nsteps_O].
    by apply (al_fail _ _ _ _ 0 true false false [] 1 [] sample_opener sample_opener counted_once counted_once).
  - by split.
Defined.
