(* ===== verification/UDPLoop.v ===== *)
(** [serveUDP] of internal/forward/manager.go from listening to its return, with
    its pumps and the goroutine that closes its socket when the context ends.

    [Forward] has what happens to one datagram; here is the loop around it: the
    socket, the two places where the context is looked at, the streams and the end.

    [OpenUDP] looks its key up, dials, and installs the stream in two critical
    sections; here it is one step.  The loop opens one stream at a time and the
    others leave its keys alone, so between the two sections nothing but the end of
    an old pump can come for the key, which then finds no stream to close.  Two
    calls for one key from elsewhere do race. *)

From S2P Require Import Prelude GoStd NetUtil Protocol Config ConfigResolve Transport TunnelPool Upstream Metrics Relay Opener Forward AcceptLoop.

Local Open Scope Z_scope.

(** [net.ResolveUDPAddr], [net.ListenUDP] and [ReadFromUDP]; a read yields the
    sender and the datagram. *)
Class LocalUDP (W : Type) : Type := {
  ResolveUDP : string → option string;
  ListenUDP : string → W → W * option nat;
  ReadFromUDP : nat → W → W * option (string * list Z) }.

Class LocalUDPLaws (W : Type) `{LocalNetLaws W, LocalUDP W} : Prop := {
  ListenUDP_socks a w :
    match ListenUDP a w with
    | (w', Some l) => l ∉ socks w ∧ socks w' = {[l]} ∪ socks w
    | (w', None) => socks w' = socks w end;
  ReadFromUDP_socks l w : socks (ReadFromUDP l w).1 = socks w }.

(** Where the loop is: at the [select], with a datagram, with a stream to write it
    to, or returned. *)
Inductive ul_phase : Type :=
| ULTop | ULGot (caddr : string) (pkt : list Z)
| ULWrite (r : nat * bool * Z) (pkt : list Z) | ULEnded.

(** [ul_open]: the socket is open. *)
Record ul_state (S W : Type) : Type := mkUL {
  ul_cancelled : bool; ul_at : ul_phase; ul_open : bool; ul_pumps : list (nat * Z);
  ul_s : S; ul_c : Collector; ul_w : W }.
Arguments mkUL {S W} _ _ _ _ _ _ _.
Arguments ul_cancelled {S W} _.
Arguments ul_at {S W} _.
Arguments ul_open {S W} _.
Arguments ul_pumps {S W} _.
Arguments ul_s {S W} _.
Arguments ul_c {S W} _.
Arguments ul_w {S W} _.

Section loop.
Context {S E W : Type} {op : Opener S E string} `{LocalNet W} `{LocalUDP W}.
Context (routed : bool) (target : string).
Implicit Types (s : S) (c : Collector) (w : W).

(** Up to the loop; [None]: the address does not resolve or cannot be listened on. *)
Definition serveUDP_start (listen : string) s c w : option nat * ul_state S W :=
  match ResolveUDP listen with
  | None => (None, mkUL false ULEnded false [] s c w)
  | Some laddr =>
      match ListenUDP laddr w with
      | (w, None) => (None, mkUL false ULEnded false [] s c w)
      | (w, Some conn) => (Some conn, mkUL false ULTop true [] s c w)
      end
  end.

(** A datagram is counted unless it is empty. *)
Definition received (caddr : string) (pkt : list Z) c : ul_phase * Collector :=
  match pkt with [] => (ULTop, c) | _ => (ULGot caddr pkt, Add CUDPPackets 1 c) end.

(** What the loop does with a datagram: nothing without an opener, a flow, or a
    stream to open. *)
Definition forward_got (caddr : string) (pkt : list Z) s c : ul_phase * S * Collector :=
  if negb routed then (ULTop, s, c) else
  match op_SupportsDatagrams s with
  | (s, true) => let '(s, c, _) := serveUDP_flow caddr target pkt s c in (ULTop, s, c)
  | (s, false) =>
      match serveUDP_open caddr target s with
      | (s, None) => (ULTop, s, c)
      | (s, Some r) => (ULWrite r pkt, s, c)
      end
  end.

(** The deferred [conn.Close]. *)
Definition close_socket (ln : nat) (opened : bool) w : W := if opened then NetClose ln w else w.

(** The listener and its pumps. *)
Inductive ul_own (ln : nat) : ul_state S W → ul_state S W → Prop :=
| ul_exit b ps s c w :
    ul_own ln (mkUL true ULTop b ps s c w) (mkUL true ULEnded false ps s c (close_socket ln b w))
| ul_read k ps s c w w' caddr pkt a c' :
    ReadFromUDP ln w = (w', Some (caddr, pkt)) → received caddr pkt c = (a, c') →
    ul_own ln (mkUL k ULTop true ps s c w) (mkUL k a true ps s c' w')
| ul_read_error k b ps s c w w' :
    ReadFromUDP ln w = (w', None) →
    ul_own ln (mkUL k ULTop b ps s c w)
      (if k then mkUL k ULEnded false ps s c (close_socket ln b w') else mkUL k ULTop b ps s c w')
| ul_got k b ps s c w caddr pkt a s' c' :
    forward_got caddr pkt s c = (a, s', c') →
    ul_own ln (mkUL k (ULGot caddr pkt) b ps s c w) (mkUL k a b ps s' c' w)
| ul_write k b ps s c w r pkt s' c' e :
    serveUDP_write r pkt s c = (s', c', e) →
    ul_own ln (mkUL k (ULWrite r pkt) b ps s c w) (mkUL k ULTop b (started e ++ ps) s' c' w)
| ul_pump_end k a b ps1 strm key ps2 s c w sink r :
    ul_own ln (mkUL k a b (ps1 ++ (strm, key) :: ps2) s c w)
      (mkUL k a b (ps1 ++ ps2) (pumpUDP key sink r s c).1.1 (pumpUDP key sink r s c).1.2 w).

(** ** Its surroundings *)

Context `{!OpenerLaws S E string}.

(** The keys of its streams. *)
Definition mine (key : Z) : Prop := ∃ caddr, key = udp_key caddr target.

(** The end of the context, the goroutine that then closes the socket, and what
    others do with the opener: anything but to its keys. *)
Inductive ul_outside (ln : nat) : ul_state S W → ul_state S W → Prop :=
| ul_cancel k a b ps s c w : ul_outside ln (mkUL k a b ps s c w) (mkUL true a b ps s c w)
| ul_close a ps s c w :
    ul_outside ln (mkUL true a true ps s c w) (mkUL true a false ps s c (NetClose ln w))
| ul_env k a b ps s s' c c' w :
    op_ok s' → op_closed s ⊆ op_closed s' →
    (∀ key, mine key → udp_table s' !! key = udp_table s !! key) →
    ul_outside ln (mkUL k a b ps s c w) (mkUL k a b ps s' c' w).

Definition ul_step (ln : nat) (x y : ul_state S W) : Prop := ul_own ln x y ∨ ul_outside ln x y.

(** The others bring the listener no work. *)
Definition ul_live (ln : nat) (l : option nat) (x y : ul_state S W) : Prop :=
  match l with None => ul_own ln x y | Some c => c = 0%nat ∧ ul_outside ln x y end.
End loop.

(** ** The streams *)

Section streams.
Context {S Er W : Type} {op : Opener S Er string} `{!OpenerLaws S Er string} `{LocalUDPLaws W}.
Context (routed : bool) (target : string).
Implicit Types x y : ul_state S W.

Abbreviation own := (ul_own (op := op) (W := W) routed target).
Abbreviation step := (ul_step (op := op) (W := W) routed target).
Abbreviation mine := (mine (op := op) target).

(** Every stream of the table is pumped, or is about to be written to for the
    first time. *)
Definition attended x : Prop :=
  ∀ key strm, mine key → udp_table (ul_s x) !! key = Some strm →
    (strm, key) ∈ ul_pumps x ∨ ∃ pkt, ul_at x = ULWrite (strm, true, key) pkt.

(** The stream is closed, or still in the table. *)
Definition kept (strm : nat) (s : S) : Prop :=
  strm ∈ op_closed s ∨ ∃ key, mine key ∧ udp_table s !! key = Some strm.

Record ul_streams x : Prop := mkULStreams {
  us_ok : op_ok (ul_s x);
  us_attended : attended x;
  us_key : ∀ r pkt, ul_at x = ULWrite r pkt → mine r.2;
  us_kept : ∀ r pkt, ul_at x = ULWrite r pkt → kept r.1.1 (ul_s x) }.

Lemma settles_kept s s' strm : settles s s' → kept strm s → kept strm s'.
Proof.
  intros (_ & Hc & Ht) [Hs|(key & Hm & Hk)]; [left; by apply Hc|].
  destruct (Ht _ _ Hk) as [?|?]; [right; by exists key|by left].
Qed.

(** A turn up to the stream to write to. *)
Lemma forward_got_streams caddr pkt s c a s' c' : op_ok s →
  forward_got (op := op) routed target caddr pkt s c = (a, s', c') →
  settles s s' ∧
  ((a = ULTop ∧ udp_table s' ⊆ udp_table s) ∨
   ∃ strm isNew key, a = ULWrite (strm, isNew, key) pkt ∧ mine key ∧
     udp_table s' = <[key := strm]> (udp_table s) ∧
     (isNew = false → udp_table s !! key = Some strm)).
Proof.
  intros Ho. unfold forward_got. destruct routed; cbn [negb].
  2: { intros [= <- <- <-]. split; [|by left]. split; [done|]. split; [done|]. by left. }
  pose proof (SupportsDatagrams_law s Ho) as Q. pose proof (proj1 Q) as Ho1. apply quiet_settles in Q as [S1 E1].
  destruct (op_SupportsDatagrams s) as [s1 []]; cbn in *.
  - destruct (serveUDP_flow_settles caddr target pkt s1 c Ho1) as [S2 E2].
    destruct (serveUDP_flow caddr target pkt s1 c) as [[s2 c2] e]. cbn in *. intros [= <- <- <-].
    split; [by eapply settles_trans|]. left. by rewrite E2, E1.
  - destruct (serveUDP_open caddr target s1) as [s2 r] eqn:Eo.
    destruct (serveUDP_open_settles _ _ _ _ _ Ho1 Eo) as [S2 E2].
    destruct r as [[[strm isNew] key]|]; intros [= <- <- <-]; (split; [by eapply settles_trans|]).
    + destruct E2 as (-> & E2 & E3). right. exists strm, isNew, (udp_key caddr target).
      split; [done|]. split; [by exists caddr|]. by rewrite E2, <- E1.
    + left. by rewrite <- E1.
Qed.

(** A state whose table has only streams that had an attendant keeps it. *)
Lemma attended_sub k a b b' ps ps' s s' c c' w w' k' a' :
  attended (mkUL k a b ps s c w) → udp_table s' ⊆ udp_table s →
  (∀ strm key, udp_table s' !! key = Some strm →
     (strm, key) ∈ ps ∨ (∃ pkt, a = ULWrite (strm, true, key) pkt) →
     (strm, key) ∈ ps' ∨ (∃ pkt, a' = ULWrite (strm, true, key) pkt)) →
  attended (mkUL k' a' b' ps' s' c' w').
Proof.
  intros Ha Hsub Hto key strm Hm Hk. cbn in *. apply Hto; [done|]. apply (Ha key strm Hm). cbn.
  by eapply lookup_weaken.
Qed.

Lemma own_streams ln x y :
  own ln x y → ul_streams x → ul_streams y ∧ settles (ul_s x) (ul_s y).
Proof.
  assert (∀ s, op_ok s → settles s s) as Hrefl.
  { intros s Hs. split; [done|]. split; [done|]. by left. }
  intros Hs [Ho Ha Hm Hk]. destruct Hs as [b ps s c w|k ps s c w w' caddr pkt a c' Hr Hc|k b ps s c w w' Hr
    |k b ps s c w caddr pkt a s' c' Hg|k b ps s c w r pkt s' c' e Hw|k a b ps1 strm key ps2 s c w sink r]; cbn in *.
  - split; [|by apply Hrefl]. split; cbn; [done| |done..]. eapply attended_sub; [exact Ha|done|].
    by intros ?? _ [?|[? [=]]]; left.
  - split; [|by apply Hrefl]. assert (∀ r p, a ≠ ULWrite r p) as Hne by (by destruct pkt; injection Hc as <- _).
    split; cbn; [done| |by intros ?? ?%Hne..]. eapply attended_sub; [exact Ha|done|].
    by intros ?? _ [?|[? [=]]]; left.
  - split; [|destruct k; by apply Hrefl]. destruct k; (split; cbn; [done| |done..]); (eapply attended_sub; [exact Ha|done|]);
      by intros ?? _ [?|[? [=]]]; left.
  - destruct (forward_got_streams _ _ _ _ _ _ _ Ho Hg) as [Hs [[-> Hsub]|(strm & isNew & key & -> & Hmk & Et & El)]];
      (split; [|done]); pose proof (proj1 Hs) as Ho'; split; cbn; try done.
    + eapply attended_sub; [exact Ha|done|]. by intros ?? _ [?|[? [=]]]; left.
    + intros key' strm' Hm' Hk'. cbn in *. rewrite Et, lookup_insert_Some in Hk'.
      destruct Hk' as [[<- <-]|[Hne Hk']]; [destruct isNew; [right; by exists pkt|]|];
        (destruct (Ha _ _ Hm' ltac:(cbn; eauto)) as [?|[? [=]]]; by left).
    + by intros ?? [= <- _].
    + intros ?? [= <- _]. right. exists key. split; [done|]. cbn. rewrite Et. apply lookup_insert_eq.
  - destruct r as [[strm isNew] key]. destruct (serveUDP_write_settles _ _ _ _ _ _ _ _ _ Ho Hw) as (Hs & Hsub & He).
    split; [|done]. pose proof (proj1 Hs) as Ho'. split; cbn; [done| |done..]. eapply attended_sub; [exact Ha|done|].
    intros strm' key' Hk' [Hp|[pkt' Hp]]; left; apply elem_of_app; [by right|].
    injection Hp as -> -> -> _. destruct He as [->|[_ He]]; [left; cbn; by left|congruence].
  - assert ((pumpUDP (op := op) key sink r s c).1.1 = (op_CloseUDP key s).1) as -> by (unfold pumpUDP; by destruct (pump_loop _ _ _ _)).
    destruct (CloseUDP_settles key s Ho) as [Hs Et]. split; [|done]. split; cbn; [apply Hs| |done|].
    + eapply attended_sub; [exact Ha|rewrite Et; apply delete_subseteq|]. intros strm' key' Hk' [Hp|Hp]; [|by right].
      rewrite Et, lookup_delete_Some in Hk'. left. revert Hp. rewrite !elem_of_app, elem_of_cons.
      intros [?|[[= -> ->]|?]]; [by left|by destruct Hk'|by right].
    + intros r' p' Ha'. eapply settles_kept; [exact Hs|by eapply Hk].
Qed.

Lemma step_streams ln x y :
  step ln x y → ul_streams x → ul_streams y ∧ ∀ strm, kept strm (ul_s x) → kept strm (ul_s y).
Proof.
  intros [Hs|Hs] Hi.
  { destruct (own_streams _ _ _ Hs Hi) as [Hy Hset]. split; [done|]. intros strm. by apply settles_kept. }
  destruct Hi as [Ho Ha Hm Hk]. destruct Hs as [k a b ps s c w|a ps s c w|k a b ps s s' c c' w Ho' Hc Ht]; cbn in *;
    [by split..|].
  assert (∀ strm, kept strm s → kept strm s') as Hkept.
  { intros strm [Hs|(key & Hmk & Hs)]; [left; by apply Hc|right]. exists key. split; [done|]. by rewrite Ht. }
  split; [|done]. split; cbn; [done| |done|intros r p Hr; by eapply Hkept, Hk].
  intros key strm Hmk Hs. cbn in *. rewrite Ht in Hs by done. by apply (Ha key strm Hmk).
Qed.

Lemma run_streams ln x y :
  rtc (step ln) x y → ul_streams x → ul_streams y ∧ ∀ strm, kept strm (ul_s x) → kept strm (ul_s y).
Proof.
  induction 1 as [x|x y z Hxy _ IH]; [done|]. intros Hx.
  destruct (step_streams _ _ _ Hxy Hx) as [Hy Hk]. destruct (IH Hy) as [Hz Hk']. split; [done|]. auto.
Qed.
End streams.

(** ** The socket, and the end *)

Section laws.
Context {S Er W : Type} {op : Opener S Er string} `{!OpenerLaws S Er string} `{LocalUDPLaws W}.
Context (routed : bool) (target : string).

Abbreviation own := (ul_own (op := op) (W := W) routed target).
Abbreviation step := (ul_step (op := op) (W := W) routed target).
Abbreviation live := (ul_live (op := op) (W := W) routed target).

(** The socket is the listener's alone; it is closed after the context has ended,
    and when the loop has returned. *)
Record ul_inv (ln : nat) (base : gset nat) (x : ul_state S W) : Prop := mkULInv {
  ui_socks : socks (ul_w x) = base ∪ (if ul_open x then {[ln]} else ∅);
  ui_base : ln ∉ base;
  ui_closed : ul_open x = false → ul_cancelled x = true;
  ui_ended : ul_at x = ULEnded → ul_open x = false }.

Lemma close_socket_socks ln base (b : bool) (w : W) :
  ln ∉ base → socks w = base ∪ (if b then {[ln]} else ∅) → socks (close_socket ln b w) = base ∪ ∅.
Proof.
  intros Hl Hw. unfold close_socket. destruct b; [|done]. rewrite NetClose_socks, Hw.
  apply set_eq. intros z. rewrite elem_of_difference, !elem_of_union, elem_of_singleton, elem_of_empty.
  split; [tauto|]. intros [Hz|[]]. split; [by left|]. by intros ->.
Qed.

Lemma ul_own_inv ln base x y : own ln x y → ul_inv ln base x → ul_inv ln base y.
Proof.
  intros Hs [Hw Hb Hc He]. destruct Hs as [b ps s c w|k ps s c w w' caddr pkt a c' Hr Hc'|k b ps s c w w' Hr
    |k b ps s c w caddr pkt a s' c' Hg|k b ps s c w r pkt s' c' e Hw'|k a b ps1 strm key ps2 s c w sink r]; cbn in *.
  - split; cbn; [by apply close_socket_socks|done..].
  - pose proof (ReadFromUDP_socks ln w) as Ews. rewrite Hr in Ews. cbn in Ews.
    split; cbn; [congruence|done|done|]. destruct pkt; by injection Hc' as <- _.
  - pose proof (ReadFromUDP_socks ln w) as Ews. rewrite Hr in Ews. cbn in Ews.
    destruct k; split; cbn; try done; [apply close_socket_socks; [done|congruence]|congruence].
  - split; cbn; try done. unfold forward_got in Hg. destruct routed; [|by injection Hg as <- _ _].
    cbn in Hg. destruct (op_SupportsDatagrams s) as [s1 []].
    + destruct (serveUDP_flow caddr target pkt s1 c) as [[? ?] ?]. by injection Hg as <- _ _.
    + destruct (serveUDP_open caddr target s1) as [s2 [r|]]; by injection Hg as <- _ _.
  - by split.
  - by split.
Qed.

Lemma ul_step_inv ln base x y : step ln x y → ul_inv ln base x → ul_inv ln base y.
Proof.
  intros [Hs|Hs] Hi; [by eapply ul_own_inv|].
  destruct Hs as [k a b ps s c w|a ps s c w|k a b ps s s' c c' w Ho Hk Et];
    destruct Hi as [Hw Hb Hc He]; cbn in *; split; cbn; try done.
  by apply (close_socket_socks ln base true).
Qed.

Definition phase_weight (a : ul_phase) : nat :=
  match a with ULTop => 1 | ULGot _ _ => 4 | ULWrite _ _ => 3 | ULEnded => 0 end.
Definition ul_weight (x : ul_state S W) : nat := phase_weight (ul_at x) + length (ul_pumps x).
Definition ul_closed (x : ul_state S W) : Prop := ul_cancelled x = true ∧ ul_open x = false.
Definition ul_idle (x : ul_state S W) : Prop := ul_at x = ULEnded ∧ ul_pumps x = [].

Lemma ul_closed_step ln x y : own ln x y → ul_closed x → ul_closed y ∧ (ul_weight y < ul_weight x)%nat.
Proof.
  intros [b ps s c w|k ps s c w w' caddr pkt a c' Hr Hc'|k b ps s c w w' Hr
    |k b ps s c w caddr pkt a s' c' Hg|k b ps s c w r pkt s' c' e Hw'|k a b ps1 strm key ps2 s c w sink r] [Hk Hb];
    cbn in Hk, Hb; try discriminate; subst; unfold ul_closed, ul_weight; cbn; (split; [done|]); try lia.
  - unfold forward_got in Hg. destruct routed; [|by injection Hg as <- _ _; cbn; lia].
    cbn in Hg. destruct (op_SupportsDatagrams s) as [s1 []].
    + destruct (serveUDP_flow caddr target pkt s1 c) as [[? ?] ?]. injection Hg as <- _ _. cbn. lia.
    + destruct (serveUDP_open caddr target s1) as [s2 [r|]]; injection Hg as <- _ _; cbn; lia.
  - rewrite length_app. assert (length (started e) ≤ 1)%nat; [|lia]. destruct e as [| | | |? ? []]; cbn; lia.
  - rewrite !length_app. cbn. lia.
Qed.

(** Whatever the others do in between. *)
Lemma ul_closed_runs ln m x y :
  budgeted (live ln) m 0 x y → ul_closed x → ul_closed y ∧ (m + ul_weight y ≤ ul_weight x)%nat.
Proof.
  intros Hr Hx.
  assert (∀ l x y, live ln l x y → ul_closed x →
    ul_closed y ∧ match l with None => ul_weight y < ul_weight x | Some c => ul_weight y ≤ ul_weight x + c end)%nat as Hs.
  { intros [n|] x1 y1; cbn [ul_live]; [|by apply ul_closed_step]. intros [-> Ho].
    destruct Ho; intros [? ?]; by (split; [split|unfold ul_weight; cbn in *; lia]). }
  destruct (budgeted_bound (live ln) ul_closed ul_weight m 0 x y) as [Hy Hle]; [by apply Hs..|done|done|].
  split; [done|lia].
Qed.

Lemma ul_busy_steps ln x : ul_cancelled x = true → ul_idle x ∨ ∃ y, own ln x y.
Proof.
  destruct x as [k a b ps s c w]. cbn. intros ->. destruct ps as [|[strm key] ps].
  2: { right. eexists. by apply (ul_pump_end _ _ _ _ _ _ []  strm key ps s c w None []). }
  destruct a as [|caddr pkt|r pkt|]; [right|right|right|by left].
  - eexists. apply ul_exit.
  - destruct (forward_got (op := op) routed target caddr pkt s c) as [[a s'] c'] eqn:E. eexists. by apply ul_got.
  - destruct (serveUDP_write r pkt s c) as [[s' c'] e] eqn:E. eexists. by eapply ul_write.
Qed.

Lemma live_run ln m b x y : budgeted (live ln) m b x y → rtc (step ln) x y.
Proof.
  induction 1 as [x|n b x y z Hs _ IH|c n b x y z [_ Hs] _ IH]; [apply rtc_refl|..];
    (eapply rtc_l; [|exact IH]); [by left|by right].
Qed.

(** C8: a UDP listener of the client, from its start to its end.  Over every
    interleaving of datagrams and read errors, of streams that open or fail, of its
    pumps, of the end of the context, and of others who use the opener but not the
    keys of this listener (its clients, its target), the sockets are those of the
    rest of the process and the listener's, which is closed only after the context
    has ended; each of its streams in the table has a pump, or is about to be
    written to for the first time.  When the context has ended and the socket is
    closed, the loop takes at most four more steps (with those of a pump it still
    starts) and each pump one, whatever the
    others do; until both are gone one of them can step; and then the socket is
    closed, and every stream that was ever opened for a datagram is closed and out
    of the table.  An address that does not resolve or cannot be listened on leaves
    nothing.  The opener is a pool, or the manager's while it keeps choosing one
    pool ([pinned]). *)
Theorem udp_listener listen s c w ln x0
    (Hok : op_ok s) (Hs0 : ∀ key, mine target key → udp_table s !! key = None)
    (Hl : serveUDP_start listen s c w = (ln, x0)) :
  match ln with
  | None => ul_idle x0 ∧ socks (ul_w x0) = socks w ∧ ul_s x0 = s
  | Some ln =>
      (∀ x, rtc (step ln) x0 x →
         ul_inv ln (socks w) x ∧ attended target x ∧
         (ul_cancelled x = true → ul_open x = true → ∃ y, step ln x y ∧ ul_closed y) ∧
         (ul_closed x → ∀ m y, budgeted (live ln) m 0 x y →
            (m ≤ ul_weight x ≤ 4 + length (ul_pumps x))%nat ∧
            (¬ ul_idle y → ∃ z, own ln y z) ∧
            (ul_idle y → socks (ul_w y) = socks w ∧
               ∀ key, mine target key → udp_table (ul_s y) !! key = None))) ∧
      (∀ x strm isNew key pkt y, rtc (step ln) x0 x → ul_at x = ULWrite (strm, isNew, key) pkt →
         rtc (step ln) x y → ul_idle y → strm ∈ op_closed (ul_s y))
  end.
Proof.
  unfold serveUDP_start in Hl. destruct (ResolveUDP listen) as [la|]; [|by injection Hl as <- <-].
  pose proof (ListenUDP_socks la w) as Hn. destruct (ListenUDP la w) as [w1 [l|]]; injection Hl as <- <-; [|done].
  destruct Hn as [Hf Ew]. set (x0 := mkUL false ULTop true [] s c w1) in *.
  assert (ul_streams (W := W) target x0) as Hx0.
  { split; cbn; [done| |done..]. intros key strm Hm Hk. cbn in Hk. by rewrite Hs0 in Hk. }
  assert (∀ y, rtc (step l) x0 y → ul_inv l (socks w) y ∧ ul_streams target y) as Hinv.
  { intros y Hy. split; [|by eapply run_streams].
    eapply rtc_preserves; [exact Hy|intros ???; by eapply ul_step_inv|]. split; cbn; [|done..]. rewrite Ew. set_solver +. }
  assert (∀ y, rtc (step l) x0 y → ul_idle y → ∀ key, mine target key → udp_table (ul_s y) !! key = None) as Hnone.
  { intros y Hy [E1 E2] k Hm. destruct (Hinv y Hy) as [_ Sy].
    destruct (udp_table (ul_s y) !! k) as [t|] eqn:Ek; [|done]. exfalso.
    destruct (us_attended _ _ Sy k t Hm Ek) as [Hp|[p Hp]]; [|congruence].
    rewrite E2 in Hp. by apply not_elem_of_nil in Hp. }
  split.
  - intros x Hx. destruct (Hinv x Hx) as (Hi & Ha). split; [done|]. split; [apply Ha|]. split.
    { destruct x as [k a b ps s1 c1 wx]. cbn. intros -> ->. eexists. split; [right; apply ul_close|by split]. }
    intros Hcl m y Hy. destruct (ul_closed_runs _ _ _ _ Hy Hcl) as [Hcly Hle]. split; [|split].
    + unfold ul_weight in *. split; [lia|]. destruct (ul_at x); cbn; lia.
    + intros Hni. destruct (ul_busy_steps l y) as [?|?]; [apply Hcly|done..].
    + assert (rtc (step l) x0 y) as Hxy by (etrans; [exact Hx|by eapply live_run]).
      intros Hid. destruct (Hinv y Hxy) as [Iy _]. split; [|by apply Hnone].
      rewrite (ui_socks _ _ _ Iy), (proj2 Hcly). by rewrite (right_id_L ∅ (∪)).
  - intros x strm isNew key pkt y Hx Hw Hy Hid. destruct (Hinv x Hx) as [_ Sx].
    destruct (run_streams _ _ _ _ _ Hy Sx) as [_ Hk].
    destruct (Hk strm (us_kept _ _ Sx _ _ Hw)) as [?|(k & Hm & Hs)]; [done|].
    rewrite (Hnone y) in Hs; [done|by etrans|done..].
Qed.
End laws.

(** ** A datagram arrives, and the context ends *)

#[export] Instance local_sets_udp : LocalUDP (gset nat) := {
  ResolveUDP a := if String.eqb a "" then None else Some a;
  ListenUDP _ w := ({[fresh w]} ∪ w, Some (fresh w));
  ReadFromUDP _ w := (w, Some ("127.0.0.1:9000"%string, [9])) }.

#[export] Instance local_sets_udp_laws : LocalUDPLaws (gset nat).
Proof. split; [|done]. intros a w. split; [apply is_fresh|done]. Qed.

(** The opener of a rule bound to upstream a, although the manager takes turns. *)
Definition bound_manager : Manager := sample_manager StrategyRoundRobin true true.
Definition bound_state : Manager * gmap nat (Pool string) * closing :=
  (bound_manager, {[0%nat := pool_of two_sessions]}, (mock0, ∅)).

Abbreviation bound_opener := (manager_opener (W := closing) (D := string) (OBound "a")).
Abbreviation sample_ul_step :=
  (ul_step (op := bound_opener) (OpenerLaws0 := pinned_opener_laws (OBound "a") 0) (W := gset nat) true "8.8.8.8:53" 0).

(** Its stream is opened and written to after the socket is closed; then the loop
    returns and the pump ends, and the stream is closed. *)
Lemma udp_listener_witness : ∃ y : ul_state (Manager * gmap nat (Pool string) * closing) (gset nat),
  ul_idle y ∧ 100%nat ∈ closed (ul_s y).2.
Proof.
  set (s0 := bound_state). set (k := addrPairKey "127.0.0.1:9000" "8.8.8.8:53").
  set (c1 := Add CUDPPackets 1 zero_collector). set (w1 := {[0%nat]} ∪ ∅ : gset nat).
  destruct (forward_got (op := bound_opener) true "8.8.8.8:53" "127.0.0.1:9000" [9] s0 c1) as [[a s1] c1'] eqn:Eg.
  assert (a = ULWrite (100%nat, true, k) [9]) as -> by (vm_compute in Eg; by injection Eg as <- _ _).
  destruct (serveUDP_write (op := bound_opener) (100%nat, true, k) [9] s1 c1') as [[s2 c2] e] eqn:Ew.
  assert (started e = [(100%nat, k)]) as Ee.
  { vm_compute in Eg. injection Eg as <- <-. vm_compute in Ew. by injection Ew as _ _ <-. }
  set (x0 := mkUL false ULTop true [] s0 zero_collector w1).
  set (x := mkUL true (ULWrite (100%nat, true, k) [9]) false [] s1 c1' (NetClose 0 w1)).
  assert (rtc sample_ul_step x0 x) as Hx.
  { eapply rtc_l; [left; apply (ul_read _ _ _ false [] s0 zero_collector w1 w1 "127.0.0.1:9000" [9] (ULGot "127.0.0.1:9000" [9]) c1); reflexivity|].
    eapply rtc_l; [right; apply ul_cancel|]. eapply rtc_l; [right; apply ul_close|].
    eapply rtc_l; [left; apply (ul_got _ _ _ _ _ _ _ _ _ _ _ _ _ _ Eg)|apply rtc_refl]. }
  set (y := mkUL true ULEnded false [] (pumpUDP (op := bound_opener) k None [] s2 c2).1.1
         (pumpUDP (op := bound_opener) k None [] s2 c2).1.2 (NetClose 0 w1)).
  assert (rtc sample_ul_step x y) as Hy.
  { eapply rtc_l; [left; eapply ul_write; exact Ew|]. rewrite Ee.
    eapply rtc_l; [left; apply ul_exit|]. eapply rtc_l; [|apply rtc_refl].
    left. apply (ul_pump_end _ _ _ _ _ _ [] 100%nat k [] s2 c2 _ None []). }
  assert (serveUDP_start (S := Manager * gmap nat (Pool string) * closing) "a" s0 zero_collector (∅ : gset nat) = (Some 0%nat, x0)) as Es by reflexivity.
  assert (pinned_ok (D := string) (OBound "a") 0 s0) as Hok.
  { split; [reflexivity|by eexists]. }
  exists y. split; [done|].
  refine (proj2 (udp_listener (op := bound_opener) (OpenerLaws0 := pinned_opener_laws (OBound "a") 0) true "8.8.8.8:53" "a"
    s0 zero_collector ∅ (Some 0%nat) x0 Hok _ Es) x 100%nat true k [9] y Hx eq_refl Hy _); [|done].
  intros key _. reflexivity.
Defined.
