(* ===== verification/Services.v ===== *)
(** [startServices] and [stopServices] of internal/tunnel/client.go: the listeners
    of a client over its reloads.

    A generation of services shares one context.  What runs is a list of [task]s
    (listeners); the tasks of forward and redirect are waited for through
    [svcWg], those of SOCKS5 are not, because [socks5.Server.Start] returns at
    once.  A call of [startServices] is a goroutine between its critical
    sections: a signal and each request of the admin API make one of their own,
    and nothing serialises them.  [svc_step] interleaves the calls and the tasks,
    until the client itself is shut down. *)

From S2P Require Import Prelude GoStd NetUtil Config Transport TunnelPool Metrics Relay Opener Forward Netfilter Redirect.

Local Open Scope Z_scope.

(** ** The services of a configuration *)

Definition forwardRulesFromConfig (cfg : Config) : list Rule :=
  (λ r, mkRule (fr_Listen r) (fr_Target r)
          (if String.eqb (fr_Protocol r) "" then "tcp" else fr_Protocol r) (fr_BindUpstream r))
    <$> cfg_Forward cfg.

Definition enabled_range (cfg : Config) : option RangeConfig :=
  r ← cfg_Range cfg; if rg_Enabled r then Some r else None.

(** Errors of the two parsers are ignored. *)
Definition redirectConfig (r : RangeConfig) : RedirectConfig :=
  mkRedirect (rg_RedirectPort r) (rg_TargetHost r)
    (match PortRanges r with Ok l => l | Err _ => [] end)
    (match ExcludePorts r with Ok l => l | Err _ => [] end) (rg_BindUpstream r).

Inductive task : Type :=
| TForward (s : service) | TSocks (r : SOCKS5Rule) | TRedirect (c : RedirectConfig).

(** The goroutines that [startServices] leaves running, each with whether
    [svcWg] waits for it; [redirectOk] is whether [redirect.Manager.Start]
    succeeded. *)
Definition services (redirectOk : bool) (cfg : Config) : list (task * bool) :=
  match Forward.Start (forwardRulesFromConfig cfg) with
  | (l, Some _) => (λ s, (TForward s, false)) <$> l
  | (l, None) =>
      ((λ s, (TForward s, true)) <$> l) ++
      ((λ r, (TSocks r, false)) <$> cfg_SOCKS5 cfg) ++
      match enabled_range cfg with
      | Some r => if redirectOk then [(TRedirect (redirectConfig r), true)] else []
      | None => []
      end
  end.

(** The address a task listens on. *)
Definition task_addr (t : task) : string * string :=
  match t with
  | TForward (ServeTCP r) => ("tcp", r_Listen r)
  | TForward (ServeUDP r) => ("udp", r_Listen r)
  | TSocks r => ("tcp", sr_Listen r)
  | TRedirect c => ("tcp", ":" +:+ Itoa (rd_RedirectPort c))
  end%string.

(** ** Calls and tasks *)

Record running : Type := mkRunning {
  rt_gen : nat; rt_task : task; rt_waited : bool; rt_listening : bool }.

(** Where a call of [startServices] is: before the lock, in [svcWg.Wait], before
    the second lock, and about to start the services of its generation. *)
Inductive call : Type :=
| CStop (cfg : Config) | CWait (cfg : Config) | CSet (cfg : Config)
| CStart (cfg : Config) (gen : nat).

Record svc_state : Type := mkSvc {
  sv_tasks : list running;
  sv_cancelled : gset nat;         (* generations whose context has ended *)
  sv_cancel : option nat;          (* [svcCancel] *)
  sv_next : nat;                   (* the next generation *)
  sv_calls : gmap nat call }.

Definition start_tasks (gen : nat) (l : list (task * bool)) : list running :=
  (λ '(t, b), mkRunning gen t b (match t with TRedirect _ => true | _ => false end)) <$> l.

Definition busy (a : string * string) (ts : list running) : Prop :=
  ∃ t, t ∈ ts ∧ rt_listening t = true ∧ task_addr (rt_task t) = a.

Definition listening (t : running) : running :=
  mkRunning (rt_gen t) (rt_task t) (rt_waited t) true.

(** The steps other than the start of a call. *)
Inductive svc_step : svc_state → svc_state → Prop :=
| call_stop i cfg ts cc c n cs :
    cs !! i = Some (CStop cfg) →
    svc_step (mkSvc ts cc c n cs)
      (match c with
       | Some g => mkSvc ts ({[g]} ∪ cc) None n (<[i := CWait cfg]> cs)
       | None => mkSvc ts cc None n (<[i := CSet cfg]> cs)
       end)
| call_wait i cfg ts cc c n cs :
    cs !! i = Some (CWait cfg) → Forall (λ t, rt_waited t = false) ts →
    svc_step (mkSvc ts cc c n cs) (mkSvc ts cc c n (<[i := CSet cfg]> cs))
| call_set i cfg ts cc c n cs :
    cs !! i = Some (CSet cfg) →
    svc_step (mkSvc ts cc c n cs) (mkSvc ts cc (Some n) (S n) (<[i := CStart cfg n]> cs))
| call_start i cfg gen ok ts cc c n cs :
    cs !! i = Some (CStart cfg gen) →
    svc_step (mkSvc ts cc c n cs)
      (mkSvc (ts ++ start_tasks gen (services ok cfg)) cc c n (delete i cs))
| task_listen t ts1 ts2 cc c n cs :
    ¬ busy (task_addr (rt_task t)) (ts1 ++ t :: ts2) →
    svc_step (mkSvc (ts1 ++ t :: ts2) cc c n cs) (mkSvc (ts1 ++ listening t :: ts2) cc c n cs)
| task_listen_fails t ts1 ts2 cc c n cs :
    rt_listening t = false →
    svc_step (mkSvc (ts1 ++ t :: ts2) cc c n cs) (mkSvc (ts1 ++ ts2) cc c n cs)
| task_end t ts1 ts2 cc c n cs :
    rt_gen t ∈ cc →
    svc_step (mkSvc (ts1 ++ t :: ts2) cc c n cs) (mkSvc (ts1 ++ ts2) cc c n cs).

(** A call starts: a reload that has come to [startServices]. *)
Definition begin_call (i : nat) (cfg : Config) (s : svc_state) : svc_state :=
  mkSvc (sv_tasks s) (sv_cancelled s) (sv_cancel s) (sv_next s) (<[i := CStop cfg]> (sv_calls s)).

Inductive any_step : svc_state → svc_state → Prop :=
| any_call i cfg s : sv_calls s !! i = None → any_step s (begin_call i cfg s)
| any_svc s s' : svc_step s s' → any_step s s'.

(** Reloads one at a time. *)
Inductive serial_step : svc_state → svc_state → Prop :=
| serial_call i cfg s : sv_calls s = ∅ → serial_step s (begin_call i cfg s)
| serial_svc s s' : svc_step s s' → serial_step s s'.

Definition svc_init : svc_state := mkSvc [] ∅ None 0 ∅.

(** ** Which services a configuration gets *)

Definition known_protocol (r : ForwardRule) : Prop := fr_Protocol r ∈ [""; "tcp"; "udp"]%string.

#[export] Instance known_protocol_dec r : Decision (known_protocol r).
Proof. unfold known_protocol. apply _. Defined.

Definition forward_service (r : ForwardRule) : service :=
  let rule p := mkRule (fr_Listen r) (fr_Target r) p (fr_BindUpstream r) in
  if String.eqb (fr_Protocol r) "udp" then ServeUDP (rule "udp"%string) else ServeTCP (rule "tcp"%string).

(** The rules before the first one of an unknown protocol. *)
Fixpoint known_prefix (l : list ForwardRule) : list ForwardRule :=
  match l with
  | r :: l => if decide (known_protocol r) then r :: known_prefix l else []
  | [] => []
  end.

Lemma Start_rules (l : list ForwardRule) (f : ForwardRule → Rule)
    (Hf : ∀ r, f r = mkRule (fr_Listen r) (fr_Target r)
       (if String.eqb (fr_Protocol r) "" then "tcp" else fr_Protocol r)%string (fr_BindUpstream r)) :
  (Forward.Start (f <$> l)).1 = forward_service <$> known_prefix l ∧
  ((Forward.Start (f <$> l)).2 = None ↔ Forall known_protocol l).
Proof.
  induction l as [|r l [IH1 IH2]]; [by split|]. rewrite fmap_cons. cbn [Forward.Start known_prefix].
  rewrite Hf, Forall_cons. cbn [r_Proto].
  destruct (Forward.Start (f <$> l)) as [l' e]. cbn [fst snd] in IH1, IH2.
  destruct (decide (known_protocol r)) as [Hk|Hk].
  - rewrite fmap_cons, <- IH1. unfold forward_service.
    pose proof Hk as Hk'. unfold known_protocol in Hk'. rewrite !elem_of_cons in Hk'.
    destruct Hk' as [E|[E|[E|[]%not_elem_of_nil]]]; rewrite E; simpl; (split; [done|tauto]).
  - pose proof Hk as Hk'. unfold known_protocol in Hk'. rewrite !not_elem_of_cons in Hk'.
    destruct Hk' as (E0 & E1 & E2 & _).
    rewrite (proj2 (String.eqb_neq _ _) E0). rewrite (proj2 (String.eqb_neq _ _) E0).
    rewrite (proj2 (String.eqb_neq _ _) E1), (proj2 (String.eqb_neq _ _) E2). simpl.
    split; [done|]. split; [done|]. by intros [? _].
Qed.

(** Which services a configuration gets.  When every forward rule has the
    protocol tcp, udp or none (tcp), there is a listener per forward rule, in
    order, then one per SOCKS5 rule, and the redirect if it is enabled and could
    be installed.  Otherwise there are only the listeners of the rules before
    the first unknown protocol, and neither SOCKS5 nor the redirect, although
    such a configuration passes validation. *)
Theorem services_started :
  (∀ ok cfg, Forall known_protocol (cfg_Forward cfg) →
     (services ok cfg).*1 =
       (TForward ∘ forward_service <$> cfg_Forward cfg) ++ (TSocks <$> cfg_SOCKS5 cfg) ++
       (match enabled_range cfg with
        | Some r => if ok then [TRedirect (redirectConfig r)] else []
        | None => []
        end)) ∧
  (∀ ok cfg, ¬ Forall known_protocol (cfg_Forward cfg) →
     (services ok cfg).*1 = TForward ∘ forward_service <$> known_prefix (cfg_Forward cfg)) ∧
  (∃ cfg, Validate cfg = Ok cfg ∧ cfg_SOCKS5 cfg ≠ [] ∧ services true cfg = []).
Proof.
  assert (∀ l, Forall known_protocol l → known_prefix l = l) as Hp.
  { induction 1 as [|r l Hr _ IH]; [done|]. simpl. by rewrite decide_True, IH. }
  assert (∀ (l : list service) (b : bool), ((λ s, (TForward s, b)) <$> l).*1 = TForward <$> l) as Hfst.
  { intros l b. by rewrite <- list_fmap_compose. }
  split; [|split].
  - intros ok cfg Hk. unfold services, forwardRulesFromConfig.
    destruct (Start_rules (cfg_Forward cfg) _ (λ r, eq_refl)) as [S1 S2].
    destruct (Forward.Start _) as [l [e|]]; simpl in S1, S2.
    { discriminate (proj2 S2 Hk). }
    rewrite !fmap_app, Hfst, S1, Hp by done. rewrite <- !list_fmap_compose. do 2 f_equal.
    destruct (enabled_range cfg); [|done]. by destruct ok.
  - intros ok cfg Hk. unfold services, forwardRulesFromConfig.
    destruct (Start_rules (cfg_Forward cfg) _ (λ r, eq_refl)) as [S1 S2].
    destruct (Forward.Start _) as [l [e|]]; simpl in S1, S2.
    + rewrite Hfst, S1. by rewrite <- list_fmap_compose.
    + destruct Hk. by apply S2.
  - exists (let '(mkConfig a b r d e f _ _ i j k l m n) := valid_client in
       mkConfig a b r d e f [mkForwardRule ":8443" "127.0.0.1:443" "TCP" ""]
         [mkSOCKS5Rule ":1080" None] i j k l m n).
    split; [vm_compute; reflexivity|]. split; [done|]. reflexivity.
Qed.

(** ** Reloads one at a time *)

Definition none_waited (ts : list running) : Prop := Forall (λ t, rt_waited t = false) ts.

Definition waited_in (P : nat → Prop) (ts : list running) : Prop :=
  Forall (λ t, rt_waited t = true → P (rt_gen t)) ts.

Inductive serial_ok : svc_state → Prop :=
| ok_idle ts cc c n : waited_in (λ g, c = Some g) ts → serial_ok (mkSvc ts cc c n ∅)
| ok_stop i cfg ts cc c n : waited_in (λ g, c = Some g) ts →
    serial_ok (mkSvc ts cc c n {[i := CStop cfg]})
| ok_wait i cfg ts cc n : waited_in (λ g, g ∈ cc) ts → serial_ok (mkSvc ts cc None n {[i := CWait cfg]})
| ok_set i cfg ts cc n : none_waited ts → serial_ok (mkSvc ts cc None n {[i := CSet cfg]})
| ok_start i cfg g ts cc n : none_waited ts →
    serial_ok (mkSvc ts cc (Some g) n {[i := CStart cfg g]}).

Lemma waited_none P ts : none_waited ts → waited_in P ts.
Proof. intros Hn. eapply Forall_impl; [exact Hn|]. by intros t ->. Qed.

Lemma waited_impl (P Q : nat → Prop) ts : (∀ g, P g → Q g) → waited_in P ts → waited_in Q ts.
Proof. intros HPQ HP. eapply Forall_impl; [exact HP|]. auto. Qed.

Lemma start_tasks_gen g l : waited_in (λ g', Some g = Some g') (start_tasks g l).
Proof. apply Forall_forall. intros t ([t' b] & -> & _)%list_elem_of_fmap. done. Qed.

(** The steps of tasks keep what is known of all tasks. *)
Lemma Forall_task {A} (P : A → Prop) t t' (l1 l2 : list A) :
  (P t → P t') → Forall P (l1 ++ t :: l2) → Forall P (l1 ++ t' :: l2).
Proof. rewrite !Forall_app, !Forall_cons. tauto. Qed.

Lemma Forall_remove {A} (P : A → Prop) t (l1 l2 : list A) :
  Forall P (l1 ++ t :: l2) → Forall P (l1 ++ l2).
Proof. rewrite !Forall_app, !Forall_cons. tauto. Qed.

Lemma one_call i j (c d : call) : ({[i := c]} : gmap nat call) !! j = Some d → i = j ∧ c = d.
Proof. apply lookup_singleton_Some. Qed.

Lemma singleton_insert i (c d : call) : <[i := d]> ({[i := c]} : gmap nat call) = {[i := d]}.
Proof. apply insert_singleton_eq. Qed.

Lemma svc_step_ok s s' : svc_step s s' → serial_ok s → serial_ok s'.
Proof.
  intros Hs Hok. destruct Hs as [i cfg ts cc c n cs Hi|i cfg ts cc c n cs Hi Hw|i cfg ts cc c n cs Hi
    |i cfg gen ok ts cc c n cs Hi|t ts1 ts2 cc c n cs Hb|t ts1 ts2 cc c n cs Hl|t ts1 ts2 cc c n cs Hc].
  - inversion Hok as [|j cfg' ? ? ? ? Hwt| | |]; subst; try (by apply one_call in Hi as [_ ?]);
      [by rewrite lookup_empty in Hi|].
    apply one_call in Hi as [-> [= ->]]. rewrite !singleton_insert. destruct c as [g|].
    + constructor. eapply waited_impl; [|exact Hwt]. intros g' [= ->]. set_solver.
    + constructor. eapply Forall_impl; [exact Hwt|]. intros t Ht. simpl in Ht.
      destruct (rt_waited t); [|done]. discriminate (Ht eq_refl).
  - inversion Hok; subst; try (by apply one_call in Hi as [_ ?]); [by rewrite lookup_empty in Hi|].
    apply one_call in Hi as [-> [= ->]]. rewrite singleton_insert. by constructor.
  - inversion Hok; subst; try (by apply one_call in Hi as [_ ?]); [by rewrite lookup_empty in Hi|].
    apply one_call in Hi as [-> [= ->]]. rewrite singleton_insert. by constructor.
  - inversion Hok; subst; try (by apply one_call in Hi as [_ ?]); [by rewrite lookup_empty in Hi|].
    apply one_call in Hi as [-> [= -> ->]]. rewrite delete_singleton_eq. constructor.
    apply Forall_app. split; [by apply (waited_none (λ g, Some gen = Some g))|apply start_tasks_gen].
  - inversion Hok; subst; constructor;
      match goal with H : _ |- _ => revert H; by apply Forall_task end.
  - inversion Hok; subst; constructor;
      match goal with H : _ |- _ => revert H; by apply Forall_remove end.
  - inversion Hok; subst; constructor;
      match goal with H : _ |- _ => revert H; by apply Forall_remove end.
Qed.

Lemma serial_reach_ok s : rtc serial_step svc_init s → serial_ok s.
Proof.
  intros Hr. eapply rtc_preserves; [exact Hr| |by repeat constructor].
  intros s1 s2 [i cfg s3 Hi|s3 s4 Hs] H0.
  - destruct s3 as [ts cc c n cs]. simpl in Hi. subst cs. unfold begin_call. simpl.
    rewrite insert_empty. constructor. by inversion H0.
  - by eapply svc_step_ok.
Qed.

(** Cancelled tasks can end, so that nothing is waited for any more. *)
Lemma end_waited ts0 ts cc c n cs :
  none_waited ts0 → waited_in (λ g, g ∈ cc) ts →
  ∃ ts', rtc svc_step (mkSvc (ts0 ++ ts) cc c n cs) (mkSvc ts' cc c n cs) ∧ none_waited ts'.
Proof.
  intros H0 Hw. revert ts0 H0. induction Hw as [|t ts Ht Hw IH]; intros ts0 H0.
  { exists (ts0 ++ []). rewrite app_nil_r. split; [apply rtc_refl|done]. }
  destruct (rt_waited t) eqn:Et.
  - destruct (IH ts0 H0) as (ts' & Hr & Hn). exists ts'. split; [|done].
    eapply rtc_l; [|exact Hr]. apply task_end. by apply Ht.
  - destruct (IH (ts0 ++ [t])) as (ts' & Hr & Hn); [apply Forall_app; by repeat constructor|].
    exists ts'. split; [|done]. by rewrite <- (assoc_L (++)) in Hr.
Qed.

(** The rest of a call, from the second lock on. *)
Lemma finish_set i cfg ts cc n :
  ∃ s', rtc svc_step (mkSvc ts cc None n {[i := CSet cfg]}) s' ∧ sv_calls s' = ∅.
Proof.
  eexists. split.
  - eapply rtc_l; [apply (call_set i cfg); apply lookup_singleton_eq|]. rewrite singleton_insert.
    eapply rtc_l; [apply (call_start i cfg n true); apply lookup_singleton_eq|]. apply rtc_refl.
  - apply delete_singleton_eq.
Qed.

Lemma finish_wait i cfg ts cc n :
  waited_in (λ g, g ∈ cc) ts →
  ∃ s', rtc svc_step (mkSvc ts cc None n {[i := CWait cfg]}) s' ∧ sv_calls s' = ∅.
Proof.
  intros Hw. destruct (end_waited [] ts cc None n {[i := CWait cfg]}) as (ts' & Hr & Hn);
    [constructor|done|].
  destruct (finish_set i cfg ts' cc n) as (s' & Hs & He). exists s'. split; [|done].
  etrans; [exact Hr|]. eapply rtc_l; [apply (call_wait i cfg); [apply lookup_singleton_eq|done]|].
  by rewrite singleton_insert.
Qed.

(** From every state of such a run the reload can run to its end. *)
Lemma serial_finishes s : serial_ok s → ∃ s', rtc svc_step s s' ∧ sv_calls s' = ∅.
Proof.
  intros [ts cc c n Hts|i cfg ts cc c n Hts|i cfg ts cc n Hts|i cfg ts cc n Hts|i cfg g ts cc n Hts].
  - eexists. split; [apply rtc_refl|done].
  - destruct c as [g|].
    + destruct (finish_wait i cfg ts ({[g]} ∪ cc) n) as (s' & Hs & He).
      { eapply waited_impl; [|exact Hts]. intros g' [= ->]. set_solver. }
      exists s'. split; [|done]. eapply rtc_l; [apply (call_stop i cfg); apply lookup_singleton_eq|].
      by rewrite singleton_insert.
    + destruct (finish_set i cfg ts cc n) as (s' & Hs & He). exists s'. split; [|done].
      eapply rtc_l; [apply (call_stop i cfg); apply lookup_singleton_eq|]. by rewrite singleton_insert.
  - by apply finish_wait.
  - apply finish_set.
  - eexists. split.
    + eapply rtc_l; [apply (call_start i cfg g true); apply lookup_singleton_eq|]. apply rtc_refl.
    + apply delete_singleton_eq.
Qed.

(** Configurations whose forward rules have protocols that exist. *)
Definition call_cfg (c : call) : Config :=
  match c with CStop cfg | CWait cfg | CSet cfg | CStart cfg _ => cfg end.
Definition calls_known (s : svc_state) : Prop :=
  ∀ i c, sv_calls s !! i = Some c → Forall known_protocol (cfg_Forward (call_cfg c)).
Definition serial_known (s s' : svc_state) : Prop := serial_step s s' ∧ calls_known s'.

(** Everything but SOCKS5 is waited for. *)
Definition socks_or_waited (t : running) : Prop := (∃ r, rt_task t = TSocks r) ∨ rt_waited t = true.

Lemma start_tasks_waited ok cfg g :
  Forall known_protocol (cfg_Forward cfg) → Forall socks_or_waited (start_tasks g (services ok cfg)).
Proof.
  intros Hk. unfold services, forwardRulesFromConfig.
  destruct (Start_rules (cfg_Forward cfg) _ (λ r, eq_refl)) as [_ S2].
  destruct (Forward.Start _) as [l [e|]]; simpl in S2; [discriminate (proj2 S2 Hk)|].
  apply Forall_fmap, Forall_forall. intros [t b]. rewrite !elem_of_app, !list_elem_of_fmap.
  intros [(x & [= -> ->] & _)|[(r & [= -> ->] & _)|Ht]]; [by right|left; by exists r|].
  destruct (enabled_range cfg); [|by apply not_elem_of_nil in Ht].
  destruct ok; [|by apply not_elem_of_nil in Ht]. apply list_elem_of_singleton in Ht as [= -> ->]. by right.
Qed.

Lemma svc_step_waited s s' :
  svc_step s s' → calls_known s → Forall socks_or_waited (sv_tasks s) → Forall socks_or_waited (sv_tasks s').
Proof.
  intros [i cfg ts cc c n cs Hi|i cfg ts cc c n cs Hi Hw|i cfg ts cc c n cs Hi
    |i cfg gen ok ts cc c n cs Hi|t ts1 ts2 cc c n cs Hb|t ts1 ts2 cc c n cs Hl|t ts1 ts2 cc c n cs Hc] Hk Hf;
    cbn [sv_tasks] in *; [by destruct c|done|done|..].
  - apply Forall_app. split; [done|]. apply start_tasks_waited, (Hk i _ Hi).
  - revert Hf. by apply Forall_task.
  - by eapply Forall_remove.
  - by eapply Forall_remove.
Qed.

Lemma serial_known_inv s :
  rtc serial_known svc_init s → rtc serial_step svc_init s ∧ Forall socks_or_waited (sv_tasks s).
Proof.
  intros Hr. assert (calls_known s ∧ rtc serial_step svc_init s ∧ Forall socks_or_waited (sv_tasks s)) as (_ & H); [|exact H].
  eapply (rtc_preserves _ (λ s, calls_known s ∧ rtc serial_step svc_init s ∧ Forall socks_or_waited (sv_tasks s)));
    [exact Hr| |split; [by intros i c ?|split; [apply rtc_refl|constructor]]].
  intros s1 s2 [Hs Hk2] (Hk1 & H1 & H2). split; [done|]. split; [by eapply rtc_r|].
  destruct Hs as [i cfg s3 Hi|s3 s4 Hs]; [done|]. by eapply svc_step_waited.
Qed.

(** A task that has just been made listens only when it is the redirect. *)
Lemma start_tasks_listening g l t :
  t ∈ start_tasks g l → rt_listening t = true → ∃ c, rt_task t = TRedirect c.
Proof. intros ([[f|r|c] b] & -> & _)%list_elem_of_fmap; simpl; [done|done|by exists c]. Qed.

(** C9: reloads that come one at a time.  A reload never deadlocks: from every
    state it can run to its end.  And when the forward rules of all configurations
    have protocols that exist ([Validate] does not check this; after an unknown
    one the listeners that were started are not waited for): when the services of
    a new configuration are about to start, the only services left of the old ones
    are SOCKS5 listeners; an address that one of the new services finds taken is
    the address of such an old SOCKS5 listener or of the new redirect; and between
    reloads every service but SOCKS5 belongs to the generation that the next
    reload will cancel. *)
Theorem reload_serial s (Hr : rtc serial_step svc_init s) :
  (∃ s', rtc svc_step s s' ∧ sv_calls s' = ∅) ∧
  (rtc serial_known svc_init s →
     (∀ i cfg g, sv_calls s !! i = Some (CStart cfg g) →
        (∀ t, t ∈ sv_tasks s → ∃ r, rt_task t = TSocks r) ∧
        ∀ ok t, let new := start_tasks g (services ok cfg) in
          t ∈ new → busy (task_addr (rt_task t)) (sv_tasks s ++ new) →
          (∃ old r, old ∈ sv_tasks s ∧ rt_task old = TSocks r ∧
             task_addr (rt_task t) = ("tcp"%string, sr_Listen r)) ∨
          ∃ c, TRedirect c ∈ rt_task <$> new ∧ task_addr (rt_task t) = task_addr (TRedirect c)) ∧
     (sv_calls s = ∅ → ∀ t, t ∈ sv_tasks s →
        (∃ r, rt_task t = TSocks r) ∨ sv_cancel s = Some (rt_gen t))).
Proof.
  apply serial_reach_ok in Hr. split; [by apply serial_finishes|].
  intros [_ Hw]%serial_known_inv. rewrite Forall_forall in Hw. split.
  - intros i cfg g Hi. assert (none_waited (sv_tasks s)) as Hn.
    { destruct Hr; simpl in *; [by rewrite lookup_empty in Hi|..]; by apply one_call in Hi as [_ ?]. }
    assert (∀ t, t ∈ sv_tasks s → ∃ r, rt_task t = TSocks r) as Hold.
    { intros t Ht. destruct (Hw t Ht) as [?|E]; [done|].
      pose proof (proj1 (Forall_forall _ _) Hn t Ht) as E'. cbn in E'. congruence. }
    split; [done|]. intros ok t new Ht (t' & Ht' & Hl & Ha). apply elem_of_app in Ht' as [Ht'|Ht'].
    + left. destruct (Hold t' Ht') as [r Er]. exists t', r. split; [done|]. split; [done|].
      by rewrite <- Ha, Er.
    + right. destruct (start_tasks_listening _ _ _ Ht' Hl) as [c Ec]. exists c. split; [|by rewrite <- Ha, Ec].
      apply list_elem_of_fmap. by exists t'.
  - intros He t Ht. destruct (Hw t Ht) as [?|E]; [by left|right].
    destruct Hr as [ts cc c n Hts| | | |]; simpl in *;
      try (exfalso; exact (map_non_empty_singleton _ _ He)).
    by apply (proj1 (Forall_forall _ _) Hts t Ht).
Qed.

(** ** Two reloads at once *)

(** Services of a generation that no later call will cancel. *)
Definition orphaned (g : nat) (s : svc_state) : Prop :=
  (∃ t, t ∈ sv_tasks s ∧ rt_gen t = g ∧ rt_waited t = true ∧ rt_listening t = true) ∧
  g ∉ sv_cancelled s ∧ sv_cancel s ≠ Some g ∧ (g < sv_next s)%nat.

Lemma elem_of_middle {A} (t x : A) l1 l2 : t ∈ l1 ++ x :: l2 → t = x ∨ t ∈ l1 ++ l2.
Proof. rewrite !elem_of_app, elem_of_cons. tauto. Qed.

Lemma orphaned_step g s s' : orphaned g s → any_step s s' → orphaned g s'.
Proof.
  intros ((t & Ht & Hg & Hw & Hl) & Hc & Hn & Hlt) Hs.
  destruct Hs as [i cfg s Hi|s s' Hs]; [by split; [eauto|]|].
  destruct Hs as [i cfg ts cc c n cs Hi|i cfg ts cc c n cs Hi Hwt|i cfg ts cc c n cs Hi
    |i cfg gen ok ts cc c n cs Hi|t0 ts1 ts2 cc c n cs Hb|t0 ts1 ts2 cc c n cs Hf
    |t0 ts1 ts2 cc c n cs Hcc]; simpl in *.
  - destruct c as [g'|]; (split; [by eauto|]); [|done]. split; [|done]. simpl.
    rewrite elem_of_union, elem_of_singleton. intros [->|?]; done.
  - pose proof (proj1 (Forall_forall _ _) Hwt t Ht). simpl in *. congruence.
  - split; [by eauto|]. split; [done|]. split; simpl; [intros [= ->]; lia|lia].
  - split; [|done]. exists t. split; [|done]. apply elem_of_app. by left.
  - split; [|done]. apply elem_of_middle in Ht as [->|Ht].
    + exists (listening t0). split; [|done]. apply elem_of_app. right. by left.
    + exists t. split; [|done]. simpl. rewrite elem_of_app, elem_of_cons in *. tauto.
  - split; [|done]. apply elem_of_middle in Ht as [->|Ht]; [congruence|]. by exists t.
  - split; [|done]. apply elem_of_middle in Ht as [->|Ht]; [congruence|]. by exists t.
Qed.

(** A call that waits while there is an orphan goes on waiting. *)
Lemma orphaned_blocks g i cfg s s' :
  orphaned g s → sv_calls s !! i = Some (CWait cfg) → any_step s s' →
  sv_calls s' !! i = Some (CWait cfg).
Proof.
  intros ((t & Ht & _ & Hw & _) & _) Hi Hs.
  destruct Hs as [j cfg' s Hj|s s' Hs].
  { simpl. rewrite lookup_insert_ne; [done|]. intros ->. congruence. }
  destruct Hs as [j cfg' ts cc c n cs Hj|j cfg' ts cc c n cs Hj Hwt|j cfg' ts cc c n cs Hj
    |j cfg' gen ok ts cc c n cs Hj| | |]; simpl in *; try done.
  - assert (j ≠ i) by congruence. destruct c; simpl; by rewrite lookup_insert_ne.
  - pose proof (proj1 (Forall_forall _ _) Hwt t Ht). simpl in *. congruence.
  - rewrite lookup_insert_ne; [done|]. congruence.
  - rewrite lookup_delete_ne; [done|]. congruence.
Qed.

Lemma orphaned_stuck g i cfg s s' :
  rtc any_step s s' → orphaned g s → sv_calls s !! i = Some (CWait cfg) →
  sv_calls s' !! i = Some (CWait cfg).
Proof.
  induction 1 as [|s s1 s2 Hs _ IH]; [done|]. intros Ho Hi.
  apply IH; [by eapply orphaned_step|by eapply orphaned_blocks].
Qed.

(** The state of a call after steps of other calls. *)
Ltac lookup_calls :=
  simpl; repeat first [rewrite lookup_insert_eq | rewrite lookup_insert_ne by done
                      | rewrite lookup_delete_ne by done]; reflexivity.

(** The first task of a configuration with a forward rule. *)
Lemma first_forward cfg r rest (ts := start_tasks 0 (services false cfg)) :
  cfg_Forward cfg = r :: rest → Forall known_protocol (cfg_Forward cfg) →
  ∃ l, ts = mkRunning 0 (TForward (forward_service r)) true false :: l ∧
    Forall (λ t, rt_listening t = false) ts.
Proof.
  intros Hf Hk. unfold ts, services, forwardRulesFromConfig.
  destruct (Start_rules (cfg_Forward cfg) _ (λ r, eq_refl)) as [S1 S2].
  destruct (Forward.Start _) as [l [e|]]; simpl in S1, S2; [discriminate (proj2 S2 Hk)|].
  rewrite Hf in Hk, S1. apply Forall_cons in Hk as [Hk _].
  cbn [known_prefix] in S1. rewrite decide_True in S1 by done. rewrite S1. eexists. split; [done|].
  apply Forall_forall. intros t ([t' b] & -> & Ht)%list_elem_of_fmap. destruct t'; try done. exfalso.
  rewrite !elem_of_app, !list_elem_of_fmap in Ht.
  destruct Ht as [(s & [=] & _)|[(s & [=] & _)|Ht]].
  by destruct (enabled_range cfg); apply not_elem_of_nil in Ht.
Qed.

(** Two reloads at once lock the client up.  When two calls of
    [startServices] overlap, both can pass the stop before either has registered
    its services; the services of the first then keep running with nobody left to
    cancel them, and the next reload waits for them for ever, whatever happens
    short of a shutdown. *)
Theorem reload_wedge (cfg1 cfg2 : Config) r rest
    (Hf : cfg_Forward cfg1 = r :: rest) (Hk : Forall known_protocol (cfg_Forward cfg1)) :
  ∃ s, rtc any_step svc_init s ∧ sv_calls s = ∅ ∧
    ∀ i cfg, ∃ s1, svc_step (begin_call i cfg s) s1 ∧
      ∀ s2, rtc any_step s1 s2 → sv_calls s2 !! i = Some (CWait cfg).
Proof.
  destruct (first_forward cfg1 r rest Hf Hk) as (l & El & Hl).
  set (t0 := mkRunning 0 (TForward (forward_service r)) true false) in *.
  set (ts := (listening t0 :: l) ++ start_tasks 1 (services false cfg2)).
  exists (mkSvc ts ∅ (Some 1%nat) 2 ∅). split; [|split; [done|]].
  - eapply rtc_l; [apply (any_call 0 cfg1); apply lookup_empty|].
    eapply rtc_l; [apply (any_call 1 cfg2); simpl; by rewrite lookup_insert_ne, lookup_empty|].
    unfold begin_call. cbn [sv_tasks sv_cancelled sv_cancel sv_next sv_calls svc_init].
    eapply rtc_l; [apply any_svc, (call_stop 0 cfg1); lookup_calls|].
    eapply rtc_l; [apply any_svc, (call_stop 1 cfg2); lookup_calls|].
    eapply rtc_l; [apply any_svc, (call_set 0 cfg1); lookup_calls|].
    eapply rtc_l; [apply any_svc, (call_set 1 cfg2); lookup_calls|].
    eapply rtc_l; [apply any_svc, (call_start 0 cfg1 0 false); lookup_calls|].
    rewrite El. cbn [app].
    eapply rtc_l; [apply any_svc, (task_listen t0 [] l)|].
    { intros (t & Ht & Htl & _). rewrite El in Hl.
      by rewrite (proj1 (Forall_forall _ _) Hl t Ht) in Htl. }
    eapply rtc_l; [apply any_svc, (call_start 1 cfg2 1 false); lookup_calls|].
    replace (delete _ _) with (∅ : gmap nat call); [apply rtc_refl|].
    symmetry. apply map_eq. intros i. rewrite lookup_empty.
    destruct (decide (i = 1%nat)) as [->|]; [apply lookup_delete_eq|].
    rewrite lookup_delete_ne by done.
    destruct (decide (i = 0%nat)) as [->|]; [apply lookup_delete_eq|].
    by rewrite lookup_delete_ne, !lookup_insert_ne.
  - intros i cfg. eexists. split.
    + unfold begin_call. apply (call_stop i cfg). apply lookup_insert_eq.
    + intros s2 Hs2. eapply (orphaned_stuck 0); [exact Hs2| |apply lookup_insert_eq].
      split; [|by split_and!; simpl; [set_solver|done|lia]].
      exists (listening t0). split; [by left|done].
Qed.

(** ** SOCKS5 is not waited for *)

Lemma socks_services ok cfg r :
  cfg_Forward cfg = [] → enabled_range cfg = None → cfg_SOCKS5 cfg = [r] →
  services ok cfg = [(TSocks r, false)].
Proof.
  intros Hf Hr Hs. unfold services, forwardRulesFromConfig. rewrite Hf. simpl. by rewrite Hs, Hr.
Qed.

Definition socks_task (gen : nat) (r : SOCKS5Rule) (l : bool) : running :=
  mkRunning gen (TSocks r) false l.

(** A reload can lose the SOCKS5 listener.  With reloads one at a time, the
    listener of the new configuration can be started while the old one still
    holds their common address; then it cannot listen in any next step, and its
    goroutine may give up and the old listener end, after which no SOCKS5
    listener is left, although the reload succeeded. *)
Theorem socks_rebind_race (cfg : Config) r
    (Hf : cfg_Forward cfg = []) (Hr : enabled_range cfg = None) (Hs : cfg_SOCKS5 cfg = [r])
    (s := mkSvc [socks_task 0 r true; socks_task 1 r false] {[0%nat]} (Some 1%nat) 2 ∅) :
  rtc serial_step svc_init s ∧
  (∀ s', svc_step s s' → Forall (λ t, rt_gen t = 1%nat → rt_listening t = false) (sv_tasks s')) ∧
  rtc svc_step s (mkSvc [] {[0%nat]} (Some 1%nat) 2 ∅).
Proof.
  pose proof (λ ok, socks_services ok cfg r Hf Hr Hs) as Hsv. split; [|split].
  - eapply rtc_l; [apply (serial_call 0 cfg); done|].
    eapply rtc_l; [apply serial_svc, (call_stop 0 cfg); lookup_calls|].
    eapply rtc_l; [apply serial_svc, (call_set 0 cfg); lookup_calls|].
    eapply rtc_l; [apply serial_svc, (call_start 0 cfg 0 true); lookup_calls|].
    rewrite Hsv. simpl.
    eapply rtc_l; [apply serial_svc, (task_listen (socks_task 0 r false) [] [])|].
    { by intros (t & ->%list_elem_of_singleton & ? & _). }
    eapply rtc_l; [apply (serial_call 0 cfg)|].
    { simpl. by rewrite !insert_insert_eq, delete_insert_eq, delete_empty. }
    eapply rtc_l; [apply serial_svc, (call_stop 0 cfg); lookup_calls|].
    eapply rtc_l; [apply serial_svc, (call_wait 0 cfg); [lookup_calls|by repeat constructor]|].
    eapply rtc_l; [apply serial_svc, (call_set 0 cfg); lookup_calls|].
    eapply rtc_l; [apply serial_svc, (call_start 0 cfg 1 true); lookup_calls|].
    rewrite Hsv. simpl. rewrite !insert_insert_eq, !delete_insert_eq, (right_id_L ∅ (∪)), delete_empty.
    apply rtc_refl.
  - intros s' Hst. inversion Hst as [? ? ? ? ? ? ? Hi|? ? ? ? ? ? ? Hi|? ? ? ? ? ? ? Hi
      |? ? ? ? ? ? ? ? ? Hi|t l1 l2 ? ? ? ? Hb Et|t l1 l2 ? ? ? ? Hb Et|t l1 l2 ? ? ? ? Hb Et];
      subst; try by rewrite lookup_empty in Hi.
    + destruct l1 as [|t1 [|t2 [|]]]; simplify_eq/=.
      * by repeat constructor.
      * destruct Hb. exists (socks_task 0 r true). split; [by left|done].
    + destruct l1 as [|t1 [|t2 [|]]]; simplify_eq/=. by repeat constructor.
    + destruct l1 as [|t1 [|t2 [|]]]; simplify_eq/=; by repeat constructor.
  - eapply rtc_l; [apply (task_listen_fails (socks_task 1 r false) [socks_task 0 r true] []); done|].
    eapply rtc_l; [apply (task_end (socks_task 0 r true) [] []); set_solver|]. apply rtc_refl.
Qed.

(** ** Examples *)

Definition with_services (f : list ForwardRule) (s : list SOCKS5Rule) : Config :=
  let '(mkConfig a b r d e u _ _ i j k l m n) := valid_client in mkConfig a b r d e u f s i j k l m n.

Definition one_forward : Config := with_services [mkForwardRule ":8443" "127.0.0.1:443" "tcp" ""] [].
Definition one_socks : Config := with_services [] [mkSOCKS5Rule ":1080" None].

(** The forward listener of the first configuration has ended before the services
    of the second start. *)
Lemma reload_serial_witness :
  (∃ s, rtc svc_step (begin_call 0 one_forward svc_init) s ∧ sv_calls s = ∅) ∧
  ∃ s, sv_calls s !! 0%nat = Some (CStart one_forward 1) ∧ rtc serial_known svc_init s ∧
    ∀ t, t ∈ sv_tasks s → ∃ r, rt_task t = TSocks r.
Proof.
  assert (Forall known_protocol (cfg_Forward one_forward)) as Hk.
  { constructor; [|constructor]. right. left. }
  assert (∀ c ts cc o n, call_cfg c = one_forward → calls_known (mkSvc ts cc o n {[0%nat := c]})) as Hc.
  { intros c ts cc o n E i d Hi. simpl in Hi. apply lookup_singleton_Some in Hi as [_ <-]. by rewrite E. }
  set (t := mkRunning 0 (TForward (forward_service (mkForwardRule ":8443" "127.0.0.1:443" "tcp" ""))) true).
  set (s := mkSvc [] {[0%nat]} (Some 1%nat) 2 {[0%nat := CStart one_forward 1]}).
  assert (rtc serial_known svc_init s) as Hr.
  { eapply rtc_l; [split; [by apply (serial_call 0 one_forward)|by apply Hc]|].
    eapply rtc_l; [split; [eapply serial_svc, (call_stop 0 one_forward); lookup_calls|by apply Hc]|].
    eapply rtc_l; [split; [eapply serial_svc, (call_set 0 one_forward); lookup_calls|by apply Hc]|].
    eapply (rtc_l _ _ (mkSvc [t false] ∅ (Some 0%nat) 1 ∅)).
    { split; [|by intros i c Hi; cbn in Hi].
      exact (serial_svc _ _ (call_start 0 one_forward 0 true [] ∅ (Some 0%nat) 1 {[0%nat := CStart one_forward 0]} eq_refl)). }
    eapply rtc_l; [split; [by apply (serial_call 0 one_forward)|by apply Hc]|].
    eapply rtc_l; [split; [eapply serial_svc, (call_stop 0 one_forward); lookup_calls|by apply Hc]|].
    eapply (rtc_l _ _ (mkSvc [] {[0%nat]} None 1 {[0%nat := CWait one_forward]})).
    { split; [|by apply Hc]. apply serial_svc. apply (task_end (t false) [] []). set_solver. }
    eapply rtc_l; [split; [eapply serial_svc, (call_wait 0 one_forward); [lookup_calls|constructor]|by apply Hc]|].
    eapply rtc_l; [split; [eapply serial_svc, (call_set 0 one_forward); lookup_calls|by apply Hc]|].
    apply rtc_refl. }
  split.
  - refine (proj1 (reload_serial (begin_call 0 one_forward svc_init) _)).
    eapply rtc_l; [apply (serial_call 0 one_forward); done|apply rtc_refl].
  - exists s. split; [reflexivity|]. split; [exact Hr|].
    exact (proj1 (proj1 (proj2 (reload_serial s (proj1 (serial_known_inv _ Hr))) Hr) 0%nat one_forward 1%nat eq_refl)).
Defined.

Lemma reload_wedge_witness : ∃ s, rtc any_step svc_init s ∧ sv_calls s = ∅ ∧
  ∀ i cfg, ∃ s1, svc_step (begin_call i cfg s) s1 ∧
    ∀ s2, rtc any_step s1 s2 → sv_calls s2 !! i = Some (CWait cfg).
Proof.
  apply (reload_wedge one_forward one_forward (mkForwardRule ":8443" "127.0.0.1:443" "tcp" "") []).
  - reflexivity.
  - constructor; [|constructor]. right. left.
Defined.

Lemma socks_rebind_race_witness :
  rtc serial_step svc_init
    (mkSvc [socks_task 0 (mkSOCKS5Rule ":1080" None) true; socks_task 1 (mkSOCKS5Rule ":1080" None) false]
       {[0%nat]} (Some 1%nat) 2 ∅).
Proof.
  refine (proj1 (socks_rebind_race one_socks (mkSOCKS5Rule ":1080" None) _ _ _)); reflexivity.
Defined.
