(* ===== verification/Client.v ===== *)
(** [internal/tunnel/client.go] over the upstream manager: starting, the route
    function, reloading from disk, and the commands that ping and measure the
    upstreams.  The listeners are in [Services]. *)

From S2P Require Import Prelude GoStd NetUtil Protocol Config ConfigResolve Transport TunnelPool TunnelDial Upstream.

Local Open Scope Z_scope.

Inductive client_error : Type :=
| ConfigPathUnknown | ConfigLoad | ClientNetwork (e : resolve_error) | UpstreamNotReady
| ClientUpstream (e : mgr_error) | PingFailed (e : pool_error).

Section client.
Context {W : Type} `{Conns W} `{Streams W} `{Clock W} {D : Type}.
Context (ParseDuration : string → option Z) (InterfaceByName : string → bool)
  (ParseMAC : string → option (list Z)) (rnd rnd' : nat → nat → Z).
(** The random local port of [ResolveNetwork]. *)
Context (rport : Z).
Abbreviation heap := (gmap nat (Pool D)).

Record Client : Type := mkClient {
  c_cfgPath : string; c_cfg : Config; c_upstream : option Manager }.

Definition NewClient (cfg : Config) (cfgPath : string) : Client := mkClient cfgPath cfg None.

Definition resolve (cfg : Config) : result client_error NetworkRuntime :=
  wrap_err ClientNetwork (ResolveNetwork InterfaceByName ParseMAC rport cfg).

(** The manager of [Run], of [PingConfig] and of [BenchConfig]; [names] is the
    order of the initial ping. *)
Definition open_manager (cfg : Config) (names : list string) (h : heap) (w : W) :
    heap * W * result client_error Manager :=
  match resolve cfg with
  | Err e => (h, w, Err e)
  | Ok rt =>
      let '(h, w, r) := NewManager ParseDuration InterfaceByName ParseMAC rnd rnd' cfg
                          (nr_RemoteFlags rt) names h w in
      (h, w, wrap_err ClientUpstream r)
  end.

(** [Run] up to the services, and its deferred [Close] after the context has
    ended. *)
Definition Run_ready (c : Client) (names : list string) (h : heap) (w : W) :
    Client * heap * W * result client_error unit :=
  match open_manager (c_cfg c) names h w with
  | (h, w, Err e) => (c, h, w, Err e)
  | (h, w, Ok up) => (mkClient (c_cfgPath c) (c_cfg c) (Some up), h, w, Ok tt)
  end.

Definition Run_end (c : Client) (h : heap) (w : W) : Client * heap * W :=
  match c_upstream c with
  | Some up => let '(up, h, w) := Manager_Close up h w in (mkClient (c_cfgPath c) (c_cfg c) (Some up), h, w)
  | None => (c, h, w)
  end.

(** [routeFn]: the manager itself, or an opener bound to a server. *)
Definition route (c : Client) (bind : string) : option opener :=
  match c_upstream c with
  | None => None
  | Some _ => Some (if String.eqb bind "" then ODefault else ForServer bind)
  end.

(** [ReloadFromDisk] up to [startServices]; [loaded] is what [config.Load]
    returns. *)
Definition ReloadFromDisk (loaded : option Config) (c : Client) (h : heap) (w : W) :
    Client * heap * W * result client_error unit :=
  if String.eqb (c_cfgPath c) "" then (c, h, w, Err ConfigPathUnknown) else
  match loaded with
  | None => (c, h, w, Err ConfigLoad)
  | Some cfg =>
      match resolve cfg with
      | Err e => (c, h, w, Err e)
      | Ok rt =>
          match c_upstream c with
          | None => (c, h, w, Err UpstreamNotReady)
          | Some up =>
              match Reload ParseDuration InterfaceByName ParseMAC rnd rnd' cfg
                      (nr_RemoteFlags rt) up h w with
              | (up, h, w, Err e) => (mkClient (c_cfgPath c) (c_cfg c) (Some up), h, w, Err (ClientUpstream e))
              | (up, h, w, Ok _) => (mkClient (c_cfgPath c) cfg (Some up), h, w, Ok tt)
              end
          end
      end
  end.

(** [names'] is the order of [PingAll]. *)
Definition PingConfig (cfg : Config) (names names' : list string) (h : heap) (w : W) :
    heap * W * result client_error unit :=
  match open_manager cfg names h w with
  | (h, w, Err e) => (h, w, Err e)
  | (h, w, Ok up) =>
      let '(h, w, err) := pingAll names' up h w in
      let '(_, h, w) := Manager_Close up h w in
      (h, w, match err with Some e => Err (PingFailed e) | None => Ok tt end)
  end.

Definition BenchConfig (cfg : Config) (names : list string) (h : heap) (w : W) :
    heap * W * result client_error (list BenchResult) :=
  match open_manager cfg names h w with
  | (h, w, Err e) => (h, w, Err e)
  | (h, w, Ok up) =>
      let '(h, w, out) := Benchmark up h w in
      let '(_, h, w) := Manager_Close up h w in
      (h, w, Ok out)
  end.
End client.

(** ** Pings keep the handles *)

Section pings.
Context {W : Type} `{StreamsHeld W} `{Clock W} {D : Type}.
Hypothesis Now_held : ∀ w, held (Now w).1 = held w.
Implicit Types (h : gmap nat (Pool D)) (w : W).

Lemma try_open_held order ss e w : held (try_open order ss e w).1 = held w.
Proof.
  revert e w. induction order as [|i order IH]; intros e w; [done|]. cbn [try_open].
  destruct (ss !! i) as [[s|]|]; [|apply IH..].
  destruct (smux_live s w); [|apply IH].
  pose proof (OpenStream_held (sess_id s) w) as E.
  destruct (OpenStream (sess_id s) w) as [w1 [strm|]]; [done|].
  simpl in E. by rewrite IH.
Qed.

Lemma openStream_held (p : Pool D) w :
  held (openStream p w).1.2 = held w ∧ sessions (openStream p w).1.1 = sessions p.
Proof.
  unfold openStream. destruct (_ =? 0)%nat; [done|]. destruct (fetch_inc (idx p)) as [start i].
  pose proof (try_open_held (rr_order start (length (sessions p))) (sessions p) false w) as E.
  destruct (try_open _ _ _ _) as [w' r]. simpl in *. split; [done|]. by destruct p.
Qed.

Lemma PingWithTimeout_held (p : Pool D) w :
  held (PingWithTimeout p w).1.2 = held w ∧ sessions (PingWithTimeout p w).1.1 = sessions p.
Proof.
  unfold PingWithTimeout. destruct (openStream_held p w) as [E1 E2].
  destruct (openStream p w) as [[p1 w1] [strm|e]]; [|done]. simpl in E1, E2.
  pose proof (StreamWrite_held strm (mkMessage Ping None []) w1) as E3.
  destruct (StreamWrite _ _ _) as [w2 []]; simpl in *; [|rewrite StreamClose_held; split; congruence].
  pose proof (StreamRead_held strm w2) as E4.
  destruct (StreamRead strm w2) as [w3 [resp|]]; simpl in *; rewrite StreamClose_held; split; congruence.
Qed.

(** The heap after pings: the same pools with the same handles. *)
Definition same_handles h h' : Prop :=
  ∀ q, ptr_handles h' q = ptr_handles h q ∧ (is_Some (h' !! q) ↔ is_Some (h !! q)).

Lemma same_handles_insert h q (p p' : Pool D) :
  h !! q = Some p → sessions p' = sessions p → same_handles h (<[q := p']> h).
Proof.
  intros Hq Es q'. unfold ptr_handles. destruct (decide (q = q')) as [<-|Hne].
  - rewrite lookup_insert_eq, Hq. unfold pool_handles. by rewrite Es.
  - by rewrite lookup_insert_ne.
Qed.

Lemma same_handles_refl h : same_handles h h.
Proof. done. Qed.

Lemma same_handles_trans h1 h2 h3 : same_handles h1 h2 → same_handles h2 h3 → same_handles h1 h3.
Proof. intros H12 H23 q. specialize (H12 q). specialize (H23 q). intuition congruence. Qed.

Lemma pingAll_held names m h w :
  held (pingAll names m h w).1.2 = held w ∧ same_handles h (pingAll names m h w).1.1.
Proof.
  revert h w. induction names as [|name names IH]; intros h w; [done|]. cbn [pingAll].
  destruct (m_entries m !! name) as [e|]; [|apply IH].
  destruct (h !! e_pool e) as [p|] eqn:Ep; [|apply IH].
  destruct (PingWithTimeout_held p w) as [E1 E2].
  destruct (PingWithTimeout p w) as [[p1 w1] r]. simpl in E1, E2.
  destruct (IH (<[e_pool e := p1]> h) w1) as [I1 I2].
  destruct (pingAll names m _ w1) as [[h2 w2] first]. simpl in *. split; [congruence|].
  eapply same_handles_trans; [exact (same_handles_insert h _ p p1 Ep E2)|done].
Qed.

Lemma bench_held names m h w :
  held (bench_loop names m h w).1.2 = held w ∧ same_handles h (bench_loop names m h w).1.1.
Proof.
  revert h w. induction names as [|name names IH]; intros h w; [done|]. cbn [bench_loop].
  destruct (m_entries m !! name) as [e|]; [|apply IH].
  destruct (h !! e_pool e) as [p|] eqn:Ep; [|apply IH].
  pose proof (Now_held w) as N1. destruct (Now w) as [w1 start].
  destruct (PingWithTimeout_held p w1) as [E1 E2].
  destruct (PingWithTimeout p w1) as [[p1 w2] r]. simpl in N1, E1, E2.
  pose proof (Now_held w2) as N2. destruct (Now w2) as [w3 stop]. simpl in N2.
  destruct (IH (<[e_pool e := p1]> h) w3) as [I1 I2].
  destruct (bench_loop names m _ w3) as [[h2 w4] out]. simpl in *. split; [congruence|].
  eapply same_handles_trans; [exact (same_handles_insert h _ p p1 Ep E2)|done].
Qed.

Lemma heap_handles_same_handles h h' ptrs : same_handles h h' → heap_handles h' ptrs = heap_handles h ptrs.
Proof. intros Hs. unfold heap_handles. f_equal. apply list_fmap_ext. intros ? q _. apply (Hs q). Qed.

Lemma Manager_Close_held m h w :
  held (Manager_Close m h w).2 = held w ∖ heap_handles h (entry_pools (m_entries m)).
Proof.
  unfold Manager_Close. pose proof (close_pools_held (entry_pools (m_entries m)) h w) as E.
  by destruct (close_pools _ h w).
Qed.

(** ** The manager of a client and of a command *)

Context (ParseDuration : string → option Z) (InterfaceByName : string → bool)
  (ParseMAC : string → option (list Z)) (rnd rnd' : nat → nat → Z) (rport : Z).
Abbreviation NewManager := (NewManager ParseDuration InterfaceByName ParseMAC rnd rnd').

(** The handles of a manager, apart from those that were open before it. *)
Definition owns m h w0 w : Prop :=
  heap_handles h (entry_pools (m_entries m)) ## held w0 ∧
  held w = heap_handles h (entry_pools (m_entries m)) ∪ held w0.

Lemma NewManager_owns cfg flags names h w h' w' r eps :
  UpstreamEndpoints cfg = Ok eps → NoDup (ep_Name <$> eps) →
  NewManager cfg flags names h w = (h', w', r) →
  match r with
  | Ok m => owns m h' w w' ∧ m_order m = ep_Name <$> eps ∧ order_ok m ∧
      (∀ q, q ∈ entry_pools (m_entries m) → is_Some (h' !! q))
  | Err _ => held w' = held w
  end.
Proof.
  intros Heps Hnd Hr. unfold Upstream.NewManager in Hr. rewrite Heps in Hr.
  destruct (dial_entries_spec ParseDuration InterfaceByName ParseMAC rnd rnd' cfg flags eps ∅ [] h w)
    as [new Hn].
  destruct (dial_entries _ _ _ _ _ _ _ _ _ _ _ _) as [[[[h1 w1] es] order] err].
  destruct Hn as (-> & -> & (F1 & F2 & F3 & F4 & F5) & rest & -> & Hrest).
  rewrite fmap_app, <- list_fmap_compose in Hnd.
  assert (NoDup (ep_Name ∘ fst <$> new)) as Hnew by by apply NoDup_app in Hnd as (? & _).
  pose proof (heap_handles_perm h1 _ _ (entry_pools_new new Hnew)) as Hpools.
  destruct err as [e|].
  - set (m0 := mkManager _ _ _ _ _ _ _ _ _) in Hr. pose proof (Manager_Close_held m0 h1 w1) as Ec.
    destruct (Manager_Close m0 h1 w1) as [[m1 h2] w2]. simplify_eq. simpl in Ec.
    rewrite Ec, F5, Hpools. set_solver.
  - pose proof (proj1 Hrest eq_refl) as ->. rewrite app_nil_r in *.
    set (m0 := mkManager _ _ _ _ _ _ _ _ _) in Hr.
    destruct (pingAll_held names m0 h1 w1) as [P1 P2].
    destruct (pingAll names m0 h1 w1) as [[h2 w2] first]. injection Hr as <- <- <-. simpl in P1, P2.
    assert (heap_handles h2 (entry_pools (m_entries m0)) = heap_handles h1 (snd <$> new)) as Eh.
    { rewrite (heap_handles_same_handles h1 h2) by done. exact Hpools. }
    split; [unfold owns; rewrite Eh, P1; by split|].
    split; [simpl; by rewrite <- list_fmap_compose|]. split.
    + intros n. simpl. by apply add_entries_dom.
    + intros q Hq. apply P2. simpl in Hq. rewrite (entry_pools_new new Hnew) in Hq.
      destruct (F2 _ Hq) as (_ & p & -> & _). by eexists.
Qed.

Lemma open_manager_owns cfg names h w h' w' r eps :
  UpstreamEndpoints cfg = Ok eps → NoDup (ep_Name <$> eps) →
  open_manager ParseDuration InterfaceByName ParseMAC rnd rnd' rport cfg names h w = (h', w', r) →
  match r with
  | Ok m => owns m h' w w' ∧ m_order m = ep_Name <$> eps ∧ order_ok m ∧
      (∀ q, q ∈ entry_pools (m_entries m) → is_Some (h' !! q))
  | Err _ => held w' = held w
  end.
Proof.
  intros Heps Hnd. unfold open_manager. destruct (resolve _ _ _ _) as [rt|e]; [|by intros [= <- <- <-]].
  destruct (NewManager _ _ _ _ _) as [[h1 w1] r1] eqn:E. intros [= <- <- <-].
  apply (NewManager_owns cfg _ names h w h1 w1 r1 eps Heps Hnd) in E. by destruct r1.
Qed.

Lemma close_owned m h h' w0 w w' :
  owns m h w0 w → same_handles h h' → held w' = held w → held (Manager_Close m h' w').2 = held w0.
Proof.
  intros [Hd Hh] Hs Hw. rewrite Manager_Close_held, Hw, Hh.
  rewrite (heap_handles_same_handles h h') by done. set_solver.
Qed.

Lemma bench_names names m h w :
  (∀ name, name ∈ names → is_Some (m_entries m !! name)) →
  (∀ name e, m_entries m !! name = Some e → is_Some (h !! e_pool e)) →
  br_Name <$> (bench_loop names m h w).2 = names.
Proof.
  revert h w. induction names as [|name names IH]; intros h w Hn Hp; [done|]. cbn [bench_loop].
  destruct (Hn name) as [e He]; [by left|]. rewrite He. destruct (Hp name e He) as [p Hpe].
  rewrite Hpe. destruct (Now w) as [w1 start]. destruct (PingWithTimeout p w1) as [[p1 w2] r].
  destruct (Now w2) as [w3 stop].
  assert (br_Name <$> (bench_loop names m (<[e_pool e := p1]> h) w3).2 = names) as E.
  { apply IH; [intros; apply Hn; by right|]. intros n e' He'.
    destruct (decide (e_pool e = e_pool e')) as [->|]; [rewrite lookup_insert_eq; by eexists|].
    rewrite lookup_insert_ne by done. by eapply Hp. }
  destruct (bench_loop names m _ w3) as [[h2 w4] out]. cbn [snd] in *. by rewrite fmap_cons, E.
Qed.

Lemma PingConfig_held cfg names names' h w eps :
  UpstreamEndpoints cfg = Ok eps → NoDup (ep_Name <$> eps) →
  held (PingConfig ParseDuration InterfaceByName ParseMAC rnd rnd' rport cfg names names' h w).1.2
    = held w.
Proof.
  intros Heps Hnd. unfold PingConfig.
  destruct (open_manager _ _ _ _ _ _ _ _ _ _) as [[h1 w1] r] eqn:E.
  apply (open_manager_owns cfg names h w h1 w1 r eps Heps Hnd) in E.
  destruct r as [m|e]; [|done]. destruct E as (Ho & _).
  destruct (pingAll_held names' m h1 w1) as [P1 P2].
  destruct (pingAll names' m h1 w1) as [[h2 w2] err]. simpl in P1, P2.
  pose proof (close_owned m h1 h2 w w1 w2 Ho P2 P1) as Ec.
  by destruct (Manager_Close m h2 w2) as [[m3 h3] w3].
Qed.

(** The commands that ping and measure the upstreams leave nothing open.
    Whether the network cannot be resolved, a dial fails half way or a ping
    fails, every handle they opened is closed when they return; the measurements
    are of the configured endpoints, one each, in priority order.  A client that
    became ready and is shut down closes everything it opened, too. *)
Theorem client_commands cfg names names' h w eps c
    (Heps : UpstreamEndpoints cfg = Ok eps) (Hnd : NoDup (ep_Name <$> eps)) (Hc : c_cfg c = cfg) :
  held (PingConfig ParseDuration InterfaceByName ParseMAC rnd rnd' rport cfg names names' h w).1.2
    = held w ∧
  (let r := BenchConfig ParseDuration InterfaceByName ParseMAC rnd rnd' rport cfg names h w in
   held r.1.2 = held w ∧ ∀ out, r.2 = Ok out → br_Name <$> out = ep_Name <$> eps) ∧
  (let '(c', h', w', r) := Run_ready ParseDuration InterfaceByName ParseMAC rnd rnd' rport c names h w in
   match r with
   | Err _ => c' = c ∧ held w' = held w
   | Ok _ => held (Run_end c' h' w').2 = held w
   end).
Proof.
  split; [by eapply PingConfig_held|]. unfold BenchConfig, Run_ready. rewrite Hc.
  destruct (open_manager _ _ _ _ _ _ _ _ _ _) as [[h1 w1] r] eqn:E.
  apply (open_manager_owns cfg names h w h1 w1 r eps Heps Hnd) in E.
  destruct r as [m|e]; [|by repeat split]. destruct E as (Ho & Hord & Hok & Hpools). split.
  - unfold Benchmark. destruct (bench_held (m_order m) m h1 w1) as [P1 P2].
    pose proof (bench_names (m_order m) m h1 w1) as Hb.
    destruct (bench_loop (m_order m) m h1 w1) as [[h2 w2] out]. simpl in P1, P2, Hb.
    pose proof (close_owned m h1 h2 w w1 w2 Ho P2 P1) as Ec.
    destruct (Manager_Close m h2 w2) as [[m3 h3] w3]. simpl in *. split; [done|].
    intros out' [= <-]. rewrite <- Hord. apply Hb.
    + intros n Hn. by apply Hok.
    + intros n e He. apply Hpools. unfold entry_pools. apply list_elem_of_fmap.
      exists (n, e). split; [done|]. by apply elem_of_map_to_list.
  - unfold Run_end. cbn [c_upstream].
    pose proof (close_owned m h1 h1 w w1 w1 Ho (same_handles_refl h1) eq_refl) as Ec.
    by destruct (Manager_Close m h1 w1) as [[m3 h3] w3].
Qed.
End pings.

(** The second upstream cannot be dialled: the session of the first is closed. *)
Lemma client_commands_witness :
  held (PingConfig (D := unit) no_durations (λ _, true) (λ _, Some mac0) (λ _ _, 7) (λ _ _, 8) 7
    (set_Transport sample_kcp_valid valid_client) [] ["a"]%string ∅ (mock_failing [3%nat])).1.2
  = held (mock_failing [3%nat]).
Proof.
  assert (∃ eps, UpstreamEndpoints (set_Transport sample_kcp_valid valid_client) = Ok eps ∧
    ep_Name <$> eps = ["a"; "upstream-2"]%string) as (eps & Heps & En).
  { eexists. split; [vm_compute; reflexivity|reflexivity]. }
  refine (proj1 (client_commands (D := unit) (λ _, eq_refl) no_durations (λ _, true) (λ _, Some mac0)
    (λ _ _, 7) (λ _ _, 8) 7 (set_Transport sample_kcp_valid valid_client) [] ["a"]%string ∅
    (mock_failing [3%nat]) eps (NewClient (set_Transport sample_kcp_valid valid_client) "") Heps _ eq_refl)).
  rewrite En. apply NoDup_ListNoDup. repeat constructor; simpl; intuition discriminate.
Defined.
