(* ===== verification/Ownership.v ===== *)
(** Who closes the pools of the upstream manager, and who may reconnect an entry:
    the two invariants of [ManagerRuns] as predicates on the heap and on the map of
    entries, with what the critical sections of [Upstream] do to them. *)

From S2P Require Import Prelude GoStd NetUtil Protocol Config ConfigResolve Transport TunnelPool TunnelDial Upstream Client.

Local Open Scope Z_scope.

Section ownership.
Context {W : Type} `{StreamsHeld W} `{Clock W} {D : Type}.
Implicit Types (m : Manager) (h : gmap nat (Pool D)) (w : W).

(** ** Owned pools *)

(** The pools [l] are there, hold different handles, and with [base] all of them. *)
Record owned (base : gset nat) (l : list nat) h w : Prop := mkOwned {
  ow_nodup : NoDup l;
  ow_heap : ∀ q, q ∈ l → is_Some (h !! q);
  ow_apart : ∀ p q, p ∈ l → q ∈ l → p ≠ q → ptr_handles h p ## ptr_handles h q;
  ow_base : ∀ q, q ∈ l → ptr_handles h q ## base;
  ow_held : held w = heap_handles h l ∪ base }.

Lemma elem_of_heap_handles h l x : x ∈ heap_handles h l ↔ ∃ q, q ∈ l ∧ x ∈ ptr_handles h q.
Proof.
  unfold heap_handles. rewrite elem_of_union_list. setoid_rewrite list_elem_of_fmap. naive_solver.
Qed.

Lemma owned_perm base l l' h w : l ≡ₚ l' → owned base l h w → owned base l' h w.
Proof.
  intros Hp [N Hh A B E]. constructor.
  - by rewrite <- Hp.
  - intros q. rewrite <- Hp. apply Hh.
  - intros p q. rewrite <- !Hp. apply A.
  - intros q. rewrite <- Hp. apply B.
  - by rewrite <- (heap_handles_perm h _ _ Hp).
Qed.

Lemma owned_same base l h h' w w' :
  same_handles h h' → held w' = held w → owned base l h w → owned base l h' w'.
Proof.
  intros Hs Hw [N Hh A B E]. constructor; [done| | | |].
  - intros q Hq. by apply Hs, Hh.
  - intros p q. rewrite !(proj1 (Hs _)). apply A.
  - intros q. rewrite (proj1 (Hs _)). apply B.
  - rewrite Hw, E. by rewrite (heap_handles_same_handles h h').
Qed.

Section dial.
Context (ParseDuration : string → option Z) (InterfaceByName : string → bool)
  (ParseMAC : string → option (list Z)) (rnd rnd' : nat → nat → Z).

Lemma owned_dial base l cfg ep flags h w h' w' r :
  owned base l h w → dial_pool ParseDuration InterfaceByName ParseMAC rnd rnd' cfg ep flags h w = (h', w', r) →
  match r with Ok ptr => owned base (ptr :: l) h' w' ∧ ptr ∉ dom h ∧ (∀ q, is_Some (h !! q) → is_Some (h' !! q))
  | Err _ => owned base l h' w' ∧ h' = h end.
Proof.
  intros [N Hh A B E] Hd. pose proof (dial_pool_spec ParseDuration InterfaceByName ParseMAC rnd rnd' cfg ep flags h w) as [Hs _].
  rewrite Hd in Hs. destruct r as [ptr|e].
  2: { destruct Hs as [-> Hw]. split; [|done]. constructor; try done. by rewrite Hw. }
  destruct Hs as (Hf & Hsame & Hp & Hdis & Hw).
  assert (∀ q, q ∈ l → q ≠ ptr) as Hne by (intros q Hq ->; by apply Hf, elem_of_dom, Hh).
  assert (∀ q, q ∈ l → ptr_handles h' q = ptr_handles h q) as Hq.
  { intros q Hq. unfold ptr_handles. by rewrite Hsame by auto. }
  assert (heap_handles h' l = heap_handles h l) as Hl.
  { apply heap_handles_same. intros q Hin. by apply Hsame, Hne. }
  assert (∀ q, q ∈ l → ptr_handles h' ptr ## ptr_handles h' q) as Hd1.
  { intros q Hin. rewrite (Hq q) by done. intros x Hx1 Hx2. apply (Hdis x); [done|]. rewrite E.
    apply elem_of_union_l, elem_of_heap_handles. eauto. }
  split; [constructor|split; [done|]].
    + constructor; [|done]. intros Hin. by apply (Hne _ Hin).
    + intros q [->|Hin]%elem_of_cons; [done|]. rewrite Hsame by auto. auto.
    + intros p q [->|Hp1]%elem_of_cons [->|Hq1]%elem_of_cons Hpq; [done|by apply Hd1|symmetry; by apply Hd1|].
      rewrite !Hq by done. auto.
    + intros q [->|Hin]%elem_of_cons; [|rewrite Hq by done; auto].
      intros x Hx1 Hx2. apply (Hdis x); [done|]. rewrite E. by apply elem_of_union_r.
    + rewrite Hw, E. unfold heap_handles in *. cbn. rewrite Hl. set_solver +.
    + intros q Hin. destruct (decide (q = ptr)) as [->|]; [done|]. by rewrite Hsame.
Qed.
End dial.

Lemma owned_close base p l h w :
  owned base (p :: l) h w → owned base l (close_pool p h w).1 (close_pool p h w).2.
Proof.
  intros [N Hh A B E]. destruct (close_pool_spec p h w) as [C1 C2]. apply NoDup_cons in N as [Hp N].
  assert (∀ q, q ∈ l → ptr_handles (close_pool p h w).1 q = ptr_handles h q) as Hq.
  { intros q Hq. rewrite C2. destruct (decide (q = p)) as [->|]; [done|done]. }
  constructor; [done| | | |].
  - intros q Hin. assert (is_Some (h !! q)) as Hs by (apply Hh; by right). unfold close_pool.
    destruct (h !! p) as [pl|] eqn:Ep; [|done]. destruct (Close pl w). cbn.
    destruct (decide (q = p)) as [->|]; [by rewrite lookup_insert_eq|by rewrite lookup_insert_ne].
  - intros q1 q2 K1 K2 Hne. rewrite !Hq by done. apply A; [by right|by right|done].
  - intros q Hin. rewrite Hq by done. apply B. by right.
  - rewrite C1, E. assert (heap_handles (close_pool p h w).1 l = heap_handles h l) as ->.
    { unfold heap_handles. f_equal. apply list_fmap_ext. intros ? q Hi. apply Hq. by eapply list_elem_of_lookup_2. }
    change (heap_handles h (p :: l)) with (ptr_handles h p ∪ heap_handles h l).
    assert (ptr_handles h p ## heap_handles h l) as Hd.
    { intros x Hx (q & Hin & Hx2)%elem_of_heap_handles. apply (A p q) with x; [by left|by right| |done|done].
      by intros ->. }
    specialize (B p (list_elem_of_here _ _)). set_solver.
Qed.

Lemma owned_close_pools base ps l h w :
  owned base (ps ++ l) h w → owned base l (close_pools ps h w).1 (close_pools ps h w).2.
Proof.
  revert h w. induction ps as [|p ps IH]; intros h w Ho; [done|]. cbn [close_pools].
  apply owned_close in Ho. destruct (close_pool p h w) as [h1 w1]. by apply IH.
Qed.

(** ** The pools of a map of entries *)

Lemma entry_pools_fmap (es : gmap string entry) : entry_pools es ≡ₚ (map_to_list (e_pool <$> es)).*2.
Proof.
  unfold entry_pools. rewrite map_to_list_fmap, <- list_fmap_compose. apply reflexive_eq.
  apply list_fmap_ext. by intros ? [].
Qed.

Lemma entry_pools_same (es es' : gmap string entry) :
  (∀ n, e_pool <$> es' !! n = e_pool <$> es !! n) → entry_pools es' ≡ₚ entry_pools es.
Proof.
  intros Hn. rewrite !entry_pools_fmap. assert (e_pool <$> es' = e_pool <$> es) as ->; [|done].
  apply map_eq. intros n. by rewrite !lookup_fmap.
Qed.

Lemma entry_pools_insert (es : gmap string entry) n e :
  es !! n = None → entry_pools (<[n := e]> es) ≡ₚ e_pool e :: entry_pools es.
Proof. intros Hn. unfold entry_pools. by rewrite map_to_list_insert. Qed.

Lemma entry_pools_swap (es : gmap string entry) n e e' :
  es !! n = Some e → e_pool e :: entry_pools (<[n := e']> es) ≡ₚ e_pool e' :: entry_pools es.
Proof.
  intros Hn. rewrite <- (insert_delete_id es n e) at 2 by done.
  rewrite <- insert_delete_eq. rewrite !entry_pools_insert by apply lookup_delete_eq. constructor.
Qed.

(** ** The guard of a reconnection *)

Definition entry_ids (es : gmap string entry) : list nat := e_id ∘ snd <$> map_to_list es.
(** Entries are never confused: [es] are those of the manager, [rs] the running
    reconnections, [news] the entries of the reloads. *)
Record guarded (es : gmap string entry) (rs : list (string * nat)) (news : list nat)
    (h : gmap nat (Pool D)) : Prop := mkGuarded {
  gd_ids : NoDup (entry_ids es ++ news);
  gd_heap : ∀ id, id ∈ entry_ids es ++ news ∨ id ∈ rs.*2 → is_Some (h !! id);
  gd_once : NoDup rs.*2;
  gd_new : ∀ id, id ∈ news → id ∉ rs.*2;
  gd_flag : ∀ n e, es !! n = Some e → (e_reconnecting e = true ↔ (n, e_id e) ∈ rs) ∧
    ∀ n', (n', e_id e) ∈ rs → n' = n }.

Lemma elem_of_entry_ids es n e : es !! n = Some e → e_id e ∈ entry_ids es.
Proof.
  intros He. apply list_elem_of_fmap. exists (n, e). split; [done|]. by apply elem_of_map_to_list.
Qed.

Lemma entry_ids_same (es es' : gmap string entry) :
  (∀ n, e_id <$> es' !! n = e_id <$> es !! n) → entry_ids es' ≡ₚ entry_ids es.
Proof.
  intros Hn. assert (∀ m : gmap string entry, entry_ids m = (map_to_list (e_id <$> m)).*2) as Hm.
  { intros m. unfold entry_ids. rewrite map_to_list_fmap, <- list_fmap_compose.
    apply list_fmap_ext. by intros ? []. }
  rewrite !Hm. assert (e_id <$> es' = e_id <$> es) as ->; [|done].
  apply map_eq. intros n. by rewrite !lookup_fmap.
Qed.

Lemma entry_ids_inj es n1 n2 e1 e2 :
  NoDup (entry_ids es) → es !! n1 = Some e1 → es !! n2 = Some e2 → e_id e1 = e_id e2 → n1 = n2.
Proof.
  intros Hn K1 K2 E. rewrite <- elem_of_map_to_list in K1, K2.
  apply list_elem_of_lookup_1 in K1 as [i Hi], K2 as [j Hj].
  assert (i = j) as ->; [|congruence]. eapply NoDup_lookup; [exact Hn| |];
    unfold entry_ids; rewrite list_lookup_fmap; [by rewrite Hi|rewrite Hj; cbn; by rewrite E].
Qed.

Lemma guarded_perm es rs rs' news news' h :
  rs ≡ₚ rs' → news ≡ₚ news' → guarded es rs news h → guarded es rs' news' h.
Proof.
  intros Hr Hw [I J K L M]. constructor.
  - by rewrite <- Hw.
  - intros id. rewrite <- Hw, <- Hr. apply J.
  - by rewrite <- Hr.
  - intros id. rewrite <- Hw, <- Hr. apply L.
  - intros n e He. setoid_rewrite <- Hr. by apply M.
Qed.

Lemma guarded_same es es' rs news h h' :
  (∀ n, (λ e, (e_id e, e_reconnecting e)) <$> es' !! n = (λ e, (e_id e, e_reconnecting e)) <$> es !! n) →
  (∀ q, is_Some (h !! q) → is_Some (h' !! q)) → guarded es rs news h → guarded es' rs news h'.
Proof.
  intros Hn Hh [I J K L M]. assert (entry_ids es' ≡ₚ entry_ids es) as Hp.
  { apply entry_ids_same. intros n. specialize (Hn n). destruct (es' !! n), (es !! n); simpl in *; congruence. }
  constructor; [by rewrite Hp| |done|done|].
  - intros id. rewrite Hp. intros Hid. apply Hh, J, Hid.
  - intros n e He. specialize (Hn n). rewrite He in Hn. destruct (es !! n) as [e0|] eqn:E0; [|done].
    injection Hn as -> ->. by apply M.
Qed.

Lemma guarded_begin name m m' eid rs news h :
  reconnect_begin name m = Some (m', eid) → guarded (m_entries m) rs news h →
  guarded (m_entries m') ((name, eid) :: rs) news h.
Proof.
  unfold reconnect_begin. destruct (m_entries m !! name) as [e|] eqn:Ee; [|done].
  destruct (e_reconnecting e) eqn:Ef; [done|]. intros [= <- <-] [I J K L M].
  set (e' := mkEntry _ _ _ _ _ _ _ _). replace (m_entries (set_entries _ m)) with (<[name := e']> (m_entries m)) by by destruct m.
  assert (entry_ids (<[name := e']> (m_entries m)) ≡ₚ entry_ids (m_entries m)) as Hp.
  { apply entry_ids_same. intros n. destruct (decide (n = name)) as [->|];
      [by rewrite lookup_insert_eq, Ee|by rewrite lookup_insert_ne]. }
  assert (e_id e ∉ rs.*2) as Hni.
  { intros ([n' i] & Ei & Hin)%list_elem_of_fmap. cbn in Ei. subst i. destruct (M name e Ee) as [Mf Mn].
    rewrite (Mn _ Hin) in Hin. apply Mf in Hin. congruence. }
  constructor.
  - by rewrite Hp.
  - intros id. rewrite Hp. cbn. rewrite elem_of_cons. intros [Hid|[->|Hid]]; [by apply J; left| |by apply J; right].
    apply J. left. apply elem_of_app. left. by eapply elem_of_entry_ids.
  - cbn. by constructor.
  - intros id Hid. cbn. rewrite not_elem_of_cons. split; [|by apply L]. intros ->.
    apply NoDup_app in I as (_ & I & _). eapply I; [by eapply elem_of_entry_ids|done].
  - intros n e0. destruct (decide (n = name)) as [->|Hne].
    + rewrite lookup_insert_eq. intros [= <-]. cbn. split; [split; [left|done]|].
      intros n' [[= ->]|Hin]%elem_of_cons; [done|]. destruct Hni. apply list_elem_of_fmap. by exists (n', e_id e).
    + rewrite lookup_insert_ne by done. intros He0. destruct (M n e0 He0) as [Mf Mn].
      assert (e_id e0 ≠ e_id e) as Hid.
      { intros E. apply Hne. apply NoDup_app in I as (I & _ & _). by eapply entry_ids_inj. }
      setoid_rewrite elem_of_cons. split.
      * rewrite Mf. split; [by right|]. by intros [[= ? ?]|].
      * intros n' [[= ? ?]|Hin]; [done|auto].
Qed.

Lemma guarded_end name eid m rs news h :
  guarded (m_entries m) ((name, eid) :: rs) news h →
  guarded (m_entries (reconnect_end name eid m)) rs news h.
Proof.
  intros [I J K L M]. cbn in K, L. apply NoDup_cons in K as [Kn K].
  assert (∀ n', (n', eid) ∉ rs) as Hni.
  { intros n' Hin. apply Kn, list_elem_of_fmap. by exists (n', eid). }
  assert (∀ es', (∀ n, e_id <$> es' !! n = e_id <$> m_entries m !! n) →
    (∀ n e, es' !! n = Some e → (e_reconnecting e = true ↔ (n, e_id e) ∈ rs) ∧
       ∀ n', (n', e_id e) ∈ rs → n' = n) → guarded es' rs news h) as Hg.
  { intros es' Hn Hf. pose proof (entry_ids_same _ _ Hn) as Hp. constructor; [by rewrite Hp| |done| |done].
    - intros id. rewrite Hp. intros [?|?]; apply J; [by left|by right; right].
    - intros id Hid Hin. apply (L id Hid). by right. }
  assert (∀ n e, m_entries m !! n = Some e → (n ≠ name ∨ e_id e ≠ eid) →
    (e_reconnecting e = true ↔ (n, e_id e) ∈ rs) ∧ ∀ n', (n', e_id e) ∈ rs → n' = n) as Hold.
  { intros n e He Hor. destruct (M n e He) as [Mf Mn]. split.
    - rewrite Mf, elem_of_cons. split; [|by right]. intros [[= ? ?]|]; [naive_solver|done].
    - intros n' Hin. apply Mn. by right. }
  unfold reconnect_end. destruct (m_entries m !! name) as [e|] eqn:Ee.
  2: { apply Hg; [done|]. intros n e He. apply Hold; [done|]. left. congruence. }
  destruct (Nat.eqb_spec (e_id e) eid) as [Ei|Ei].
  2: { apply Hg; [done|]. intros n e0 He0. apply Hold; [done|].
       destruct (decide (n = name)) as [->|]; [right; congruence|by left]. }
  set (e' := mkEntry _ _ _ _ _ _ _ _). replace (m_entries (set_entries _ m)) with (<[name := e']> (m_entries m)) by by destruct m.
  apply Hg; intros n; (destruct (decide (n = name)) as [->|Hne];
    [rewrite lookup_insert_eq|rewrite lookup_insert_ne by done]).
  - by rewrite Ee.
  - done.
  - intros e0 [= <-]. cbn. rewrite Ei. split; [split; [done|]|]; [intros Hin|intros n' Hin]; by destruct (Hni _ Hin).
  - intros e0 He0. apply Hold; [done|]. by left.
Qed.

Lemma guarded_install es es' rs news h :
  guarded es rs (entry_ids es' ++ news) h → (∀ n e, es' !! n = Some e → e_reconnecting e = false) →
  guarded es' rs news h.
Proof.
  intros [I J K L M] Hf. apply NoDup_app in I as (_ & _ & I). constructor; [done| |done| |].
  - intros id Hid. apply J. rewrite elem_of_app. tauto.
  - intros id Hid. apply L. apply elem_of_app. by right.
  - intros n e He. assert (∀ n', (n', e_id e) ∉ rs) as Hni.
    { intros n' Hin. apply (L (e_id e)); [apply elem_of_app; left; by eapply elem_of_entry_ids|].
      apply list_elem_of_fmap. by exists (n', e_id e). }
    rewrite (Hf n e He). split; [split; [done|]|]; [intros Hin|intros n' Hin]; by destruct (Hni _ Hin).
Qed.

Lemma guarded_none es rs news h : guarded es rs news h → guarded ∅ rs news h.
Proof.
  intros [I J K L M]. apply NoDup_app in I as (_ & _ & I).
  assert (entry_ids ∅ = []) as E by (unfold entry_ids; by rewrite map_to_list_empty).
  constructor; [by rewrite E| |done|done|done].
  intros id. rewrite E. cbn. intros Hid. apply J. rewrite elem_of_app. tauto.
Qed.

Lemma guarded_drop es rs ids news h : guarded es rs (ids ++ news) h → guarded es rs news h.
Proof.
  intros [I J K L M]. constructor; [|intros id|done|intros id Hid; apply L, elem_of_app; by right|done].
  - apply NoDup_app in I as (I1 & I2 & I3). apply NoDup_app in I3 as (_ & _ & I3). apply NoDup_app.
    split_and!; [done| |done]. intros x Hx Hin. apply (I2 x Hx), elem_of_app. by right.
  - rewrite elem_of_app. intros Hid. apply J. rewrite !elem_of_app. tauto.
Qed.

Lemma guarded_dial es rs ptr news h h' :
  h !! ptr = None → is_Some (h' !! ptr) → (∀ q, is_Some (h !! q) → is_Some (h' !! q)) →
  guarded es rs news h → guarded es rs (ptr :: news) h'.
Proof.
  intros Hp Hp' Hh [I J K L M]. assert (∀ id, is_Some (h !! id) → id ≠ ptr) as Hne.
  { intros id [? Hid] ->. congruence. }
  constructor; [| |done| |done].
  - rewrite <- Permutation_middle. constructor; [|done]. intros Hin. by apply (Hne ptr); [apply J; left|].
  - intros id. rewrite <- Permutation_middle, elem_of_cons. intros [[->|Hid]|Hid]; [done| |]; apply Hh, J; tauto.
  - intros id [->|Hid]%elem_of_cons; [|by apply L]. intros Hin. by apply (Hne ptr); [apply J; right|].
Qed.
End ownership.
