(* ===== verification/ManagerRuns.v ===== *)
(** The upstream manager of internal/upstream/manager.go with all its goroutines:
    the health loop, the reconnections it starts, reloads in progress, [Close] and
    the traffic, interleaved at their critical sections and at every dial.

    [Upstream] has the critical sections and [Reconnect] one reconnection against
    an arbitrary environment; here the environment is the program, and the
    questions are who owns a pool and how many reconnections an entry has. *)

From S2P Require Import Prelude GoStd NetUtil Protocol Config ConfigResolve Transport TunnelPool TunnelDial Upstream Client Ownership.

Local Open Scope Z_scope.

(** A [reconnect] goroutine: not yet past its guard, or with the entry whose flag
    it took; at [RDone] its deferred [Store(false)] is left. *)
Inductive goroutine : Type :=
| Spawned (name : string)
| Running (name : string) (eid : nat) (st : rstate).

(** A reload that has still to dial [rest], or has pools to close. *)
Inductive reload_task : Type :=
| Dialling (cfg : Config) (flags : list TCPFlagSet) (rest : list UpstreamEndpoint)
    (es : gmap string entry) (order : list string)
| Releasing (ptrs : list nat).

Section runs.
Context {W : Type} `{Conns W} `{Streams W} `{Clock W} {D : Type}.
Context (ParseDuration : string → option Z) (InterfaceByName : string → bool)
  (ParseMAC : string → option (list Z)) (rnd rnd' : nat → nat → Z).
Abbreviation heap := (gmap nat (Pool D)).
Implicit Types (m : Manager) (h : heap) (w : W).

Record mg_state : Type := mkMG {
  mg_m : Manager; mg_h : heap; mg_w : W;
  mg_loop : bool; mg_rec : list goroutine; mg_rel : list reload_task }.

(** [go m.healthLoop()] on a new manager; [None]: its ticker panics. *)
Definition healthLoop_start m h w : option mg_state :=
  if 0 <? hs_Interval (m_health m) then Some (mkMG m h w true [] []) else None.

(** One goroutine to its next critical section. *)
Definition goroutine_step (g : goroutine) m h w : option goroutine * Manager * heap * W :=
  match g with
  | Spawned name =>
      match reconnect_begin name m with
      | None => (None, m, h, w)
      | Some (m, eid) => (Some (Running name eid (RLook Second)), m, h, w)
      end
  | Running name eid RDone => (None, reconnect_end name eid m, h, w)
  | Running name eid st =>
      let '(st, m, h, w) :=
        reconnect_step ParseDuration InterfaceByName ParseMAC rnd rnd' name st m h w in
      (Some (Running name eid st), m, h, w)
  end.

Definition reload_begin (cfg : Config) (flags : list TCPFlagSet) : option reload_task :=
  match UpstreamEndpoints cfg with Ok eps => Some (Dialling cfg flags eps ∅ []) | Err _ => None end.

(** A reload dials the next endpoint, or installs its entries under the lock, or
    closes the pools it is left with. *)
Definition reload_step (t : reload_task) m h w : option reload_task * Manager * heap * W :=
  match t with
  | Dialling cfg flags (ep :: rest) es order =>
      match dial_pool ParseDuration InterfaceByName ParseMAC rnd rnd' cfg ep flags h w with
      | (h, w, Err _) => (Some (Releasing (entry_pools es)), m, h, w)
      | (h, w, Ok ptr) =>
          (Some (Dialling cfg flags rest (<[ep_Name ep := new_entry ep ptr]> es) (order ++ [ep_Name ep])),
           m, h, w)
      end
  | Dialling cfg flags [] es order =>
      (Some (Releasing (entry_pools (m_entries m))),
       mkManager cfg (defaultHealth ParseDuration cfg) (defaultStrategy cfg) flags es order
         (default (m_active m) (head order)) (m_rrIdx m) (m_cancelled m), h, w)
  | Releasing ptrs => let '(h, w) := close_pools ptrs h w in (None, m, h, w)
  end.

Definition set_cancelled m : Manager :=
  let '(mkManager a b c d e f g i _) := m in mkManager a b c d e f g i true.

End runs.
Arguments mg_state : clear implicits.
Arguments mkMG {W D} _ _ _ _ _ _.
Arguments mg_m {W D} _.
Arguments mg_h {W D} _.
Arguments mg_w {W D} _.
Arguments mg_loop {W D} _.
Arguments mg_rec {W D} _.
Arguments mg_rel {W D} _.

Section steps.
Context {W : Type} `{StreamsHeld W} `{Clock W} {D : Type}.
Context (ParseDuration : string → option Z) (InterfaceByName : string → bool)
  (ParseMAC : string → option (list Z)) (rnd rnd' : nat → nat → Z).
Implicit Types (m : Manager) (h : gmap nat (Pool D)) (w : W).
Abbreviation goroutine_step := (goroutine_step ParseDuration InterfaceByName ParseMAC rnd rnd').
Abbreviation reload_step := (reload_step ParseDuration InterfaceByName ParseMAC rnd rnd').

(** The health loop, the reconnections and the traffic. *)
Inductive mg_own : mg_state W D → mg_state W D → Prop :=
| mg_tick names m h w gs ts m' h' w' l :
    names ≡ₚ (map_to_list (m_entries m)).*1 → runHealthCheck names m h w = (m', h', w', l) →
    mg_own (mkMG m h w true gs ts) (mkMG m' h' w' true (gs ++ (Spawned <$> l)) ts)
| mg_exit m h w gs ts :
    m_cancelled m = true → mg_own (mkMG m h w true gs ts) (mkMG m h w false gs ts)
| mg_go m h w b gs1 g gs2 ts g' m' h' w' :
    goroutine_step g m h w = (g', m', h', w') →
    mg_own (mkMG m h w b (gs1 ++ g :: gs2) ts) (mkMG m' h' w' b (gs1 ++ option_list g' ++ gs2) ts)
| mg_use m h w b gs ts m' h' w' :
    (* openers pick a pool and use its sessions *)
    same_but_pick m m' → m_cancelled m' = m_cancelled m → m_cfg m' = m_cfg m →
    same_handles h h' → held w' = held w →
    mg_own (mkMG m h w b gs ts) (mkMG m' h' w' b gs ts).

(** The configurations a reload may find. *)
Context (accepts : Config → Prop).

Inductive mg_step : mg_state W D → mg_state W D → Prop :=
| mg_of_own x y : mg_own x y → mg_step x y
| mg_reload cfg flags t m h w b gs ts :
    accepts cfg → reload_begin cfg flags = Some t →
    mg_step (mkMG m h w b gs ts) (mkMG m h w b gs (t :: ts))
| mg_reloading m h w b gs ts1 t ts2 t' m' h' w' :
    reload_step t m h w = (t', m', h', w') →
    mg_step (mkMG m h w b gs (ts1 ++ t :: ts2)) (mkMG m' h' w' b gs (ts1 ++ option_list t' ++ ts2))
| mg_cancel m h w b gs ts : mg_step (mkMG m h w b gs ts) (mkMG (set_cancelled m) h w b gs ts)
| mg_close m h w b gs ts m' h' w' :
    m_cancelled m = true → Manager_Close m h w = (m', h', w') →
    mg_step (mkMG m h w b gs ts) (mkMG m' h' w' b gs ts).

(** ** Owned pools *)

(** The pools somebody will close: those of the entries, of the reconnections
    about to install one, and of the reloads. *)
Definition goroutine_pools (g : goroutine) : list nat :=
  match g with Running _ _ (RSwap ptr) => [ptr] | _ => [] end.
Definition reload_pools (t : reload_task) : list nat :=
  match t with Dialling _ _ _ es _ => entry_pools es | Releasing ptrs => ptrs end.
Definition owners (x : mg_state W D) : list nat :=
  entry_pools (m_entries (mg_m x)) ++ concat (goroutine_pools <$> mg_rec x) ++ concat (reload_pools <$> mg_rel x).

Definition running_of (g : goroutine) : list (string * nat) :=
  match g with Running name eid _ => [(name, eid)] | Spawned _ => [] end.
Definition reload_ids (t : reload_task) : list nat :=
  match t with Dialling _ _ _ es _ => entry_ids es | Releasing _ => [] end.

(** ** The steps keep both *)

Hypothesis Now_held : ∀ w, held (Now w).1 = held w.

Lemma timed_ping_held ptr h w :
  held (timed_ping ptr h w).1.2 = held w ∧ same_handles h (timed_ping ptr h w).1.1.
Proof.
  unfold timed_ping. destruct (h !! ptr) as [p|] eqn:Ep; [|done].
  pose proof (Now_held w) as N1. destruct (Now w) as [w1 start].
  destruct (PingWithTimeout_held p w1) as [E1 E2]. destruct (PingWithTimeout p w1) as [[p1 w2] r].
  pose proof (Now_held w2) as N2. destruct (Now w2) as [w3 stop]. cbn in *.
  split; [congruence|]. by eapply same_handles_insert.
Qed.

Lemma runHealthCheck_held names m h w :
  let '(m', h', w', _) := runHealthCheck names m h w in
  held w' = held w ∧ same_handles h h' ∧ m_cancelled m' = m_cancelled m.
Proof.
  revert m h w. induction names as [|name names IH]; intros m h w; [done|]. cbn [runHealthCheck].
  destruct (m_entries m !! name) as [e|]; [|apply IH].
  destruct (timed_ping_held (e_pool e) h w) as [E1 E2].
  destruct (timed_ping (e_pool e) h w) as [[h1 w1] r]. cbn in E1, E2.
  assert (m_cancelled (check_one name r m).1 = m_cancelled m) as Ec.
  { unfold check_one. destruct (m_entries m !! name); [|done]. cbn [fst]. destruct (_ && _); [|by destruct m].
    unfold failoverLocked. destruct (List.find _ _); [destruct (String.eqb _ _)|]; by destruct m. }
  destruct (check_one name r m) as [m1 spawn]. cbn in Ec. specialize (IH m1 h1 w1).
  destruct (runHealthCheck names m1 h1 w1) as [[[m2 h2] w2] l2]. destruct IH as (I1 & I2 & I3).
  split; [congruence|]. split; [by eapply same_handles_trans|congruence].
Qed.

(** A round changes neither the pools nor the identities nor the flags. *)
Lemma runHealthCheck_same names m h w :
  NoDup names → let '(m', h', w', _) := runHealthCheck names m h w in
  ∀ n, (λ e, (e_pool e, e_id e, e_reconnecting e)) <$> m_entries m' !! n =
       (λ e, (e_pool e, e_id e, e_reconnecting e)) <$> m_entries m !! n.
Proof.
  intros Hnd. destruct (runHealthCheck names m h w) as [[[m' h'] w'] l] eqn:E.
  apply runHealthCheck_entries in E as (_ & _ & _ & E & _); [|done]. intros n. rewrite E.
  destruct (decide (n ∈ names)); [|done]. destruct (m_entries m !! n) as [e1|]; [|done]. cbn. f_equal.
  unfold check_entry. destruct (default None _); [|done]. destruct (e_healthy e1); [done|]. by destruct (_ <=? _).
Qed.

Lemma heap_kept_close_pools ps h w q : is_Some (h !! q) → is_Some ((close_pools ps h w).1 !! q).
Proof.
  revert h w. induction ps as [|p ps IH]; intros h w Hq; [done|]. cbn [close_pools].
  assert (is_Some ((close_pool p h w).1 !! q)) as Hp.
  { unfold close_pool. destruct (h !! p) as [pl|]; [|done]. destruct (Close pl w). cbn.
    destruct (decide (q = p)) as [->|]; [by rewrite lookup_insert_eq|by rewrite lookup_insert_ne]. }
  destruct (close_pool p h w) as [h1 w1]. by apply IH.
Qed.

Lemma heap_kept_close p h w q : is_Some (h !! q) → is_Some ((close_pool p h w).1 !! q).
Proof. intros Hq. pose proof (heap_kept_close_pools [p] h w q Hq) as E. cbn in E. by destruct (close_pool p h w). Qed.

(** The result of [reconnect_step]. *)
Lemma reconnect_owned base name st l m h w :
  owned base (entry_pools (m_entries m) ++ goroutine_pools (Running name 0 st) ++ l) h w →
  let '(st', m', h', w') := reconnect_step ParseDuration InterfaceByName ParseMAC rnd rnd' name st m h w in
  owned base (entry_pools (m_entries m') ++ goroutine_pools (Running name 0 st') ++ l) h' w' ∧
  (∀ n, (λ e, (e_id e, e_reconnecting e)) <$> m_entries m' !! n = (λ e, (e_id e, e_reconnecting e)) <$> m_entries m !! n) ∧
  (∀ q, is_Some (h !! q) → is_Some (h' !! q)) ∧ m_cancelled m' = m_cancelled m.
Proof.
  intros Ho. destruct st as [b|ep cfg rf b|b|ptr|]; cbn [reconnect_step].
  - destruct (m_cancelled m) eqn:Em; [done|]. destruct (settled name m h w); [done|]. by destruct (m_entries m !! name).
  - destruct (dial_pool _ _ _ _ _ cfg ep rf h w) as [[h1 w1] r] eqn:Ed.
    apply (owned_dial _ _ _ _ _ base _ _ _ _ _ _ _ _ _ Ho) in Ed. destruct r as [ptr|e].
    2: { destruct Ed as [Ed ->]. split; [exact Ed|done]. }
    destruct Ed as (Ed & _ & Hk). destruct (timed_ping_held ptr h1 w1) as [P1 P2].
    destruct (timed_ping ptr h1 w1) as [[h2 w2] t]. cbn in P1, P2.
    pose proof (owned_same _ _ _ _ _ _ P2 P1 Ed) as Ho2.
    assert (∀ q, is_Some (h !! q) → is_Some (h2 !! q)) as Hk2 by (intros q Hq; by apply P2, Hk).
    destruct t as [t|]; cbn.
    + split; [|done]. eapply owned_perm; [|exact Ho2]. cbn. by rewrite <- Permutation_middle.
    + pose proof (owned_close _ _ _ _ _ Ho2) as Ho3. pose proof (heap_kept_close ptr h2 w2) as Hk3.
      destruct (close_pool ptr h2 w2) as [h3 w3]. split; [exact Ho3|]. split; [done|]. split; [|done]. eauto.
  - by destruct (m_cancelled m) eqn:Em.
  - unfold reconnect_swap. destruct (m_entries m !! name) as [cur|] eqn:Ec.
    + set (e' := mkEntry _ _ _ _ _ _ _ _). set (m1 := set_entries _ m).
      assert (m_entries m1 = <[name := e']> (m_entries m) ∧ m_cancelled m1 = m_cancelled m) as [E1 E2] by by destruct m.
      set (m2 := if _ : bool then set_active name m1 else m1).
      assert (m_entries m2 = <[name := e']> (m_entries m) ∧ m_cancelled m2 = m_cancelled m) as [F1 F2].
      { subst m2. destruct (_ || _); [|done]. by destruct m1. }
      pose proof (entry_pools_swap _ name cur e' Ec) as Hp. cbn [e_pool e'] in Hp.
      assert (owned base (e_pool cur :: entry_pools (<[name:=e']> (m_entries m)) ++ l) h w) as Ho1.
      { eapply owned_perm; [|exact Ho]. cbn. rewrite app_comm_cons, Hp. by rewrite <- Permutation_middle. }
      apply owned_close in Ho1. pose proof (heap_kept_close (e_pool cur) h w) as Hk.
      destruct (close_pool (e_pool cur) h w) as [h1 w1]. cbn in Ho1, Hk |- *. rewrite F1. split; [done|].
      split; [|done]. intros n. destruct (decide (n = name)) as [->|];
        [by rewrite lookup_insert_eq, Ec|by rewrite lookup_insert_ne].
    + assert (owned base (ptr :: entry_pools (m_entries m) ++ l) h w) as Ho1.
      { eapply owned_perm; [|exact Ho]. cbn. by rewrite <- Permutation_middle. }
      apply owned_close in Ho1. pose proof (heap_kept_close ptr h w) as Hk.
      by destruct (close_pool ptr h w) as [h1 w1].
  - done.
Qed.

(** The entries a reload has made so far have names of their own. *)
Definition task_ok (t : reload_task) : Prop :=
  match t with
  | Dialling _ _ rest es order =>
      NoDup (order ++ (ep_Name <$> rest)) ∧ (∀ n, is_Some (es !! n) → n ∈ order) ∧
      (∀ n e, es !! n = Some e → e_reconnecting e = false)
  | Releasing _ => True
  end.

Record mg_inv (base : gset nat) (x : mg_state W D) : Prop := mkMGInv {
  mi_owned : owned base (owners x) (mg_h x) (mg_w x);
  mi_guarded : guarded (m_entries (mg_m x)) (concat (running_of <$> mg_rec x))
    (concat (reload_ids <$> mg_rel x)) (mg_h x);
  mi_tasks : Forall task_ok (mg_rel x) }.

Lemma concat_fmap_middle {A B} (f : A → list B) l1 k l2 :
  concat (f <$> l1 ++ k ++ l2) ≡ₚ concat (f <$> k) ++ concat (f <$> l1 ++ l2).
Proof. rewrite !fmap_app, !concat_app. solve_Permutation. Qed.

Lemma goroutine_step_inv base g l rs news m h w g' m' h' w' :
  goroutine_step g m h w = (g', m', h', w') →
  owned base (entry_pools (m_entries m) ++ concat (goroutine_pools <$> [g]) ++ l) h w →
  guarded (m_entries m) (concat (running_of <$> [g]) ++ rs) news h →
  owned base (entry_pools (m_entries m') ++ concat (goroutine_pools <$> option_list g') ++ l) h' w' ∧
  guarded (m_entries m') (concat (running_of <$> option_list g') ++ rs) news h' ∧
  m_cancelled m' = m_cancelled m.
Proof.
  intros Hs Ho Hg. destruct g as [name|name eid st].
  - cbn in Hs, Ho, Hg. destruct (reconnect_begin name m) as [[m1 eid]|] eqn:Eb; injection Hs as <- <- <- <-; [|done].
    pose proof (guarded_begin _ _ _ _ _ _ _ Eb Hg) as Hg'. unfold reconnect_begin in Eb.
    destruct (m_entries m !! name) as [e1|] eqn:Ee; [|done]. destruct (e_reconnecting e1); [done|]. injection Eb as <- <-.
    split; [|split; [done|by destruct m]]. eapply owned_perm; [|exact Ho]. cbn. f_equiv. symmetry.
    apply entry_pools_same. intros n. destruct m; cbn in *. destruct (decide (n = name)) as [->|];
      [by rewrite lookup_insert_eq, Ee|by rewrite lookup_insert_ne].
  - assert (goroutine_pools (Running name eid st) = goroutine_pools (Running name 0 st)) as Ep by done.
    cbn [fmap list_fmap concat] in Ho, Hg. rewrite Ep, app_nil_r in Ho. rewrite app_nil_r in Hg.
    pose proof (reconnect_owned base name st l m h w Ho) as Hr. assert (st = RDone ∨ st ≠ RDone) as [->|Hne] by (destruct st; auto).
    + cbn in Hs. injection Hs as <- <- <- <-. split; [|split; [by apply guarded_end in Hg|]].
      * eapply owned_perm; [|exact Ho]. cbn. f_equiv. symmetry. apply entry_pools_same. intros n.
        unfold reconnect_end. destruct (m_entries m !! name) as [e1|] eqn:Ee; [|done].
        destruct (_ =? _)%nat; [|done]. destruct m; cbn in *. destruct (decide (n = name)) as [->|];
          [by rewrite lookup_insert_eq, Ee|by rewrite lookup_insert_ne].
      * unfold reconnect_end. destruct (m_entries m !! name); [|done]. destruct (_ =? _)%nat; [|done]. by destruct m.
    + assert (goroutine_step (Running name eid st) m h w =
        let '(st, m, h, w) := reconnect_step ParseDuration InterfaceByName ParseMAC rnd rnd' name st m h w in
        (Some (Running name eid st), m, h, w)) as Eg by by destruct st.
      rewrite Eg in Hs. destruct (reconnect_step _ _ _ _ _ name st m h w) as [[[st' m1] h1] w1].
      injection Hs as <- <- <- <-. destruct Hr as (R1 & R2 & R3 & R4). cbn. rewrite app_nil_r.
      split; [exact R1|]. split; [|done]. by eapply guarded_same.
Qed.

Lemma reload_step_inv base t l rs news m h w t' m' h' w' :
  reload_step t m h w = (t', m', h', w') → task_ok t →
  owned base (entry_pools (m_entries m) ++ concat (reload_pools <$> [t]) ++ l) h w →
  guarded (m_entries m) rs (concat (reload_ids <$> [t]) ++ news) h →
  owned base (entry_pools (m_entries m') ++ concat (reload_pools <$> option_list t') ++ l) h' w' ∧
  guarded (m_entries m') rs (concat (reload_ids <$> option_list t') ++ news) h' ∧
  Forall task_ok (option_list t') ∧ m_cancelled m' = m_cancelled m.
Proof.
  intros Hs Ht Ho Hg. cbn [fmap list_fmap concat] in Ho, Hg. rewrite app_nil_r in Ho, Hg.
  destruct t as [cfg flags [|ep rest] es order|ptrs]; cbn [reload_step] in Hs.
  - injection Hs as <- <- <- <-. cbn in Ho, Hg |- *. rewrite app_nil_r. destruct Ht as (_ & _ & Hf).
    split; [|split; [by eapply guarded_install|split; [by repeat constructor|done]]].
    eapply owned_perm; [|exact Ho]. by rewrite !(assoc_L (++)), (Permutation_app_comm (entry_pools es)).
  - destruct (dial_pool _ _ _ _ _ cfg ep flags h w) as [[h1 w1] r] eqn:Ed.
    apply (owned_dial _ _ _ _ _ base _ _ _ _ _ _ _ _ _ Ho) in Ed. destruct r as [ptr|e1]; injection Hs as <- <- <- <-.
    + destruct Ed as (Ed & Hf & Hk). destruct Ht as (Hnd & Ho1 & Hfl).
      assert (ep_Name ep ∉ order ∧ es !! ep_Name ep = None) as [Hni Hes].
      { assert (ep_Name ep ∉ order) as Hni; [|split; [done|]].
        - intros Hin. apply NoDup_app in Hnd as (_ & Hnd & _). apply (Hnd _ Hin). left.
        - destruct (es !! ep_Name ep) eqn:Ee; [|done]. destruct Hni. by apply Ho1. }
      cbn. rewrite !app_nil_r.
      split; [|split; [|split; [|done]]].
      * eapply owned_perm; [|exact Ed]. rewrite (entry_pools_insert es) by done. cbn. by rewrite <- Permutation_middle.
      * eapply guarded_perm; [done| |eapply (guarded_dial _ _ ptr); [by apply not_elem_of_dom| |done|exact Hg]].
        { unfold entry_ids. by rewrite map_to_list_insert. }
        apply (ow_heap _ _ _ _ Ed). left.
      * repeat constructor; cbn.
        { by rewrite <- (assoc_L (++)). }
        { intros n. destruct (decide (n = ep_Name ep)) as [->|]; [intros _; apply elem_of_app; right; left|].
          rewrite lookup_insert_ne by done. intros. apply elem_of_app. left. by apply Ho1. }
        intros n e0. destruct (decide (n = ep_Name ep)) as [->|];
          [rewrite lookup_insert_eq; by intros [= <-]|rewrite lookup_insert_ne by done; apply Hfl].
    + destruct Ed as [Ed ->]. cbn. rewrite app_nil_r. split; [done|]. split; [by eapply guarded_drop|].
      split; [by repeat constructor|done].
  - pose proof (owned_close_pools base ptrs (entry_pools (m_entries m) ++ l) h w) as Hc.
    pose proof (heap_kept_close_pools ptrs h w) as Hk. destruct (close_pools ptrs h w) as [h1 w1].
    injection Hs as <- <- <- <-. cbn in *. split; [|split; [by eapply guarded_same|split; [constructor|done]]].
    apply Hc. eapply owned_perm; [|exact Ho]. rewrite !(assoc_L (++)). f_equiv. apply Permutation_app_comm.
Qed.

(** ** Every interleaving *)

Hypothesis accepts_distinct :
  ∀ cfg eps, accepts cfg → UpstreamEndpoints cfg = Ok eps → NoDup (ep_Name <$> eps).

Lemma owners_rec m h w b gs1 k gs2 ts :
  owners (mkMG m h w b (gs1 ++ k ++ gs2) ts) ≡ₚ
  entry_pools (m_entries m) ++ concat (goroutine_pools <$> k) ++
    (concat (goroutine_pools <$> gs1 ++ gs2) ++ concat (reload_pools <$> ts)).
Proof. unfold owners. cbn [mg_m mg_rec mg_rel]. by rewrite concat_fmap_middle, <- (assoc_L (++)). Qed.

Lemma owners_rel m h w b gs ts1 k ts2 :
  owners (mkMG m h w b gs (ts1 ++ k ++ ts2)) ≡ₚ
  entry_pools (m_entries m) ++ concat (reload_pools <$> k) ++
    (concat (goroutine_pools <$> gs) ++ concat (reload_pools <$> ts1 ++ ts2)).
Proof.
  unfold owners. cbn [mg_m mg_rec mg_rel]. rewrite concat_fmap_middle. solve_Permutation.
Qed.

Lemma mg_own_inv base x y : mg_own x y → mg_inv base x → mg_inv base y.
Proof.
  intros Hs [Ho Hg Ht]. destruct Hs as [names m h w gs ts m' h' w' l Hn Hr|m h w gs ts Hc
    |m h w b gs1 g gs2 ts g' m' h' w' Hr|m h w b gs ts m' h' w' Hm Hc Hcfg Hh Hw];
    cbn [mg_m mg_h mg_w mg_rec mg_rel] in *.
  - assert (NoDup names) as Hnd by (rewrite Hn; apply NoDup_fst_map_to_list).
    pose proof (runHealthCheck_held names m h w) as Hk. pose proof (runHealthCheck_same names m h w Hnd) as Hsm.
    rewrite Hr in Hk, Hsm. destruct Hk as (K1 & K2 & _).
    assert (concat (goroutine_pools <$> (Spawned <$> l)) = [] ∧ concat (running_of <$> (Spawned <$> l)) = []) as [S1 S2]
      by (split; clear; (induction l as [|a l IH]; [done|exact IH])).
    constructor; [| |done]; cbn [mg_m mg_h mg_w mg_rec mg_rel].
    + eapply owned_perm; [|eapply owned_same; [exact K2|exact K1|exact Ho]]. unfold owners. cbn [mg_m mg_rec mg_rel].
      rewrite fmap_app, concat_app, S1, app_nil_r. f_equiv. symmetry. apply entry_pools_same.
      intros n. specialize (Hsm n). destruct (m_entries m' !! n), (m_entries m !! n); simpl in *; congruence.
    + rewrite fmap_app, concat_app, S2, app_nil_r. eapply guarded_same; [|intros q; apply K2|exact Hg].
      intros n. specialize (Hsm n). destruct (m_entries m' !! n), (m_entries m !! n); simpl in *; congruence.
  - by constructor.
  - apply (owned_perm _ _ _ _ _ (owners_rec m h w b gs1 [g] gs2 ts)) in Ho.
    assert (guarded (m_entries m) (concat (running_of <$> [g]) ++ concat (running_of <$> gs1 ++ gs2))
      (concat (reload_ids <$> ts)) h) as Hg1.
    { eapply guarded_perm; [|done|exact Hg]. apply (concat_fmap_middle running_of gs1 [g] gs2). }
    destruct (goroutine_step_inv _ _ _ _ _ _ _ _ _ _ _ _ Hr Ho Hg1) as (Ho' & Hg' & _). constructor; [| |done].
    + eapply owned_perm; [|exact Ho']. symmetry. apply owners_rec.
    + eapply guarded_perm; [|done|exact Hg']. symmetry. apply concat_fmap_middle.
  - destruct Hm as (Hm & _). constructor; [| |done]; cbn; rewrite ?Hm.
    + eapply owned_perm; [|by eapply owned_same]. unfold owners. cbn. by rewrite Hm.
    + eapply guarded_same; [|intros q; apply Hh|exact Hg]. done.
Qed.

Lemma mg_step_inv base x y : mg_step x y → mg_inv base x → mg_inv base y.
Proof.
  intros [x' y' Hs|cfg flags t m h w b gs ts Ha Hr
    |m h w b gs ts1 t ts2 t' m' h' w' Hr|m h w b gs ts|m h w b gs ts m' h' w' Hc Hr]; [by apply mg_own_inv|..];
    intros [Ho Hg Ht]; cbn [mg_m mg_h mg_w mg_rec mg_rel] in *.
  - unfold reload_begin in Hr. destruct (UpstreamEndpoints cfg) as [eps|] eqn:Ee; [|done]. injection Hr as <-.
    assert (entry_pools ∅ = [] ∧ entry_ids ∅ = []) as [E1 E2]
      by (unfold entry_pools, entry_ids; by rewrite map_to_list_empty).
    constructor; cbn [mg_m mg_h mg_w mg_rec mg_rel].
    + eapply owned_perm; [|exact Ho]. unfold owners. cbn. by rewrite E1.
    + cbn. by rewrite E2.
    + constructor; [|done]. cbn. split; [by eapply accepts_distinct|]. split; [by intros n [? ?]|done].
  - apply (owned_perm _ _ _ _ _ (owners_rel m h w b gs ts1 [t] ts2)) in Ho.
    assert (guarded (m_entries m) (concat (running_of <$> gs))
      (concat (reload_ids <$> [t]) ++ concat (reload_ids <$> ts1 ++ ts2)) h) as Hg1.
    { eapply guarded_perm; [done| |exact Hg]. apply (concat_fmap_middle reload_ids ts1 [t] ts2). }
    apply Forall_app in Ht as [T1 T2]. apply Forall_cons in T2 as [T2 T3].
    destruct (reload_step_inv _ _ _ _ _ _ _ _ _ _ _ _ Hr T2 Ho Hg1) as (Ho' & Hg' & T4 & _). constructor.
    + eapply owned_perm; [|exact Ho']. symmetry. apply owners_rel.
    + eapply guarded_perm; [done| |exact Hg']. symmetry. apply concat_fmap_middle.
    + cbn. by rewrite !Forall_app.
  - constructor; [| |done]; by destruct m.
  - unfold Manager_Close in Hr.
    pose proof (owned_close_pools base (entry_pools (m_entries m))
      (concat (goroutine_pools <$> gs) ++ concat (reload_pools <$> ts)) h w Ho) as Hcl.
    pose proof (heap_kept_close_pools (entry_pools (m_entries m)) h w) as Hk.
    destruct (close_pools _ h w) as [h1 w1]. injection Hr as <- <- <-. constructor; [| |done]; cbn.
    + unfold owners. cbn. unfold entry_pools. by rewrite map_to_list_empty.
    + eapply guarded_none, guarded_same; [|exact Hk|exact Hg]. done.
Qed.

Lemma healthLoop_start_inv base m h w x :
  owned base (entry_pools (m_entries m)) h w → NoDup (entry_ids (m_entries m)) →
  (∀ n e, m_entries m !! n = Some e → e_reconnecting e = false ∧ is_Some (h !! e_id e)) →
  healthLoop_start m h w = Some x → mg_inv base x.
Proof.
  unfold healthLoop_start. intros Ho Hi Hf. destruct (0 <? _); [|done]. intros [= <-]. constructor; cbn; [| |constructor].
  - unfold owners. cbn. by rewrite app_nil_r.
  - constructor; cbn; rewrite ?app_nil_r; [done| |constructor|by intros id ?%not_elem_of_nil|].
    + intros id [Hid|Hid]; [|by apply not_elem_of_nil in Hid].
      apply list_elem_of_fmap in Hid as ([n e1] & -> & Hin). apply elem_of_map_to_list in Hin. by apply (Hf n).
    + intros n e1 He. destruct (Hf n e1 He) as [-> _]. split; [split; [done|by intros ?%not_elem_of_nil]|].
      by intros n' ?%not_elem_of_nil.
Qed.

(** ** A reload on its own is [Upstream.Reload] *)

Definition reload_next (x y : reload_task * Manager * gmap nat (Pool D) * W) : Prop :=
  let '(t, m, h, w) := x in let '(t', m', h', w') := y in reload_step t m h w = (Some t', m', h', w').

Lemma dial_entries_steps cfg flags eps es order m h w h' w' es' order' err :
  dial_entries ParseDuration InterfaceByName ParseMAC rnd rnd' cfg flags eps es order h w = (h', w', es', order', err) →
  rtc reload_next (Dialling cfg flags eps es order, m, h, w)
    (match err with None => Dialling cfg flags [] es' order' | Some _ => Releasing (entry_pools es') end, m, h', w').
Proof.
  revert es order h w. induction eps as [|ep eps IH]; intros es order h w; cbn [dial_entries].
  { intros [= <- <- <- <- <-]. apply rtc_refl. }
  destruct (dial_pool _ _ _ _ _ cfg ep flags h w) as [[h1 w1] [ptr|e1]] eqn:Ed.
  - intros Hd. eapply rtc_l; [|by apply IH]. cbn. by rewrite Ed.
  - intros [= <- <- <- <- <-]. apply rtc_once. cbn. by rewrite Ed.
Qed.

Lemma reload_alone cfg flags m h w m' h' w' r t :
  reload_begin cfg flags = Some t →
  Reload ParseDuration InterfaceByName ParseMAC rnd rnd' cfg flags m h w = (m', h', w', r) →
  ∃ t2 m2 h2 w2, rtc reload_next (t, m, h, w) (t2, m2, h2, w2) ∧ reload_step t2 m2 h2 w2 = (None, m', h', w').
Proof.
  unfold reload_begin, Reload. destruct (UpstreamEndpoints cfg) as [eps|]; [|done]. intros [= <-].
  destruct (dial_entries _ _ _ _ _ cfg flags eps ∅ [] h w) as [[[[h1 w1] es] order] err] eqn:Ed.
  apply (dial_entries_steps _ _ _ _ _ m) in Ed. destruct err as [e1|]; intros Hr.
  - eexists _, _, _, _. split; [exact Ed|]. cbn. destruct (close_pools _ h1 w1). by injection Hr as <- <- <- <-.
  - eexists _, _, _, _. split; [eapply rtc_r; [exact Ed|reflexivity]|]. cbn.
    destruct (close_pools _ h1 w1). by injection Hr as <- <- <- <-.
Qed.

(** A reload on its own that succeeds. *)
Lemma reload_alone_ok cfg flags m h w m' h' w' :
  Reload ParseDuration InterfaceByName ParseMAC rnd rnd' cfg flags m h w = (m', h', w', Ok tt) →
  ∃ t h1 w1 es order ptrs, reload_begin cfg flags = Some t ∧
    rtc reload_next (t, m, h, w) (Dialling cfg flags [] es order, m, h1, w1) ∧
    reload_step (Dialling cfg flags [] es order) m h1 w1 = (Some (Releasing ptrs), m', h1, w1) ∧
    reload_step (Releasing ptrs) m' h1 w1 = (None, m', h', w').
Proof.
  unfold reload_begin, Reload. destruct (UpstreamEndpoints cfg) as [eps|]; [|done].
  destruct (dial_entries _ _ _ _ _ cfg flags eps ∅ [] h w) as [[[[h1 w1] es] order] err] eqn:Ed.
  apply (dial_entries_steps _ _ _ _ _ m) in Ed. destruct err as [e1|]; [by destruct (close_pools _ h1 w1)|].
  intros Hr. exists (Dialling cfg flags eps ∅ []), h1, w1, es, order, (entry_pools (m_entries m)).
  split; [done|]. split; [exact Ed|]. destruct (close_pools _ h1 w1) as [h2 w2] eqn:Ec.
  injection Hr as <- <- <-. split; [done|]. cbn. by rewrite Ec.
Qed.

Lemma reload_next_inv base l rs news t m h w t' m' h' w' :
  rtc reload_next (t, m, h, w) (t', m', h', w') → task_ok t →
  owned base (entry_pools (m_entries m) ++ reload_pools t ++ l) h w →
  guarded (m_entries m) rs (reload_ids t ++ news) h →
  task_ok t' ∧ owned base (entry_pools (m_entries m') ++ reload_pools t' ++ l) h' w' ∧
  guarded (m_entries m') rs (reload_ids t' ++ news) h'.
Proof.
  intros Hr. remember (t, m, h, w) as x eqn:Ex. remember (t', m', h', w') as y eqn:Ey.
  revert t m h w Ex. induction Hr as [x|x [[[t1 m1] h1] w1] y Hs Hr IH]; intros t m h w Ex Ht Ho Hg; subst.
  { injection Ex as -> -> -> ->. done. }
  destruct (reload_step_inv base t l rs news m h w (Some t1) m1 h1 w1 Hs Ht) as (Ho1 & Hg1 & Ht1 & _).
  - cbn. by rewrite app_nil_r.
  - cbn. by rewrite app_nil_r.
  - apply (IH eq_refl t1 m1 h1 w1); [done|exact (proj1 (Forall_singleton _ _) Ht1)| |].
    + cbn in Ho1. by rewrite app_nil_r in Ho1.
    + cbn in Hg1. by rewrite app_nil_r in Hg1.
Qed.

(** What [NewManager] leaves. *)
Lemma NewManager_start_inv cfg flags names h w h' w' m eps x :
  UpstreamEndpoints cfg = Ok eps → NoDup (ep_Name <$> eps) →
  NewManager ParseDuration InterfaceByName ParseMAC rnd rnd' cfg flags names h w = (h', w', Ok m) →
  healthLoop_start m h' w' = Some x → mg_inv (held w) x.
Proof.
  intros He Hnd. unfold NewManager. rewrite He.
  destruct (dial_entries _ _ _ _ _ cfg flags eps ∅ [] h w) as [[[[h1 w1] es] order] [e1|]] eqn:Ed.
  { by destruct (Manager_Close _ h1 w1) as [[? ?] ?]. }
  set (m0 := mkManager cfg _ _ _ es order _ 0 false). destruct (pingAll_held names m0 h1 w1) as [P1 P2].
  destruct (pingAll names m0 h1 w1) as [[h2 w2] f]. intros [= <- <- <-]. cbn in P1, P2.
  set (mz := mkManager cfg (defaultHealth ParseDuration cfg) (defaultStrategy cfg) flags ∅ [] "" 0 false).
  assert (entry_pools ∅ = [] ∧ entry_ids ∅ = []) as [E1 E2]
    by (unfold entry_pools, entry_ids; by rewrite map_to_list_empty).
  destruct (reload_next_inv (held w) [] [] [] _ _ _ _ _ _ _ _ (dial_entries_steps _ _ _ _ _ mz _ _ _ _ _ _ _ Ed))
    as ((_ & _ & Hf) & Ho & Hg).
  - cbn. split; [done|]. split; [by intros n [? ?]|done].
  - cbn. rewrite E1. cbn. constructor; [constructor|by intros q ?%not_elem_of_nil|by intros p q ?%not_elem_of_nil
      |by intros q ?%not_elem_of_nil|]. unfold heap_handles. cbn. by rewrite (left_id_L ∅ (∪)).
  - cbn. rewrite E2. cbn. constructor; cbn; [rewrite E2; constructor| |constructor|by intros id ?%not_elem_of_nil|done].
    intros id. rewrite E2. cbn. by intros [?%not_elem_of_nil|?%not_elem_of_nil].
  - cbn in Ho, Hg. rewrite E1, app_nil_r in Ho. rewrite app_nil_r in Hg. cbn in Ho.
    pose proof (gd_ids _ _ _ _ Hg) as Hi. rewrite E2 in Hi. cbn in Hi.
    apply healthLoop_start_inv; [by eapply owned_same|done|].
    intros n e1 Hn. split; [by eapply Hf|]. apply P2, (gd_heap _ _ _ _ Hg). left. cbn. rewrite E2.
    by eapply elem_of_entry_ids.
Qed.

(** Once it has started: the manager of a client that runs, in any state. *)
Definition started (cfg : Config) (w0 : W) (x : mg_state W D) : Prop :=
  ∃ flags names h eps h1 w1 m x0,
    UpstreamEndpoints cfg = Ok eps ∧ NoDup (ep_Name <$> eps) ∧
    NewManager ParseDuration InterfaceByName ParseMAC rnd rnd' cfg flags names h w0 = (h1, w1, Ok m) ∧
    healthLoop_start m h1 w1 = Some x0 ∧ rtc mg_step x0 x.

Lemma started_inv cfg w0 x : started cfg w0 x → mg_inv (held w0) x.
Proof.
  intros (flags & names & h & eps & h1 & w1 & m & x0 & He & Hn & Hm & Hx0 & Hx).
  eapply rtc_preserves; [exact Hx|intros ???; by eapply mg_step_inv|]. by eapply NewManager_start_inv.
Qed.

(** C2: the manager's pools and reconnections, over every interleaving of the
    health loop, the reconnections it starts, reloads, cancellation, [Close] and
    the traffic — provided that in the configuration it started with and in every
    one it is reloaded with the upstreams' names are distinct.  ([Validate] does
    not check this; with a name that comes twice the pool of the earlier endpoint
    is lost.)  Then each pool is owned once, by an entry, by the reconnection
    about to install it, or by the reload that made it or took it out; owned pools
    exist and share no handle, and what is open beyond what was open before the
    manager is exactly what they hold, so no pool is leaked or closed under
    somebody who still has it.  An entry's flag is set exactly while one
    reconnection of it runs, and no entry has two. *)
Theorem manager_ownership cfg w0 x (Hx : started cfg w0 x) :
  let l := owners x in let h := mg_h x in
  NoDup l ∧ (∀ q, q ∈ l → is_Some (h !! q)) ∧
  (∀ p q, p ∈ l → q ∈ l → p ≠ q → ptr_handles h p ## ptr_handles h q) ∧
  heap_handles h l ## held w0 ∧ held (mg_w x) = heap_handles h l ∪ held w0 ∧
  (∀ n e, m_entries (mg_m x) !! n = Some e →
     (e_reconnecting e = true ↔ ∃ st, Running n (e_id e) st ∈ mg_rec x)) ∧
  NoDup (concat (running_of <$> mg_rec x)).*2.
Proof.
  destruct (started_inv cfg w0 x Hx) as [[N Hh A B E] [_ _ Ho _ Hf] _]. cbv zeta. split_and!; try done.
  - intros z (q & Hq & Hz)%elem_of_heap_handles. by apply (B q).
  - intros n e He. rewrite (proj1 (Hf n e He)), list_elem_of_In, in_concat. split.
    + intros (l & Hl & Hin). apply list_elem_of_In, list_elem_of_fmap in Hl as ([n'|n' eid st] & -> & Hg); [done|].
      destruct Hin as [[= -> ->]|[]]. by exists st.
    + intros [st Hst]. eexists. split; [apply list_elem_of_In, list_elem_of_fmap; by eexists|]. by left.
Qed.

(** ** Shutting down *)

(** The goroutines the manager has left get on. *)
Inductive mg_progress : mg_state W D → mg_state W D → Prop :=
| progress_exit m h w gs ts :
    m_cancelled m = true → mg_progress (mkMG m h w true gs ts) (mkMG m h w false gs ts)
| progress_go m h w b gs1 g gs2 ts g' m' h' w' :
    goroutine_step g m h w = (g', m', h', w') →
    mg_progress (mkMG m h w b (gs1 ++ g :: gs2) ts) (mkMG m' h' w' b (gs1 ++ option_list g' ++ gs2) ts)
| progress_reloading m h w b gs ts1 t ts2 t' m' h' w' :
    reload_step t m h w = (t', m', h', w') →
    mg_progress (mkMG m h w b gs (ts1 ++ t :: ts2)) (mkMG m' h' w' b gs (ts1 ++ option_list t' ++ ts2)).

Definition goroutine_weight (g : goroutine) : nat :=
  match g with
  | Spawned _ | Running _ _ (RDial _ _ _ _) => 3
  | Running _ _ RDone => 1
  | Running _ _ _ => 2
  end.
Definition reload_weight (t : reload_task) : nat :=
  match t with Dialling _ _ rest _ _ => 2 + length rest | Releasing _ => 1 end.
Definition mg_weight (x : mg_state W D) : nat :=
  (if mg_loop x then 1 else 0) + sum_list_with goroutine_weight (mg_rec x) +
  sum_list_with reload_weight (mg_rel x).
Definition mg_idle (x : mg_state W D) : Prop := mg_loop x = false ∧ mg_rec x = [] ∧ mg_rel x = [].

Lemma mg_progress_step x y : mg_progress x y → mg_step x y.
Proof. intros []; [by apply mg_of_own, mg_exit|by apply mg_of_own, mg_go|by apply mg_reloading]. Qed.

Lemma goroutine_step_weight g m h w g' m' h' w' :
  goroutine_step g m h w = (g', m', h', w') → m_cancelled m = true →
  (sum_list_with goroutine_weight (option_list g') < goroutine_weight g)%nat.
Proof.
  intros Hs Hc. destruct g as [name|name eid [b|ep cfg rf b|b|ptr|]]; cbn in Hs; rewrite ?Hc in Hs.
  - destruct (reconnect_begin name m) as [[m1 i]|]; injection Hs as <- _ _ _; cbn; lia.
  - injection Hs as <- _ _ _. cbn. lia.
  - destruct (dial_pool _ _ _ _ _ cfg ep rf h w) as [[h1 w1] [ptr|e1]].
    + destruct (timed_ping ptr h1 w1) as [[h2 w2] [t|]]; [|destruct (close_pool ptr h2 w2)]; injection Hs as <- _ _ _; cbn; lia.
    + injection Hs as <- _ _ _. cbn. lia.
  - injection Hs as <- _ _ _. cbn. lia.
  - destruct (reconnect_swap name ptr m h w) as [[m1 h1] w1]. injection Hs as <- _ _ _. cbn. lia.
  - injection Hs as <- _ _ _. cbn. lia.
Qed.

Lemma reload_step_weight t m h w t' m' h' w' :
  reload_step t m h w = (t', m', h', w') →
  (sum_list_with reload_weight (option_list t') < reload_weight t)%nat.
Proof.
  intros Hs. destruct t as [cfg flags [|ep rest] es order|ptrs]; cbn in Hs.
  - injection Hs as <- _ _ _. cbn. lia.
  - destruct (dial_pool _ _ _ _ _ cfg ep flags h w) as [[h1 w1] [ptr|e1]]; injection Hs as <- _ _ _; cbn; lia.
  - destruct (close_pools ptrs h w). injection Hs as <- _ _ _. cbn. lia.
Qed.

Lemma mg_progress_weight base x y :
  mg_progress x y → mg_inv base x → m_cancelled (mg_m x) = true →
  m_cancelled (mg_m y) = true ∧ (mg_weight y < mg_weight x)%nat.
Proof.
  intros Hp [Ho Hg Ht] Hc. destruct Hp as [m h w gs ts Hm|m h w b gs1 g gs2 ts g' m' h' w' Hs|m h w b gs ts1 t ts2 t' m' h' w' Hs];
    cbn [mg_m mg_h mg_w mg_rec mg_rel] in *.
  - split; [done|]. unfold mg_weight. cbn. lia.
  - apply (owned_perm _ _ _ _ _ (owners_rec m h w b gs1 [g] gs2 ts)) in Ho.
    destruct (goroutine_step_inv base g _ (concat (running_of <$> gs1 ++ gs2)) (concat (reload_ids <$> ts)) _ _ _ _ _ _ _ Hs Ho)
      as (_ & _ & Hk).
    { eapply guarded_perm; [|done|exact Hg]. apply (concat_fmap_middle running_of gs1 [g] gs2). }
    split; [congruence|]. apply goroutine_step_weight in Hs; [|done]. unfold mg_weight. cbn.
    rewrite !sum_list_with_app. cbn. lia.
  - assert (m_cancelled m' = m_cancelled m) as Hk.
    { destruct t as [cfg flags [|ep rest] es order|ptrs]; cbn in Hs.
      - by injection Hs as _ <- _ _.
      - destruct (dial_pool _ _ _ _ _ cfg ep flags h w) as [[? ?] []]; by injection Hs as _ <- _ _.
      - destruct (close_pools ptrs h w). by injection Hs as _ <- _ _. }
    split; [congruence|]. apply reload_step_weight in Hs. unfold mg_weight. cbn. rewrite !sum_list_with_app. cbn. lia.
Qed.

(** A closed manager gets no entries from its goroutines. *)
Lemma goroutine_step_closed g m h w g' m' h' w' :
  goroutine_step g m h w = (g', m', h', w') → m_entries m = ∅ → m_entries m' = ∅.
Proof.
  intros Hs He. assert (∀ n, m_entries m !! n = None) as Hn by (intros n; rewrite He; apply lookup_empty).
  destruct g as [name|name eid st]; cbn in Hs.
  - unfold reconnect_begin in Hs. rewrite Hn in Hs. congruence.
  - destruct st as [b|ep cfg rf b|b|ptr|]; cbn in Hs.
    + destruct (m_cancelled m); [congruence|]. unfold settled in Hs. rewrite Hn in Hs. congruence.
    + destruct (dial_pool _ _ _ _ _ cfg ep rf h w) as [[h1 w1] [ptr|e1]]; [|congruence].
      destruct (timed_ping ptr h1 w1) as [[h2 w2] [t|]]; [congruence|]. destruct (close_pool ptr h2 w2). congruence.
    + destruct (m_cancelled m); congruence.
    + unfold reconnect_swap in Hs. rewrite Hn in Hs. destruct (close_pool ptr h w). congruence.
    + unfold reconnect_end in Hs. rewrite Hn in Hs. congruence.
Qed.

Lemma mg_progress_closed x y :
  mg_progress x y → mg_rel x = [] → m_entries (mg_m x) = ∅ → mg_rel y = [] ∧ m_entries (mg_m y) = ∅.
Proof.
  intros [] E Hn; cbn in *; [done|split; [done|by eapply goroutine_step_closed]|].
  by destruct ts1.
Qed.

(** What does not bring the manager to its end: a round of the health loop, which
    a ticker that fires together with the end of the context may still start, and
    the traffic.  Each entry that a round finds dead may get a reconnection. *)
Inductive mg_env : nat → mg_state W D → mg_state W D → Prop :=
| env_tick names m h w gs ts m' h' w' l :
    names ≡ₚ (map_to_list (m_entries m)).*1 → runHealthCheck names m h w = (m', h', w', l) →
    mg_env (3 * length names)%nat (mkMG m h w true gs ts) (mkMG m' h' w' true (gs ++ (Spawned <$> l)) ts)
| env_use m h w b gs ts m' h' w' :
    same_but_pick m m' → m_cancelled m' = m_cancelled m → m_cfg m' = m_cfg m →
    same_handles h h' → held w' = held w →
    mg_env 0%nat (mkMG m h w b gs ts) (mkMG m' h' w' b gs ts).

(** Every step of the manager, with what it brings; with [reloads], reloads may
    begin. *)
Inductive mg_live (reloads : bool) : option nat → mg_state W D → mg_state W D → Prop :=
| live_progress x y : mg_progress x y → mg_live reloads None x y
| live_env c x y : mg_env c x y → mg_live reloads (Some c) x y
| live_cancel m h w b gs ts :
    mg_live reloads (Some 0%nat) (mkMG m h w b gs ts) (mkMG (set_cancelled m) h w b gs ts)
| live_close m h w b gs ts m' h' w' :
    m_cancelled m = true → Manager_Close m h w = (m', h', w') →
    mg_live reloads (Some 0%nat) (mkMG m h w b gs ts) (mkMG m' h' w' b gs ts)
| live_reload cfg flags t m h w b gs ts :
    reloads = true → accepts cfg → reload_begin cfg flags = Some t →
    mg_live reloads (Some (reload_weight t)) (mkMG m h w b gs ts) (mkMG m h w b gs (t :: ts)).

Lemma mg_env_own c x y : mg_env c x y → mg_own x y.
Proof. intros []; [by eapply mg_tick|by apply mg_use]. Qed.

Lemma mg_live_step reloads l x y : mg_live reloads l x y → mg_step x y.
Proof.
  intros [? ? Hs|c ? ? Hs| | |];
    [by apply mg_progress_step|by eapply mg_of_own, mg_env_own|apply mg_cancel|by apply mg_close|by eapply mg_reload].
Qed.

Lemma mg_own_live x y : mg_own x y → mg_progress x y ∨ ∃ c, mg_env c x y.
Proof.
  intros []; [right; eexists; by eapply env_tick|left; by apply progress_exit|left; by apply progress_go
    |right; eexists; by apply env_use].
Qed.

(** No step is left out. *)
Lemma mg_step_live x y : mg_step x y ↔ ∃ l, mg_live true l x y.
Proof.
  split; [|intros [l Hl]; by eapply mg_live_step].
  intros [x' y' Hs| | | |].
  - apply mg_own_live in Hs as [Hs|[c Hs]]; eexists; [by apply live_progress|by apply live_env].
  - eexists. by eapply live_reload.
  - eexists. by apply live_progress, progress_reloading.
  - eexists. apply live_cancel.
  - eexists. by apply live_close.
Qed.

Lemma mg_env_weight c x y : mg_env c x y → (mg_weight y ≤ mg_weight x + c)%nat.
Proof.
  intros [names m h w gs ts m' h' w' l _ Hr|]; [|unfold mg_weight; cbn; lia].
  apply runHealthCheck_sublist, sublist_length in Hr. unfold mg_weight. cbn [mg_loop mg_rec mg_rel].
  rewrite sum_list_with_app. assert (sum_list_with goroutine_weight (Spawned <$> l) = 3 * length l)%nat as ->; [|lia].
  clear. induction l as [|n l IH]; [done|]. rewrite fmap_cons. cbn [sum_list_with goroutine_weight length]. lia.
Qed.

Lemma mg_step_cancelled base x y :
  mg_step x y → mg_inv base x → m_cancelled (mg_m x) = true → m_cancelled (mg_m y) = true.
Proof.
  intros Hs Hi Hc.
  destruct Hs as [x y Ho| |m h w b gs ts1 t ts2 t' m' h' w' Hr|m h w b gs ts|m h w b gs ts m' h' w' _ Hr].
  - destruct Ho as [names m h w gs ts m' h' w' l _ Hr| |m h w b gs1 g gs2 ts g' m' h' w' Hr|m h w b gs ts m' h' w' _ Hk].
    + pose proof (runHealthCheck_held names m h w) as Hk. rewrite Hr in Hk. cbn in *. destruct Hk as (_ & _ & Hk). congruence.
    + done.
    + eapply mg_progress_weight; [by apply progress_go|exact Hi|exact Hc].
    + cbn in *. congruence.
  - done.
  - eapply mg_progress_weight; [by apply progress_reloading|exact Hi|exact Hc].
  - by destruct m.
  - unfold Manager_Close in Hr. destruct (close_pools _ h w). by injection Hr as <- _ _.
Qed.

(** The invariant of a manager whose context has ended. *)
Definition ended (base : gset nat) (x : mg_state W D) : Prop :=
  mg_inv base x ∧ m_cancelled (mg_m x) = true.

Lemma mg_live_ended base reloads l x y : mg_live reloads l x y → ended base x → ended base y.
Proof.
  intros Hs [Hi Hc]. apply mg_live_step in Hs. split; [by eapply mg_step_inv|by eapply mg_step_cancelled].
Qed.

Lemma mg_live_weight base reloads l x y :
  mg_live reloads l x y → ended base x →
  match l with None => mg_weight y < mg_weight x | Some c => mg_weight y ≤ mg_weight x + c end%nat.
Proof.
  intros Hs [Hi Hc]. destruct Hs as [? ? Hp|c ? ? He| | |]; [by eapply mg_progress_weight|by apply mg_env_weight|..];
    unfold mg_weight; cbn; lia.
Qed.

(** A closed manager without a reload stays empty. *)
Definition emptied (x : mg_state W D) : Prop := mg_rel x = [] ∧ m_entries (mg_m x) = ∅.

Lemma mg_env_emptied c x y : mg_env c x y → emptied x → emptied y.
Proof.
  intros [names m h w gs ts m' h' w' l Hn Hr|m h w b gs ts m' h' w' (E & _)] [E1 E2]; cbn in *;
    (split; [done|]); cbn; [|congruence].
  rewrite E2, map_to_list_empty in Hn. apply Permutation_nil_r in Hn as ->. cbn in Hr. by injection Hr as <- _ _ _.
Qed.

Lemma mg_live_emptied l x y : mg_live false l x y → emptied x → emptied y.
Proof.
  intros [? ? Hs|c ? ? Hs|m|m h w b gs ts m' h' w' _ Hr|] He; [|by eapply mg_env_emptied|..|done].
  - destruct He. by eapply mg_progress_closed.
  - by destruct m.
  - split; [apply He|]. unfold Manager_Close in Hr. destruct (close_pools _ h w). by injection Hr as <- _ _.
Qed.

Lemma mg_live_run base reloads n b x y :
  budgeted (mg_live reloads) n b x y → ended base x →
  ended base y ∧ (n + mg_weight y ≤ mg_weight x + b)%nat ∧ (reloads = false → emptied x → emptied y).
Proof.
  intros Hr Hx. destruct (budgeted_bound _ (ended base) mg_weight _ _ _ _ (mg_live_ended base reloads)
    (mg_live_weight base reloads) Hr Hx) as [Hy Hle].
  split; [done|]. split; [done|]. intros ->. by apply (budgeted_preserves _ emptied _ _ _ _ Hr mg_live_emptied).
Qed.

Lemma mg_unfinished x : m_cancelled (mg_m x) = true → ¬ mg_idle x → ∃ y, mg_progress x y.
Proof.
  destruct x as [m h w [] gs ts]; [intros Hc _; eexists; by apply progress_exit|]. intros _.
  destruct gs as [|g gs]; [destruct ts as [|t ts]; [by intros []|]|]; intros _.
  - destruct (reload_step t m h w) as [[[t' m'] h'] w'] eqn:E. eexists. by apply (progress_reloading _ _ _ _ _ []).
  - destruct (goroutine_step g m h w) as [[[g' m'] h'] w'] eqn:E. eexists. by apply (progress_go _ _ _ _ []).
Qed.

Lemma idle_held base x :
  mg_inv base x → mg_idle x →
  held (mg_w x) = heap_handles (mg_h x) (entry_pools (m_entries (mg_m x))) ∪ base.
Proof.
  intros [Ho _ _] (_ & E1 & E2). rewrite (ow_held _ _ _ _ Ho). unfold owners.
  rewrite E1, E2. cbn. by rewrite app_nil_r.
Qed.

Lemma emptied_held base x : mg_inv base x → mg_idle x → emptied x → held (mg_w x) = base.
Proof.
  intros Hi Hid [_ E]. rewrite (idle_held _ _ Hi Hid), E. unfold entry_pools. rewrite map_to_list_empty.
  unfold heap_handles. cbn. by rewrite (left_id_L ∅ (∪)).
Qed.

Lemma progress_live reloads n x y : nsteps mg_progress n x y → nsteps (mg_live reloads None) n x y.
Proof. induction 1; [apply nsteps_O|]. eapply nsteps_l; [by apply live_progress|done]. Qed.

(** A reload that has dialled, when nothing else is left. *)
Lemma late_reload base cfg flags es order m h w :
  ended base (mkMG m h w false [] [Dialling cfg flags [] es order]) → m_entries m = ∅ →
  ∃ z, nsteps mg_progress 2 (mkMG m h w false [] [Dialling cfg flags [] es order]) z ∧ mg_idle z ∧
    m_entries (mg_m z) = es ∧ held (mg_w z) = heap_handles (mg_h z) (entry_pools es) ∪ base.
Proof.
  intros He E. set (t := Dialling cfg flags [] es order) in *.
  assert (∃ m1, reload_step t m h w = (Some (Releasing []), m1, h, w) ∧ m_entries m1 = es) as (m1 & Hs & Em).
  { eexists. cbn. rewrite E. unfold entry_pools. by rewrite map_to_list_empty. }
  assert (nsteps mg_progress 2 (mkMG m h w false [] [t]) (mkMG m1 h w false [] [])) as Hz.
  { eapply nsteps_l; [exact (progress_reloading m h w false [] [] t [] _ _ _ _ Hs)|].
    eapply nsteps_l; [exact (progress_reloading m1 h w false [] [] (Releasing []) [] None m1 h w eq_refl)|apply nsteps_O]. }
  eexists. split; [exact Hz|]. split; [done|]. split; [exact Em|].
  destruct (mg_live_run base false 2 0 _ _ (nsteps_budgeted _ _ _ _
    (progress_live false _ _ _ Hz)) He) as [[Hi _] _].
  rewrite (idle_held _ _ Hi) by done. cbn. by rewrite Em.
Qed.

(** C17: the end of the manager, for upstreams with distinct names in every
    configuration it is given (see [manager_ownership]).  In any run after
    its context was cancelled, with no step left out: each round that the health
    loop still starts (its ticker can fire together with the end of the context)
    brings at most three steps for each entry; a reload that still begins, two
    and one for each endpoint; the traffic, [Close] and another cancellation
    nothing.  Then the steps of the goroutines and reloads are no more than those
    left at the cancellation and those brought since, and as long as one is left
    it can step.  When none is left, what is open beyond what was open
    before are the pools of the entries; so after [Close], with no reload under
    way and none beginning, everything is released: a reconnection that still
    succeeds closes its pool.  But a reload that has dialled when [Close] runs
    installs its entries in the closed manager, and when everything has stopped
    their pools are still open. *)
Theorem manager_shutdown cfg w0 x reloads n b y
    (Hx : started cfg w0 x) (Hc : m_cancelled (mg_m x) = true) (Hy : budgeted (mg_live reloads) n b x y) :
  (∀ x1 y1, mg_step x1 y1 ↔ ∃ l, mg_live true l x1 y1) ∧
  (n ≤ mg_weight x + b)%nat ∧ (¬ mg_idle y → ∃ z, mg_live reloads None y z) ∧
  (mg_idle y → held (mg_w y) = heap_handles (mg_h y) (entry_pools (m_entries (mg_m y))) ∪ held w0) ∧
  (reloads = false → mg_rel x = [] → m_entries (mg_m x) = ∅ → mg_idle y → held (mg_w y) = held w0) ∧
  (∀ cfg' flags es order, mg_loop y = false → mg_rec y = [] → mg_rel y = [Dialling cfg' flags [] es order] →
     m_entries (mg_m y) = ∅ →
     ∃ z, nsteps (mg_live false None) 2 y z ∧ mg_idle z ∧ m_entries (mg_m z) = es ∧
       held (mg_w z) = heap_handles (mg_h z) (entry_pools es) ∪ held w0).
Proof.
  destruct (mg_live_run _ _ _ _ _ _ Hy (conj (started_inv _ _ _ Hx) Hc)) as ([Hi Hc'] & Hle & Hn).
  split; [apply mg_step_live|]. split; [lia|].
  split; [intros Hid; destruct (mg_unfinished y Hc' Hid) as [z Hz]; exists z; by apply live_progress|].
  split; [by apply idle_held|]. split.
  - intros Hrl E1 E2 Hid. by apply (emptied_held _ _ Hi Hid), Hn.
  - intros cfg' flags es order E1 E2 E3 E4. destruct y as [m h w lp gs ts]. cbn in *. subst lp gs ts.
    destruct (late_reload (held w0) cfg' flags es order m h w) as (z & Hz & Hr); [done|done|]. exists z.
    split; [by apply progress_live|exact Hr].
Qed.
End steps.

(** ** A manager with two upstreams *)

Definition two_servers : Config := set_Transport sample_kcp_valid valid_client.

Abbreviation sample_started :=
  (started (W := Mock) (D := unit) no_durations (λ _, true) (λ _, Some mac0) (λ _ _, 7) (λ _ _, 8) (λ c, c = two_servers)).

Definition fresh_manager : gmap nat (Pool unit) * Mock * result mgr_error Manager :=
  NewManager no_durations (λ _, true) (λ _, Some mac0) (λ _ _, 7) (λ _ _, 8) two_servers [] ["a"; "upstream-2"]%string ∅ mock0.

Lemma two_servers_endpoints : ∃ eps, UpstreamEndpoints two_servers = Ok eps ∧ ep_Name <$> eps = ["a"; "upstream-2"]%string.
Proof. eexists. split; [vm_compute; reflexivity|reflexivity]. Qed.

Lemma two_servers_distinct cfg eps :
  cfg = two_servers → UpstreamEndpoints cfg = Ok eps → NoDup (ep_Name <$> eps).
Proof.
  intros -> He. destruct two_servers_endpoints as (eps' & He' & En). rewrite He in He'. injection He' as ->.
  rewrite En. apply (bool_decide_unpack _). reflexivity.
Qed.

Lemma fresh_manager_started :
  ∃ h w m x, fresh_manager = (h, w, Ok m) ∧ healthLoop_start m h w = Some x ∧ sample_started two_servers mock0 x.
Proof.
  assert (∃ h w m, fresh_manager = (h, w, Ok m) ∧ (0 <? hs_Interval (m_health m)) = true) as (h & w & m & E & Hi).
  { eexists _, _, _. split; [vm_compute; reflexivity|reflexivity]. }
  destruct two_servers_endpoints as (eps & He & En).
  exists h, w, m, (mkMG m h w true [] []). unfold healthLoop_start. rewrite Hi. split; [done|]. split; [done|].
  exists [], ["a"; "upstream-2"]%string, ∅, eps, h, w, m, (mkMG m h w true [] []).
  split; [done|]. split; [by eapply two_servers_distinct|]. split; [done|]. unfold healthLoop_start. rewrite Hi.
  by split.
Qed.

Lemma mock_now_held (w : Mock) : held (Now w).1 = held w.
Proof. done. Qed.

Lemma manager_ownership_witness :
  ∃ x, sample_started two_servers mock0 x ∧ NoDup (owners x) ∧
    held (mg_w x) = heap_handles (mg_h x) (owners x) ∪ held mock0.
Proof.
  destruct fresh_manager_started as (h & w & m & x & _ & _ & Hx). exists x. split; [done|].
  destruct (manager_ownership (W := Mock) no_durations (λ _, true) (λ _, Some mac0) (λ _ _, 7) (λ _ _, 8) (λ c, c = two_servers)
    mock_now_held two_servers_distinct two_servers mock0 x Hx) as (N1 & _ & _ & _ & N2 & _).
  by split.
Defined.

(** Cancelled, closed, one more round of the health loop, and the loop left. *)
Lemma manager_shutdown_witness :
  ∃ y, mg_idle (D := unit) y ∧ held (mg_w y) = held mock0.
Proof.
  destruct fresh_manager_started as (h & w & m & x & E & Ex & Hx). unfold healthLoop_start in Ex.
  destruct (0 <? _); [|done]. injection Ex as <-.
  destruct (Manager_Close (set_cancelled m) h w) as [[m1 h1] w1] eqn:Ec.
  assert (m_cancelled m1 = true ∧ m_entries m1 = ∅) as [C1 C2].
  { unfold Manager_Close in Ec. destruct (close_pools _ h w). injection Ec as <- _ _. split; reflexivity. }
  assert (sample_started two_servers mock0 (mkMG m1 h1 w1 true [] [])) as Hx1.
  { destruct Hx as (flags & names & h' & eps & h0 & w0 & m0 & x0 & He & Hn & Hm & Hx0 & Hx).
    exists flags, names, h', eps, h0, w0, m0, x0. split; [exact He|]. split; [exact Hn|]. split; [exact Hm|].
    split; [exact Hx0|]. eapply rtc_r; [eapply rtc_r; [exact Hx|apply mg_cancel]|].
    apply mg_close; [by destruct m|exact Ec]. }
  exists (mkMG m1 h1 w1 false [] []). split; [by split_and!|].
  refine (proj1 (proj2 (proj2 (proj2 (proj2 (manager_shutdown (W := Mock) no_durations (λ _, true) (λ _, Some mac0) (λ _ _, 7)
    (λ _ _, 8) (λ c, c = two_servers) mock_now_held two_servers_distinct two_servers mock0 _ false 1 0 _ Hx1 C1 _))))) eq_refl eq_refl C2 _).
  - refine (budgeted_other _ 0 1 0 _ (mkMG m1 h1 w1 true ([] ++ (Spawned <$> [])) []) _ _ _).
    { apply live_env. apply (env_tick []); [cbn; rewrite C2, map_to_list_empty; constructor|reflexivity]. }
    eapply budgeted_own; [apply live_progress; by apply progress_exit|apply budgeted_refl].
  - by split_and!.
Defined.
