(* ===== verification/ClientRuns.v ===== *)
(** [Client.Run] of internal/tunnel/client.go from start to return, with the
    goroutines it leaves: the upstream manager of [ManagerRuns], the services of
    [Services], the signal watcher, and the reloads from a signal or from the
    admin API, which go through the manager first and the services afterwards.

    A run of the client contains a run of the manager ([cl_step_mg]), so that the
    invariants proved there hold here. *)

From S2P Require Import Prelude GoStd NetUtil Protocol Config ConfigResolve Transport TunnelPool TunnelDial Upstream Services Client Ownership ManagerRuns.

Local Open Scope Z_scope.

(** ** The state *)

(** Where [Run] is: in its own [startServices], at [<-runCtx.Done()], and then in
    its deferred calls, of which [stopServices] has two critical points. *)
Inductive run_phase : Type :=
| RunStarting | RunBlocked | RunStop | RunWait | RunClose | RunReturned.

Inductive origin : Type := FromSignal | FromAdmin.

#[export] Instance origin_eq_dec : EqDecision origin.
Proof. solve_decision. Defined.

(** Where [ReloadFromDisk] is: in [up.Reload], which has installed its entries or
    not; before [c.cfg.Store]; in [startServices], as a call of [Services]. *)
Inductive reload_phase : Type :=
| InManager (cfg : Config) (installed : bool) (t : reload_task)
| InStore (cfg : Config)
| InServices (i : nat).

Abbreviation reload := (origin * reload_phase)%type.

Definition task_of (r : reload) : list reload_task :=
  match r.2 with InManager _ _ t => [t] | _ => [] end.
Definition manager_tasks (rl : list reload) : list reload_task := concat (task_of <$> rl).
Arguments manager_tasks : simpl never.

Definition call_of (r : reload) : list nat :=
  match r.2 with InServices i => [i] | _ => [] end.

(** The step of [up.Reload] that installs the new entries. *)
Definition installs (t : reload_task) : bool :=
  match t with Dialling _ _ [] _ _ => true | _ => false end.

(** What a reload does after a step of [up.Reload]: go on, store its
    configuration, or give up. *)
Definition after_reload_step (cfg : Config) (ok : bool) (t' : option reload_task) : option reload_phase :=
  match t' with
  | Some t' => Some (InManager cfg ok t')
  | None => if ok then Some (InStore cfg) else None
  end.

(** The number of [Run]'s call of [startServices]. *)
Definition run_call : nat := 0.

(** [stopServices] up to [svcWg.Wait()], which [true] says is called. *)
Definition stop_begin (s : svc_state) : svc_state * bool :=
  match sv_cancel s with
  | Some g => (mkSvc (sv_tasks s) ({[g]} ∪ sv_cancelled s) None (sv_next s) (sv_calls s), true)
  | None => (s, false)
  end.

(** ** How much is left of the services *)

(** A generation has a task for each rule and one for the redirect; a task has to
    listen and to end. *)
Definition generation_weight (cfg : Config) : nat :=
  2 * (length (cfg_Forward cfg) + length (cfg_SOCKS5 cfg) + 1).
Definition task_weight (t : running) : nat := if rt_listening t then 1 else 2.
Definition call_weight (c : call) : nat :=
  match c with
  | CStart cfg _ => 1 + generation_weight cfg
  | CSet cfg => 2 + generation_weight cfg
  | CWait cfg => 3 + generation_weight cfg
  | CStop cfg => 4 + generation_weight cfg
  end.
Definition calls_weight (cs : gmap nat call) : nat := sum_list_with (call_weight ∘ snd) (map_to_list cs).
Definition svc_weight (s : svc_state) : nat :=
  sum_list_with task_weight (sv_tasks s) + calls_weight (sv_calls s).

Lemma calls_weight_insert i c cs : cs !! i = None → calls_weight (<[i := c]> cs) = (call_weight c + calls_weight cs)%nat.
Proof. intros Hi. unfold calls_weight. by rewrite map_to_list_insert. Qed.

Lemma calls_weight_delete i c cs : cs !! i = Some c → calls_weight cs = (call_weight c + calls_weight (delete i cs))%nat.
Proof.
  intros Hi. rewrite <- (insert_delete_id cs i c) at 1 by done. apply calls_weight_insert, lookup_delete_eq.
Qed.

Lemma calls_weight_update i c d cs :
  cs !! i = Some c → (calls_weight (<[i := d]> cs) + call_weight c = calls_weight cs + call_weight d)%nat.
Proof.
  intros Hi. rewrite (calls_weight_delete i c cs Hi), <- insert_delete_eq.
  rewrite calls_weight_insert by apply lookup_delete_eq. lia.
Qed.

Lemma known_prefix_length l : (length (known_prefix l) ≤ length l)%nat.
Proof. induction l as [|r l IH]; cbn; [lia|]. destruct (decide _); cbn; lia. Qed.

Lemma services_length ok cfg :
  (length (services ok cfg) ≤ length (cfg_Forward cfg) + length (cfg_SOCKS5 cfg) + 1)%nat.
Proof.
  unfold services, forwardRulesFromConfig. destruct (Start_rules (cfg_Forward cfg) _ (λ r, eq_refl)) as [S1 _].
  pose proof (known_prefix_length (cfg_Forward cfg)) as Hk.
  destruct (Forward.Start _) as [l [e|]]; cbn in S1; subst l.
  - rewrite !length_fmap. lia.
  - rewrite !length_app, !length_fmap. destruct (enabled_range cfg); [destruct ok|]; cbn; lia.
Qed.

Lemma start_tasks_weight g ok cfg :
  (sum_list_with task_weight (start_tasks g (services ok cfg)) ≤ generation_weight cfg)%nat.
Proof.
  pose proof (services_length ok cfg) as Hl. unfold generation_weight.
  etrans; [|apply Nat.mul_le_mono_l, Hl]. generalize (services ok cfg). clear Hl.
  intros l. induction l as [|[t b] l IH]; [done|]. unfold start_tasks in *. rewrite fmap_cons. cbn [sum_list_with length].
  unfold task_weight at 1. destruct (rt_listening _); lia.
Qed.

Lemma task_weight_pos t : (0 < task_weight t)%nat.
Proof. unfold task_weight. destruct (rt_listening t); lia. Qed.

Lemma svc_step_weight s s' : svc_step s s' → (svc_weight s' < svc_weight s)%nat.
Proof.
  intros [i cfg ts cc c n cs Hi|i cfg ts cc c n cs Hi Hw|i cfg ts cc c n cs Hi
    |i cfg gen ok ts cc c n cs Hi|t ts1 ts2 cc c n cs Hb|t ts1 ts2 cc c n cs Hl|t ts1 ts2 cc c n cs Hc];
    unfold svc_weight; cbn [sv_tasks sv_calls]; rewrite ?sum_list_with_app; cbn [sum_list_with].
  - destruct c as [g|]; cbn [sv_tasks sv_calls].
    + pose proof (calls_weight_update i _ (CWait cfg) cs Hi) as E. cbn [call_weight] in E. lia.
    + pose proof (calls_weight_update i _ (CSet cfg) cs Hi) as E. cbn [call_weight] in E. lia.
  - pose proof (calls_weight_update i _ (CSet cfg) cs Hi) as E. cbn [call_weight] in E. lia.
  - pose proof (calls_weight_update i _ (CStart cfg n) cs Hi) as E. cbn [call_weight] in E. lia.
  - pose proof (calls_weight_delete i _ cs Hi) as E. pose proof (start_tasks_weight gen ok cfg). cbn [call_weight] in E. lia.
  - destruct (rt_listening t) eqn:Et.
    { destruct Hb. exists t. split; [apply elem_of_app; right; left|done]. }
    assert (task_weight t = 2 ∧ task_weight (listening t) = 1)%nat as [-> ->] by (unfold task_weight; by rewrite Et). lia.
  - pose proof (task_weight_pos t). lia.
  - pose proof (task_weight_pos t). lia.
Qed.

Section client_runs.
Context {W : Type} `{StreamsHeld W} `{Clock W} {D : Type}.
Context (ParseDuration : string → option Z) (InterfaceByName : string → bool)
  (ParseMAC : string → option (list Z)) (rnd rnd' : nat → nat → Z) (rport : Z).
Implicit Types (m : Manager) (h : gmap nat (Pool D)) (w : W).

Record cl_state : Type := mkCL {
  cs_path : string; cs_cfg : Config;
  cs_m : Manager; cs_h : gmap nat (Pool D); cs_w : W; cs_loop : bool; cs_rec : list goroutine;
  cs_svc : svc_state;
  cs_done : bool;                (* the context of [Run] has ended *)
  cs_run : run_phase; cs_watch : bool; cs_rl : list reload }.

(** [Run] up to its call of [startServices]: the manager with its health loop,
    and the signal watcher. *)
Definition Run_begin (c : Client) (names : list string) h w : option cl_state :=
  match Run_ready ParseDuration InterfaceByName ParseMAC rnd rnd' rport c names h w with
  | (c, h, w, Ok _) =>
      up ← c_upstream c;
      x ← healthLoop_start up h w;
      Some (mkCL (c_cfgPath c) (c_cfg c) (mg_m x) (mg_h x) (mg_w x) (mg_loop x) (mg_rec x)
              (begin_call run_call (c_cfg c) svc_init) false RunStarting true [])
  | (_, _, _, Err _) => None
  end.

Abbreviation resolve := (resolve InterfaceByName ParseMAC rport).
Abbreviation reload_step := (reload_step ParseDuration InterfaceByName ParseMAC rnd rnd').
Abbreviation mg_own := (mg_own ParseDuration InterfaceByName ParseMAC rnd rnd').
Abbreviation mg_progress := (mg_progress ParseDuration InterfaceByName ParseMAC rnd rnd').

(** ** The steps *)

(** [Run] itself. *)
Inductive run_step : cl_state → cl_state → Prop :=
| run_started p cfg m h w b gs s d wt rl :
    sv_calls s !! run_call = None →
    run_step (mkCL p cfg m h w b gs s d RunStarting wt rl) (mkCL p cfg m h w b gs s d RunBlocked wt rl)
| run_woken p cfg m h w b gs s wt rl :
    run_step (mkCL p cfg m h w b gs s true RunBlocked wt rl) (mkCL p cfg m h w b gs s true RunStop wt rl)
| run_stop p cfg m h w b gs s d wt rl s' waits :
    stop_begin s = (s', waits) →
    run_step (mkCL p cfg m h w b gs s d RunStop wt rl)
      (mkCL p cfg m h w b gs s' d (if waits then RunWait else RunClose) wt rl)
| run_wait p cfg m h w b gs s d wt rl :
    none_waited (sv_tasks s) →
    run_step (mkCL p cfg m h w b gs s d RunWait wt rl) (mkCL p cfg m h w b gs s d RunClose wt rl)
| run_close p cfg m h w b gs s d wt rl m' h' w' :
    Manager_Close m h w = (m', h', w') →
    run_step (mkCL p cfg m h w b gs s d RunClose wt rl) (mkCL p cfg m' h' w' b gs s d RunReturned wt rl).

(** The steps that bring what is running to its end. *)
Inductive cl_progress : cl_state → cl_state → Prop :=
| cp_manager p cfg m h w b gs s d r wt rl m' h' w' b' gs' :
    mg_progress (mkMG m h w b gs []) (mkMG m' h' w' b' gs' []) →
    cl_progress (mkCL p cfg m h w b gs s d r wt rl) (mkCL p cfg m' h' w' b' gs' s d r wt rl)
| cp_reloading p cfg m h w b gs s d r wt rl1 o cfg' ok t rl2 t' m' h' w' :
    reload_step t m h w = (t', m', h', w') →
    cl_progress (mkCL p cfg m h w b gs s d r wt (rl1 ++ (o, InManager cfg' ok t) :: rl2))
      (mkCL p cfg m' h' w' b gs s d r wt
         (rl1 ++ option_list (pair o <$> after_reload_step cfg' (ok || installs t) t') ++ rl2))
| cp_store p cfg m h w b gs s d r wt rl1 o cfg' rl2 i :
    sv_calls s !! i = None → i ≠ run_call → i ∉ concat (call_of <$> rl1 ++ rl2) →
    cl_progress (mkCL p cfg m h w b gs s d r wt (rl1 ++ (o, InStore cfg') :: rl2))
      (mkCL p cfg' m h w b gs (begin_call i cfg' s) d r wt (rl1 ++ (o, InServices i) :: rl2))
| cp_reloaded p cfg m h w b gs s d r wt rl1 o i rl2 :
    sv_calls s !! i = None →
    cl_progress (mkCL p cfg m h w b gs s d r wt (rl1 ++ (o, InServices i) :: rl2))
      (mkCL p cfg m h w b gs s d r wt (rl1 ++ rl2))
| cp_services p cfg m h w b gs s d r wt rl s' :
    svc_step s s' →
    cl_progress (mkCL p cfg m h w b gs s d r wt rl) (mkCL p cfg m h w b gs s' d r wt rl)
| cp_task_end p cfg m h w b gs r wt rl t ts1 ts2 cc c n cs :
    (* every generation's context is a child of [runCtx] *)
    cl_progress (mkCL p cfg m h w b gs (mkSvc (ts1 ++ t :: ts2) cc c n cs) true r wt rl)
      (mkCL p cfg m h w b gs (mkSvc (ts1 ++ ts2) cc c n cs) true r wt rl)
| cp_run x y : run_step x y → cl_progress x y
| cp_watch_exit p cfg m h w b gs s r rl :
    FromSignal ∉ rl.*1 →
    cl_progress (mkCL p cfg m h w b gs s true r true rl) (mkCL p cfg m h w b gs s true r false rl).

(** The configurations that [config.Load] may return. *)
Context (accepts : Config → Prop).

(** Every step: those, the health checks and the traffic, the end of the context,
    and the start of a reload.  A signal's reload runs in the watcher. *)
Inductive cl_step : cl_state → cl_state → Prop :=
| cl_of_progress x y : cl_progress x y → cl_step x y
| cl_manager p cfg m h w b gs s d r wt rl m' h' w' b' gs' :
    mg_own (mkMG m h w b gs []) (mkMG m' h' w' b' gs' []) →
    cl_step (mkCL p cfg m h w b gs s d r wt rl) (mkCL p cfg m' h' w' b' gs' s d r wt rl)
| cl_done p cfg m h w b gs s d r wt rl :
    cl_step (mkCL p cfg m h w b gs s d r wt rl) (mkCL p cfg (set_cancelled m) h w b gs s true r wt rl)
| cl_reload p cfg m h w b gs s d r wt rl o cfg' rt t :
    p ≠ ""%string → accepts cfg' → resolve cfg' = Ok rt → reload_begin cfg' (nr_RemoteFlags rt) = Some t →
    (o = FromSignal → wt = true ∧ FromSignal ∉ rl.*1) →
    cl_step (mkCL p cfg m h w b gs s d r wt rl)
      (mkCL p cfg m h w b gs s d r wt ((o, InManager cfg' false t) :: rl)).

Definition client_runs (cfg : Config) (path : string) (w0 : W) (x : cl_state) : Prop :=
  ∃ names h eps x0, UpstreamEndpoints cfg = Ok eps ∧ NoDup (ep_Name <$> eps) ∧
    Run_begin (NewClient cfg path) names h w0 = Some x0 ∧ rtc cl_step x0 x.

(** Run has returned and nothing is left of what it started. *)
Definition cl_over (x : cl_state) : Prop :=
  cs_run x = RunReturned ∧ cs_loop x = false ∧ cs_rec x = [] ∧ cs_watch x = false ∧ cs_rl x = [] ∧
  sv_calls (cs_svc x) = ∅ ∧ sv_tasks (cs_svc x) = [].

(** ** The manager of a client *)

Definition mg_of (x : cl_state) : mg_state W D :=
  mkMG (cs_m x) (cs_h x) (cs_w x) (cs_loop x) (cs_rec x) (manager_tasks (cs_rl x)).

Abbreviation mg_step := (mg_step ParseDuration InterfaceByName ParseMAC rnd rnd' accepts).
Abbreviation started := (started ParseDuration InterfaceByName ParseMAC rnd rnd' accepts).

Lemma manager_tasks_app l1 l2 : manager_tasks (l1 ++ l2) = manager_tasks l1 ++ manager_tasks l2.
Proof. unfold manager_tasks. by rewrite fmap_app, concat_app. Qed.

Lemma manager_tasks_cons r l : manager_tasks (r :: l) = task_of r ++ manager_tasks l.
Proof. done. Qed.

(** What the reload leaves in the manager. *)
Lemma after_reload_task o cfg ok t' :
  manager_tasks (option_list (pair o <$> after_reload_step cfg ok t')) = option_list t'.
Proof. destruct t' as [t'|]; [done|]. by destruct ok. Qed.

(** The manager's own steps do not look at the reloads. *)
Lemma mg_own_frame m h w b gs m' h' w' b' gs' ts ts' :
  mg_own (mkMG m h w b gs ts') (mkMG m' h' w' b' gs' ts') → mg_own (mkMG m h w b gs ts) (mkMG m' h' w' b' gs' ts).
Proof. inversion 1; subst; [by eapply mg_tick|by apply mg_exit|by apply mg_go|by apply mg_use]. Qed.

Lemma mg_progress_frame m h w b gs m' h' w' b' gs' ts :
  mg_progress (mkMG m h w b gs []) (mkMG m' h' w' b' gs' []) →
  mg_progress (mkMG m h w b gs ts) (mkMG m' h' w' b' gs' ts).
Proof.
  inversion 1; subst; [by apply progress_exit|by apply progress_go|].
  match goal with E : _ ++ _ :: _ = [] |- _ => by apply app_nil in E as [_ ?] end.
Qed.

Lemma run_step_mg x y : run_step x y → rtc mg_step (mg_of x) (mg_of y).
Proof.
  intros []; try apply rtc_refl. unfold mg_of. cbn.
  eapply rtc_l; [apply mg_cancel|]. apply rtc_once, mg_close; destruct m; [done|].
  by unfold Manager_Close in *.
Qed.

Lemma cl_progress_mg x y : cl_progress x y → rtc mg_step (mg_of x) (mg_of y).
Proof.
  intros [p cfg m h w b gs s d r wt rl m' h' w' b' gs' Hs
    |p cfg m h w b gs s d r wt rl1 o cfg' ok t rl2 t' m' h' w' Hs| | | | |x' y' Hs|];
    unfold mg_of; cbn; rewrite ?manager_tasks_app, ?manager_tasks_cons; try apply rtc_refl.
  - apply rtc_once, mg_progress_step. by apply mg_progress_frame.
  - rewrite after_reload_task. by apply rtc_once, mg_reloading.
  - by apply run_step_mg.
Qed.

Lemma cl_step_mg x y : cl_step x y → rtc mg_step (mg_of x) (mg_of y).
Proof.
  intros [x' y' Hs|p cfg m h w b gs s d r wt rl m' h' w' b' gs' Hs|p cfg m h w b gs s d r wt rl
    |p cfg m h w b gs s d r wt rl o cfg' rt t Hp Ha Hr Ht Ho]; unfold mg_of; cbn.
  - by apply cl_progress_mg.
  - apply rtc_once, mg_of_own. by eapply mg_own_frame.
  - apply rtc_once, mg_cancel.
  - rewrite manager_tasks_cons. cbn. apply rtc_once. by eapply mg_reload.
Qed.

Lemma client_started cfg path w0 x : client_runs cfg path w0 x → started cfg w0 (mg_of x).
Proof.
  intros (names & h & eps & x0 & He & Hn & Hb & Hr). unfold Run_begin, Run_ready, open_manager in Hb. cbn in Hb.
  destruct (resolve cfg) as [rt|] eqn:Ert; [|done].
  destruct (NewManager _ _ _ _ _ cfg (nr_RemoteFlags rt) names h w0) as [[h1 w1] [m|]] eqn:Em; [|done].
  cbn in Hb. destruct (healthLoop_start m h1 w1) as [y|] eqn:Ey; [|done]. cbn in Hb.
  exists (nr_RemoteFlags rt), names, h, eps, h1, w1, m, y. do 4 (split; [done|]).
  assert (mg_of x0 = y) as <-.
  { injection Hb as <-. unfold healthLoop_start in Ey. destruct (0 <? _); [|done]. by injection Ey as <-. }
  clear -Hr. induction Hr as [|x1 x2 x3 Hs _ IH]; [apply rtc_refl|]. etrans; [by eapply cl_step_mg|done].
Qed.

Hypothesis Now_held : ∀ w, held (Now w).1 = held w.
Hypothesis accepts_distinct :
  ∀ cfg eps, accepts cfg → UpstreamEndpoints cfg = Ok eps → NoDup (ep_Name <$> eps).

(** ** The end of the context *)

Lemma mg_run_cancelled base (x y : mg_state W D) :
  rtc mg_step x y → mg_inv base x →
  mg_inv base y ∧ (m_cancelled (mg_m x) = true → m_cancelled (mg_m y) = true).
Proof.
  induction 1 as [x|x y z Hs _ IH]; intros Hi; [done|].
  destruct IH as [I1 I2]; [by eapply mg_step_inv|]. split; [done|]. intros Hc. by eapply I2, mg_step_cancelled.
Qed.

(** The invariant of the client: the manager's, whose context ends with [Run]'s. *)
Definition cl_inv (base : gset nat) (x : cl_state) : Prop :=
  mg_inv base (mg_of x) ∧ (cs_done x = true → m_cancelled (cs_m x) = true).

Lemma cl_progress_done x y : cl_progress x y → cs_done y = cs_done x.
Proof. by intros [| | | | | |x' y' []|]. Qed.

Lemma cl_step_inv base x y : cl_step x y → cl_inv base x → cl_inv base y.
Proof.
  intros Hs [Hi Hc]. destruct (mg_run_cancelled base _ _ (cl_step_mg _ _ Hs) Hi) as [Hi' Hk]. split; [done|].
  destruct Hs as [x y Hs| |p cfg m|]; cbn in *; [|auto..].
  - rewrite (cl_progress_done _ _ Hs). auto.
  - by destruct m.
Qed.

Lemma client_inv cfg path w0 x : client_runs cfg path w0 x → cl_inv (held w0) x.
Proof.
  intros Hx. pose proof Hx as (names & h & eps & x0 & He & Hn & Hb & Hr).
  eapply rtc_preserves; [exact Hr|intros ???; by eapply cl_step_inv|]. split.
  - eapply started_inv; [done..|]. eapply client_started. exists names, h, eps, x0. do 3 (split; [done|]). apply rtc_refl.
  - unfold Run_begin in Hb. destruct (Run_ready _ _ _ _ _ _ _ _ _ _) as [[[c1 h1] w1] [|]]; [|done].
    destruct (c_upstream c1) as [m1|]; [|done]. cbn in Hb. destruct (healthLoop_start _ _ _); [|done]. cbn in Hb.
    by injection Hb as <-.
Qed.

(** ** How much is left of a client *)

Definition phase_weight (r : reload) : nat :=
  match r.2 with
  | InManager cfg _ _ | InStore cfg => 6 + generation_weight cfg
  | InServices _ => 1
  end.
Definition run_weight (r : run_phase) : nat :=
  match r with RunStarting => 5 | RunBlocked => 4 | RunStop => 3 | RunWait => 2 | RunClose => 1 | RunReturned => 0 end.

(** What is left besides the manager. *)
Definition rest_weight (x : cl_state) : nat :=
  sum_list_with phase_weight (cs_rl x) + svc_weight (cs_svc x) + run_weight (cs_run x) + (if cs_watch x then 1 else 0).
Definition cl_weight (x : cl_state) : nat := mg_weight (mg_of x) + rest_weight x.

Lemma after_reload_weight o cfg ok t' :
  (sum_list_with phase_weight (option_list (pair o <$> after_reload_step cfg ok t')) ≤ 6 + generation_weight cfg)%nat.
Proof. destruct t' as [t'|]; [|destruct ok]; cbn; lia. Qed.

Lemma run_step_weight x y :
  run_step x y → mg_weight (mg_of y) = mg_weight (mg_of x) ∧ (rest_weight y < rest_weight x)%nat.
Proof.
  intros [p cfg m h w b gs s d wt rl|p cfg m h w b gs s wt rl|p cfg m h w b gs s d wt rl s' waits Hs
    |p cfg m h w b gs s d wt rl|p cfg m h w b gs s d wt rl m' h' w' Hr]; unfold rest_weight; cbn; (split; [done|]); try lia.
  assert (svc_weight s' = svc_weight s) as ->.
  { unfold stop_begin in Hs. destruct s as [ts cc [g|] n cs]; by injection Hs as <- _. }
  destruct waits; cbn; lia.
Qed.

(** A step of progress brings the end nearer. *)
Lemma cl_progress_weight base x y :
  cl_progress x y → mg_inv base (mg_of x) → m_cancelled (cs_m x) = true → (cl_weight y < cl_weight x)%nat.
Proof.
  intros Hs Hi Hc. unfold cl_weight.
  destruct Hs as [p cfg m h w b gs s d r wt rl m' h' w' b' gs' Hs
    |p cfg m h w b gs s d r wt rl1 o cfg' ok t rl2 t' m' h' w' Hs
    |p cfg m h w b gs s d r wt rl1 o cfg' rl2 i Hi1|p cfg m h w b gs s d r wt rl1 o i rl2 Hi1
    |p cfg m h w b gs s d r wt rl s' Hs|p cfg m h w b gs r wt rl t ts1 ts2 cc c n cs|x y Hs|p cfg m h w b gs s r rl].
  - destruct (mg_progress_weight ParseDuration InterfaceByName ParseMAC rnd rnd' Now_held base _ _ (mg_progress_frame _ _ _ _ _ _ _ _ _ _ (manager_tasks rl) Hs) Hi Hc) as [_ Hlt].
    unfold rest_weight, mg_of. cbn [cs_m cs_h cs_w cs_loop cs_rec cs_rl cs_svc cs_run cs_watch]. lia.
  - pose proof (progress_reloading _ _ _ _ _ m h w b gs (manager_tasks rl1) t (manager_tasks rl2) t' m' h' w' Hs) as Hp.
    unfold rest_weight, mg_of in *. cbn [cs_m cs_h cs_w cs_loop cs_rec cs_rl cs_svc cs_run cs_watch] in *.
    rewrite !manager_tasks_app, manager_tasks_cons in *. rewrite after_reload_task.
    destruct (mg_progress_weight ParseDuration InterfaceByName ParseMAC rnd rnd' Now_held base _ _ Hp Hi Hc) as [_ Hlt].
    pose proof (after_reload_weight o cfg' (ok || installs t) t') as Ha.
    rewrite !sum_list_with_app. cbn [sum_list_with]. change (phase_weight (o, InManager cfg' ok t)) with (6 + generation_weight cfg')%nat. cbn [task_of snd app] in *. lia.
  - unfold rest_weight, mg_of. cbn [cs_m cs_h cs_w cs_loop cs_rec cs_rl cs_svc cs_run cs_watch].
    rewrite !manager_tasks_app, !manager_tasks_cons, !sum_list_with_app. cbn [sum_list_with task_of snd app].
    unfold svc_weight, begin_call. cbn [sv_tasks sv_calls]. rewrite calls_weight_insert by done. cbn. lia.
  - unfold rest_weight, mg_of. cbn [cs_m cs_h cs_w cs_loop cs_rec cs_rl cs_svc cs_run cs_watch].
    rewrite !manager_tasks_app, !manager_tasks_cons, !sum_list_with_app. cbn. lia.
  - apply svc_step_weight in Hs. unfold rest_weight, mg_of. cbn. lia.
  - unfold rest_weight, mg_of, svc_weight. cbn [cs_m cs_h cs_w cs_loop cs_rec cs_rl cs_svc cs_run cs_watch sv_tasks sv_calls].
    rewrite !sum_list_with_app. cbn [sum_list_with]. pose proof (task_weight_pos t). lia.
  - destruct (run_step_weight _ _ Hs) as [-> ?]. lia.
  - unfold rest_weight, mg_of. cbn. lia.
Qed.

(** As long as something is left, something can step. *)
Lemma cl_progress_enabled x :
  cs_done x = true → m_cancelled (cs_m x) = true → cl_over x ∨ ∃ y, cl_progress x y.
Proof.
  destruct x as [p cfg m h w b gs s d r wt rl]. cbn. intros -> Hm.
  destruct b; [right; eexists; by eapply cp_manager, progress_exit|].
  destruct gs as [|g gs].
  2: { right. destruct (goroutine_step ParseDuration InterfaceByName ParseMAC rnd rnd' g m h w) as [[[g' m'] h'] w'] eqn:E.
       eexists. eapply cp_manager, (progress_go _ _ _ _ _ m h w false [] g gs [] g'); exact E. }
  destruct s as [[|t ts] cc c n cs]; [|right; eexists; by apply (cp_task_end _ _ _ _ _ _ _ _ _ _ t [])].
  destruct (decide (cs = ∅)) as [->|Hcs].
  2: { right. apply map_choose in Hcs as (i & call & Hi).
       destruct call as [cfg'|cfg'|cfg'|cfg' g]; eexists; apply cp_services;
         [by eapply call_stop|by eapply call_wait|by eapply call_set|by eapply (call_start i cfg' g true)]. }
  destruct rl as [|[o [cfg' ok t|cfg'|i]] rl].
  - destruct wt; [right; eexists; apply cp_watch_exit, not_elem_of_nil|].
    destruct r; [right; eexists; by apply cp_run, run_started|right; eexists; apply cp_run, run_woken|right|right|right|by left].
    + eexists. eapply cp_run, run_stop. apply surjective_pairing.
    + eexists. apply cp_run, run_wait. constructor.
    + destruct (Manager_Close m h w) as [[m' h'] w'] eqn:E. eexists. by eapply cp_run, run_close.
  - right. destruct (reload_step t m h w) as [[[t' m'] h'] w'] eqn:E.
    eexists. by eapply (cp_reloading _ _ _ _ _ _ _ _ _ _ _ []).
  - right. pose proof (is_fresh (list_to_set (run_call :: concat (call_of <$> rl)) : gset nat)) as Hf.
    rewrite elem_of_list_to_set, not_elem_of_cons in Hf. destruct Hf as [Hf1 Hf2].
    eexists. by apply (cp_store _ _ _ _ _ _ _ _ _ _ _ [] o cfg' rl _ (lookup_empty _) Hf1).
  - right. eexists. by apply (cp_reloaded _ _ _ _ _ _ _ _ _ _ _ []).
Qed.

(** Without a reload, [Close] leaves nothing behind it. *)
Definition closing (x : cl_state) : Prop :=
  cs_rl x = [] ∧ (cs_run x = RunReturned → m_entries (cs_m x) = ∅).

Lemma cl_progress_closing x y : cl_progress x y → closing x → closing y.
Proof.
  intros Hs [Hr He].
  destruct Hs as [p cfg m h w b gs s d r wt rl m' h' w' b' gs' Hs| | | | | |x y Hs|]; cbn in *;
    try (by apply app_nil in Hr as [_ ?]); try done.
  - split; [done|]. cbn. intros E. by eapply (mg_progress_closed _ _ _ _ _ _ _ Hs eq_refl (He E)).
  - destruct Hs as [| |p cfg m h w b gs s d wt rl s' waits|
      |p cfg m h w b gs s d wt rl m' h' w' E]; (split; [exact Hr|]); try done; [by destruct waits|].
    intros _. unfold Manager_Close in E. destruct (close_pools _ h w). by injection E as <- _ _.
Qed.

(** Every step of the client, with what it brings: the health loop's rounds and
    the traffic as in [mg_env], the end of the context once more, and, with
    [reloads], the start of a reload. *)
Inductive cl_live (reloads : bool) : option nat → cl_state → cl_state → Prop :=
| cl_live_progress x y : cl_progress x y → cl_live reloads None x y
| cl_live_env k p cfg m h w b gs s d r wt rl m' h' w' b' gs' :
    mg_env k (mkMG m h w b gs []) (mkMG m' h' w' b' gs' []) →
    cl_live reloads (Some k) (mkCL p cfg m h w b gs s d r wt rl) (mkCL p cfg m' h' w' b' gs' s d r wt rl)
| cl_live_done p cfg m h w b gs s d r wt rl :
    cl_live reloads (Some 0%nat) (mkCL p cfg m h w b gs s d r wt rl)
      (mkCL p cfg (set_cancelled m) h w b gs s true r wt rl)
| cl_live_reload p cfg m h w b gs s d r wt rl o cfg' rt t :
    reloads = true →
    p ≠ ""%string → accepts cfg' → resolve cfg' = Ok rt → reload_begin cfg' (nr_RemoteFlags rt) = Some t →
    (o = FromSignal → wt = true ∧ FromSignal ∉ rl.*1) →
    cl_live reloads (Some (reload_weight t + 6 + generation_weight cfg')%nat)
      (mkCL p cfg m h w b gs s d r wt rl)
      (mkCL p cfg m h w b gs s d r wt ((o, InManager cfg' false t) :: rl)).

Lemma cl_live_step reloads l x y : cl_live reloads l x y → cl_step x y.
Proof.
  intros [? ? Hs|k p cfg m h w b gs s d r wt rl m' h' w' b' gs' Hs| |];
    [by apply cl_of_progress|by eapply cl_manager, mg_env_own|apply cl_done|by eapply cl_reload].
Qed.

(** No step is left out. *)
Lemma cl_step_live x y : cl_step x y ↔ ∃ l, cl_live true l x y.
Proof.
  split; [|intros [l Hl]; by eapply cl_live_step].
  intros [x' y' Hs|p cfg m h w b gs s d r wt rl m' h' w' b' gs' Hs| |].
  - eexists. by apply cl_live_progress.
  - apply mg_own_live in Hs as [Hs|[k Hs]]; eexists; [by apply cl_live_progress, cp_manager|by apply cl_live_env].
  - eexists. apply cl_live_done.
  - eexists. by eapply cl_live_reload.
Qed.

Lemma mg_env_frame k m h w b gs m' h' w' b' gs' ts :
  mg_env k (mkMG m h w b gs []) (mkMG m' h' w' b' gs' []) →
  mg_env k (mkMG m h w b gs ts) (mkMG m' h' w' b' gs' ts).
Proof. inversion 1; subst; [by apply env_tick|by apply env_use]. Qed.

(** The invariant of a client whose context has ended. *)
Definition cl_ended (base : gset nat) (x : cl_state) : Prop := cl_inv base x ∧ cs_done x = true.

Lemma cl_live_ended base reloads l x y : cl_live reloads l x y → cl_ended base x → cl_ended base y.
Proof.
  intros Hs [Hi Hd]. split; [by eapply cl_step_inv; [eapply cl_live_step|]|].
  destruct Hs as [x y Hs| | |]; [by rewrite (cl_progress_done _ _ Hs)|done..].
Qed.

Lemma cl_live_weight base reloads l x y :
  cl_live reloads l x y → cl_ended base x →
  match l with None => cl_weight y < cl_weight x | Some c => cl_weight y ≤ cl_weight x + c end%nat.
Proof.
  intros Hs [[Hi Hc] Hd]. destruct Hs as [x y Hs|k p cfg m h w b gs s d r wt rl m' h' w' b' gs' Hs| |].
  - eapply cl_progress_weight; [done|exact Hi|by apply Hc].
  - apply (mg_env_frame _ _ _ _ _ _ _ _ _ _ _ (manager_tasks rl)), mg_env_weight in Hs.
    unfold cl_weight, rest_weight, mg_of, mg_weight in *. cbn in *. lia.
  - unfold cl_weight, rest_weight, mg_of, mg_weight. cbn. lia.
  - unfold cl_weight, rest_weight, mg_of, mg_weight.
    cbn [cs_m cs_h cs_w cs_loop cs_rec cs_rl cs_svc cs_run cs_watch mg_loop mg_rec mg_rel].
    rewrite manager_tasks_cons. cbn [task_of snd app sum_list_with].
    change (phase_weight (o, InManager cfg' false t)) with (6 + generation_weight cfg')%nat. lia.
Qed.

Lemma cl_live_closing l x y : cl_live false l x y → closing x → closing y.
Proof.
  intros [? ? Hs|k p cfg m h w b gs s d r wt rl m' h' w' b' gs' Hs|p cfg m|]; [by apply cl_progress_closing| | |done];
    intros [E He]; cbn in *; (split; [done|]); cbn; intros Hr.
  - destruct (mg_env_emptied _ _ _ Hs) as [_ E']; [split; [done|by apply He]|exact E'].
  - destruct m. by apply He.
Qed.

Lemma cl_live_run base reloads n b x y :
  budgeted (cl_live reloads) n b x y → cl_ended base x →
  cl_ended base y ∧ (n + cl_weight y ≤ cl_weight x + b)%nat ∧ (reloads = false → closing x → closing y).
Proof.
  intros Hr Hx. destruct (budgeted_bound _ (cl_ended base) cl_weight _ _ _ _ (cl_live_ended base reloads)
    (cl_live_weight base reloads) Hr Hx) as [Hy Hle].
  split; [done|]. split; [done|]. intros ->. by apply (budgeted_preserves _ closing _ _ _ _ Hr cl_live_closing).
Qed.

(** And so a client whose context has ended comes to its end. *)
Lemma cl_progress_ends base x :
  cl_ended base x → ∃ n y, budgeted (cl_live false) n 0 x y ∧ cl_over y.
Proof.
  remember (cl_weight x) as n eqn:En. revert x En. induction (lt_wf n) as [n _ IH]. intros x -> He.
  destruct (cl_progress_enabled x) as [Ho|[z Hz]]; [apply He|by apply He, He|by exists 0%nat, x; split; [apply budgeted_refl|]|].
  assert (cl_live false None x z) as Hl by by apply cl_live_progress.
  destruct (IH (cl_weight z)) with (x := z) as (k & y & Hk & Ho);
    [exact (cl_live_weight base false None x z Hl He)|done|by eapply cl_live_ended|].
  exists (S k), y. split; [by eapply budgeted_own|done].
Qed.

(** C3: [Client.Run] from start to return, with the manager and its goroutines, the
    services, the signal watcher and any number of reloads interleaved, for
    upstreams with distinct names in every configuration it is given (see
    [manager_ownership]).  In every state, before the context has ended and after,
    the pools of the upstreams are owned once and hold exactly what is open beyond
    what was open before.  In any run after the context has ended, with no step left
    out: a round that the health loop still starts brings at most three steps for
    each entry, a reload that still begins its own and those of the services it
    starts, the traffic none.  Then the client's steps are no
    more than those left when the context ended and those brought since, and one
    is possible until [Run] has returned and nothing is left: no listener, no
    reload, no goroutine of the manager.  When that is so, what is open are the
    pools of the entries; and if no reload was under way when the context ended
    and none begins, nothing is. *)
Theorem client_run cfg path w0 x (Hx : client_runs cfg path w0 x) :
  owned (held w0) (owners (mg_of x)) (cs_h x) (cs_w x) ∧
  (∀ y z, cl_step y z ↔ ∃ l, cl_live true l y z) ∧
  (cs_done x = true → ∀ reloads n b y, budgeted (cl_live reloads) n b x y →
     (n ≤ cl_weight x + b)%nat ∧ (¬ cl_over y → ∃ z, cl_live reloads None y z) ∧
     (cl_over y → held (cs_w y) = heap_handles (cs_h y) (entry_pools (m_entries (cs_m y))) ∪ held w0) ∧
     (reloads = false → cs_rl x = [] → cs_run x ≠ RunReturned → cl_over y → held (cs_w y) = held w0)).
Proof.
  pose proof (client_inv _ _ _ _ Hx) as Hi. split; [apply Hi|]. split; [apply cl_step_live|].
  intros Hd reloads n b y Hy.
  destruct (cl_live_run _ _ _ _ _ _ Hy (conj Hi Hd)) as ([[Hiy Hcy] Hdy] & Hle & Hcl).
  assert (cl_over y → mg_idle (mg_of y)) as Hidle.
  { intros (_ & E1 & E2 & _ & E3 & _). split_and!; [exact E1|exact E2|]. cbn. by rewrite E3. }
  split; [lia|]. split; [|split].
  - intros Ho. destruct (cl_progress_enabled y) as [?|[z Hz]]; [done|by apply Hcy|done|].
    exists z. by apply cl_live_progress.
  - intros Ho. by apply (idle_held _ _ Hiy), Hidle.
  - intros Hrl Hr Hne Ho. destruct Hcl as [E He]; [done|done|].
    apply (emptied_held _ _ Hiy (Hidle Ho)). split; [by apply Hidle|by apply He, Ho].
Qed.

(** ** The configuration of the manager and of the client *)

Lemma check_one_cfg name r m : m_cfg (check_one name r m).1 = m_cfg m.
Proof.
  unfold check_one. destruct (m_entries m !! name); [|done]. cbn [fst]. destruct (_ && _); [|by destruct m].
  unfold failoverLocked. destruct (List.find _ _); [destruct (String.eqb _ _)|]; by destruct m.
Qed.

Lemma runHealthCheck_cfg names m h w m' h' w' l :
  runHealthCheck names m h w = (m', h', w', l) → m_cfg m' = m_cfg m.
Proof.
  revert m h w l. induction names as [|name names IH]; intros m h w l; cbn [runHealthCheck]; [by intros [= <- _ _ _]|].
  destruct (m_entries m !! name) as [e|]; [|apply IH].
  destruct (timed_ping (e_pool e) h w) as [[h1 w1] r]. pose proof (check_one_cfg name r m) as Hc.
  destruct (check_one name r m) as [m1 spawn]. cbn in Hc.
  destruct (runHealthCheck names m1 h1 w1) as [[[m2 h2] w2] l2] eqn:E. intros [= -> -> -> _]. rewrite <- Hc. by eapply IH.
Qed.

Lemma goroutine_step_cfg g m h w g' m' h' w' :
  goroutine_step ParseDuration InterfaceByName ParseMAC rnd rnd' g m h w = (g', m', h', w') → m_cfg m' = m_cfg m.
Proof.
  destruct g as [name|name eid [b|ep cfg rf b|b|ptr|]]; cbn.
  - unfold reconnect_begin. destruct (m_entries m !! name) as [e|]; [|by intros [= _ <- _ _]].
    destruct (e_reconnecting e); intros [= _ <- _ _]; [done|by destruct m].
  - destruct (m_cancelled m); [by intros [= _ <- _ _]|]. destruct (settled name m h w); [by intros [= _ <- _ _]|].
    destruct (m_entries m !! name); by intros [= _ <- _ _].
  - destruct (dial_pool _ _ _ _ _ cfg ep rf h w) as [[h1 w1] [ptr|e1]]; [|by intros [= _ <- _ _]].
    destruct (timed_ping ptr h1 w1) as [[h2 w2] [t|]]; [by intros [= _ <- _ _]|].
    destruct (close_pool ptr h2 w2); by intros [= _ <- _ _].
  - destruct (m_cancelled m); by intros [= _ <- _ _].
  - unfold reconnect_swap. destruct (m_entries m !! name) as [cur|].
    + destruct (_ || _), (close_pool (e_pool cur) h w); intros [= _ <- _ _]; by destruct m.
    + destruct (close_pool ptr h w); by intros [= _ <- _ _].
  - intros [= _ <- _ _]. unfold reconnect_end. destruct (m_entries m !! name) as [e|]; [|done].
    destruct (_ =? _)%nat; [by destruct m|done].
Qed.

Lemma mg_own_cfg (x y : mg_state W D) : mg_own x y → m_cfg (mg_m y) = m_cfg (mg_m x).
Proof. intros [| | |]; cbn; [by eapply runHealthCheck_cfg|done|by eapply goroutine_step_cfg|done]. Qed.

Lemma reload_step_cfg t m h w t' m' h' w' :
  reload_step t m h w = (t', m', h', w') →
  m_cfg m' = match t with Dialling cfg _ [] _ _ => cfg | _ => m_cfg m end.
Proof.
  destruct t as [cfg flags [|ep rest] es order|ptrs]; cbn.
  - by intros [= _ <- _ _].
  - destruct (dial_pool _ _ _ _ _ cfg ep flags h w) as [[h1 w1] []]; by intros [= _ <- _ _].
  - destruct (close_pools ptrs h w). by intros [= _ <- _ _].
Qed.

(** What a reload has installed and not stored yet. *)
Definition installed_cfg (r : reload) : option Config :=
  match r.2 with InManager cfg true _ | InStore cfg => Some cfg | _ => None end.
(** A reload dials for its own configuration. *)
Definition phase_ok (r : reload) : Prop :=
  match r.2 with
  | InManager cfg ok (Dialling cfg' _ _ _ _) => cfg' = cfg ∧ ok = false
  | _ => True
  end.
(** At most one reload, and the manager has the client's configuration or its. *)
Definition agree (x : cl_state) : Prop :=
  (length (cs_rl x) ≤ 1)%nat ∧ Forall phase_ok (cs_rl x) ∧
  m_cfg (cs_m x) = default (cs_cfg x) (head (cs_rl x) ≫= installed_cfg).

(** Runs in which no reload begins while another is under way. *)
Definition serial_cl_step (x y : cl_state) : Prop := cl_step x y ∧ (length (cs_rl y) ≤ 1)%nat.

Lemma at_most_one {A} (l1 : list A) a l2 : (length (l1 ++ a :: l2) ≤ 1)%nat → l1 = [] ∧ l2 = [].
Proof. destruct l1 as [|? []], l2; cbn; rewrite ?length_app; cbn; intros; try lia; done. Qed.

Lemma run_step_agree x y : run_step x y → agree x → agree y.
Proof.
  intros [| | | |p cfg m h w b gs s d wt rl m' h' w' Hr] Ha; try exact Ha.
  unfold Manager_Close in Hr. destruct (close_pools _ h w). injection Hr as <- _ _. exact Ha.
Qed.

Lemma cl_progress_agree x y : cl_progress x y → agree x → agree y.
Proof.
  intros [p cfg m h w b gs s d r wt rl m' h' w' b' gs' Hs
    |p cfg m h w b gs s d r wt rl1 o cfg' ok t rl2 t' m' h' w' Hs
    |p cfg m h w b gs s d r wt rl1 o cfg' rl2 i Hi|p cfg m h w b gs s d r wt rl1 o i rl2 Hi
    |p cfg m h w b gs s d r wt rl s' Hs| |x' y' Hs|]; try done; intros (A1 & A2 & A3); unfold agree in *; cbn in *.
  - split_and!; [done..|]. rewrite <- A3. inversion Hs; subst; [done|by eapply goroutine_step_cfg|].
    match goal with E : _ ++ _ :: _ = [] |- _ => by apply app_nil in E as [_ ?] end.
  - apply at_most_one in A1 as [-> ->]. cbn in *. apply reload_step_cfg in Hs as E.
    apply (proj1 (Forall_singleton _ _)) in A2. rewrite app_nil_r.
    destruct t as [c fl [|ep rest] es order|ptrs]; cbn in Hs, A2.
    + destruct A2 as [-> ->]. injection Hs as <- _ _ _. cbn. split_and!; [lia|by repeat constructor|done].
    + destruct A2 as [-> ->]. rewrite E, A3. destruct (dial_pool _ _ _ _ _ cfg' ep fl h w) as [[h1 w1] []];
        injection Hs as <- _ _ _; cbn; (split_and!; [lia|by repeat constructor|done]).
    + rewrite E, A3. destruct (close_pools ptrs h w). injection Hs as <- _ _ _. rewrite orb_false_r. cbn.
      destruct ok; cbn; (split_and!; [lia|by repeat constructor|done]).
  - apply at_most_one in A1 as [-> ->]. cbn in *. split_and!; [lia|by repeat constructor|done].
  - apply at_most_one in A1 as [-> ->]. cbn in *. split_and!; [lia|constructor|done].
  - by eapply run_step_agree.
Qed.

Lemma serial_agree x y : rtc serial_cl_step x y → agree x → agree y.
Proof.
  intros Hr Ha0. eapply rtc_preserves; [exact Hr| |exact Ha0]. clear. intros x y [Hs Hl] Ha.
  destruct Hs as [x y Hs|p cfg m h w b gs s d r wt rl m' h' w' b' gs' Hs|p cfg m h w b gs s d r wt rl
    |p cfg m h w b gs s d r wt rl o cfg' rt t Hp Hacc Hrs Ht Ho].
  - by eapply cl_progress_agree.
  - apply mg_own_cfg in Hs. unfold agree in *. cbn in *. by rewrite Hs.
  - unfold agree in *. cbn in *. by destruct m.
  - destruct Ha as (A1 & A2 & A3). cbn in Hl, A1. destruct rl; [|cbn in *; lia]. unfold agree. cbn in *.
    unfold reload_begin in Ht. destruct (UpstreamEndpoints cfg'); [|done]. injection Ht as <-.
    split_and!; [lia|by repeat constructor|done].
Qed.

Lemma Run_begin_agree cfg path names h w x :
  Run_begin (NewClient cfg path) names h w = Some x → agree x ∧ cs_cfg x = cfg.
Proof.
  unfold Run_begin, Run_ready, open_manager. cbn. destruct (resolve cfg) as [rt|]; [|done].
  unfold NewManager. destruct (UpstreamEndpoints cfg) as [eps|]; [|done].
  destruct (dial_entries _ _ _ _ _ cfg _ eps ∅ [] h w) as [[[[h1 w1] es] order] [e1|]].
  { by destruct (Manager_Close _ h1 w1) as [[? ?] ?]. }
  destruct (pingAll names _ h1 w1) as [[h2 w2] f]. cbn. unfold healthLoop_start. cbn.
  destruct (0 <? _); [|done]. intros [= <-]. split; [|done]. split_and!; cbn; [lia|constructor|done].
Qed.

(** [ReloadFromDisk] without anything in between, up to its [Store]. *)
Abbreviation reload_next := (reload_next ParseDuration InterfaceByName ParseMAC rnd rnd').

Lemma reload_lift p cfg b gs s d r wt rl1 o cfg' rl2 t m h w t' m' h' w' ok :
  rtc reload_next (t, m, h, w) (t', m', h', w') →
  ∃ ok', rtc cl_step (mkCL p cfg m h w b gs s d r wt (rl1 ++ (o, InManager cfg' ok t) :: rl2))
    (mkCL p cfg m' h' w' b gs s d r wt (rl1 ++ (o, InManager cfg' ok' t') :: rl2)).
Proof.
  intros Hr. remember (t, m, h, w) as a eqn:Ea. remember (t', m', h', w') as z eqn:Ez.
  revert t m h w ok Ea. induction Hr as [a|a [[[t1 m1] h1] w1] z Hs Hr IH]; intros t m h w ok Ea; subst.
  { injection Ea as -> -> -> ->. exists ok. apply rtc_refl. }
  cbn in Hs. destruct (IH eq_refl t1 m1 h1 w1 (ok || installs t) eq_refl) as [ok' Hc]. exists ok'.
  eapply rtc_l; [|exact Hc]. apply cl_of_progress.
  exact (cp_reloading p cfg m h w b gs s d r wt rl1 o cfg' ok t rl2 (Some t1) m1 h1 w1 Hs).
Qed.

Lemma reload_stores p cfg b gs s d r wt rl o cfg' rt m h w m' h' w' :
  p ≠ ""%string → accepts cfg' → resolve cfg' = Ok rt → (o = FromSignal → wt = true ∧ FromSignal ∉ rl.*1) →
  Reload ParseDuration InterfaceByName ParseMAC rnd rnd' cfg' (nr_RemoteFlags rt) m h w = (m', h', w', Ok tt) →
  rtc cl_step (mkCL p cfg m h w b gs s d r wt rl) (mkCL p cfg m' h' w' b gs s d r wt ((o, InStore cfg') :: rl)) ∧
  m_cfg m' = cfg'.
Proof.
  intros Hp Ha Hrt Ho Hr.
  destruct (reload_alone_ok _ _ _ _ _ _ _ _ _ _ _ _ _ Hr) as (t & h1 & w1 & es & order & ptrs & Ht & Hn & Hi & Hc).
  split; [|by apply reload_step_cfg in Hi].
  eapply rtc_l; [by eapply cl_reload|].
  destruct (reload_lift p cfg b gs s d r wt [] o cfg' rl _ _ _ _ _ _ _ _ false Hn) as [ok Hl]. cbn [app] in Hl.
  etrans; [exact Hl|].
  eapply rtc_l; [apply cl_of_progress; exact (cp_reloading p cfg m h1 w1 b gs s d r wt [] o cfg' ok _ rl _ _ _ _ Hi)|].
  cbn [app installs]. rewrite orb_true_r. cbn [after_reload_step fmap option_fmap option_map option_list app].
  apply rtc_once, cl_of_progress.
  exact (cp_reloading p cfg m' h1 w1 b gs s d r wt [] o cfg' true _ rl _ _ _ _ Hc).
Qed.

(** The store of a reload, whatever other reloads there are. *)
Lemma reload_store p cfg m h w b gs s d r wt rl1 o cfg' rl2 :
  ∃ i, rtc cl_step (mkCL p cfg m h w b gs s d r wt (rl1 ++ (o, InStore cfg') :: rl2))
    (mkCL p cfg' m h w b gs (begin_call i cfg' s) d r wt (rl1 ++ (o, InServices i) :: rl2)).
Proof.
  pose proof (is_fresh ({[run_call]} ∪ dom (sv_calls s) ∪ list_to_set (concat (call_of <$> rl1 ++ rl2)) : gset nat)) as Hf.
  set (i := fresh _) in Hf. rewrite !elem_of_union, elem_of_singleton, elem_of_list_to_set in Hf.
  exists i. apply rtc_once, cl_of_progress, cp_store; [apply not_elem_of_dom; tauto|tauto|tauto].
Qed.

Lemma cl_step_path x y : cl_step x y → cs_path y = cs_path x.
Proof. intros [x' y' Hs| | |]; [|done..]. destruct Hs as [| | | | | |x' y' Hs|]; try done. by destruct Hs. Qed.

Lemma Run_begin_path cfg path names h w x y :
  Run_begin (NewClient cfg path) names h w = Some x → rtc cl_step x y → cs_path y = path.
Proof.
  intros Hb Hr. assert (cs_path x = path) as Hx.
  { unfold Run_begin, Run_ready in Hb. destruct (open_manager _ _ _ _ _ _ _ _ _) as [[h1 w1] [m|]]; [|done].
    cbn in Hb. destruct (healthLoop_start _ _ _); [|done]. by injection Hb as <-. }
  eapply (rtc_preserves _ (λ y, cs_path y = path)); [exact Hr| |exact Hx].
  intros a z Hs Ha. by rewrite (cl_step_path _ _ Hs).
Qed.

(** C18: which configuration a client has.  When reloads do not overlap, the
    configuration that the reports show and the manager's are the same whenever
    no reload is under way, whatever reloads have succeeded or failed before.
    But nothing keeps a signal's reload and one of the admin API from
    overlapping.  In any state of a running client in which no reload is under
    way, for any two configurations whose reloads succeed one after the other:
    the signal's reload can install the upstreams of the first, the admin API's
    then install those of the second and store it, and the signal's only then
    store the first.  Both have succeeded, and the client is left with the
    upstreams of the second configuration, while it reports, and serves to its
    editor, the first. *)
Theorem reloads_agree :
  (∀ cfg path names h w x y, Run_begin (NewClient cfg path) names h w = Some x →
     rtc serial_cl_step x y → cs_rl y = [] → m_cfg (cs_m y) = cs_cfg y) ∧
  (∀ cfg path names h w x0 x cfg1 cfg2 rt1 rt2 m1 h1 w1 m2 h2 w2,
     Run_begin (NewClient cfg path) names h w = Some x0 → path ≠ ""%string →
     rtc cl_step x0 x → cs_rl x = [] → cs_watch x = true →
     accepts cfg1 → resolve cfg1 = Ok rt1 → accepts cfg2 → resolve cfg2 = Ok rt2 →
     Reload ParseDuration InterfaceByName ParseMAC rnd rnd' cfg1 (nr_RemoteFlags rt1)
       (cs_m x) (cs_h x) (cs_w x) = (m1, h1, w1, Ok tt) →
     Reload ParseDuration InterfaceByName ParseMAC rnd rnd' cfg2 (nr_RemoteFlags rt2)
       m1 h1 w1 = (m2, h2, w2, Ok tt) →
     ∃ y i j, rtc cl_step x y ∧ cs_rl y = [(FromAdmin, InServices j); (FromSignal, InServices i)] ∧
       cs_m y = m2 ∧ m_cfg (cs_m y) = cfg2 ∧ cs_cfg y = cfg1).
Proof.
  clear Now_held accepts_distinct. split.
  - intros cfg path names h w x y Hb Hr E. apply Run_begin_agree in Hb as [Ha _].
    destruct (serial_agree _ _ Hr Ha) as (_ & _ & A). by rewrite E in A.
  - intros cfg path names h w x0 x cfg1 cfg2 rt1 rt2 m1 h1 w1 m2 h2 w2 Hb Hne Hr E1 E2 A1 R1 A2 R2 L1 L2.
    pose proof (Run_begin_path _ _ _ _ _ _ _ Hb Hr) as Hp. rewrite <- Hp in Hne.
    destruct x as [p c m h' w' b gs s d r wt rl]. cbn in *. subst rl wt.
    destruct (reload_stores p c b gs s d r true [] FromSignal cfg1 rt1 m h' w' m1 h1 w1 Hne A1 R1) as [S1 _];
      [by intros _; split; [|apply not_elem_of_nil]|exact L1|].
    destruct (reload_stores p c b gs s d r true [(FromSignal, InStore cfg1)] FromAdmin cfg2 rt2 m1 h1 w1 m2 h2 w2 Hne A2 R2)
      as [S2 Em]; [done|exact L2|].
    destruct (reload_store p c m2 h2 w2 b gs s d r true [] FromAdmin cfg2 [(FromSignal, InStore cfg1)]) as [j S3].
    destruct (reload_store p cfg2 m2 h2 w2 b gs (begin_call j cfg2 s) d r true [(FromAdmin, InServices j)] FromSignal cfg1 [])
      as [i S4].
    eexists _, i, j. split; [etrans; [exact S1|etrans; [exact S2|etrans; [exact S3|exact S4]]]|]. done.
Qed.

Lemma Run_begin_phase cfg path names h w x :
  Run_begin (NewClient cfg path) names h w = Some x →
  cs_rl x = [] ∧ cs_run x = RunStarting ∧ cs_watch x = true.
Proof.
  unfold Run_begin. destruct (Run_ready _ _ _ _ _ _ _ _ _ _) as [[[c1 h1] w1] [|]]; [|done].
  destruct (c_upstream c1) as [m1|]; [|done]. cbn. destruct (healthLoop_start _ _ _); [|done]. cbn. by intros [= <-].
Qed.
End client_runs.

(** ** A client with two upstreams *)

Abbreviation sample_begin :=
  (Run_begin (W := Mock) (D := unit) no_durations (λ _, true) (λ _, Some mac0) (λ _ _, 7) (λ _ _, 8) 7
     (NewClient two_servers "c.yaml") ["a"; "upstream-2"]%string ∅ mock0).
Abbreviation sample_client_runs :=
  (client_runs (W := Mock) (D := unit) no_durations (λ _, true) (λ _, Some mac0) (λ _ _, 7) (λ _ _, 8) 7
     (λ c, c = two_servers)).

Lemma sample_begins : ∃ x, sample_begin = Some x.
Proof.
  assert (match sample_begin with Some _ => true | None => false end = true) as E by (vm_compute; reflexivity).
  destruct sample_begin as [x|]; [by exists x|done].
Qed.

(** Started, its context ended, and run to its end. *)
Lemma client_run_witness :
  ∃ x y, sample_client_runs two_servers "c.yaml" mock0 x ∧ cl_over (D := unit) y ∧ held (cs_w y) = held mock0.
Proof.
  destruct sample_begins as [x0 Hb]. destruct two_servers_endpoints as (eps & He & En).
  pose proof (Run_begin_phase _ _ _ _ _ _ _ _ _ _ _ _ Hb) as (E1 & E2 & _).
  assert (∃ x, sample_client_runs two_servers "c.yaml" mock0 x ∧ cs_done x = true ∧ cs_rl x = [] ∧ cs_run x ≠ RunReturned)
    as (x & Hx & Hd & Hl & Hr).
  { destruct x0 as [p cfg m h w b gs s d r wt rl]. cbn in E1, E2.
    exists (mkCL p cfg (set_cancelled m) h w b gs s true r wt rl).
    split; [|split; [reflexivity|split; [exact E1|cbn; by rewrite E2]]].
    eexists _, _, eps, _. split; [exact He|]. split; [exact (two_servers_distinct _ _ eq_refl He)|].
    split; [exact Hb|]. apply rtc_once, cl_done. }
  destruct (cl_progress_ends no_durations (λ _, true) (λ _, Some mac0) (λ _ _, 7) (λ _ _, 8) 7 (λ c, c = two_servers)
    mock_now_held two_servers_distinct (held mock0) x) as (k & y & Hy & Ho).
  { split; [|exact Hd].
    exact (client_inv _ _ _ _ _ _ _ mock_now_held two_servers_distinct _ _ _ _ Hx). }
  exists x, y. split; [exact Hx|]. split; [exact Ho|].
  exact (proj2 (proj2 (proj2 (proj2 (proj2 (client_run no_durations (λ _, true) (λ _, Some mac0) (λ _ _, 7) (λ _ _, 8) 7
    (λ c, c = two_servers) mock_now_held two_servers_distinct two_servers "c.yaml" mock0 x Hx)) Hd false k 0%nat y Hy)))
    eq_refl Hl Hr Ho).
Defined.

(** A second configuration, with two sessions for each upstream. *)
Definition more_sessions : Config :=
  set_Transport (mkTransportConfig "kcp" 2 (tr_KCP sample_kcp_valid) (tr_QUIC sample_kcp_valid)) valid_client.

Abbreviation sample_Reload cfg rt :=
  (Reload (W := Mock) (D := unit) no_durations (λ _, true) (λ _, Some mac0) (λ _ _, 7) (λ _ _, 8) cfg (nr_RemoteFlags rt)).
Abbreviation sample_resolve := (resolve (λ _, true) (λ _, Some mac0) 7).

Lemma sample_resolves : ∃ rt1 rt2,
  sample_resolve two_servers = Ok rt1 ∧ sample_resolve more_sessions = Ok rt2 ∧
  (∀ x, sample_begin = Some x → ∃ m1 h1 w1 m2 h2 w2,
     sample_Reload two_servers rt1 (cs_m x) (cs_h x) (cs_w x) = (m1, h1, w1, Ok tt) ∧
     sample_Reload more_sessions rt2 m1 h1 w1 = (m2, h2, w2, Ok tt)).
Proof.
  assert (match sample_resolve two_servers, sample_resolve more_sessions, sample_begin with
          | Ok rt1, Ok rt2, Some x =>
              match sample_Reload two_servers rt1 (cs_m x) (cs_h x) (cs_w x) with
              | (m1, h1, w1, Ok _) => is_ok (sample_Reload more_sessions rt2 m1 h1 w1).2
              | _ => false
              end
          | _, _, _ => false
          end = true) as E by (vm_compute; reflexivity).
  destruct (sample_resolve two_servers) as [rt1|]; [|discriminate E].
  destruct (sample_resolve more_sessions) as [rt2|]; [|discriminate E].
  exists rt1, rt2. split; [reflexivity|]. split; [reflexivity|]. intros x Ex. rewrite Ex in E.
  destruct (sample_Reload two_servers rt1 _ _ _) as [[[m1 h1] w1] [[]|]]; [|discriminate E].
  destruct (sample_Reload more_sessions rt2 m1 h1 w1) as [[[m2 h2] w2] [[]|]] eqn:E2; [|discriminate E].
  exists m1, h1, w1, m2, h2, w2. split; [reflexivity|exact E2].
Qed.

(** A signal's reload of the file as it was and an edit overlap: the manager has
    the edited configuration and the client says it has the other. *)
Lemma reloads_agree_witness :
  ∃ x (y : cl_state (W := Mock) (D := unit)), sample_begin = Some x ∧
    m_cfg (cs_m y) = more_sessions ∧ cs_cfg y = two_servers ∧ more_sessions ≠ two_servers.
Proof.
  destruct sample_begins as [x Hb]. pose proof (Run_begin_phase _ _ _ _ _ _ _ _ _ _ _ _ Hb) as (E1 & _ & E2).
  destruct sample_resolves as (rt1 & rt2 & R1 & R2 & Hr).
  destruct (Hr x Hb) as (m1 & h1 & w1 & m2 & h2 & w2 & L1 & L2).
  destruct (proj2 (reloads_agree no_durations (λ _, true) (λ _, Some mac0) (λ _ _, 7) (λ _ _, 8) 7
    (λ c, c = two_servers ∨ c = more_sessions)) _ _ _ _ _ x x two_servers more_sessions rt1 rt2 _ _ _ _ _ _
    Hb ltac:(discriminate) (rtc_refl _ _) E1 E2 (or_introl eq_refl) R1 (or_intror eq_refl) R2 L1 L2)
    as (y & i & j & _ & _ & _ & Em & Ec).
  exists x, y. split; [exact Hb|]. split; [exact Em|]. split; [exact Ec|]. intros E.
  apply (f_equal (λ c, tr_Conn (cfg_Transport c))) in E. vm_compute in E. discriminate E.
Defined.
