(* ===== verification/App.v ===== *)
(** [internal/app]: the commands [run], [bench] and [test] on a configuration
    that was loaded, over [Client] and [Transport]. *)

From S2P Require Import Prelude GoStd NetUtil Config ConfigResolve Transport TunnelPool TunnelDial Upstream Client.
From Stdlib Require Import Ascii.

Local Open Scope Z_scope.

(** ** Hardware addresses *)

Definition hex_digit (n : Z) : ascii := if n <? 10 then chr (48 + n) else chr (87 + n).

Definition hex_byte (b : Z) : bytes := [hex_digit (Z.land (Z.shiftr b 4) 15); hex_digit (Z.land b 15)].

(** [net.HardwareAddr.String]. *)
Definition HardwareAddr_String (mac : list Z) : string := str (join_on colon (hex_byte <$> mac)).

Definition macOK (v : string) : bool :=
  let parts := Split v colon in
  (length parts =? 6)%nat && forallb (λ p, String.length p =? 2)%nat parts.

(** ** The commands *)

Inductive log_level : Type := LevelDebug | LevelInfo | LevelWarn | LevelError.

Definition New_level (cfg : Config) : log_level :=
  if String.eqb (cfg_LogLevel cfg) "debug" then LevelDebug
  else if String.eqb (cfg_LogLevel cfg) "warn" then LevelWarn
  else if String.eqb (cfg_LogLevel cfg) "error" then LevelError
  else LevelInfo.

Inductive app_error : Type :=
| RequiresLinux | AppLoad | UnsupportedRole (role : string) | BenchClientOnly | AppClient (e : client_error).

Inductive app_run : Type := RunServer (cfg : Config) | RunClient (cfg : Config).

(** [RunConfig] up to [Run] of the server or the client; [loaded] is what
    [config.Load] returns. *)
Definition RunConfig (linux : bool) (loaded : option Config) : result app_error app_run :=
  match loaded with
  | None => Err AppLoad
  | Some cfg =>
      if negb linux then Err RequiresLinux
      else if String.eqb (cfg_Role cfg) RoleServer then Ok (RunServer cfg)
      else if String.eqb (cfg_Role cfg) RoleClient then Ok (RunClient cfg)
      else Err (UnsupportedRole (cfg_Role cfg))
  end.

(** A line of the report of [TestConfig] without its prefix. *)
Inductive check_line : Type :=
| CkLoaded (role name : string) | CkError (e : client_error) | CkInterface (name : string)
| CkIPv4 (a : UDPAddr) | CkAddr (a : string) | CkMAC (mac : string) | CkPort (p : Z)
| CkKey | CkProtocol (p : string) | CkListenError (e : remote_error) | CkListen (a : string)
| CkServers (n : nat) | CkUpstream (name : string) (a : UDPAddr) (proto : string)
| CkRemoteError (e : remote_error) | CkRemote (a : UDPAddr) | CkRules
| CkRange (ports host : string) (port : Z) | CkIPv6 (a : UDPAddr) | CkAdmin (a : string)
| CkToken | CkProbe | CkPing | CkSkip.

Section app.
Context {W : Type} `{Conns W} `{Streams W} `{Clock W} {D : Type}.
Context (ParseDuration : string → option Z) (InterfaceByName : string → bool)
  (ParseMAC : string → option (list Z)) (rnd rnd' : nat → nat → Z) (rport : Z).
Abbreviation heap := (gmap nat (Pool D)).

Definition Bench (linux : bool) (loaded : option Config) (names : list string) (h : heap) (w : W) :
    heap * W * result app_error (list BenchResult) :=
  if negb linux then (h, w, Err RequiresLinux) else
  match loaded with
  | None => (h, w, Err AppLoad)
  | Some cfg =>
      if negb (String.eqb (cfg_Role cfg) RoleClient) then (h, w, Err BenchClientOnly) else
      let '(h, w, r) := BenchConfig ParseDuration InterfaceByName ParseMAC rnd rnd' rport cfg names h w in
      (h, w, wrap_err AppClient r)
  end.

Definition network_lines (linux : bool) (cfg : Config) (net : result client_error NetworkRuntime) :
    list (bool * check_line) :=
  let n := cfg_Network cfg in
  if linux then
    match net with
    | Err e => [(false, CkError e)]
    | Ok rt =>
        [(true, CkInterface (nr_Interface rt)); (true, CkIPv4 (nr_IPv4 rt));
         (macOK (HardwareAddr_String (nr_RouterMAC rt)), CkMAC (HardwareAddr_String (nr_RouterMAC rt)));
         (true, CkPort (nr_Port rt))]
    end
  else
    [(true, CkInterface (nw_Interface n)); (true, CkAddr (ip_Addr (nw_IPv4 n)));
     (macOK (ip_RouterMAC (nw_IPv4 n)), CkMAC (ip_RouterMAC (nw_IPv4 n)))].

Definition server_lines (cfg : Config) : list (bool * check_line) :=
  if String.eqb (cfg_Role cfg) RoleServer then
    match ListenUDPAddr cfg with
    | Err e => [(false, CkListenError e)]
    | Ok _ => [(true, CkListen (default ""%string (cfg_ListenAddr cfg)))]
    end
  else [].

Definition client_lines (cfg : Config) : list (bool * check_line) :=
  if String.eqb (cfg_Role cfg) RoleClient then
    match cfg_Upstream cfg with
    | Some u =>
        (negb (bool_decide (up_Servers u = [])), CkServers (length (up_Servers u))) ::
        match UpstreamEndpoints cfg with
        | Ok eps => (λ ep, (true, CkUpstream (ep_Name ep) (ep_Addr ep) (tr_Protocol (ep_Transport ep)))) <$> eps
        | Err _ => []
        end
    | None => []
    end ++
    match RemoteServerAddr cfg with
    | Err e => [(false, CkRemoteError e)]
    | Ok a => [(true, CkRemote a)]
    end ++
    (negb (bool_decide (cfg_Forward cfg = [])) || negb (bool_decide (cfg_SOCKS5 cfg = [])) || range_enabled cfg,
     CkRules) ::
    match cfg_Range cfg with
    | Some r => if rg_Enabled r then [(true, CkRange (rg_Ports r) (rg_TargetHost r) (rg_RedirectPort r))] else []
    | None => []
    end
  else [].

(** [pcap.Probe]: open and close. *)
Definition Probe (rt : NetworkRuntime) (w : W) : W * bool :=
  match PcapOpen rt w with
  | (w, Some pconn) => (conn_Close pconn w, true)
  | (w, None) => (w, false)
  end.

Definition admin_lines (cfg : Config) : list (bool * check_line) :=
  match cfg_Admin cfg with
  | Some a =>
      if String.eqb (ad_Listen a) "" then [] else
      (true, CkAdmin (ad_Listen a)) :: if String.eqb (ad_Token a) "" then [] else [(true, CkToken)]
  | None => []
  end.

(** The checks that need the interface. *)
Definition live_lines (cfg : Config) (rt : NetworkRuntime) (names names' : list string) (h : heap) (w : W) :
    heap * W * list (bool * check_line) :=
  let '(w, ok) := Probe rt w in
  let '(h, w, ping) :=
    if String.eqb (cfg_Role cfg) RoleClient then
      let '(h, w, r) := PingConfig ParseDuration InterfaceByName ParseMAC rnd rnd' rport cfg names names' h w in
      (h, w, [(is_ok r, CkPing)])
    else (h, w, []) in
  (h, w, match nr_IPv6 rt with Some (a, _) => [(true, CkIPv6 a)] | None => [] end ++
         admin_lines cfg ++ (ok, CkProbe) :: ping).

(** The report of [TestConfig] on a loaded configuration; [CkSkip], the line
    that the live checks were skipped, has a prefix of its own. *)
Definition TestConfig (linux : bool) (cfg : Config) (names names' : list string) (h : heap) (w : W) :
    heap * W * list (bool * check_line) :=
  let net := resolve InterfaceByName ParseMAC rport cfg in
  let lines :=
    (true, CkLoaded (cfg_Role cfg) (cfg_Name cfg)) :: network_lines linux cfg net ++
    [(negb (String.eqb (kcp_Key (tr_KCP (cfg_Transport cfg))) ""), CkKey);
     (true, CkProtocol (tr_Protocol (cfg_Transport cfg)))] ++
    server_lines cfg ++ client_lines cfg in
  match linux, net with
  | true, Ok rt =>
      let '(h, w, live) := live_lines cfg rt names names' h w in (h, w, lines ++ live)
  | true, Err _ => (h, w, lines)
  | false, _ => (h, w, lines ++ [(true, CkSkip)])
  end.

(** [TestResult.OK]. *)
Definition test_ok (lines : list (bool * check_line)) : bool := forallb fst lines.
End app.

(** ** Lemmas *)

Lemma hex_digit_not_colon n : 0 ≤ n < 16 → hex_digit n ≠ colon.
Proof.
  intros Hn E. assert (code (hex_digit n) = 58) as Hc by by rewrite E.
  unfold hex_digit in Hc. destruct (Z.ltb_spec n 10); rewrite code_chr in Hc by lia; lia.
Qed.

Lemma land_15_range z : 0 ≤ Z.land z 15 < 16.
Proof. change 15 with (Z.ones 4). rewrite Z.land_ones by lia. apply Z.mod_pos_bound. lia. Qed.

(** [macOK] accepts the printed form of the six-byte addresses only. *)
Lemma macOK_String mac : macOK (HardwareAddr_String mac) = (length mac =? 6)%nat.
Proof.
  unfold macOK, HardwareAddr_String, Split. rewrite bs_str.
  destruct mac as [|b mac]; [done|]. rewrite split_join; [|done|].
  2: { apply Forall_fmap, Forall_forall. intros x _. unfold hex_byte. simpl.
       rewrite !not_elem_of_cons. split_and!;
         [apply not_eq_sym, hex_digit_not_colon, land_15_range..|apply not_elem_of_nil]. }
  rewrite !length_fmap. destruct (length (b :: mac) =? 6)%nat; [|done]. simpl andb.
  rewrite <- list_fmap_compose. by induction mac.
Qed.

Section commands.
Context {W : Type} `{StreamsHeld W} `{Clock W} {D : Type}.
Hypothesis Now_held : ∀ w, held (Now w).1 = held w.
Context (ParseDuration : string → option Z) (InterfaceByName : string → bool)
  (ParseMAC : string → option (list Z)) (rnd rnd' : nat → nat → Z) (rport : Z).
Implicit Types (h : gmap nat (Pool D)) (w : W).

Lemma test_ok_app l k : test_ok (l ++ k) = test_ok l && test_ok k.
Proof. apply forallb_app. Qed.

Lemma test_ok_cons b x l : test_ok ((b, x) :: l) = b && test_ok l.
Proof. done. Qed.

Lemma test_ok_true {A} (f : A → bool * check_line) l : (∀ x, (f x).1 = true) → test_ok (f <$> l) = true.
Proof. intros Hf. induction l as [|x l IH]; [done|]. rewrite fmap_cons. cbn. by rewrite Hf. Qed.

Lemma server_lines_ok cfg :
  test_ok (server_lines cfg) = implb (String.eqb (cfg_Role cfg) RoleServer) (is_ok (ListenUDPAddr cfg)).
Proof. unfold server_lines. destruct (String.eqb _ _); [|done]. by destruct (ListenUDPAddr cfg). Qed.

Definition has_servers (cfg : Config) : bool :=
  match cfg_Upstream cfg with Some u => negb (bool_decide (up_Servers u = [])) | None => true end.

Lemma client_lines_ok cfg :
  config_valid cfg →
  test_ok (client_lines cfg) =
    implb (String.eqb (cfg_Role cfg) RoleClient) (is_ok (RemoteServerAddr cfg) && has_servers cfg).
Proof.
  intros (_ & _ & Hr & _). unfold client_lines.
  destruct (String.eqb_spec (cfg_Role cfg) RoleClient) as [Er|]; [|done].
  destruct Hr as [[E _]|[_ (_ & _ & Hrules & _)]]; [by rewrite Er in E|].
  rewrite !test_ok_app, test_ok_cons.
  replace (negb _ || negb _ || range_enabled cfg) with true; last first.
  { symmetry. destruct Hrules as [Hf|[Hs|Hr]].
    - by rewrite bool_decide_eq_false_2.
    - rewrite (bool_decide_eq_false_2 (cfg_SOCKS5 cfg = [])) by done. by rewrite orb_true_r.
    - by rewrite Hr, orb_true_r. }
  assert (test_ok match cfg_Range cfg with
    | Some r => if rg_Enabled r then [(true, CkRange (rg_Ports r) (rg_TargetHost r) (rg_RedirectPort r))] else []
    | None => [] end = true) as -> by (destruct (cfg_Range cfg) as [r|]; [by destruct (rg_Enabled r)|done]).
  rewrite !andb_true_r. unfold has_servers.
  destruct (RemoteServerAddr cfg); simpl; rewrite ?andb_false_r, ?andb_true_r; [|done].
  destruct (cfg_Upstream cfg) as [u|]; [|done]. rewrite test_ok_cons.
  destruct (UpstreamEndpoints cfg); [|by rewrite andb_true_r].
  rewrite test_ok_true by done. by rewrite andb_true_r.
Qed.

Lemma admin_lines_ok cfg : test_ok (admin_lines cfg) = true.
Proof.
  unfold admin_lines. destruct (cfg_Admin cfg) as [a|]; [|done].
  destruct (String.eqb (ad_Listen a) ""); [done|]. by destruct (String.eqb (ad_Token a) "").
Qed.

Lemma Probe_held rt w : held (Probe rt w).1 = held w.
Proof.
  unfold Probe. pose proof (PcapOpen_held rt w) as E. destruct (PcapOpen rt w) as [w1 [h|]]; [|done].
  destruct E as [Hf E]. simpl. rewrite conn_Close_held, E. set_solver.
Qed.

(** The commands on a configuration that was loaded.  [run] always finds its
    role.  [test] passes exactly when the network resolves with a six-byte
    router address, the interface can be opened, and on a server the listen
    address parses, on a client the server address does, the section of
    upstreams, if there is one, has a server, and the ping succeeds; so the
    checks of the key and of the rules never fail.  A test leaves no handle
    open. *)
Theorem app_commands cfg names names' h w (Hv : config_valid cfg) :
  is_ok (RunConfig true (Some cfg)) = true ∧
  let '(h', w', lines) :=
    TestConfig ParseDuration InterfaceByName ParseMAC rnd rnd' rport true cfg names names' h w in
  (test_ok lines = true ↔ ∃ rt,
     resolve InterfaceByName ParseMAC rport cfg = Ok rt ∧ length (nr_RouterMAC rt) = 6%nat ∧
     (Probe rt w).2 = true ∧
     (cfg_Role cfg = RoleServer → is_ok (ListenUDPAddr cfg) = true) ∧
     (cfg_Role cfg = RoleClient → is_ok (RemoteServerAddr cfg) = true ∧ has_servers cfg = true ∧
        is_ok (PingConfig ParseDuration InterfaceByName ParseMAC rnd rnd' rport cfg names names' h
                 (Probe rt w).1).2 = true)) ∧
  (∀ eps, UpstreamEndpoints cfg = Ok eps → NoDup (ep_Name <$> eps) → held w' = held w).
Proof.
  pose proof (client_lines_ok cfg Hv) as Hcl. pose proof (server_lines_ok cfg) as Hsl.
  pose proof (admin_lines_ok cfg) as Hal.
  destruct Hv as (_ & (_ & Hkey & _) & Hr & _). split.
  { unfold RunConfig. simpl. by destruct Hr as [[-> _]|[-> _]]. }
  assert (negb (String.eqb (kcp_Key (tr_KCP (cfg_Transport cfg))) "") = true) as Hk.
  { destruct (String.eqb_spec (kcp_Key (tr_KCP (cfg_Transport cfg))) "") as [E|]; [|done].
    by rewrite E in Hkey. }
  unfold TestConfig. rewrite Hk.
  destruct (resolve _ _ _ cfg) as [rt|e]; cbn [network_lines].
  2: { split; [|done]. split; [|by intros (? & ? & _)]. rewrite test_ok_cons, test_ok_app. done. }
  unfold live_lines. pose proof (Probe_held rt w) as Hp.
  destruct (Probe rt w) as [w1 probed] eqn:EP. cbn [fst] in Hp.
  assert (test_ok match nr_IPv6 rt with Some (a, _) => [(true, CkIPv6 a)] | None => [] end = true) as Hv6
    by by destruct (nr_IPv6 rt) as [[]|].
  destruct Hr as [[Er _]|[Er _]]; rewrite Er in Hcl, Hsl |- *; simpl implb in Hcl, Hsl;
    cbn [String.eqb Ascii.eqb Bool.eqb].
  - split; [|by rewrite <- Hp].
    repeat first [rewrite test_ok_app|rewrite test_ok_cons].
    rewrite Hv6, Hal, Hcl, Hsl, macOK_String. cbn [implb test_ok forallb andb fst].
    rewrite !andb_true_r, !andb_true_iff, Nat.eqb_eq. split.
    + intros [[? ?] ?]. exists rt. rewrite EP. split_and!; done.
    + intros (rt' & [= <-] & ? & HP & Hs & _). rewrite EP in HP. split_and!; [done| |done]. by apply Hs.
  - pose proof (PingConfig_held Now_held ParseDuration InterfaceByName ParseMAC rnd rnd' rport
      cfg names names' h w1) as Hpc.
    destruct (PingConfig _ _ _ _ _ _ cfg names names' h w1) as [[h2 w2] r] eqn:Epc. cbn [fst snd] in *.
    split; [|intros eps He Hn; rewrite <- Hp; eauto].
    repeat first [rewrite test_ok_app|rewrite test_ok_cons].
    rewrite Hv6, Hal, Hcl, Hsl, macOK_String. cbn [implb test_ok forallb andb fst].
    rewrite !andb_true_r, !andb_true_iff, Nat.eqb_eq. split.
    + intros [[? [? ?]] [? ?]]. exists rt. rewrite EP. cbn [fst snd]. rewrite Epc. split_and!; done.
    + intros (rt' & [= <-] & ? & HP & _ & Hc). rewrite EP in HP, Hc. cbn [fst snd] in HP, Hc.
      rewrite Epc in Hc. destruct (Hc eq_refl) as (? & ? & ?). split_and!; done.
Qed.
End commands.

Abbreviation sample_test := (TestConfig (W := Mock) (D := unit) no_durations (λ _, true) (λ _, Some mac0)
  (λ _ _, 7) (λ _ _, 8) 7 true valid_client ["a"; "upstream-2"]%string ["a"; "upstream-2"]%string ∅).

(** The test of the sample client passes, and fails when the interface cannot be
    opened. *)
Lemma app_commands_witness :
  test_ok (sample_test mock0).2 = true ∧ test_ok (sample_test (mock_failing [0%nat])).2 = false.
Proof.
  assert (config_valid valid_client) as Hv.
  { apply (Validate_valid sample_client). vm_compute. reflexivity. }
  assert (∀ w, _) as T by exact (λ w, proj2 (app_commands (W := Mock) (D := unit) (λ _, eq_refl)
    no_durations (λ _, true) (λ _, Some mac0) (λ _ _, 7) (λ _ _, 8) 7 valid_client
    ["a"; "upstream-2"]%string ["a"; "upstream-2"]%string ∅ w Hv)).
  split.
  - specialize (T mock0). cbv beta in T.
    destruct (sample_test mock0) as [[h' w'] lines]. destruct T as [T _]. apply T.
    eexists. split; [vm_compute; reflexivity|]. split; [reflexivity|]. split; [vm_compute; reflexivity|].
    split; [intros E; vm_compute in E; discriminate E|].
    intros _. split_and!; vm_compute; reflexivity.
  - specialize (T (mock_failing [0%nat])). cbv beta in T.
    destruct (sample_test (mock_failing [0%nat])) as [[h' w'] lines]. destruct T as [T _]. cbn [snd].
    destruct (test_ok lines); [|done]. destruct (proj1 T eq_refl) as (rt & _ & _ & HP & _).
    vm_compute in HP. discriminate HP.
Defined.
