(* ===== verification/Platform.v ===== *)
(** [internal/platform] and the stubs that other systems than Linux are built with
    (internal/pcap/stub.go, internal/iptables/stub.go, internal/redirect/stub.go),
    and what the rest of the program does with them. *)

From S2P Require Import Prelude GoStd NetUtil Protocol Config ConfigResolve Transport TunnelPool TunnelDial Upstream Netfilter Iptables Listener Client App.

Local Open Scope Z_scope.

Definition TargetOS : string := "linux".

(** [goos] and [goarch] are [runtime.GOOS] and [runtime.GOARCH]. *)
Definition IsLinux (goos : string) : bool := String.eqb goos TargetOS.

Definition RequireLinux (goos goarch : string) : result string unit :=
  if negb (IsLinux goos)
  then Err ("PaqetPremium requires Linux (Iran/foreign VPS). current OS: " +:+ goos +:+ "/" +:+ goarch)%string
  else Ok tt.

(** A method's result, or its message. *)
Module PcapStub.
Definition Open (net : NetworkRuntime) : result string nat := Err "pcap engine is only available on Linux"%string.
Definition ReadFrom (b : list Z) : result string (nat * UDPAddr) := Err "linux only"%string.
Definition WriteTo (b : list Z) (addr : UDPAddr) : result string nat := Err "linux only"%string.
Definition Close : result string unit := Ok tt.
Definition LocalAddr : option UDPAddr := None.
Definition Probe (net : NetworkRuntime) : result string unit := Err "pcap probe requires Linux"%string.
End PcapStub.

Module IptablesStub.
Definition Apply (net : option NetworkRuntime) : result string unit := Err "iptables helper requires Linux"%string.
Definition ApplyTCPPort (port : Z) : result string unit := Err "iptables helper requires Linux"%string.
Definition Remove : result string unit := Err "iptables helper requires Linux"%string.
End IptablesStub.

Module RedirectStub.
Definition Start (cfg : Config) : result string unit :=
  Err "range redirect mode is only supported on Linux"%string.
End RedirectStub.

(** ** A program with the stubs *)

Section stubs.
Context {W : Type} `{Accepts W} `{Streams W} `{Clock W} `{Netfilter W} {D : Type}.
Context (ParseDuration : string → option Z) (InterfaceByName : string → bool)
  (ParseMAC : string → option (list Z)) (rnd rnd' : nat → nat → Z) (rport : Z).
Implicit Types (h : gmap nat (Pool D)) (w : W).

(** The engine is the stub. *)
Hypothesis Open_stub : ∀ rt w, PcapOpen rt w = (w, match PcapStub.Open rt with Ok p => Some p | Err _ => None end).

Lemma conn_count_pos cfg : (0 < conn_count cfg)%nat.
Proof. unfold conn_count. destruct (Z.ltb_spec (tr_Conn (cfg_Transport cfg)) 1); lia. Qed.

Lemma dial_pool_stub cfg ep flags h w :
  ∃ e, dial_pool ParseDuration InterfaceByName ParseMAC rnd rnd' cfg ep flags h w = (h, w, Err e).
Proof.
  unfold dial_pool, Dial. destruct (OptionsFromConfig _ _ _) as [opt|e]; [|by eexists].
  pose proof (conn_count_pos cfg) as Hn. destruct (conn_count cfg) as [|n]; [lia|].
  cbn [dial_loop]. unfold dial_one. destruct (ResolveNetworkWithPort _ _ _ _ _) as [rt|e]; [|by eexists].
  rewrite Open_stub. cbn. by eexists.
Qed.

Lemma UpstreamEndpoints_cons cfg eps : UpstreamEndpoints cfg = Ok eps → eps ≠ [].
Proof.
  intros [(Hne & out & Ho & ->)|(_ & _ & a & ->)]%UpstreamEndpoints_inv; [|done]. intros E.
  apply endpoints_names in Ho. assert (out = []) as ->.
  { apply Permutation_nil_r. rewrite <- (SliceStable_perm ep_less out). by rewrite E. }
  destruct (upstream_servers cfg); [done|discriminate Ho].
Qed.

Lemma NewManager_stub cfg flags names h w :
  ∃ e, NewManager ParseDuration InterfaceByName ParseMAC rnd rnd' cfg flags names h w = (h, w, Err e).
Proof.
  unfold NewManager. destruct (UpstreamEndpoints cfg) as [eps|e] eqn:Ee; [|by eexists].
  apply UpstreamEndpoints_cons in Ee. destruct eps as [|ep eps]; [done|]. cbn [dial_entries].
  destruct (dial_pool_stub cfg ep flags h w) as [e ->]. unfold Manager_Close, entry_pools. cbn [m_entries].
  rewrite map_to_list_empty. cbn. by eexists.
Qed.

Lemma open_manager_stub cfg names h w :
  ∃ e, open_manager ParseDuration InterfaceByName ParseMAC rnd rnd' rport cfg names h w = (h, w, Err e).
Proof.
  unfold open_manager. destruct (resolve _ _ _ cfg) as [rt|e]; [|by eexists].
  destruct (NewManager_stub cfg (nr_RemoteFlags rt) names h w) as [e ->]. cbn. by eexists.
Qed.

(** A line that says something about this machine or another, not about the file. *)
Definition live_check (l : check_line) : bool :=
  match l with
  | CkError _ | CkIPv4 _ | CkPort _ | CkIPv6 _ | CkAdmin _ | CkToken | CkProbe | CkPing => true
  | _ => false
  end.

Definition of_file (l : bool * check_line) : Prop := live_check l.2 = false ∧ l.2 ≠ CkSkip.

Lemma server_lines_of_file cfg : Forall of_file (server_lines cfg).
Proof.
  unfold server_lines. destruct (String.eqb _ _); [|constructor].
  destruct (ListenUDPAddr cfg); by repeat constructor.
Qed.

Lemma client_lines_of_file cfg : Forall of_file (client_lines cfg).
Proof.
  unfold client_lines. destruct (String.eqb _ _); [|constructor]. apply Forall_app. split.
  { destruct (cfg_Upstream cfg) as [u|]; [|constructor]. constructor; [done|].
    destruct (UpstreamEndpoints cfg) as [eps|e]; [|constructor].
    apply Forall_fmap, Forall_true. done. }
  apply Forall_app. split; [destruct (RemoteServerAddr cfg); by repeat constructor|].
  constructor; [done|]. destruct (cfg_Range cfg) as [r|]; [|constructor].
  destruct (rg_Enabled r); by repeat constructor.
Qed.

(** C40: the program on another system.  The commands [run] and [bench] refuse
    before they touch anything.  [test] touches nothing either: its report has
    lines about the file only — none of an interface that was opened, an address
    that was resolved or a ping — and then the line that the live checks were
    skipped; on a configuration that [Validate] accepted it passes exactly when
    the router address of the file has six parts of two characters, the listen address of
    a server parses, and on a client the server's address does and the section of
    upstreams, if there is one, has a server.  Even without these guards the stub
    engine opens nothing: no pool can be dialled, a client does not get ready,
    pings and measurements fail, and each leaves the world exactly as it was; a
    server never gets to its accept loop, with any firewall. *)
Theorem off_linux goos goarch cfg names names' h w (Hos : IsLinux goos = false) :
  is_ok (RequireLinux goos goarch) = false ∧
  RunConfig (IsLinux goos) (Some cfg) = Err RequiresLinux ∧
  Bench ParseDuration InterfaceByName ParseMAC rnd rnd' rport (IsLinux goos) (Some cfg) names h w = (h, w, Err RequiresLinux) ∧
  (∃ lines, TestConfig ParseDuration InterfaceByName ParseMAC rnd rnd' rport (IsLinux goos) cfg names names' h w =
     (h, w, lines ++ [(true, CkSkip)]) ∧ Forall of_file lines ∧
     (config_valid cfg →
        (test_ok (lines ++ [(true, CkSkip)]) = true ↔
           macOK (ip_RouterMAC (nw_IPv4 (cfg_Network cfg))) = true ∧
           (cfg_Role cfg = RoleServer → is_ok (ListenUDPAddr cfg) = true) ∧
           (cfg_Role cfg = RoleClient → is_ok (RemoteServerAddr cfg) = true ∧ has_servers cfg = true)))) ∧
  (∃ e, PingConfig ParseDuration InterfaceByName ParseMAC rnd rnd' rport cfg names names' h w = (h, w, Err e)) ∧
  (∃ e, BenchConfig ParseDuration InterfaceByName ParseMAC rnd rnd' rport cfg names h w = (h, w, Err e)) ∧
  (∀ c, ∃ e, Run_ready ParseDuration InterfaceByName ParseMAC rnd rnd' rport c names h w = (c, h, w, Err e)) ∧
  (∃ e, (Run_listen ParseDuration InterfaceByName ParseMAC rport cfg w).1.2 = Err e).
Proof.
  rewrite Hos. split; [unfold RequireLinux; by rewrite Hos|]. do 2 (split; [done|]).
  split.
  { unfold TestConfig. eexists. split; [done|]. cbn [network_lines app].
    pose proof (server_lines_of_file cfg) as Hsf. pose proof (client_lines_of_file cfg) as Hcf. split.
    { do 6 (constructor; [done|]). by apply Forall_app. }
    intros Hv. rewrite !test_ok_cons, !test_ok_app, (client_lines_ok cfg Hv), server_lines_ok.
    destruct Hv as (_ & (_ & Hkey & _) & Hr & _).
    destruct (String.eqb_spec (kcp_Key (tr_KCP (cfg_Transport cfg))) "") as [E|]; [by rewrite E in Hkey|].
    destruct Hr as [[Er _]|[Er _]]; rewrite Er; cbn; rewrite ?andb_true_r, ?andb_true_iff.
    - split; [intros [??]; by split_and!|intros (? & ? & ?); auto].
    - split; [intros (? & ? & ?); by split_and!|intros (? & ? & Hc)]. split; [done|by apply Hc]. }
  split; [|split; [|split]].
  - unfold PingConfig. destruct (open_manager_stub cfg names h w) as [e ->]. by eexists.
  - unfold BenchConfig. destruct (open_manager_stub cfg names h w) as [e ->]. by eexists.
  - intros c. unfold Run_ready. destruct (open_manager_stub (c_cfg c) names h w) as [e ->]. by eexists.
  - unfold Run_listen. destruct (ResolveNetwork _ _ _ cfg) as [rt|e]; [|by eexists].
    destruct (Apply (Some rt) w) as [w1 a]. destruct (OptionsFromConfig _ _ _) as [opt|e]; [|by eexists].
    rewrite Open_stub. cbn. by eexists.
Qed.
End stubs.

(** ** A world without an engine *)

#[local] Instance bare_conns : Conns chain_map := {
  PcapOpen _ w := (w, None);
  SetRemoteTCPFlags _ _ _ w := w;
  kcp_NewConn _ _ _ _ _ w := (w, None);
  kcp_configure _ _ w := w;
  quic_NewTransport _ w := (w, 0%nat);
  quic_Dial _ _ _ _ w := (w, None);
  quic_OpenStreamSync _ w := (w, None);
  smux_Client _ _ w := (w, None);
  conn_Close _ w := w }.

#[local] Instance bare_accepts : Accepts chain_map := {
  kcp_ServeConn _ _ _ _ w := (w, None);
  AcceptKCP _ w := (w, None);
  quic_Listen _ _ _ w := (w, None);
  quic_Accept _ w := (w, None);
  quic_AcceptStream _ w := (w, None);
  smux_Server _ _ w := (w, None) }.

#[local] Instance bare_streams : Streams chain_map := {
  IsClosed _ _ := true;
  OpenStream _ w := (w, None);
  StreamWrite _ _ w := (w, false);
  StreamRead _ w := (w, None);
  StreamReadFlowID _ w := (w, None);
  StreamClose _ w := w;
  SendDatagram _ _ w := (w, false) }.

#[local] Instance bare_clock : Clock chain_map := { Now w := (w, 0) }.

Lemma off_linux_witness :
  RunConfig (IsLinux "windows") (Some valid_client) = Err RequiresLinux ∧
  ∃ e, Run_ready (D := unit) (W := chain_map) no_durations (λ _, true) (λ _, Some mac0) (λ _ _, 7) (λ _ _, 8) 7
    (NewClient valid_client "c.yaml") [] ∅ ∅ = (NewClient valid_client "c.yaml", ∅, ∅, Err e).
Proof.
  assert (∀ rt (w : chain_map), PcapOpen rt w = (w, match PcapStub.Open rt with Ok p => Some p | Err _ => None end)) as Hs by reflexivity.
  destruct (off_linux (D := unit) (W := chain_map) no_durations (λ _, true) (λ _, Some mac0) (λ _ _, 7) (λ _ _, 8) 7
    Hs "windows" "amd64" valid_client [] [] ∅ ∅ eq_refl) as (_ & H1 & _ & _ & _ & _ & H2 & _).
  split; [exact H1|]. exact (H2 (NewClient valid_client "c.yaml")).
Defined.
