(* ===== verification/Socks5.v ===== *)
(** [internal/socks5/server.go]: CONNECT and UDP ASSOCIATE of the SOCKS5
    listeners, over the interface [Opener].

    The SOCKS5 library parses requests and calls the handlers, each datagram in a
    goroutine of its own; [ParseAddress] and the encoding of a datagram are its
    interface [Socks5Lib].  The set of running pumps is shared by the goroutines
    of a listener; [sk_step] interleaves them at the critical sections. *)

From S2P Require Import Prelude GoStd NetUtil Protocol Config Transport TunnelPool Metrics Relay Opener.

Local Open Scope Z_scope.

Definition Ver : Z := 5.
Definition RepSuccess : Z := 0.
Definition CmdConnect : Z := 1.
Definition CmdUDP : Z := 3.
Definition ATYPIPv4 : Z := 1.
Definition ATYPDomain : Z := 3.
Definition ATYPIPv6 : Z := 4.

(** ** The library *)

(** [DatagramBytes atyp addr port data] is [NewDatagram(...).Bytes()]. *)
Class Socks5Lib : Type := {
  ParseAddress : string → option (Z * list Z * list Z);
  DatagramBytes : Z → list Z → list Z → list Z → list Z }.

(** An address is 4 bytes, 16 bytes, or a name behind its length; [NewDatagram]
    puts the length in front of a name itself. *)
Class Socks5Laws `{Socks5Lib} : Prop := {
  ParseAddress_wf t a addr port : ParseAddress t = Some (a, addr, port) →
    length port = 2%nat ∧
    ((a = ATYPIPv4 ∧ length addr = 4%nat) ∨ (a = ATYPIPv6 ∧ length addr = 16%nat) ∨
     (a = ATYPDomain ∧ ∃ name, addr = Z.of_nat (length name) :: name ∧ (1 ≤ length name ≤ 255)%nat));
  DatagramBytes_layout a addr port data :
    DatagramBytes a addr port data =
      [0; 0; 0; a] ++ (if a =? ATYPDomain then [Z.of_nat (length addr) mod 256] else []) ++
      addr ++ port ++ data }.

(** ** CONNECT *)

(** The reply: the local address of the connection. *)
Definition connect_reply (ip : IP) (port : Z) : list Z :=
  [Ver; RepSuccess; 0] ++
  (match To4 ip with
   | Some ip4 => ATYPIPv4 :: ip4
   | None => ATYPIPv6 :: default [] (To16 ip)
   end) ++ [u8 (Z.shiftr port 8); u8 (Z.land port 0xff)].

(** ** UDP datagrams to the client *)

Section framing.
Context `{Socks5Lib}.

(** The datagram of the [deliver] closure of [UDPHandle]. *)
Definition deliver_bytes (target : string) (p : list Z) : option (list Z) :=
  '(atyp, dstAddr, dstPort) ← ParseAddress target;
  Some (DatagramBytes atyp (if atyp =? ATYPIPv6 then tail dstAddr else dstAddr) dstPort p).

(** The datagram of [pumpUDP]. *)
Definition pump_bytes (target : string) (p : list Z) : option (list Z) :=
  '(atyp, dstAddr, dstPort) ← ParseAddress target;
  Some (DatagramBytes atyp (if atyp =? ATYPDomain then tail dstAddr else dstAddr) dstPort p).
End framing.

(** What the parser cuts off, by address type. *)
Definition cut_addr (a : Z) (n : nat) (l : list Z) : option (Z * list Z * list Z * list Z) :=
  if (n + 2 <=? length l)%nat
  then Some (a, take n l, take 2 (drop n l), drop 2 (drop n l)) else None.

(** The header of a UDP datagram, RFC 1928 section 7: type, address, port and
    data. *)
Definition parse_datagram (b : list Z) : option (Z * list Z * list Z * list Z) :=
  match b with
  | 0 :: 0 :: 0 :: a :: rest =>
      if a =? ATYPIPv4 then cut_addr a 4 rest
      else if a =? ATYPIPv6 then cut_addr a 16 rest
      else if a =? ATYPDomain then
        match rest with n :: rest => cut_addr a (Z.to_nat n) rest | [] => None end
      else None
  | _ => None
  end.

(** The address a datagram should carry: a name without its length. *)
Definition bare (a : Z) (addr : list Z) : list Z := if a =? ATYPDomain then tail addr else addr.

(** ** The handlers *)

Section socks5.
Context {S E : Type} {op : Opener S E string}.

Inductive connect_end : Type :=
| CReplyFailed | CNoOpener | COpenError | CRelayed (down up : half) (e : relay_end).

(** [handleTCPConnect]; the reply is written before the stream is opened.
    [replied] is whether that write succeeded. *)
Definition handleTCPConnect (replied routed : bool) (dest : string) (down up : half)
    (sched : list bool) (s : S) (c : Collector) : S * Collector * connect_end :=
  if negb replied then (s, c, CReplyFailed) else
  if negb routed then (s, c, CNoOpener) else
  match op_OpenTCP dest s with
  | (s, Err _) => (s, IncError c, COpenError)
  | (s, Ok strm) =>
      let c := Add CTCPActive 1 (Add CTCPAccepted 1 c) in
      let '(down, up, c, r) := relay_run (MeterWriter false) (MeterWriter true) sched down up c in
      (op_StreamClose strm s, Add CTCPActive (-1) c, CRelayed down up (relay_end_of r))
  end.

Inductive sk_end : Type :=
| SkIgnored | SkOpenFailed | SkFlow (x : Session) (fid : Z) (sent : bool)
| SkWriteFailed (strm : nat) (key : Z) | SkStream (strm : nat) (key : Z) (isNew : bool).

Definition UDPHandle_flow (local target : string) (data : list Z) (s : S) (c : Collector) :
    S * Collector * sk_end :=
  match op_OpenUDPDatagram (local +:+ "|" +:+ target) target local s with
  | (s, Err _) => (s, c, SkOpenFailed)
  | (s, Ok (x, fid, _)) =>
      match op_SendFlow x fid data s with
      | (s, true) =>
          (s, Add CBytesOut (Z.of_nat (length data)) (Add CUDPDgramOut 1 (Add CUDPPackets 1 c)),
           SkFlow x fid true)
      | (s, false) => (s, Add CUDPDgramDropped 1 c, SkFlow x fid false)
      end
  end.

Definition UDPHandle_open (local target : string) (s : S) : S * option (nat * bool * Z) :=
  match op_OpenUDP local target s with
  | (s, Err _) => ((op_CloseUDP 0 s).1, None)
  | (s, Ok r) => (s, Some r)
  end.

Definition UDPHandle_write (r : nat * bool * Z) (data : list Z) (s : S) (c : Collector) :
    S * Collector * sk_end :=
  let '(strm, isNew, key) := r in
  let '(s, ok) := match WriteDatagram data with
                  | Ok f => op_Send strm f s
                  | Err _ => (s, false)
                  end in
  if ok then (s, Add CBytesOut (Z.of_nat (length data)) (Add CUDPPackets 1 c), SkStream strm key isNew)
  else ((op_CloseUDP key s).1, IncError c, SkWriteFailed strm key).

(** [associated] is the result of the lookup in [AssociatedUDP]. *)
Definition UDPHandle (associated routed : bool) (local target : string) (data : list Z) (s : S)
    (c : Collector) : S * Collector * sk_end :=
  if negb associated then (s, c, SkIgnored) else
  if negb routed then (s, c, SkIgnored) else
  match op_SupportsDatagrams s with
  | (s, true) => UDPHandle_flow local target data s c
  | (s, false) =>
      match UDPHandle_open local target s with
      | (s, None) => (s, c, SkOpenFailed)
      | (s, Some r) => UDPHandle_write r data s c
      end
  end.

(** [TCPHandle]: the commands of RFC 1928 that are served. *)
Inductive socks_command : Type := UDPAssociate | Connect | Unserved.

Definition TCPHandle (cmd : Z) : socks_command :=
  if cmd =? CmdUDP then UDPAssociate else if cmd =? CmdConnect then Connect else Unserved.

(** Under [pumpMu]. *)
Definition startPump (key : Z) (pumps : gset Z) : gset Z * bool :=
  if decide (key ∈ pumps) then (pumps, false) else ({[key]} ∪ pumps, true).
Definition endPump (key : Z) (pumps : gset Z) : gset Z := pumps ∖ {[key]}.

(** [pumpUDP] up to its deferred calls: the datagrams written to the client. *)
Fixpoint sk_pump_loop `{Socks5Lib} (fuel : nat) (target : string) (sink : option nat) (r : list Z)
    (c : Collector) : list (list Z) * Collector :=
  match fuel with
  | O => ([], c)
  | Datatypes.S fuel =>
      match ReadDatagram (64 * 1024) r with
      | Err _ => ([], c)
      | Ok (p, r) =>
          match pump_bytes target p, sink with
          | None, _ | _, Some O => ([], c)
          | Some b, _ =>
              let c := Add CBytesIn (Z.of_nat (length p)) c in
              let '(l, c) := sk_pump_loop fuel target (Nat.pred <$> sink) r c in (b :: l, c)
          end
      end
  end.

(** ** The goroutines of a listener, interleaved *)

(** [k_pumps] read their stream; [k_closing] have run [CloseUDP] and not yet
    [endPump] (deferred calls run last in, first out); [k_running] is
    [handler.pumps]; [k_pending] are the datagrams being handled, by goroutine:
    opened and not written, or ([None]) written on a new stream and about to
    start a pump. *)
Record sk_state : Type := mkSk {
  k_s : S; k_pumps : list (nat * Z); k_closing : list Z; k_running : gset Z;
  k_pending : gmap nat (nat * bool * Z + nat * Z) }.

Inductive sk_step : sk_state → sk_state → Prop :=
| sk_open i local target s pumps cl run pend s' r :
    pend !! i = None → UDPHandle_open local target s = (s', Some r) →
    sk_step (mkSk s pumps cl run pend) (mkSk s' pumps cl run (<[i := inl r]> pend))
| sk_open_fails local target s pumps cl run pend s' :
    UDPHandle_open local target s = (s', None) →
    sk_step (mkSk s pumps cl run pend) (mkSk s' pumps cl run pend)
| sk_write i r data c s pumps cl run pend s' c' e :
    pend !! i = Some (inl r) → UDPHandle_write r data s c = (s', c', e) →
    sk_step (mkSk s pumps cl run pend)
      (mkSk s' pumps cl run
         (match e with
          | SkStream strm key true => <[i := inr (strm, key)]> pend
          | _ => delete i pend
          end))
| sk_start i strm key s pumps cl run pend :
    pend !! i = Some (inr (strm, key)) →
    sk_step (mkSk s pumps cl run pend)
      (let '(run', b) := startPump key run in
       mkSk s (if b then (strm, key) :: pumps else pumps) cl run' (delete i pend))
| sk_close strm key s pumps1 pumps2 cl run pend :
    sk_step (mkSk s (pumps1 ++ (strm, key) :: pumps2) cl run pend)
      (mkSk (op_CloseUDP key s).1 (pumps1 ++ pumps2) (key :: cl) run pend)
| sk_end_pump key s pumps cl1 cl2 run pend :
    sk_step (mkSk s pumps (cl1 ++ key :: cl2) run pend)
      (mkSk s pumps (cl1 ++ cl2) (endPump key run) pend)
| sk_other s s' pumps cl run pend : sk_step (mkSk s pumps cl run pend) (mkSk s' pumps cl run pend).

Definition sk_init (s : S) : sk_state := mkSk s [] [] ∅ ∅.

(** The keys of the pumps that have not ended. *)
Definition pump_keys (k : sk_state) : list Z := (snd <$> k_pumps k) ++ k_closing k.

Definition pumps_ok (k : sk_state) : Prop :=
  NoDup (pump_keys k) ∧ k_running k = list_to_set (pump_keys k).

Lemma sk_step_pumps_ok k k' : sk_step k k' → pumps_ok k → pumps_ok k'.
Proof.
  unfold pumps_ok, pump_keys. intros Hs [Hn Hr]. destruct Hs; simpl in *; try done.
  - unfold startPump. destruct (decide (key ∈ run)) as [Hin|Hin]; simpl; [done|].
    split; [constructor; [|done]|set_solver].
    rewrite Hr, elem_of_list_to_set in Hin. done.
  - rewrite fmap_app, fmap_cons in Hn, Hr. rewrite fmap_app. simpl in *.
    assert ((snd <$> pumps1) ++ key :: (snd <$> pumps2) ++ cl ≡ₚ
            ((snd <$> pumps1) ++ (snd <$> pumps2)) ++ key :: cl) as Hp by solve_Permutation.
    rewrite <- (assoc_L (++)) in Hn, Hr. simpl in Hn, Hr.
    split; [by rewrite <- Hp|]. rewrite Hr. apply leibniz_equiv. by rewrite Hp.
  - assert ((snd <$> pumps) ++ cl1 ++ key :: cl2 ≡ₚ key :: (snd <$> pumps) ++ cl1 ++ cl2) as Hp
      by solve_Permutation.
    rewrite Hp in Hn. apply NoDup_cons in Hn as [Hk Hn]. split; [done|].
    apply leibniz_equiv. rewrite Hr, Hp. unfold endPump. simpl. set_solver.
Qed.
End socks5.

(** ** UDP associations *)

Section associations.
Context {S E : Type} {op : Opener S E string}.

(** The calls of [handleUDPAssociate] that wait for their control connection to
    end, by the address the client declared, and the keys of [AssociatedUDP]. *)
Record assoc_state : Type := mkAssoc { as_open : list string; as_set : gset string }.

Definition associate (hkey : string) (a : assoc_state) : assoc_state :=
  mkAssoc (hkey :: as_open a) ({[hkey]} ∪ as_set a).

(** With [excl], an address is declared by one connection at a time. *)
Inductive assoc_step (excl : bool) : assoc_state → assoc_state → Prop :=
| assoc_begin hkey a :
    (excl = true → hkey ∉ as_open a) → assoc_step excl a (associate hkey a)
| assoc_end l1 hkey l2 u :
    assoc_step excl (mkAssoc (l1 ++ hkey :: l2) u) (mkAssoc (l1 ++ l2) (u ∖ {[hkey]})).

Definition UDPHandle_in (a : assoc_state) (routed : bool) (local target : string) (data : list Z)
    (s : S) (c : Collector) : S * Collector * sk_end :=
  UDPHandle (bool_decide (local ∈ as_set a)) routed local target data s c.

Lemma assoc_step_ok excl a b :
  assoc_step excl a b →
  (∀ h, h ∈ as_set a → h ∈ as_open a) ∧
    (excl = true → NoDup (as_open a) ∧ ∀ h, h ∈ as_open a → h ∈ as_set a) →
  (∀ h, h ∈ as_set b → h ∈ as_open b) ∧
    (excl = true → NoDup (as_open b) ∧ ∀ h, h ∈ as_open b → h ∈ as_set b).
Proof.
  intros Hs [Hsub Hex]. destruct Hs as [hkey a He|l1 hkey l2 u]; simpl in *.
  - split; [set_solver|]. intros E1. destruct (Hex E1) as [Hn Hall]. specialize (He E1).
    split; [by constructor|]. set_solver.
  - split; [set_solver|]. intros E1. destruct (Hex E1) as [Hn Hall].
    rewrite <- (Permutation_middle l1 l2 hkey) in Hn. apply NoDup_cons in Hn as [Hk Hn].
    split; [done|]. intros h Hh. apply elem_of_difference. split.
    + apply Hall. set_solver.
    + intros ->%elem_of_singleton. done.
Qed.

(** C38: UDP associations.  Over every interleaving of associations that begin
    and end, a datagram from an address without an open control connection is
    ignored: nothing is opened, sent or counted.  If no two open connections
    declare one address, exactly the declared addresses are served; otherwise
    the end of one association ends the other one's traffic. *)
Theorem socks_association excl a (Hs : rtc (assoc_step excl) (mkAssoc [] ∅) a) routed local target data s c :
  (local ∉ as_open a → UDPHandle_in a routed local target data s c = (s, c, SkIgnored)) ∧
  (excl = true → local ∈ as_open a →
     UDPHandle_in a routed local target data s c = UDPHandle true routed local target data s c) ∧
  (∀ l1 l2, as_open a = l1 ++ local :: l2 → local ∈ l1 ++ l2 →
     let b := mkAssoc (l1 ++ l2) (as_set a ∖ {[local]}) in
     assoc_step excl a b ∧ local ∈ as_open b ∧
     UDPHandle_in b routed local target data s c = (s, c, SkIgnored)).
Proof.
  assert ((∀ h, h ∈ as_set a → h ∈ as_open a) ∧
    (excl = true → NoDup (as_open a) ∧ ∀ h, h ∈ as_open a → h ∈ as_set a)) as [Hsub Hex].
  { eapply (rtc_preserves _ (λ x, (∀ h, h ∈ as_set x → h ∈ as_open x) ∧
      (excl = true → NoDup (as_open x) ∧ ∀ h, h ∈ as_open x → h ∈ as_set x)));
      [exact Hs|apply assoc_step_ok|].
    simpl. split; [set_solver|]. intros _. split; [apply NoDup_nil_2|set_solver]. }
  unfold UDPHandle_in. split_and!.
  - intros Hl. by rewrite bool_decide_eq_false_2 by auto.
  - intros E1 Hl. destruct (Hex E1) as [_ Hall]. by rewrite bool_decide_eq_true_2 by auto.
  - intros l1 l2 El Hin. simpl. split_and!; [|done|].
    + destruct a as [l u]. simpl in *. subst l. constructor.
    + by rewrite bool_decide_eq_false_2 by set_solver.
Qed.
End associations.

(** ** The pumps *)

Section pumps.
Context {S E : Type} {op : Opener S E string} `{!OpenerLaws S E string}.

(** A listener never runs two pumps for one key.  Over every interleaving of
    the datagrams being handled and the pumps, the keys of the pumps that have
    not ended are distinct and are exactly the set the handler keeps. *)
Theorem socks_pumps s0 k (Hs : rtc sk_step (sk_init s0) k) :
  NoDup (pump_keys k) ∧ k_running k = list_to_set (pump_keys k).
Proof.
  change (pumps_ok k). remember (sk_init s0) as k0 eqn:Ek.
  assert (pumps_ok k0) as H0 by (subst k0; split; [constructor|done]).
  clear Ek. induction Hs; [done|]. eauto using sk_step_pumps_ok.
Qed.

Lemma UDPHandle_open_ok local target s s' r :
  op_OpenUDP local target s = (s', Ok r) → UDPHandle_open local target s = (s', Some r).
Proof. unfold UDPHandle_open. by intros ->. Qed.

(** A datagram that opens a new stream and is written. *)
Lemma sk_new_stream local target data c s s1 s2 strm key pumps cl run :
  op_OpenUDP local target s = (s1, Ok (strm, true, key)) →
  (UDPHandle_write (strm, true, key) data s1 c).1.1 = s2 →
  (UDPHandle_write (strm, true, key) data s1 c).2 = SkStream strm key true →
  rtc sk_step (mkSk s pumps cl run ∅)
    (let '(run', b) := startPump key run in
     mkSk s2 (if b then (strm, key) :: pumps else pumps) cl run' ∅).
Proof.
  intros Ho E2 Ee. destruct (UDPHandle_write (strm, true, key) data s1 c) as [[s' c'] e] eqn:Ew.
  simpl in *. subst s' e.
  eapply rtc_l; [by apply (sk_open 0%nat local target), UDPHandle_open_ok|].
  eapply rtc_l; [by eapply (sk_write 0%nat (strm, true, key)); [apply lookup_insert_eq|]|].
  eapply rtc_l; [apply (sk_start 0%nat strm key); apply lookup_insert_eq|].
  destruct (startPump key run). rewrite !delete_insert_eq, ?delete_empty. apply rtc_refl.
Qed.

(** But a stream can be left without a pump.  A pump closes its stream's key
    before it leaves the set of running pumps; a datagram that arrives in between
    opens a new stream for the key, finds the key still in the set and starts no
    pump.  Afterwards the stream is in the table, no pump runs or will run for it,
    and every later datagram of that client and target is sent on it, not new, so
    no answer reaches the client. *)
Theorem socks_orphan local target s0 s1 s2 s4 s5 a b ka kb data c
    (Hok : op_ok s0) (H0 : udp_table s0 = ∅)
    (Ho1 : op_OpenUDP local target s0 = (s1, Ok (a, true, ka)))
    (Hw1 : (UDPHandle_write (a, true, ka) data s1 c).1.1 = s2)
    (He1 : (UDPHandle_write (a, true, ka) data s1 c).2 = SkStream a ka true)
    (Ho2 : op_OpenUDP local target (op_CloseUDP ka s2).1 = (s4, Ok (b, true, kb)))
    (Hw2 : (UDPHandle_write (b, true, kb) data s4 c).1.1 = s5)
    (He2 : (UDPHandle_write (b, true, kb) data s4 c).2 = SkStream b kb true) :
  rtc sk_step (sk_init s0) (mkSk s5 [] [] ∅ ∅) ∧ udp_table s5 !! kb = Some b ∧
  ∀ s6, op_ok s6 → udp_table s6 = udp_table s5 →
    match (op_OpenUDP local target s6).2 with
    | Ok (strm, isNew, key) => strm = b ∧ isNew = false ∧ key = kb
    | Err _ => True
    end.
Proof.
  pose proof (OpenUDP_law local target s0 Hok) as L1. rewrite Ho1 in L1. destruct L1 as (K1 & _ & -> & _).
  assert (∀ d strm isNew key s, op_ok s → op_ok (UDPHandle_write (strm, isNew, key) d s c).1.1) as Kw.
  { intros d strm isNew key s Ks. unfold UDPHandle_write. destruct (WriteDatagram d) as [f|].
    - pose proof (proj1 (Send_law strm f s Ks)) as Kf. destruct (op_Send strm f s) as [s' []]; [done|].
      by apply (CloseUDP_law key).
    - by apply (CloseUDP_law key). }
  pose proof (Kw data a true (udp_key local target) s1 K1) as K2. rewrite Hw1 in K2.
  pose proof (proj1 (CloseUDP_law (udp_key local target) s2 K2)) as K3.
  pose proof (OpenUDP_law local target _ K3) as L2. rewrite Ho2 in L2. destruct L2 as (K4 & _ & -> & T2 & _).
  set (key := udp_key local target) in *.
  assert (udp_table s5 !! key = Some b) as T5.
  { revert He2 Hw2. unfold UDPHandle_write. destruct (WriteDatagram data) as [f|]; [|done].
    pose proof (proj1 (proj2 (Send_law b f s4 K4))) as Ts. destruct (op_Send b f s4) as [s4' []]; [|done].
    simpl in *. intros _ <-. by rewrite Ts, T2, lookup_insert_eq. }
  split; [|split; [done|]].
  - etrans; [apply (sk_new_stream local target data c s0 s1 s2 a key [] [] ∅ Ho1 Hw1 He1)|].
    unfold startPump. rewrite decide_False by set_solver.
    eapply rtc_l; [apply (sk_close a key s2 [] [])|].
    etrans; [apply (sk_new_stream local target data c _ s4 s5 b key _ _ _ Ho2 Hw2 He2)|].
    unfold startPump. rewrite decide_True by set_solver.
    eapply rtc_l; [apply (sk_end_pump key s5 [] [] [])|].
    unfold endPump. replace (({[key]} ∪ ∅) ∖ {[key]}) with (∅ : gset Z) by set_solver.
    apply rtc_refl.
  - intros s6 K6 T6. pose proof (OpenUDP_law local target s6 K6) as L6.
    destruct (op_OpenUDP local target s6) as [s7 [[[strm isNew] k]|]]; [|done].
    destruct L6 as (_ & _ & -> & _ & L6). fold key in L6 |- *. rewrite T6, T5 in L6.
    destruct isNew; simplify_eq. done.
Qed.
End pumps.

(** ** The framing *)

Section framing_laws.
Context `{Socks5Laws}.

Lemma cut_addr_app a addr port data :
  length port = 2%nat →
  cut_addr a (length addr) (addr ++ port ++ data) = Some (a, addr, port, data).
Proof.
  intros Hp. unfold cut_addr. rewrite (proj2 (Nat.leb_le _ _)) by (rewrite !length_app; lia).
  by rewrite take_app_length, drop_app_length, take_app_length', drop_app_length'.
Qed.

Lemma cut_addr_fields a n l a' addr port data :
  cut_addr a n l = Some (a', addr, port, data) →
  length addr = n ∧ (length l = n + 2 + length data)%nat.
Proof.
  unfold cut_addr. destruct (Nat.leb_spec (n + 2) (length l)); [|done].
  intros [= _ <- _ <-]. rewrite length_take, !length_drop. lia.
Qed.

(** The parser on a datagram of the library. *)
Lemma parse_DatagramBytes a addr port data :
  parse_datagram (DatagramBytes a addr port data) =
    if a =? ATYPIPv4 then cut_addr a 4 (addr ++ port ++ data)
    else if a =? ATYPIPv6 then cut_addr a 16 (addr ++ port ++ data)
    else if a =? ATYPDomain
    then cut_addr a (Z.to_nat (Z.of_nat (length addr) mod 256)) (addr ++ port ++ data)
    else None.
Proof.
  rewrite DatagramBytes_layout. destruct (Z.eqb_spec a ATYPIPv4) as [->|]; [done|].
  destruct (Z.eqb_spec a ATYPIPv6) as [->|]; [done|].
  unfold parse_datagram. simpl. destruct (Z.eqb_spec a ATYPDomain) as [->|]; [done|].
  rewrite !(proj2 (Z.eqb_neq _ _)) by done. done.
Qed.

Lemma parse_datagram_bytes a addr port data :
  length port = 2%nat →
  (a = ATYPIPv4 ∧ length addr = 4%nat) ∨ (a = ATYPIPv6 ∧ length addr = 16%nat) ∨
  (a = ATYPDomain ∧ (length addr ≤ 255)%nat) →
  parse_datagram (DatagramBytes a addr port data) = Some (a, addr, port, data).
Proof.
  intros Hp Hc. rewrite parse_DatagramBytes, <- (cut_addr_app a addr port data Hp).
  destruct Hc as [[-> ->]|[[-> ->]|[-> Hl]]]; [done|done|]. cbn -[cut_addr].
  rewrite Z.mod_small by lia. by rewrite Nat2Z.id.
Qed.

(** A name that still has its length in front is not parsed as that name. *)
Lemma parse_datagram_named name port data r :
  (1 ≤ length name ≤ 255)%nat →
  parse_datagram (DatagramBytes ATYPDomain (Z.of_nat (length name) :: name) port data)
    ≠ Some (ATYPDomain, name, port, r).
Proof.
  intros Hn. rewrite parse_DatagramBytes. cbn -[cut_addr Z.modulo app].
  intros Hc. apply cut_addr_fields in Hc as [Hl _].
  destruct (decide (length name = 255%nat)) as [E|]; [rewrite E in Hl; vm_compute in Hl; lia|].
  rewrite Z.mod_small in Hl by (simpl; lia). lia.
Qed.

(** The datagrams a client gets back.  On the stream path each one carries,
    by RFC 1928, the address and port of the target the client sent to and the
    payload.  On the QUIC-datagram path that is so for IPv4 targets only: for an
    IPv6 target the address loses its first byte, and for a name its length is
    counted into the name, so what the client parses is not the target. *)
Theorem socks_datagrams target a addr port p
    (Ht : ParseAddress target = Some (a, addr, port)) :
  (∃ b, pump_bytes target p = Some b ∧ parse_datagram b = Some (a, bare a addr, port, p)) ∧
  (∃ b, deliver_bytes target p = Some b ∧
     (parse_datagram b = Some (a, bare a addr, port, p) ↔ a = ATYPIPv4)).
Proof.
  pose proof (ParseAddress_wf _ _ _ _ Ht) as [Hp Hwf].
  unfold pump_bytes, deliver_bytes. rewrite Ht. simpl. split; eexists; (split; [done|]).
  - unfold bare. destruct Hwf as [[-> Hl]|[[-> Hl]|[-> (name & -> & Hn)]]]; simpl;
      apply parse_datagram_bytes; auto.
    right; right. split; [done|lia].
  - destruct Hwf as [[-> Hl]|[[-> Hl]|[-> (name & -> & Hn)]]].
    + split; [done|]. intros _. apply parse_datagram_bytes; auto.
    + split; [|done]. intros Hd. exfalso. rewrite parse_DatagramBytes in Hd.
      apply cut_addr_fields in Hd as [_ Hd]. rewrite !length_app in Hd.
      destruct addr; simpl in *; lia.
    + split; [|done]. intros Hd. by apply parse_datagram_named in Hd.
Qed.
End framing_laws.

(** ** Examples *)

(** Names of two letters only. *)
#[local] Instance toy_lib : Socks5Lib := {
  ParseAddress t :=
    if String.eqb t "[::1]:53"
    then Some (ATYPIPv6, [0; 0; 0; 0; 0; 0; 0; 0; 0; 0; 0; 0; 0; 0; 0; 1], [0; 53])
    else if String.eqb t "8.8.4.4:53" then Some (ATYPIPv4, [8; 8; 4; 4], [0; 53])
    else if String.eqb t "ab:53" then Some (ATYPDomain, [2; 97; 98], [0; 53]) else None;
  DatagramBytes a addr port data :=
    [0; 0; 0; a] ++ (if a =? ATYPDomain then [Z.of_nat (length addr) mod 256] else []) ++
    addr ++ port ++ data }.

#[local] Instance toy_laws : Socks5Laws.
Proof.
  split; [|done]. intros t a addr port. unfold ParseAddress, toy_lib.
  destruct (String.eqb t _); [intros [= <- <- <-]; split; [done|right; by left]|].
  destruct (String.eqb t _); [intros [= <- <- <-]; split; [done|by left]|].
  destruct (String.eqb t _); [|done]. intros [= <- <- <-]. split; [done|right; right].
  split; [done|]. exists [97; 98]. split; [done|simpl; lia].
Qed.

Lemma socks_datagrams_witness :
  ∃ b, deliver_bytes "ab:53" [9; 9] = Some b ∧
    (parse_datagram b = Some (ATYPDomain, [97; 98], [0; 53], [9; 9]) ↔ ATYPDomain = ATYPIPv4).
Proof. apply (socks_datagrams "ab:53" ATYPDomain [2; 97; 98] [0; 53] [9; 9]). reflexivity. Defined.

Definition two_pools : Pool string * Mock := (pool_of two_sessions, mock0).

Lemma socks_pumps_witness : NoDup (pump_keys (sk_init two_pools)).
Proof. apply (socks_pumps two_pools (sk_init two_pools)). apply rtc_refl. Defined.

Definition closing_pools : Pool string * closing := (pool_of two_sessions, (mock0, ∅)).

(** A client's stream is closed by its pump and opened again at once. *)
Lemma socks_orphan_witness : ∃ s,
  rtc sk_step (sk_init closing_pools) (mkSk s [] [] ∅ ∅) ∧
  udp_table s !! addrPairKey "127.0.0.1:9000" "8.8.8.8:53" = Some 101%nat.
Proof.
  set (s1 := (op_OpenUDP "127.0.0.1:9000" "8.8.8.8:53" closing_pools).1).
  set (key := addrPairKey "127.0.0.1:9000" "8.8.8.8:53").
  set (s2 := (UDPHandle_write (100%nat, true, key) [9] s1 zero_collector).1.1).
  set (s4 := (op_OpenUDP "127.0.0.1:9000" "8.8.8.8:53" (op_CloseUDP key s2).1).1).
  set (s5 := (UDPHandle_write (101%nat, true, key) [9] s4 zero_collector).1.1).
  exists s5.
  destruct (socks_orphan (OpenerLaws0 := pool_opener_laws) "127.0.0.1:9000" "8.8.8.8:53" closing_pools s1 s2 s4 s5 100%nat 101%nat
    key key [9] zero_collector I) as (H1 & H2 & _).
  all: try (exact (conj H1 H2)).
  all: try reflexivity; vm_compute; reflexivity.
Defined.

(** Two control connections declare one address; the first to end cuts the
    other off. *)
Lemma socks_association_witness :
  let a := associate "10.0.0.9:5000" (associate "10.0.0.9:5000" (mkAssoc [] ∅)) in
  let b := mkAssoc ["10.0.0.9:5000"%string] (as_set a ∖ {["10.0.0.9:5000"%string]}) in
  rtc (assoc_step false) (mkAssoc [] ∅) b ∧
  UDPHandle_in b true "10.0.0.9:5000" "8.8.8.8:53" [9] two_pools zero_collector =
    (two_pools, zero_collector, SkIgnored).
Proof.
  intros a b.
  assert (rtc (assoc_step false) (mkAssoc [] ∅) a) as Hr.
  { eapply rtc_l; [by apply (assoc_begin false "10.0.0.9:5000")|].
    eapply rtc_l; [by apply (assoc_begin false "10.0.0.9:5000")|]. apply rtc_refl. }
  destruct (proj2 (proj2 (socks_association false a Hr true "10.0.0.9:5000" "8.8.8.8:53" [9]
    two_pools zero_collector)) [] ["10.0.0.9:5000"%string] eq_refl) as (H1 & _ & H2); [by left|].
  split; [|exact H2]. eapply rtc_r; [exact Hr|exact H1].
Defined.
