(* ===== verification/SocksListen.v ===== *)
(** How [listen] of internal/socks5/server.go sets up a server of the SOCKS5
    library for a rule: the address it resolves and prints again, the address it
    gives the library for UDP replies, and the credentials.

    The lookup of names and services and the library's own checks are arguments. *)

From S2P Require Import Prelude GoStd NetUtil Config.

Local Open Scope Z_scope.

(** ** Addresses as text *)

(** [net.IP.String]; [other] prints what is neither empty nor IPv4. *)
Definition dotted (ip : IP) : string := str (join_on dot (itoa <$> ip)).
Definition IPString (other : IP → string) (ip : IP) : string :=
  match ip with
  | [] => "<nil>"
  | _ => match To4 ip with Some ip4 => dotted ip4 | None => other ip end
  end.

(** [net.TCPAddr.String]: an empty address is an empty host. *)
Definition TCPAddrString (other : IP → string) (ip : IP) (port : Z) : string :=
  JoinHostPort (match ip with [] => "" | _ => IPString other ip end) (Itoa port).

Definition octet (z : Z) : Prop := 0 ≤ z < 256.

Lemma octets_itoa : Forall (λ n : nat, parse_octet (itoa (Z.of_nat n)) = Some (Z.of_nat n)) (seq 0 256).
Proof. apply (bool_decide_unpack _). vm_compute. reflexivity. Qed.

Lemma octet_itoa z : octet z → parse_octet (itoa z) = Some z.
Proof.
  intros [Hz Hlt]. pose proof (proj1 (Forall_forall _ _) octets_itoa (Z.to_nat z)) as E.
  cbn beta in E. rewrite Z2Nat.id in E by done. apply E, elem_of_seq. lia.
Qed.

Lemma dot_itoa z : dot ∉ itoa z.
Proof. apply itoa_not_elem; [reflexivity|vm_compute; discriminate]. Qed.

(** Digits do not say which family an address has. *)
Lemma ip_family_digits l rest : dot ∉ l → colon ∉ l → percent ∉ l → ip_family (l ++ dot :: rest) = Some false.
Proof.
  induction l as [|c l IH]; [done|]. rewrite !not_elem_of_cons. intros [? ?] [? ?] [? ?]. cbn [app ip_family].
  rewrite !decide_False by done. auto.
Qed.

(** An IPv4 address is read back, in its 16-byte form. *)
Lemma ParseIP_dotted a b c d :
  octet a → octet b → octet c → octet d → ParseIP (dotted [a; b; c; d]) = Some (v4in6 ++ [a; b; c; d]).
Proof.
  intros Ha Hb Hc Hd. unfold ParseIP, dotted. rewrite bs_str.
  assert (ip_family (join_on dot (itoa <$> [a; b; c; d])) = Some false) as ->.
  { cbn. apply ip_family_digits; [apply dot_itoa|..];
      (apply itoa_not_elem; [reflexivity|vm_compute; discriminate]). }
  cbn [mbind option_bind]. unfold parse_ipv4. rewrite split_join; [|done|].
  2: { repeat (constructor; [apply dot_itoa|]). constructor. }
  cbn. by rewrite !octet_itoa by done.
Qed.

Lemma dotted_no c ip : is_digit c = false → code c ≠ 45 → c ≠ dot → c ∉ bs (dotted ip).
Proof.
  intros Hd Hm Hdot. unfold dotted. rewrite bs_str. induction ip as [|a [|b ip] IH]; cbn in *; [apply not_elem_of_nil| |].
  - by apply itoa_not_elem.
  - rewrite not_elem_of_app, not_elem_of_cons. split; [by apply itoa_not_elem|by split].
Qed.

(** ** The server of a rule *)

(** The arguments of [NewClassicServer], and [LimitUDP]. *)
Record socks_server : Type := mkSocksServer {
  ss_addr : string; ss_ip : string; ss_user : string; ss_pass : string;
  ss_tcpTimeout : Z; ss_udpTimeout : Z; ss_limitUDP : bool }.

Inductive socks_listen_error : Type := SocksResolve | SocksCreate.

Section listen.
Context (LookupHost : string → option IP) (LookupPort : string → option Z) (other : IP → string).
(** Whether the library makes the server. *)
Context (creates : socks_server → bool).

(** [net.ResolveTCPAddr] without a zone: a literal address, none, or a lookup. *)
Definition ResolveTCPAddr (s : string) : option (IP * Z) :=
  match SplitHostPort s with
  | Err _ => None
  | Ok (host, service) =>
      port ← LookupPort service;
      if String.eqb host "" then Some ([], port) else
      ip ← match ParseIP host with Some ip => Some ip | None => LookupHost host end;
      Some (ip, port)
  end.

Definition socks_credentials (rule : SOCKS5Rule) : string * string :=
  match sr_Auth rule with Some a => (sa_User a, sa_Pass a) | None => (""%string, ""%string) end.

(** [listen] up to the goroutine that serves. *)
Definition socks_listen (rule : SOCKS5Rule) : result socks_listen_error socks_server :=
  match ResolveTCPAddr (sr_Listen rule) with
  | None => Err SocksResolve
  | Some (ip, port) =>
      let '(user, pass) := socks_credentials rule in
      let srv := mkSocksServer (TCPAddrString other ip port) (IPString other ip) user pass 0 60 false in
      if creates srv
      then Ok (mkSocksServer (ss_addr srv) (ss_ip srv) user pass 0 60 true)
      else Err SocksCreate
  end.

(** [LookupPort] on a number. *)
Hypothesis LookupPort_number : ∀ p, 0 ≤ p < 65536 → LookupPort (Itoa p) = Some p.

Lemma Resolve_join host port ip :
  0 ≤ port < 65536 → lbrack ∉ bs host → rbrack ∉ bs host →
  (if String.eqb host "" then ip = [] else ParseIP host = Some ip) →
  ResolveTCPAddr (JoinHostPort host (Itoa port)) = Some (ip, port).
Proof.
  intros Hp H1 H2 Hip. unfold ResolveTCPAddr, SplitHostPort, JoinHostPort. rewrite bs_str.
  rewrite split_join_host_port; [|done|done|..].
  2-4: unfold Itoa; rewrite bs_str; apply itoa_not_elem; [reflexivity|vm_compute; discriminate].
  cbn. rewrite !str_bs, LookupPort_number by done. cbn.
  destruct (String.eqb host ""); [by subst ip|by rewrite Hip].
Qed.

(** C39: what the SOCKS5 library is told.  A rule that listens on an IPv4 address
    and a port gives the library exactly the rule's text, and as the address for
    UDP replies the address without the port.  A rule that listens on a port of
    all addresses gives it the rule's text too, but as the address for UDP
    replies the text [<nil>], which is no address.  The user and the password of
    a rule go to the library as they are, in that order; a rule without any gives
    it two empty texts, so to the library it is the same as a rule with empty
    ones.  The timeouts are none for TCP and 60 seconds for UDP; [LimitUDP]
    is set after the library has made the server. *)
Theorem socks_listen_arguments port (Hp : 0 ≤ port < 65536) :
  (∀ a b c d user pass, octet a → octet b → octet c → octet d →
     let listen := JoinHostPort (dotted [a; b; c; d]) (Itoa port) in
     let srv l := mkSocksServer listen (dotted [a; b; c; d]) user pass 0 60 l in
     socks_listen (mkSOCKS5Rule listen (Some (mkSOCKSAuth user pass))) =
       if creates (srv false) then Ok (srv true) else Err SocksCreate) ∧
  (∀ user pass,
     let listen := (":" +:+ Itoa port)%string in
     let srv l := mkSocksServer listen "<nil>" user pass 0 60 l in
     socks_listen (mkSOCKS5Rule listen (Some (mkSOCKSAuth user pass))) =
       if creates (srv false) then Ok (srv true) else Err SocksCreate) ∧
  (∀ listen, socks_listen (mkSOCKS5Rule listen None) = socks_listen (mkSOCKS5Rule listen (Some (mkSOCKSAuth "" "")))) ∧
  ParseIP "<nil>" = None.
Proof.
  split; [|split; [|done]].
  - intros a b c d user pass Ha Hb Hc Hd. unfold socks_listen. cbn [sr_Listen].
    rewrite (Resolve_join _ _ (v4in6 ++ [a; b; c; d]) Hp); [done|..].
    + by apply dotted_no; [reflexivity|vm_compute; discriminate|].
    + by apply dotted_no; [reflexivity|vm_compute; discriminate|].
    + rewrite ParseIP_dotted by done. destruct (String.eqb_spec (dotted [a; b; c; d]) "") as [E0|]; [|done].
      pose proof (ParseIP_dotted a b c d Ha Hb Hc Hd) as E1. rewrite E0 in E1. discriminate E1.
  - intros user pass. assert ((":" +:+ Itoa port)%string = JoinHostPort "" (Itoa port)) as El.
    { unfold JoinHostPort, Itoa. cbn. rewrite bs_str. done. }
    cbv zeta. rewrite El. unfold socks_listen. cbn [sr_Listen].
    by rewrite (Resolve_join _ _ [] Hp) by (try apply not_elem_of_nil; done).
Qed.
End listen.

Lemma socks_listen_arguments_witness :
  socks_listen (λ _, None) Atoi (λ _, "?"%string) (λ _, true)
    (mkSOCKS5Rule ":1080" (Some (mkSOCKSAuth "alice" "secret"))) =
    Ok (mkSocksServer ":1080" "<nil>" "alice" "secret" 0 60 true).
Proof.
  refine (proj1 (proj2 (socks_listen_arguments (λ _, None) Atoi (λ _, "?"%string) (λ _, true) _ 1080 _)) "alice"%string "secret"%string).
  - intros p Hp. apply Atoi_Itoa. unfold in_i64. lia.
  - lia.
Defined.
