(* ===== verification/Admin.v ===== *)
(** [internal/admin]: the HTTP control plane — routing and authorization, the
    configuration editor with its redaction and restoration of secrets, and the
    replacement of the configuration file.

    The YAML library is the interface [YamlCodec]; [reload] is the callback the
    tunnel installs; a file system is a map from paths to contents and
    permission bits, whose calls can fail at any point. *)

From S2P Require Import Prelude GoStd NetUtil Protocol Config ConfigResolve.

Local Open Scope Z_scope.

Class YamlCodec : Type := {
  yaml_Marshal : Config → option (list Z);
  yaml_Unmarshal : list Z → option Config }.

(** Marshalling loses nothing of a configuration. *)
Class YamlLaws `{YamlCodec} : Prop := {
  yaml_roundtrip c b : yaml_Marshal c = Some b → yaml_Unmarshal b = Some c }.

(** ** Secrets (admin/config.go) *)

Definition redactedMark : string := "***REDACTED***".

Definition isRedacted (v : string) : bool :=
  let v := TrimSpace v in String.eqb v "" || String.eqb v redactedMark.

(** Field assignments. *)
Definition set_Admin (v : option AdminConfig) (c : Config) : Config :=
  let '(mkConfig a b r d e f g h i j k l m _) := c in mkConfig a b r d e f g h i j k l m v.
Definition set_SOCKS5 (v : list SOCKS5Rule) (c : Config) : Config :=
  let '(mkConfig a b r d e f g _ i j k l m n) := c in mkConfig a b r d e f g v i j k l m n.
Definition set_Token (v : string) (a : AdminConfig) : AdminConfig :=
  mkAdminConfig (ad_Listen a) (ad_Metrics a) v.
Definition set_us_Key (v : string) (s : UpstreamServer) : UpstreamServer :=
  mkUpstreamServer (us_Name s) (us_Addr s) v (us_Weight s) (us_Priority s) (us_Transport s).
Definition set_Servers (f : list UpstreamServer → list UpstreamServer) (u : UpstreamConfig) :=
  mkUpstreamConfig (up_Strategy u) (up_HealthCheck u) (f (up_Servers u)).
Definition set_Pass (v : string) (r : SOCKS5Rule) : SOCKS5Rule :=
  mkSOCKS5Rule (sr_Listen r) ((λ a, mkSOCKSAuth (sa_User a) v) <$> sr_Auth r).

(** The assignments of [redactConfig], on its private copy. *)
Definition redact_server (s : UpstreamServer) : UpstreamServer :=
  if blank (us_Key s) then s else set_us_Key redactedMark s.

Definition redact_socks (r : SOCKS5Rule) : SOCKS5Rule :=
  match sr_Auth r with
  | Some a => if String.eqb (sa_Pass a) "" then r else set_Pass redactedMark r
  | None => r
  end.

Definition redact_admin (a : AdminConfig) : AdminConfig :=
  if blank (ad_Token a) then a else set_Token redactedMark a.

Definition redact_fields (c : Config) : Config :=
  let c := if blank (kcp_Key (tr_KCP (cfg_Transport c))) then c
           else set_Transport (set_Key redactedMark (cfg_Transport c)) c in
  let c := set_Admin (redact_admin <$> cfg_Admin c) c in
  let c := set_Upstream (set_Servers (fmap redact_server) <$> cfg_Upstream c) c in
  set_SOCKS5 (redact_socks <$> cfg_SOCKS5 c) c.

(** [None] is an error of the codec. *)
Definition redactConfig `{YamlCodec} (c : Config) : option Config :=
  data ← yaml_Marshal c;
  cp ← yaml_Unmarshal data;
  Some (redact_fields cp).

Definition lookupUpstreamKey (servers : list UpstreamServer) (name : string) (idx : nat) : string :=
  match (if String.eqb name "" then None
         else List.find (λ s, String.eqb (us_Name s) name) servers) with
  | Some s => us_Key s
  | None => match servers !! idx with Some s => us_Key s | None => "" end
  end.

Definition restore_server (cur : list UpstreamServer) (i : nat) (s : UpstreamServer) : UpstreamServer :=
  if isRedacted (us_Key s) then
    let key := lookupUpstreamKey cur (us_Name s) i in
    if String.eqb key "" then s else set_us_Key key s
  else s.

Definition restore_socks (cur : list SOCKS5Rule) (i : nat) (r : SOCKS5Rule) : SOCKS5Rule :=
  match sr_Auth r with
  | Some a =>
      if isRedacted (sa_Pass a) then
        match cur !! i ≫= sr_Auth with Some a' => set_Pass (sa_Pass a') r | None => r end
      else r
  | None => r
  end.

Definition restoreSecrets (in_ : Config) (cur : option Config) : Config :=
  match cur with
  | None => in_
  | Some cur =>
      let c := in_ in
      let c := if isRedacted (kcp_Key (tr_KCP (cfg_Transport c)))
               then set_Transport (set_Key (kcp_Key (tr_KCP (cfg_Transport cur))) (cfg_Transport c)) c
               else c in
      let c := match cfg_Admin c, cfg_Admin cur with
               | Some a, Some a' =>
                   if isRedacted (ad_Token a) then set_Admin (Some (set_Token (ad_Token a') a)) c else c
               | _, _ => c
               end in
      let c := match cfg_Upstream c, cfg_Upstream cur with
               | Some u, Some u' =>
                   set_Upstream (Some (set_Servers (imap (restore_server (up_Servers u'))) u)) c
               | _, _ => c
               end in
      set_SOCKS5 (imap (restore_socks (cfg_SOCKS5 cur)) (cfg_SOCKS5 c)) c
  end.

(** ** Replacing the configuration file *)

Abbreviation files := (gmap string (list Z * Z)).

(** How far [os.WriteFile] and [os.Rename] get, and the process's umask. *)
Inductive write_result : Type := WriteDone | OpenFails | WriteFails (n : nat).

Record faults : Type := mkFaults {
  write_fault : write_result; rename_fault : bool; umask : Z }.

Definition writeConfigFile (path : string) (data : list Z) (ft : faults) (fs : files) : files * bool :=
  let mode := match fs !! path with Some (_, m) => m | None => 384 end in   (* 0o600 *)
  let tmp := path +:+ ".tmp" in
  let perm := match fs !! tmp with Some (_, m) => m | None => Z.ldiff mode (umask ft) end in
  match write_fault ft with
  | OpenFails => (fs, false)
  | WriteFails n => (<[tmp := (take n data, perm)]> fs, false)
  | WriteDone =>
      let fs := <[tmp := (data, perm)]> fs in
      if rename_fault ft then (fs, false)
      else (<[path := (data, perm)]> (delete tmp fs), true)
  end.

(** ** Requests *)

Record request : Type := mkRequest {
  rq_Method : string; rq_Path : string; rq_Authorization : string; rq_Token : string;
  rq_Body : option (list Z) }.      (* [None]: reading the body fails *)

Inductive body : Type :=
| BText (s : string) | BDashboard | BStatus | BMetrics | BYaml (b : list Z).

Record response : Type := mkResponse { rs_Code : Z; rs_Body : body }.

Definition authorized (a : AdminConfig) (r : request) : bool :=
  let token := TrimSpace (ad_Token a) in
  if String.eqb token "" then true
  else if String.eqb (TrimSpace (rq_Token r)) token then true
  else
    let hdr := TrimSpace (rq_Authorization r) in
    if HasPrefix hdr "Bearer " then String.eqb (TrimPrefix hdr "Bearer ") token
    else String.eqb hdr token.

Section server.
Context `{YamlCodec}.
(** The rest of the process, behind the callbacks: the running configuration
    and what a reload does to it (the flag says that it succeeded). *)
Context {S : Type} (getConfig : S → option Config) (reload : option (string → S → files → S * bool)).

Record Server : Type := mkServer { sv_cfg : AdminConfig; sv_cfgPath : string }.

Definition configEditor (sv : Server) : bool := negb (blank (sv_cfgPath sv)).

Definition auth {X} (sv : Server) (r : request) (s : X) (h : X * response) : X * response :=
  if String.eqb (ad_Token (sv_cfg sv)) "" then h
  else if negb (authorized (sv_cfg sv) r) then (s, mkResponse 401 (BText "unauthorized"))
  else h.

Definition getConfigYAML (s : S) : response :=
  match getConfig s with
  | None => mkResponse 503 (BText "config unavailable")
  | Some cur =>
      match redactConfig cur ≫= yaml_Marshal with
      | None => mkResponse 500 (BText "yaml")
      | Some out => mkResponse 200 (BYaml out)
      end
  end.

Definition bodyLimit : nat := Z.to_nat (2 ^ 20).

Definition putConfigYAML (sv : Server) (r : request) (ft : faults) (st : S * files) :
    S * files * response :=
  let '(s, fs) := st in
  match rq_Body r with
  | None => (s, fs, mkResponse 400 (BText "read body"))
  | Some b =>
      match yaml_Unmarshal (take bodyLimit b) with
      | None => (s, fs, mkResponse 400 (BText "parse yaml"))
      | Some incoming =>
          match Validate (restoreSecrets incoming (getConfig s)) with
          | Err _ => (s, fs, mkResponse 400 (BText "invalid config"))
          | Ok c =>
              match yaml_Marshal c with
              | None => (s, fs, mkResponse 500 (BText "yaml"))
              | Some out =>
                  match writeConfigFile (sv_cfgPath sv) out ft fs with
                  | (fs, false) => (s, fs, mkResponse 500 (BText "write config"))
                  | (fs, true) =>
                      match reload with
                      | None => (s, fs, mkResponse 200 (BText "saved"))
                      | Some rl =>
                          let '(s, ok) := rl (sv_cfgPath sv) s fs in
                          (s, fs, if ok then mkResponse 200 (BText "saved")
                                  else mkResponse 500 (BText "saved, but reload failed"))
                      end
                  end
              end
          end
      end
  end.

Definition handleConfig (sv : Server) (r : request) (ft : faults) (st : S * files) :
    S * files * response :=
  if String.eqb (rq_Method r) "GET" then (st, getConfigYAML st.1)
  else if String.eqb (rq_Method r) "POST" || String.eqb (rq_Method r) "PUT"
  then putConfigYAML sv r ft st
  else (st, mkResponse 405 (BText "method not allowed")).

Definition handleReload (sv : Server) (r : request) (st : S * files) : S * files * response :=
  if negb (String.eqb (rq_Method r) "POST") then (st, mkResponse 405 (BText "method not allowed"))
  else match reload with
       | None => (st, mkResponse 501 (BText "reload not supported"))
       | Some rl =>
           let '(s, ok) := rl (sv_cfgPath sv) st.1 st.2 in
           (s, st.2, if ok then mkResponse 200 (BText "reloaded") else mkResponse 500 (BText "reload"))
       end.

Definition handleDashboard (r : request) : response :=
  if String.eqb (rq_Path r) "/" then mkResponse 200 BDashboard
  else mkResponse 404 (BText "404 page not found").

(** The multiplexer of [Run]: the registered paths, and ["/"] for the rest.
    [rq_Path] is a path that [http.ServeMux] has cleaned: a request for any other
    path (with [//], [.] or [..] in it) ServeMux itself answers with a redirection
    (301) to the clean one, and no handler sees it. *)
Definition handle (sv : Server) (r : request) (ft : faults) (st : S * files) :
    S * files * response :=
  let on p := String.eqb (rq_Path r) p in
  if on "/healthz" then (st, mkResponse 200 (BText "ok"))
  else if on "/api/v1/status" then auth sv r st (st, mkResponse 200 BStatus)
  else if on "/api/v1/reload" && bool_decide (is_Some reload) then auth sv r st (handleReload sv r st)
  else if on "/api/v1/config" && configEditor sv then auth sv r st (handleConfig sv r ft st)
  else if on "/metrics" && ad_Metrics (sv_cfg sv) then auth sv r st (st, mkResponse 200 BMetrics)
  else (st, handleDashboard r).
End server.

(** app/reload.go: the header the command-line client sends. *)
Definition reload_header (token : string) : string :=
  if String.eqb token "" then "" else "Bearer " +:+ token.

(** ** The secrets *)

Lemma isRedacted_mark : isRedacted redactedMark = true.
Proof. reflexivity. Qed.

Lemma isRedacted_blank v : blank v = true → isRedacted v = true.
Proof. unfold blank, isRedacted. by intros ->. Qed.

(** Servers that share a non-empty name share their key. *)
Definition keys_agree (servers : list UpstreamServer) : Prop :=
  ∀ s s', s ∈ servers → s' ∈ servers →
    us_Name s = us_Name s' → us_Name s ≠ ""%string → us_Key s = us_Key s'.

Lemma find_index {A} (P : A → bool) l x :
  List.find P l = Some x → ∃ i, l !! i = Some x ∧ P x = true.
Proof.
  intros [Hin HP]%find_some. apply list_elem_of_In, list_elem_of_lookup in Hin as [i Hi]. eauto.
Qed.

Lemma lookupUpstreamKey_self servers i s :
  keys_agree servers → servers !! i = Some s →
  lookupUpstreamKey servers (us_Name s) i = us_Key s.
Proof.
  intros Hd Hi. unfold lookupUpstreamKey. destruct (String.eqb_spec (us_Name s) "") as [E|Hne].
  { by rewrite Hi. }
  destruct (List.find _ _) as [s'|] eqn:Ef; [|by rewrite Hi].
  apply find_index in Ef as (j & Hj & E%String.eqb_eq).
  apply Hd; [by eapply list_elem_of_lookup_2|by eapply list_elem_of_lookup_2|done|by rewrite E].
Qed.

Lemma redact_server_name s : us_Name (redact_server s) = us_Name s.
Proof. unfold redact_server. by destruct (blank _). Qed.

Lemma restore_redact_server servers i s :
  keys_agree servers → servers !! i = Some s →
  restore_server servers i (redact_server s) = s.
Proof.
  intros Hd Hi. unfold restore_server. rewrite redact_server_name, (lookupUpstreamKey_self _ _ _ Hd Hi).
  assert (isRedacted (us_Key (redact_server s)) = true) as ->.
  { unfold redact_server. destruct (blank (us_Key s)) eqn:E; [by apply isRedacted_blank|done]. }
  unfold redact_server. destruct (blank (us_Key s)) eqn:E.
  - destruct (String.eqb_spec (us_Key s) ""); [done|by destruct s].
  - destruct (String.eqb_spec (us_Key s) "") as [E'|]; [by rewrite E' in E|by destruct s].
Qed.

Lemma restore_redact_socks rules i r :
  rules !! i = Some r → restore_socks rules i (redact_socks r) = r.
Proof.
  intros Hi. unfold restore_socks, redact_socks. destruct r as [l [[u p]|]]; simpl; [|done].
  destruct (String.eqb_spec p "") as [->|Hp]; simpl; by rewrite Hi.
Qed.

Lemma imap_fmap_id {A B} (f : nat → B → A) (g : A → B) l :
  (∀ i x, l !! i = Some x → f i (g x) = x) → imap f (g <$> l) = l.
Proof.
  intros Hf. apply list_eq. intros i. rewrite list_lookup_imap, list_lookup_fmap.
  destruct (l !! i) eqn:E; simpl; [by rewrite Hf|done].
Qed.

(** The restored fields, one by one. *)
Definition restore_transport (t cur : TransportConfig) : TransportConfig :=
  if isRedacted (kcp_Key (tr_KCP t)) then set_Key (kcp_Key (tr_KCP cur)) t else t.
Definition restore_admin (a cur : option AdminConfig) : option AdminConfig :=
  match a, cur with
  | Some a, Some a' => if isRedacted (ad_Token a) then Some (set_Token (ad_Token a') a) else Some a
  | _, _ => a
  end.
Definition restore_upstream (u cur : option UpstreamConfig) : option UpstreamConfig :=
  match u, cur with
  | Some u, Some u' => Some (set_Servers (imap (restore_server (up_Servers u'))) u)
  | _, _ => u
  end.
Definition redact_transport (t : TransportConfig) : TransportConfig :=
  if blank (kcp_Key (tr_KCP t)) then t else set_Key redactedMark t.

Lemma restoreSecrets_fields c cur :
  restoreSecrets c (Some cur) =
    set_SOCKS5 (imap (restore_socks (cfg_SOCKS5 cur)) (cfg_SOCKS5 c))
      (set_Upstream (restore_upstream (cfg_Upstream c) (cfg_Upstream cur))
        (set_Admin (restore_admin (cfg_Admin c) (cfg_Admin cur))
          (set_Transport (restore_transport (cfg_Transport c) (cfg_Transport cur)) c))).
Proof.
  unfold restoreSecrets, restore_transport, restore_admin, restore_upstream.
  destruct c as [co ve ro na lo u fw so ra li ne se t ad].
  cbn [cfg_Transport set_Transport].
  destruct (isRedacted (kcp_Key (tr_KCP t))); cbn [cfg_Admin set_Transport];
    (destruct ad as [a|], (cfg_Admin cur) as [a'|];
       [destruct (isRedacted (ad_Token a))|..]);
    cbn [cfg_Upstream set_Admin]; by destruct u, (cfg_Upstream cur).
Qed.

Lemma redact_fields_eq c :
  redact_fields c =
    set_SOCKS5 (redact_socks <$> cfg_SOCKS5 c)
      (set_Upstream (set_Servers (fmap redact_server) <$> cfg_Upstream c)
        (set_Admin (redact_admin <$> cfg_Admin c)
          (set_Transport (redact_transport (cfg_Transport c)) c))).
Proof.
  unfold redact_fields, redact_transport.
  destruct c as [co ve ro na lo u fw so ra li ne se t ad]. cbn [cfg_Transport set_Transport].
  by destruct (blank _).
Qed.

Lemma isRedacted_redact_transport t : isRedacted (kcp_Key (tr_KCP (redact_transport t))) = true.
Proof.
  unfold redact_transport. destruct t as [pr cn [mo bl ky mt ds ps sw rw] qu]. cbn [tr_KCP kcp_Key].
  destruct (blank ky) eqn:E; [by apply isRedacted_blank|]. apply isRedacted_mark.
Qed.

Lemma restore_redact_transport t : restore_transport (redact_transport t) t = t.
Proof.
  unfold restore_transport. rewrite isRedacted_redact_transport. unfold redact_transport.
  destruct t as [pr cn [mo bl ky mt ds ps sw rw] qu]. cbn [tr_KCP kcp_Key].
  by destruct (blank ky).
Qed.

Lemma isRedacted_redact_admin a : isRedacted (ad_Token (redact_admin a)) = true.
Proof.
  unfold redact_admin. destruct (blank (ad_Token a)) eqn:E; [by apply isRedacted_blank|].
  apply isRedacted_mark.
Qed.

Lemma restore_redact_admin a : restore_admin (redact_admin <$> a) a = a.
Proof.
  destruct a as [a|]; [|done]. cbn. rewrite isRedacted_redact_admin. unfold redact_admin.
  by destruct (blank _), a.
Qed.

Lemma restore_redact_upstream u :
  keys_agree (match u with Some u => up_Servers u | None => [] end) →
  restore_upstream (set_Servers (fmap redact_server) <$> u) u = u.
Proof.
  destruct u as [[st hc sv]|]; [|done]. intros Hd. cbn. unfold set_Servers. cbn.
  rewrite (imap_fmap_id (restore_server sv) redact_server); [done|].
  intros; by apply restore_redact_server.
Qed.

Lemma restore_redact c :
  keys_agree (upstream_servers c) → restoreSecrets (redact_fields c) (Some c) = c.
Proof.
  intros Hd. rewrite restoreSecrets_fields, redact_fields_eq.
  destruct c as [co ve ro na lo u fw so ra li ne se t ad].
  cbn [set_SOCKS5 set_Upstream set_Admin set_Transport cfg_Transport cfg_Admin cfg_Upstream cfg_SOCKS5].
  rewrite restore_redact_transport, restore_redact_admin, restore_redact_upstream by done.
  f_equal. apply imap_fmap_id. intros; by apply restore_redact_socks.
Qed.

(** What the configuration API shows.  In the configuration it returns
    every key of the tunnel and of the upstreams, the admin token and every
    SOCKS5 password is blank or the redaction mark; everything that is not one
    of these fields is as configured, the keys inside the upstreams' own
    transport sections included; and restoring the redacted configuration
    against the running one gives back the running one, secrets included, when
    upstreams of the same name have the same key. *)
Theorem redact_restore c :
  let r := redact_fields c in
  isRedacted (kcp_Key (tr_KCP (cfg_Transport r))) = true ∧
  (∀ a, cfg_Admin r = Some a → isRedacted (ad_Token a) = true) ∧
  Forall (λ s, isRedacted (us_Key s) = true) (upstream_servers r) ∧
  Forall (λ s, ∀ a, sr_Auth s = Some a → isRedacted (sa_Pass a) = true) (cfg_SOCKS5 r) ∧
  us_Transport <$> upstream_servers r = us_Transport <$> upstream_servers c ∧
  cfg_Forward r = cfg_Forward c ∧ cfg_Range r = cfg_Range c ∧ cfg_Network r = cfg_Network c ∧
  (keys_agree (upstream_servers c) → restoreSecrets r (Some c) = c).
Proof.
  assert (∀ s, isRedacted (us_Key (redact_server s)) = true) as Hs.
  { intros s. unfold redact_server. destruct (blank (us_Key s)) eqn:E; [by apply isRedacted_blank|].
    apply isRedacted_mark. }
  assert (∀ s a, sr_Auth (redact_socks s) = Some a → isRedacted (sa_Pass a) = true) as Hp.
  { intros [l [[u p]|]] a; unfold redact_socks; cbn [sr_Auth sa_Pass]; [|done].
    destruct (String.eqb_spec p "") as [->|]; cbn; intros [= <-]; [done|apply isRedacted_mark]. }
  cbv zeta. split_and!; [| | | | | | | |by apply restore_redact]; rewrite redact_fields_eq;
    destruct c as [co ve ro na lo u fw so ra li ne se t ad]; unfold upstream_servers;
    cbn [set_SOCKS5 set_Upstream set_Admin set_Transport cfg_Transport cfg_Admin cfg_Upstream
         cfg_SOCKS5 cfg_Forward cfg_Range cfg_Network]; try done.
  - apply isRedacted_redact_transport.
  - intros a Hfa. apply fmap_Some in Hfa as (a' & _ & ->). apply isRedacted_redact_admin.
  - destruct u as [u|]; cbn; [|constructor]. apply Forall_fmap, Forall_true. intros; apply Hs.
  - apply Forall_fmap, Forall_true. intros s a. apply Hp.
  - destruct u as [u|]; cbn; [|done]. rewrite <- list_fmap_compose. apply list_fmap_ext.
    intros i s _. unfold redact_server. cbn. by destruct (blank _).
Qed.

(** ** The file *)

Lemma tmp_ne path : path +:+ ".tmp" ≠ path.
Proof. induction path as [|a path IH]; simpl; [done|]. intros [= E]. by apply IH. Qed.

(** C34: the configuration file is replaced atomically.  Whatever call fails and
    however many bytes were written, the path holds either its old contents or
    the whole new ones, the latter exactly when the write is reported as
    successful, with the file's permissions (0600 for a new one) less the umask
    unless a leftover temporary file had its own; and no file but the temporary
    one is touched otherwise. *)
Theorem writeConfigFile_atomic path data ft fs fs' ok
    (Hw : writeConfigFile path data ft fs = (fs', ok)) :
  (if ok
   then fst <$> fs' !! path = Some data ∧
        (fs !! (path +:+ ".tmp") = None → snd <$> fs' !! path = Some (Z.ldiff (default 384 (snd <$> fs !! path)) (umask ft)))
   else fs' !! path = fs !! path) ∧
  (∀ q, q ≠ path → q ≠ path +:+ ".tmp" → fs' !! q = fs !! q).
Proof.
  pose proof (tmp_ne path) as Hne. unfold writeConfigFile in Hw. cbv zeta in Hw.
  destruct (write_fault ft) as [| |n]; [|by injection Hw as <- <-|].
  2: { injection Hw as <- <-. split; [by rewrite lookup_insert_ne|].
    intros q _ Hq. by rewrite lookup_insert_ne. }
  destruct (rename_fault ft); injection Hw as <- <-.
  { split; [by rewrite lookup_insert_ne|]. intros q _ Hq. by rewrite lookup_insert_ne. }
  split.
  - rewrite lookup_insert_eq. split; [done|]. intros ->. simpl.
    by destruct (fs !! path) as [[? ?]|].
  - intros q Hq Ht. rewrite lookup_insert_ne, lookup_delete_ne, lookup_insert_ne by done. done.
Qed.

(** ** The handlers *)

Section handlers.
Context `{YamlLaws} {S : Type}.
Context (getConfig : S → option Config) (reload : option (string → S → files → S * bool)).
Implicit Types (sv : Server) (s : S) (fs : files).

(** C32: viewing and saving without a change is a round trip.  For a running
    configuration that [Validate] accepted, in which no two upstreams have the
    same name and different keys (which [Validate] does not check: the second
    would get the first's key), and whose redacted document is at most 1 MiB: the
    document a GET returns, sent back as it is, is accepted.  When the new file is
    written and renamed, it holds the running configuration, with the secrets the
    document does not show, and the callback is then asked to reload; when a call
    that writes it fails, the answer is an error, the file is what it was and
    nothing is reloaded. *)
Theorem config_edit_roundtrip sv s fs out c b r ft
    (Hcur : getConfig s = Some c) (Hv : config_valid c)
    (Hd : keys_agree (upstream_servers c)) (Hm : yaml_Marshal c = Some b)
    (Hg : getConfigYAML getConfig s = mkResponse 200 (BYaml out))
    (Hb : rq_Body r = Some out) (Hl : (length out ≤ bodyLimit)%nat) :
  let '(s', fs', rs) := putConfigYAML getConfig reload sv r ft (s, fs) in
  (write_fault ft = WriteDone ∧ rename_fault ft = false →
     fst <$> fs' !! sv_cfgPath sv = Some b ∧
     match reload with
     | None => s' = s ∧ rs = mkResponse 200 (BText "saved")
     | Some rl => s' = (rl (sv_cfgPath sv) s fs').1 ∧
         (rs_Code rs = 200 ↔ (rl (sv_cfgPath sv) s fs').2 = true)
     end) ∧
  (write_fault ft ≠ WriteDone ∨ rename_fault ft = true →
     fs' !! sv_cfgPath sv = fs !! sv_cfgPath sv ∧ s' = s ∧ rs_Code rs = 500).
Proof.
  unfold getConfigYAML in Hg. rewrite Hcur in Hg. unfold redactConfig in Hg. rewrite Hm in Hg.
  cbn [mbind option_bind] in Hg. rewrite (yaml_roundtrip _ _ Hm) in Hg. cbn in Hg.
  destruct (yaml_Marshal (redact_fields c)) as [out'|] eqn:Ho; [|discriminate Hg].
  injection Hg as ->. unfold putConfigYAML. rewrite Hb, take_ge by done.
  rewrite (yaml_roundtrip _ _ Ho), Hcur, restore_redact, Validate_fixed, Hm by done.
  destruct (writeConfigFile (sv_cfgPath sv) b ft fs) as [fs' ok] eqn:Ew.
  pose proof (tmp_ne (sv_cfgPath sv)) as Hne. unfold writeConfigFile in Ew. cbv zeta in Ew.
  destruct (write_fault ft) as [| |n].
  2,3: injection Ew as <- <-; (split; [by intros [? _]|intros _]; rewrite ?lookup_insert_ne by done; by split_and!).
  destruct (rename_fault ft); injection Ew as <- <-.
  { split; [by intros [_ ?]|]. intros _. by rewrite lookup_insert_ne. }
  set (fs1 := <[sv_cfgPath sv:=_]> _).
  assert (fst <$> fs1 !! sv_cfgPath sv = Some b) as Hf by by (unfold fs1; rewrite lookup_insert_eq).
  destruct reload as [rl|].
  - destruct (rl (sv_cfgPath sv) s fs1) as [s' ok'] eqn:Er. split; [intros _|by intros [?|?]].
    split; [done|]. rewrite Er. split; [done|]. by destruct ok'.
  - split; [by intros _|by intros [?|?]].
Qed.

Lemma auth_denied {X} sv r (st : X) h :
  blank (ad_Token (sv_cfg sv)) = false → authorized (sv_cfg sv) r = false →
  auth sv r st h = (st, mkResponse 401 (BText "unauthorized")).
Proof.
  intros Hb Ha. unfold auth. rewrite Ha. destruct (String.eqb_spec (ad_Token (sv_cfg sv)) "") as [E|];
    [|done]. by rewrite E in Hb.
Qed.

(** How a request can carry a token. *)
Definition carries (token : string) (r : request) : Prop :=
  TrimSpace (rq_Token r) = token ∨ TrimSpace (rq_Authorization r) = "Bearer " +:+ token ∨
  (TrimSpace (rq_Authorization r) = token ∧ HasPrefix token "Bearer " = false).

Lemma authorized_carries a r :
  blank (ad_Token a) = false → authorized a r = true ↔ carries (TrimSpace (ad_Token a)) r.
Proof.
  intros Ht. unfold authorized, carries. unfold blank in Ht. rewrite Ht.
  set (token := TrimSpace (ad_Token a)).
  destruct (String.eqb_spec (TrimSpace (rq_Token r)) token) as [E|E]; [tauto|].
  set (hdr := TrimSpace (rq_Authorization r)).
  destruct (HasPrefix hdr "Bearer ") eqn:Hp.
  - destruct (HasPrefix_split _ _ Hp) as [t Et]. rewrite Et, TrimPrefix_app, String.eqb_eq. split.
    + intros ->. right. by left.
    + intros [|[[= ?]|[Eh Hn]]]; [done|done|]. congruence.
  - rewrite String.eqb_eq. split.
    + intros Eh. right. right. split; [done|]. by rewrite <- Eh.
    + intros [|[Eh|[? _]]]; [done| |done]. by rewrite Eh, HasPrefix_app in Hp.
Qed.

(** Every request is answered by one of six handlers. *)
Lemma handle_cases sv r ft st (P : S * files * response → Prop) :
  P (st, mkResponse 200 (BText "ok")) → P (st, handleDashboard r) →
  P (auth sv r st (st, mkResponse 200 BStatus)) → P (auth sv r st (st, mkResponse 200 BMetrics)) →
  P (auth sv r st (handleReload reload sv r st)) →
  P (auth sv r st (handleConfig getConfig reload sv r ft st)) →
  P (handle getConfig reload sv r ft st).
Proof. intros. unfold handle. by repeat case_match. Qed.

Lemma auth_granted {X} sv r (st : X) h : authorized (sv_cfg sv) r = true → auth sv r st h = h.
Proof. intros Ha. unfold auth. rewrite Ha. by destruct (String.eqb _ _). Qed.

Lemma handleReload_code sv r st : rs_Code (handleReload reload sv r st).2 ≠ 401.
Proof. unfold handleReload. by repeat case_match; simplify_eq/=. Qed.

Lemma handleConfig_code sv r ft st : rs_Code (handleConfig getConfig reload sv r ft st).2 ≠ 401.
Proof.
  unfold handleConfig, getConfigYAML, putConfigYAML. destruct st as [s fs].
  by repeat case_match; simplify_eq/=.
Qed.

(** C35: the API is guarded.  With a token that is not blank, a request that
    does not carry it, as a query parameter or as the [Authorization] header
    with or without ["Bearer "], changes neither the process nor the file
    system, and is answered with 401, or by the public health check, dashboard
    or 404 page; a request that carries it is never answered with 401. *)
Theorem admin_guard sv r ft s fs
    (Ht : blank (ad_Token (sv_cfg sv)) = false) :
  let token := TrimSpace (ad_Token (sv_cfg sv)) in
  (¬ carries token r →
     (handle getConfig reload sv r ft (s, fs)).1 = (s, fs) ∧
     (handle getConfig reload sv r ft (s, fs)).2 ∈
       [mkResponse 401 (BText "unauthorized"); mkResponse 200 (BText "ok");
        mkResponse 200 BDashboard; mkResponse 404 (BText "404 page not found")]) ∧
  (carries token r → rs_Code (handle getConfig reload sv r ft (s, fs)).2 ≠ 401).
Proof.
  cbv zeta. rewrite <- authorized_carries by done. split; intros Ha.
  - apply handle_cases; rewrite ?auth_denied by (done || by apply not_true_iff_false).
    all: split; [done|]; rewrite !elem_of_cons; auto.
    unfold handleDashboard. case_match; auto.
  - apply handle_cases; rewrite ?auth_granted by done.
    all: try apply handleReload_code; try apply handleConfig_code; try done.
    unfold handleDashboard. by case_match.
Qed.
End handlers.

(** ** Examples *)

#[export] Instance KCPConfig_eq_dec : EqDecision KCPConfig. Proof. solve_decision. Defined.
#[export] Instance QUICConfig_eq_dec : EqDecision QUICConfig. Proof. solve_decision. Defined.
#[export] Instance TransportConfig_eq_dec : EqDecision TransportConfig. Proof. solve_decision. Defined.
#[export] Instance HealthCheckConfig_eq_dec : EqDecision HealthCheckConfig. Proof. solve_decision. Defined.
#[export] Instance UpstreamServer_eq_dec : EqDecision UpstreamServer. Proof. solve_decision. Defined.
#[export] Instance UpstreamConfig_eq_dec : EqDecision UpstreamConfig. Proof. solve_decision. Defined.
#[export] Instance ForwardRule_eq_dec : EqDecision ForwardRule. Proof. solve_decision. Defined.
#[export] Instance SOCKSAuth_eq_dec : EqDecision SOCKSAuth. Proof. solve_decision. Defined.
#[export] Instance SOCKS5Rule_eq_dec : EqDecision SOCKS5Rule. Proof. solve_decision. Defined.
#[export] Instance RangeConfig_eq_dec : EqDecision RangeConfig. Proof. solve_decision. Defined.
#[export] Instance IPConfig_eq_dec : EqDecision IPConfig. Proof. solve_decision. Defined.
#[export] Instance TCPFlagsConfig_eq_dec : EqDecision TCPFlagsConfig. Proof. solve_decision. Defined.
#[export] Instance NetworkConfig_eq_dec : EqDecision NetworkConfig. Proof. solve_decision. Defined.
#[export] Instance AdminConfig_eq_dec : EqDecision AdminConfig. Proof. solve_decision. Defined.
#[export] Instance Config_eq_dec : EqDecision Config. Proof. solve_decision. Defined.

(** A server with a token, SOCKS5 credentials and its own key. *)
Definition sample_running : Config :=
  mkConfig "" 1 "server" "s1" "info" None [] [mkSOCKS5Rule ":1080" (Some (mkSOCKSAuth "u" "p"))]
    None (Some ":443"%string) sample_network None
    (mkTransportConfig "kcp" 2 (mkKCPConfig "fast" "aes" "secret" 1150 10 3 0 0)
       (mkQUICConfig "" "" ""))
    (Some (mkAdminConfig "127.0.0.1:9090" true "tok")).

(** A codec for the documents of the example. *)
#[export] Instance sample_codec : YamlCodec := {
  yaml_Marshal c :=
    if decide (c = sample_running) then Some [1]
    else if decide (c = redact_fields sample_running) then Some [2] else None;
  yaml_Unmarshal b :=
    if decide (b = [1]) then Some sample_running
    else if decide (b = [2]) then Some (redact_fields sample_running) else None }.

#[export] Instance sample_codec_laws : YamlLaws.
Proof.
  split. intros c b. simpl. destruct (decide (c = sample_running)) as [->|].
  { by intros [= <-]. }
  destruct (decide (c = redact_fields sample_running)) as [->|]; [|done]. by intros [= <-].
Qed.

Lemma redact_restore_witness :
  restoreSecrets (redact_fields sample_running) (Some sample_running) = sample_running.
Proof.
  apply (redact_restore sample_running). intros s s' Hs. apply not_elem_of_nil in Hs. destruct Hs.
Defined.

Lemma writeConfigFile_atomic_witness :
  (writeConfigFile "c.yaml" [1; 2; 3] (mkFaults (WriteFails 2) false 18)
     {["c.yaml"%string := ([7], 420)]}).1 !! "c.yaml"%string = Some ([7], 420).
Proof.
  destruct (writeConfigFile "c.yaml" [1; 2; 3] (mkFaults (WriteFails 2) false 18)
     {["c.yaml"%string := ([7], 420)]}) as [fs' ok] eqn:E.
  assert (ok = false) as -> by (by injection E as _ <-).
  exact (proj1 (writeConfigFile_atomic "c.yaml" [1; 2; 3] (mkFaults (WriteFails 2) false 18) _ fs' false E)).
Defined.

Lemma sample_running_valid : Validate sample_running = Ok sample_running.
Proof. vm_compute. reflexivity. Qed.

Lemma config_edit_roundtrip_witness :
  fst <$> (putConfigYAML (λ _ : unit, Some sample_running) None (mkServer (mkAdminConfig "" true "tok") "c.yaml")
    (mkRequest "PUT" "/api/v1/config" "" "tok" (Some [2])) (mkFaults WriteDone false 18) (tt, ∅)).1.2
    !! "c.yaml"%string = Some [1].
Proof.
  pose proof (config_edit_roundtrip (λ _ : unit, Some sample_running) None
    (mkServer (mkAdminConfig "" true "tok") "c.yaml") tt ∅ [2] sample_running [1]
    (mkRequest "PUT" "/api/v1/config" "" "tok" (Some [2])) (mkFaults WriteDone false 18) eq_refl
    (Validate_valid _ _ sample_running_valid)
    ltac:(intros s s' Hs; apply not_elem_of_nil in Hs; destruct Hs)
    ltac:(vm_compute; reflexivity) ltac:(vm_compute; reflexivity) eq_refl
    ltac:(unfold bodyLimit; simpl length; lia)) as H.
  destruct (putConfigYAML _ _ _ _ _ _) as [[s' fs'] rs]. exact (proj1 (proj1 H (conj eq_refl eq_refl))).
Defined.

Lemma admin_guard_witness :
  (handle (λ _ : unit, Some sample_running) None (mkServer (mkAdminConfig "" true " tok") "c.yaml")
    (mkRequest "PUT" "/api/v1/config" "Bearer guess" "" (Some [2])) (mkFaults WriteDone false 18) (tt, ∅)).1
  = (tt, ∅).
Proof.
  refine (proj1 (proj1 (admin_guard (λ _ : unit, Some sample_running) None
    (mkServer (mkAdminConfig "" true " tok") "c.yaml")
    (mkRequest "PUT" "/api/v1/config" "Bearer guess" "" (Some [2])) (mkFaults WriteDone false 18) tt ∅ _) _)).
  - reflexivity.
  - intros [H|[H|[H _]]]; discriminate H.
Defined.

(** The command-line client sends the token as configured, the server compares
    with the trimmed one: a token with a leading space locks the client out. *)
Lemma reload_header_leading_space :
  authorized (mkAdminConfig "" false " tok") (mkRequest "POST" "/api/v1/reload" (reload_header " tok") "" None)
  = false ∧
  authorized (mkAdminConfig "" false "tok") (mkRequest "POST" "/api/v1/reload" (reload_header "tok") "" None)
  = true.
Proof. split; reflexivity. Qed.
