(* ===== verification/ConfigEdits.v ===== *)
(** Edits of the configuration file by the admin API at the same time:
    [writeConfigFile] of internal/admin/config.go call by call, for any number of
    requests, whose handlers [net/http] runs in goroutines of their own.

    [Admin] has one edit with every failure; here the file system has inodes,
    because a temporary file that is opened again, truncated or renamed while
    another edit writes to it is one file for both. *)

From S2P Require Import Prelude GoStd NetUtil Config Admin.

Local Open Scope Z_scope.

(** The directory entries and what the inodes hold. *)
Record disk : Type := mkDisk { dk_names : gmap string nat; dk_data : gmap nat (list Z) }.

(** The calls an edit has left: open and truncate the temporary file, write to
    it, rename it. *)
Inductive edit : Type :=
| EdOpen (data : list Z) | EdWrite (ino : nat) (data : list Z) | EdRename (data : list Z).

(** [ed_saved]: what was reported as saved, the last one first. *)
Record edits : Type := mkEdits { ed_disk : disk; ed_active : list edit; ed_saved : list (list Z) }.

Section edits.
Context (path : string).
Definition tmp : string := path +:+ ".tmp".

(** [open] with O_CREATE and O_TRUNC. *)
Definition open_trunc (name : string) (d : disk) : disk * nat :=
  let i := match dk_names d !! name with Some i => i | None => fresh (dom (dk_data d)) end in
  (mkDisk (<[name := i]> (dk_names d)) (<[i := []]> (dk_data d)), i).

(** A write at offset zero. *)
Definition overwrite (data cur : list Z) : list Z := data ++ drop (length data) cur.
Definition write_at (i : nat) (data : list Z) (d : disk) : disk :=
  mkDisk (dk_names d) (<[i := overwrite data (default [] (dk_data d !! i))]> (dk_data d)).

(** [rename]; [None] if there is nothing to rename. *)
Definition rename (from to : string) (d : disk) : option disk :=
  i ← dk_names d !! from; Some (mkDisk (<[to := i]> (delete from (dk_names d))) (dk_data d)).

Inductive edit_step : edits → edits → Prop :=
| es_begin data d es sv : edit_step (mkEdits d es sv) (mkEdits d (EdOpen data :: es) sv)
| es_open d es1 data es2 sv d' i :
    open_trunc tmp d = (d', i) →
    edit_step (mkEdits d (es1 ++ EdOpen data :: es2) sv) (mkEdits d' (es1 ++ EdWrite i data :: es2) sv)
| es_open_fails d es1 data es2 sv :
    edit_step (mkEdits d (es1 ++ EdOpen data :: es2) sv) (mkEdits d (es1 ++ es2) sv)
| es_write d es1 i data es2 sv :
    edit_step (mkEdits d (es1 ++ EdWrite i data :: es2) sv)
      (mkEdits (write_at i data d) (es1 ++ EdRename data :: es2) sv)
| es_write_fails d es1 i data es2 sv n :
    edit_step (mkEdits d (es1 ++ EdWrite i data :: es2) sv)
      (mkEdits (write_at i (take n data) d) (es1 ++ es2) sv)
| es_rename d es1 data es2 sv d' :
    rename tmp path d = Some d' →
    edit_step (mkEdits d (es1 ++ EdRename data :: es2) sv) (mkEdits d' (es1 ++ es2) (data :: sv))
| es_rename_fails d es1 data es2 sv :
    edit_step (mkEdits d (es1 ++ EdRename data :: es2) sv) (mkEdits d (es1 ++ es2) sv).

(** Edits one at a time. *)
Definition serial_edit_step (x y : edits) : Prop := edit_step x y ∧ (length (ed_active y) ≤ 1)%nat.

Definition contents (name : string) (d : disk) : option (list Z) := i ← dk_names d !! name; dk_data d !! i.

(** The disk at the start: the configuration file and no temporary one. *)
Definition disk_with (old : list Z) : disk := mkDisk {[path := 0%nat]} {[0%nat := old]}.

Lemma overwrite_nil data : overwrite data [] = data.
Proof. unfold overwrite. by rewrite drop_nil, app_nil_r. Qed.

(** ** One at a time *)

(** What an edit knows about the temporary file. *)
Definition edit_ok (d : disk) (e : edit) : Prop :=
  match e with
  | EdOpen _ => True
  | EdWrite i _ => dk_names d !! tmp = Some i ∧ dk_data d !! i = Some []
  | EdRename data => contents tmp d = Some data
  end.

(** The configuration file has an inode of its own, with what was saved last. *)
Record edits_inv (old : list Z) (x : edits) : Prop := mkEditsInv {
  ei_one : (length (ed_active x) ≤ 1)%nat;
  ei_edits : Forall (edit_ok (ed_disk x)) (ed_active x);
  ei_path : ∃ p, dk_names (ed_disk x) !! path = Some p ∧ dk_names (ed_disk x) !! tmp ≠ Some p ∧
    dk_data (ed_disk x) !! p = Some (hd old (ed_saved x)) }.

Lemma tmp_path : tmp ≠ path.
Proof. apply tmp_ne. Qed.

(** Truncating or writing another inode than the configuration file's. *)
Lemma path_other p old (sv : list (list Z)) i data d :
  dk_names d !! path = Some p → dk_data d !! p = Some (hd old sv) → i ≠ p →
  ∃ q, dk_names d !! path = Some q ∧ <[i := data]> (dk_data d) !! q = Some (hd old sv).
Proof. intros Hp Hd Hne. exists p. by rewrite lookup_insert_ne. Qed.

Lemma open_trunc_ne d d' i p v :
  open_trunc tmp d = (d', i) → dk_names d !! tmp ≠ Some p → dk_data d !! p = Some v → i ≠ p.
Proof.
  unfold open_trunc. intros [= _ <-] Ht Hd. destruct (dk_names d !! tmp) as [k|]; [congruence|]. intros E.
  pose proof (is_fresh (dom (dk_data d))) as Hf. rewrite E in Hf. apply Hf, elem_of_dom. by eexists.
Qed.

Lemma singleton_middle {A} (l1 : list A) a l2 : (length (l1 ++ a :: l2) ≤ 1)%nat → l1 = [] ∧ l2 = [].
Proof. destruct l1 as [|? []], l2; cbn; rewrite ?length_app; cbn; intros; try lia; done. Qed.

Lemma edit_step_inv old x y : serial_edit_step x y → edits_inv old x → edits_inv old y.
Proof.
  pose proof tmp_path as Hne. intros [Hs Hl] [H1 He (p & Hp & Ht & Hd)].
  destruct Hs as [data d es sv|d es1 data es2 sv d' i Ho|d es1 data es2 sv|d es1 i data es2 sv|d es1 i data es2 sv n
    |d es1 data es2 sv d' Hr|d es1 data es2 sv]; cbn [ed_disk ed_active ed_saved] in *;
    try (apply singleton_middle in H1 as [-> ->]; apply (proj1 (Forall_singleton _ _)) in He; cbn [app] in *; cbn in He).
  - destruct es; [|cbn in *; lia]. split; cbn; [lia|by repeat constructor|by exists p].
  - assert (i ≠ p) as Hj by (eapply open_trunc_ne; eauto). unfold open_trunc in Ho. injection Ho as <- Hi.
    split; cbn; [lia|apply Forall_singleton; cbn; subst i; by rewrite !lookup_insert_eq|].
    exists p. rewrite Hi. rewrite lookup_insert_ne by done. rewrite lookup_insert_eq, lookup_insert_ne by done.
    split; [done|]. split; [congruence|done].
  - split; cbn; [lia|constructor|by exists p].
  - destruct He as [E1 E2]. assert (i ≠ p) as Hip by congruence. split; cbn; [lia| |].
    + apply Forall_singleton. unfold edit_ok, contents, write_at. cbn [dk_names dk_data].
      rewrite E1. cbn. by rewrite lookup_insert_eq, E2, overwrite_nil.
    + exists p. split; [done|]. split; [done|]. by rewrite lookup_insert_ne.
  - destruct He as [E1 E2]. assert (i ≠ p) as Hip by congruence. split; cbn; [lia|constructor|].
    exists p. split; [done|]. split; [done|]. by rewrite lookup_insert_ne.
  - unfold rename, contents in *. destruct (dk_names d !! tmp) as [j|] eqn:Ej; [|done]. injection Hr as <-. cbn in He.
    split; cbn; [lia|constructor|]. exists j. rewrite lookup_insert_eq. split; [done|].
    rewrite lookup_insert_ne by done. by rewrite lookup_delete_eq.
  - split; cbn; [lia|constructor|by exists p].
Qed.

(** C33: edits of the configuration file.  When requests come one at a time, then
    at every moment, whatever fails and wherever the process is killed, the file
    holds the whole text of the edit that was reported as saved last, or what it
    held before there was one.  But two requests at the same time share the
    temporary file: an edit that has been reported as saved can leave an empty
    configuration file, and when both have ended the file can hold the text of
    one with the tail of the other behind it. *)
Theorem config_edits old :
  (∀ x, rtc serial_edit_step (mkEdits (disk_with old) [] []) x →
     contents path (ed_disk x) = Some (hd old (ed_saved x))) ∧
  (∀ a, ∃ x, rtc edit_step (mkEdits (disk_with old) [] []) x ∧ ed_saved x = [a] ∧
     contents path (ed_disk x) = Some []) ∧
  (∀ a b, ∃ x, rtc edit_step (mkEdits (disk_with old) [] []) x ∧ ed_saved x = [a] ∧ ed_active x = [] ∧
     contents path (ed_disk x) = Some (b ++ drop (length b) a)).
Proof.
  pose proof tmp_path as Hne. split; [|split].
  - intros x Hx. assert (edits_inv old x) as [_ _ (p & Hp & _ & Hd)].
    { eapply rtc_preserves; [exact Hx|intros ???; by eapply edit_step_inv|]. split; cbn; [lia|constructor|].
      exists 0%nat. rewrite lookup_singleton_eq, lookup_singleton_ne by done. by rewrite lookup_singleton_eq. }
    unfold contents. by rewrite Hp.
  - intros a. pose (b := a). set (d0 := disk_with old).
    destruct (open_trunc tmp d0) as [d1 i] eqn:E1. set (d2 := write_at i a d1).
    destruct (open_trunc tmp d2) as [d3 j] eqn:E3.
    assert (dk_names d1 !! tmp = Some i) as T1 by (unfold open_trunc in E1; injection E1 as <- <-; apply lookup_insert_eq).
    assert (j = i ∧ dk_names d3 !! tmp = Some i ∧ dk_data d3 !! i = Some []) as (-> & T3 & D3).
    { unfold open_trunc in E3. cbn in E3. rewrite T1 in E3. injection E3 as <- <-. cbn. by rewrite !lookup_insert_eq. }
    assert (rename tmp path d3 = Some (mkDisk (<[path := i]> (delete tmp (dk_names d3))) (dk_data d3))) as Er
      by (unfold rename; by rewrite T3).
    eexists (mkEdits _ _ _). split; [|split; [reflexivity|]].
    + eapply rtc_l; [apply (es_begin a)|]. eapply rtc_l; [exact (es_open d0 [] a [] [] d1 i E1)|].
      eapply rtc_l; [exact (es_write d1 [] i a [] [])|]. eapply rtc_l; [apply (es_begin b)|].
      eapply rtc_l; [exact (es_open d2 [] b [EdRename a] [] d3 i E3)|].
      eapply rtc_l; [exact (es_rename d3 [EdWrite i b] a [] [] _ Er)|]. apply rtc_refl.
    + unfold contents. cbn. by rewrite lookup_insert_eq.
  - intros a b. set (d0 := disk_with old).
    destruct (open_trunc tmp d0) as [d1 i] eqn:E1. destruct (open_trunc tmp d1) as [d2 j] eqn:E2.
    assert (dk_names d1 !! tmp = Some i) as T1 by (unfold open_trunc in E1; injection E1 as <- <-; apply lookup_insert_eq).
    assert (j = i ∧ dk_names d2 !! tmp = Some i ∧ dk_data d2 !! i = Some []) as (-> & T2 & D2).
    { unfold open_trunc in E2. rewrite T1 in E2. injection E2 as <- <-. cbn. by rewrite !lookup_insert_eq. }
    set (d4 := write_at i b (write_at i a d2)).
    assert (rename tmp path d4 = Some (mkDisk (<[path := i]> (delete tmp (dk_names d2))) (dk_data d4))) as Er
      by (unfold rename; cbn; by rewrite T2).
    eexists (mkEdits _ _ _). split; [|split; [reflexivity|split; [reflexivity|]]].
    + eapply rtc_l; [apply (es_begin a)|]. eapply rtc_l; [exact (es_open d0 [] a [] [] d1 i E1)|].
      eapply rtc_l; [apply (es_begin b)|]. eapply rtc_l; [exact (es_open d1 [] b [EdWrite i a] [] d2 i E2)|].
      eapply rtc_l; [exact (es_write d2 [EdWrite i b] i a [] [])|].
      eapply rtc_l; [exact (es_write (write_at i a d2) [] i b [EdRename a] [])|].
      eapply rtc_l; [exact (es_rename d4 [EdRename b] a [] [] _ Er)|].
      eapply rtc_l; [exact (es_rename_fails _ [] b [] [a])|]. apply rtc_refl.
    + unfold contents. cbn. rewrite lookup_insert_eq. cbn. rewrite lookup_insert_eq. cbn.
      by rewrite lookup_insert_eq, D2, overwrite_nil.
Qed.
End edits.

(** An edit whose rename fails, and one that succeeds. *)
Lemma config_edits_witness : ∃ x,
  rtc (serial_edit_step "c.yaml") (mkEdits (disk_with "c.yaml" [7]) [] []) x ∧
  contents "c.yaml" (ed_disk x) = Some [1; 2].
Proof.
  eexists. match goal with |- rtc ?R ?a ?b ∧ _ => assert (rtc R a b) as Hr end.
  - eapply rtc_l; [split; [apply (es_begin _ [9])|cbn; lia]|].
    eapply rtc_l; [split; [apply (es_open _ _ [] [9] []); vm_compute; reflexivity|cbn; lia]|].
    eapply rtc_l; [split; [apply (es_write _ _ [] _ [9] [])|cbn; lia]|].
    eapply rtc_l; [split; [apply (es_rename_fails _ _ [] [9] [])|cbn; lia]|].
    eapply rtc_l; [split; [apply (es_begin _ [1; 2])|cbn; lia]|].
    eapply rtc_l; [split; [apply (es_open _ _ [] [1; 2] []); vm_compute; reflexivity|cbn; lia]|].
    eapply rtc_l; [split; [apply (es_write _ _ [] _ [1; 2] [])|cbn; lia]|].
    eapply rtc_l; [split; [apply (es_rename _ _ [] [1; 2] []); vm_compute; reflexivity|cbn; lia]|]. apply rtc_refl.
  - split; [exact Hr|]. exact (proj1 (config_edits "c.yaml" [7]) _ Hr).
Defined.
