(* ===== verification/AdminRuns.v ===== *)
(** [Server.Run] of internal/admin/admin.go from its start to its end: the
    listener, the connections [net/http] serves in goroutines of their own, and the
    goroutine that shuts the server down when the context ends.

    [Admin.handle] is what a request does; here is when it is done.  [http.Server]
    is the standard library's: [Shutdown] closes the listener, makes
    [ListenAndServe] return at once, closes idle connections and waits, here three
    seconds, for the requests that are being handled. *)

From S2P Require Import Prelude GoStd NetUtil Config Metrics AcceptLoop Admin.

Local Open Scope Z_scope.

Inductive run_error : Type := ErrListen | ErrAccept.

(** Before [ListenAndServe] listens, in it, and returned; [None] is [nil]. *)
Inductive ar_phase : Type := ArStart | ArServe | ArEnded (err : option run_error).

(** The goroutine of [Run]: at [ctx.Done], in [Shutdown], returned. *)
Inductive shut_phase : Type := ShWait | ShDrain | ShDone.

(** A connection without a request, and with one. *)
Inductive http_conn : Type := Idle (c : nat) | Handling (c : nat) (r : request).

Definition sock_of (t : http_conn) : nat := match t with Idle c | Handling c _ => c end.

(** [ar_listener]: the listener, while it is open; [ar_st]: the process behind the
    callbacks, and the files. *)
Record ar_state (S W : Type) : Type := mkAR {
  ar_cancelled : bool; ar_run : ar_phase; ar_shut : shut_phase;
  ar_listener : option nat; ar_conns : list http_conn; ar_st : S * files; ar_w : W }.
Arguments mkAR {S W} _ _ _ _ _ _ _.
Arguments ar_cancelled {S W} _.
Arguments ar_run {S W} _.
Arguments ar_shut {S W} _.
Arguments ar_listener {S W} _.
Arguments ar_conns {S W} _.
Arguments ar_st {S W} _.
Arguments ar_w {S W} _.

Section server.
Context {S W : Type} `{YamlCodec, LocalNet W}.
Context (getConfig : S → option Config) (reload : option (string → S → files → S * bool)).
Implicit Types (st : S * files) (w : W).

(** [None]: there is nothing to listen on, and [Run] returns [nil]. *)
Definition Run_start (sv : Server) st w : option (ar_state S W) :=
  if blank (ad_Listen (sv_cfg sv)) then None
  else Some (mkAR false ArStart ShWait None [] st w).

(** [startAdmin] of the client and of the server: nothing without an admin section. *)
Definition startAdmin (cfgPath : string) (cfg : Config) st w : option (Server * ar_state S W) :=
  a ← cfg_Admin cfg;
  let sv := mkServer a cfgPath in
  x ← Run_start sv st w; Some (sv, x).

(** "admin server failed": the goroutine of [startAdmin] logs the error of [Run]. *)
Definition admin_failed (x : ar_state S W) : bool :=
  match ar_run x with ArEnded (Some _) => negb (ar_cancelled x) | _ => false end.

(** Closing what may be open. *)
Definition close_opt (l : option nat) w : W := match l with Some c => NetClose c w | None => w end.

(** A connection after its response: kept, unless the server shuts down. *)
Definition after_response (k : shut_phase) (c : nat) w : list http_conn * W :=
  match k with ShWait => ([Idle c], w) | _ => ([], NetClose c w) end.

Inductive ar_own (sv : Server) : ar_state S W → ar_state S W → Prop :=
| ar_listen k ts st w w' ln :
    NetListen (ad_Listen (sv_cfg sv)) w = (w', Some ln) →
    ar_own sv (mkAR k ArStart ShWait None ts st w) (mkAR k ArServe ShWait (Some ln) ts st w')
| ar_listen_fails k ts st w w' :
    NetListen (ad_Listen (sv_cfg sv)) w = (w', None) →
    ar_own sv (mkAR k ArStart ShWait None ts st w) (mkAR k (ArEnded (Some ErrListen)) ShWait None ts st w')
| ar_late k h l ts st w :                    (* shut down before it listens *)
    h ≠ ShWait → ar_own sv (mkAR k ArStart h l ts st w) (mkAR k (ArEnded None) h l ts st w)
| ar_accept k h ln ts st w w' c :
    NetAccept ln w = (w', Some c) →
    ar_own sv (mkAR k ArServe h (Some ln) ts st w) (mkAR k ArServe h (Some ln) (Idle c :: ts) st w')
| ar_accept_again k h ln ts st w w' :        (* a temporary error *)
    NetAccept ln w = (w', None) →
    ar_own sv (mkAR k ArServe h (Some ln) ts st w) (mkAR k ArServe h (Some ln) ts st w')
| ar_accept_fails k h ln ts st w w' :
    NetAccept ln w = (w', None) →
    ar_own sv (mkAR k ArServe h (Some ln) ts st w)
      (mkAR k (ArEnded (Some ErrAccept)) h None ts st (NetClose ln w'))
| ar_closed k h l ts st w :                  (* [http.ErrServerClosed] *)
    h ≠ ShWait → ar_own sv (mkAR k ArServe h l ts st w) (mkAR k (ArEnded None) h l ts st w)
| ar_shutdown a l ts st w :
    ar_own sv (mkAR true a ShWait l ts st w) (mkAR true a ShDrain None ts st (close_opt l w))
| ar_drained k a l ts st w :                 (* nothing left, or three seconds *)
    ar_own sv (mkAR k a ShDrain l ts st w) (mkAR k a ShDone l ts st w)
| ar_request k a h l ts1 c r ts2 st w :
    ar_own sv (mkAR k a h l (ts1 ++ Idle c :: ts2) st w) (mkAR k a h l (ts1 ++ Handling c r :: ts2) st w)
| ar_handle k a h l ts1 c r ts2 ft st w st' rs ts w' :
    handle getConfig reload sv r ft st = (st', rs) → after_response h c w = (ts, w') →
    ar_own sv (mkAR k a h l (ts1 ++ Handling c r :: ts2) st w) (mkAR k a h l (ts1 ++ ts ++ ts2) st' w')
| ar_hangup k a h l ts1 c ts2 st w :         (* by the client, or an idle one by [Shutdown] *)
    ar_own sv (mkAR k a h l (ts1 ++ Idle c :: ts2) st w) (mkAR k a h l (ts1 ++ ts2) st (NetClose c w)).

(** With the end of the context, and what the rest of the process does. *)
Inductive ar_step (sv : Server) : ar_state S W → ar_state S W → Prop :=
| ar_of_own x y : ar_own sv x y → ar_step sv x y
| ar_cancel k a h l ts st w : ar_step sv (mkAR k a h l ts st w) (mkAR true a h l ts st w)
| ar_env k a h l ts s s' fs w : ar_step sv (mkAR k a h l ts (s, fs) w) (mkAR k a h l ts (s', fs) w).

(** Runs in which no request that is being handled is authorised. *)
Definition unauthorized_conn (sv : Server) (t : http_conn) : Prop :=
  match t with Idle _ => True | Handling _ r => authorized (sv_cfg sv) r = false end.
Definition stranger_step (sv : Server) (x y : ar_state S W) : Prop :=
  ar_step sv x y ∧ Forall (unauthorized_conn sv) (ar_conns y).

(** ** Shutting down *)

Definition http_weight (t : http_conn) : nat := match t with Idle _ => 2 | Handling _ _ => 1 end.
Definition ar_weight (x : ar_state S W) : nat :=
  (match ar_run x with ArEnded _ => 0 | _ => 1 end) + (match ar_shut x with ShDone => 0 | _ => 1 end)
  + sum_list_with http_weight (ar_conns x).

(** [Shutdown] has been called, so no further connection can come. *)
Definition ar_down (x : ar_state S W) : Prop := ar_shut x ≠ ShWait ∧ ar_listener x = None.

Definition ar_over (x : ar_state S W) : Prop :=
  (∃ e, ar_run x = ArEnded e) ∧ ar_shut x = ShDone ∧ ar_conns x = [].

Lemma ar_down_own sv x y : ar_own sv x y → ar_down x → ar_down y ∧ (ar_weight y < ar_weight x)%nat.
Proof.
  intros Hs [Hh Hl].
  destruct Hs as [| | | | | | | | | |k a h l ts1 c r ts2 ft st w st' rs ts w' _ Ha|]; cbn in Hh, Hl; try discriminate; try done; subst;
    unfold ar_down, ar_weight; cbn; rewrite ?sum_list_with_app; cbn;
    try (split; [done|]; try (by destruct h); lia).
  unfold after_response in Ha. destruct h; [done|..]; injection Ha as <- <-; cbn; (split; [done|lia]).
Qed.

Lemma ar_down_runs sv n x y :
  nsteps (ar_own sv) n x y → ar_down x → ar_down y ∧ (n + ar_weight y ≤ ar_weight x)%nat.
Proof.
  induction 1 as [x|n x y z Hxy _ IH]; [done|]. intros Hx.
  destruct (ar_down_own _ _ _ Hxy Hx) as [Hy Hlt]. destruct (IH Hy) as [Hz Hle]. split; [done|lia].
Qed.

Lemma ar_down_progress sv x : ar_down x → ar_over x ∨ ∃ y, ar_own sv x y.
Proof.
  destruct x as [k a h l ts st w]. intros [Hh Hl]. cbn in *. subst l.
  destruct a as [| |e]; [right; eexists; by apply ar_late|right; eexists; by apply ar_closed|].
  destruct h; [done|right; eexists; apply ar_drained|]. destruct ts as [|[c|c r] ts]; [left; split; eauto|right..].
  - eexists. apply (ar_hangup _ _ _ _ _ []).
  - destruct (handle getConfig reload sv r (mkFaults WriteDone false 18) st) as [st' rs] eqn:Eh.
    eexists. by eapply (ar_handle _ _ _ _ _ [] c r ts (mkFaults WriteDone false 18)).
Qed.
End server.

(** ** What the server holds *)

Section laws.
Context {S W : Type} `{YamlCodec, LocalNetLaws W}.
Context (getConfig : S → option Config) (reload : option (string → S → files → S * bool)).
Context (sv : Server) (base : gset nat).

Abbreviation own := (ar_own (S := S) (W := W) getConfig reload sv).
Abbreviation step := (ar_step (S := S) (W := W) getConfig reload sv).

Definition ar_socks (x : ar_state S W) : list nat :=
  option_list (ar_listener x) ++ (sock_of <$> ar_conns x).

(** The sockets [l] are open, besides those of the rest of the process. *)
Definition holds (l : list nat) (w : W) : Prop :=
  socks w = base ∪ list_to_set l ∧ NoDup l ∧ ∀ c, c ∈ l → c ∉ base.

Lemma holds_perm l l' w : l ≡ₚ l' → holds l w → holds l' w.
Proof.
  intros Hp (Hs & Hn & Hb). split; [by rewrite Hs, (list_to_set_perm_L _ _ Hp)|].
  split; [by rewrite <- Hp|]. intros c. rewrite <- Hp. apply Hb.
Qed.

Lemma holds_same l w w' : socks w' = socks w → holds l w → holds l w'.
Proof. intros Ew [Hs ?]. split; [by rewrite Ew|done]. Qed.

Lemma holds_open l c w w' : socks w' = {[c]} ∪ socks w → c ∉ socks w → holds l w → holds (c :: l) w'.
Proof.
  intros Ew Hc (Hs & Hn & Hb). rewrite Hs in Ew, Hc. rewrite not_elem_of_union, not_elem_of_list_to_set in Hc.
  split; [rewrite Ew; set_solver +|]. split; [apply NoDup_cons; tauto|]. intros y [->|Hy]%elem_of_cons; [tauto|auto].
Qed.

Lemma holds_close l c w : holds (c :: l) w → holds l (NetClose c w).
Proof.
  intros (Hs & [Hc Hn]%NoDup_cons & Hb). split; [|split; [done|]].
  - rewrite NetClose_socks, Hs. assert (c ∉ base) by (apply Hb; left). cbn.
    rewrite <- (not_elem_of_list_to_set (C := gset nat)) in Hc. apply set_eq. intros y.
    rewrite elem_of_difference, !elem_of_union, elem_of_singleton. destruct (decide (y = c)) as [->|]; tauto.
  - intros y Hy. apply Hb. by right.
Qed.

Lemma conns_middle (l : option nat) ts1 t ts2 :
  option_list l ++ (sock_of <$> ts1 ++ t :: ts2) ≡ₚ sock_of t :: option_list l ++ (sock_of <$> ts1 ++ ts2).
Proof. rewrite !fmap_app, fmap_cons. solve_Permutation. Qed.

(** The listener is open while the server serves and has not been shut down, which
    it is only when the context has ended; it returns [nil] only then. *)
Record ar_inv (x : ar_state S W) : Prop := mkARInv {
  ar_held : holds (ar_socks x) (ar_w x);
  ar_down_inv : ar_shut x ≠ ShWait → ar_cancelled x = true ∧ ar_listener x = None;
  ar_phase_inv :
    match ar_run x with
    | ArStart => ar_listener x = None
    | ArServe => ar_shut x = ShWait → is_Some (ar_listener x)
    | ArEnded None => ar_shut x ≠ ShWait
    | ArEnded (Some _) => ar_listener x = None
    end }.

Lemma ar_own_inv x y : own x y → ar_inv x → ar_inv y.
Proof.
  intros Hs [Hh Hd Hp]. destruct Hs as [k ts st w w' ln Hn|k ts st w w' Hn|k h l ts st w Hne|k h ln ts st w w' c Ha
    |k h ln ts st w w' Ha|k h ln ts st w w' Ha|k h l ts st w Hne|a l ts st w|k a l ts st w|k a h l ts1 c r ts2 st w
    |k a h l ts1 c r ts2 ft st w st' rs ts w' _ Ha|k a h l ts1 c ts2 st w]; unfold ar_socks in *; cbn in *.
  - pose proof (NetListen_socks (ad_Listen (sv_cfg sv)) w) as Hl. rewrite Hn in Hl. destruct Hl.
    split; unfold ar_socks; cbn; [by eapply holds_open|done|done].
  - pose proof (NetListen_socks (ad_Listen (sv_cfg sv)) w) as Hl. rewrite Hn in Hl.
    split; unfold ar_socks; cbn; [by eapply holds_same|done|done].
  - by split.
  - pose proof (NetAccept_socks ln w) as Hl. rewrite Ha in Hl. destruct Hl. split; unfold ar_socks; cbn; [|done|done].
    eapply holds_perm; [|by eapply (holds_open _ c)]. apply Permutation_swap.
  - pose proof (NetAccept_socks ln w) as Hl. rewrite Ha in Hl. split; unfold ar_socks; cbn; [|done|done].
    by apply (holds_same (ln :: (sock_of <$> ts)) w).
  - pose proof (NetAccept_socks ln w) as Hl. rewrite Ha in Hl. split; unfold ar_socks; cbn; [|naive_solver|done].
    apply holds_close. by eapply holds_same.
  - by split.
  - split; unfold ar_socks; cbn; [|done|by destruct a as [| |[]]]. destruct l; cbn; [by apply holds_close|done].
  - split; unfold ar_socks; cbn; [done|naive_solver|]. destruct a as [| |[]]; naive_solver.
  - split; unfold ar_socks; cbn; [|done|done]. eapply holds_perm; [|exact Hh]. by rewrite !fmap_app.
  - unfold after_response in Ha.
    assert (holds (option_list l ++ (sock_of <$> ts1 ++ ts2)) (NetClose c w)) as Hc
      by (apply holds_close; eapply holds_perm; [|exact Hh]; by rewrite conns_middle).
    destruct h; injection Ha as <- <-; split; unfold ar_socks; cbn; try done.
    eapply holds_perm; [|exact Hh]. by rewrite !conns_middle.
  - split; unfold ar_socks; cbn; [|done|done]. apply holds_close. eapply holds_perm; [|exact Hh]. by rewrite conns_middle.
Qed.

Lemma ar_step_inv x y : step x y → ar_inv x → ar_inv y.
Proof.
  intros [x' y' Hs|k a h l ts st w|k a h l ts s s' fs w]; [by apply ar_own_inv|intros [Hh Hd Hp]..]; split; cbn in *; try done.
  naive_solver.
Qed.

Lemma ar_start_inv st w x : Run_start sv st w = Some x → base = socks w → ar_inv x.
Proof.
  unfold Run_start. case_match; [done|]. intros [= <-] E. split; cbn; [|done|done].
  split; [cbn; rewrite E; by rewrite (right_id_L ∅ (∪))|split; [constructor|]]. by intros c ?%not_elem_of_nil.
Qed.

(** A stranger's requests leave the files alone. *)
Lemma stranger_own x y :
  blank (ad_Token (sv_cfg sv)) = false → own x y → Forall (unauthorized_conn sv) (ar_conns x) →
  ar_st y = ar_st x.
Proof.
  intros Ht Hs Hu. destruct Hs as [| | | | | | | | | |k a h l ts1 c r ts2 ft st w st' rs ts w' Hh _|]; try done. cbn in *.
  apply Forall_app in Hu as [_ [Hr _]%Forall_cons]. cbn in Hr.
  replace st' with (handle getConfig reload sv r ft st).1 by (by rewrite Hh).
  apply handle_cases; by rewrite ?auth_denied.
Qed.

(** From any moment before the end of the context, [Run] can return while the
    connections stay as they are. *)
Lemma ar_returns_early x :
  ar_shut x = ShWait → (∀ e, ar_run x ≠ ArEnded e) →
  ∃ y, rtc step x y ∧ ar_run y = ArEnded None ∧ ar_shut y = ShDrain ∧ ar_conns y = ar_conns x ∧ ar_st y = ar_st x.
Proof.
  destruct x as [k a h l ts st w]. cbn. intros -> Ha.
  exists (mkAR true (ArEnded None) ShDrain None ts st (close_opt l w)). split; [|done].
  eapply rtc_l; [apply ar_cancel|]. eapply rtc_l; [apply ar_of_own, ar_shutdown|].
  eapply rtc_l; [|apply rtc_refl]. apply ar_of_own. destruct a as [| |e]; [by apply ar_late|by apply ar_closed|].
  by destruct (Ha e).
Qed.

Lemma stranger_files x y :
  blank (ad_Token (sv_cfg sv)) = false → Forall (unauthorized_conn sv) (ar_conns x) →
  rtc (stranger_step getConfig reload sv) x y → (ar_st y).2 = (ar_st x).2.
Proof.
  intros Ht Hu Hr. revert Hu. induction Hr as [x|x y z [Hs Hy] _ IH]; [done|]. intros Hu. rewrite IH by done.
  destruct Hs as [x y Hs| |]; [|done..]. f_equal. by eapply stranger_own.
Qed.

(** C36: the admin server from its start to its end, over every interleaving of
    connections, requests, failures and the end of the context.  The open sockets
    are those of the rest of the process, the listener while the server serves
    and has not been shut down, and one for each connection; [Run] returns [nil]
    only when the context has ended, and an error leaves no listener.  With a
    token, as long as no request that carries it is handled, the files are what
    they were.  When the context has ended the server can be shut down at once;
    from then on every step brings the end nearer, and at the end the sockets are
    those there were before the start.  But [Run] does not wait for the goroutine
    that shuts the server down: whatever requests are being handled, it can
    return with all of them unfinished. *)
Theorem admin_run cfgPath cfg st w x0 x
    (Hs : startAdmin cfgPath cfg st w = Some (sv, x0)) (Hb : base = socks w) (Hx : rtc step x0 x) :
  ar_inv x ∧
  (blank (ad_Token (sv_cfg sv)) = false → ∀ y, rtc (stranger_step getConfig reload sv) x0 y → (ar_st y).2 = st.2) ∧
  (ar_cancelled x = true → ar_shut x = ShWait → ∃ y, own x y ∧ ar_down y ∧ ar_run y = ar_run x) ∧
  (ar_down x → ∀ n y, nsteps own n x y →
     (n ≤ ar_weight x ≤ 2 + 2 * length (ar_conns x))%nat ∧
     (ar_over y ∨ ∃ z, own y z) ∧ (ar_over y → socks (ar_w y) = socks w)) ∧
  (ar_shut x = ShWait → (∀ e, ar_run x ≠ ArEnded e) →
     ∃ y, rtc step x y ∧ ar_run y = ArEnded None ∧ ar_shut y = ShDrain ∧ ar_conns y = ar_conns x ∧ ar_st y = ar_st x).
Proof.
  unfold startAdmin in Hs. destruct (cfg_Admin cfg) as [a|]; [|done]. cbn in Hs.
  destruct (Run_start (mkServer a cfgPath) st w) as [x1|] eqn:Er; [|done]. cbn in Hs. injection Hs as Es ->.
  rewrite Es in Er.
  assert (∀ y, rtc step x0 y → ar_inv y) as Hinv.
  { intros y Hy. eapply rtc_preserves; [exact Hy|intros ???; by eapply ar_step_inv|]. by eapply ar_start_inv. }
  assert (ar_st x0 = st ∧ ar_conns x0 = []) as [Est Ec].
  { unfold Run_start in Er. case_match; [done|]. by injection Er as <-. }
  split; [by apply Hinv|]. split.
  { intros Ht y Hy. rewrite <- Est. eapply stranger_files; [done|by rewrite Ec|done]. }
  split.
  { destruct x as [k a' h l ts st' w']. cbn. intros -> ->. eexists. by split; [apply ar_shutdown|]. }
  split; [|by apply ar_returns_early].
  intros Hd n y Hy. destruct (ar_down_runs getConfig reload sv n x y Hy Hd) as [Hyd Hle]. split; [|split].
  - split; [lia|]. unfold ar_weight.
    assert (∀ ts, sum_list_with http_weight ts ≤ 2 * length ts)%nat as Hw.
    { clear. induction ts as [|t ts IH]; [done|]. cbn. destruct t; cbn; lia. }
    specialize (Hw (ar_conns x)). destruct (ar_run x), (ar_shut x); lia.
  - by apply ar_down_progress.
  - intros (_ & _ & Hc). destruct (Hinv y) as [(Hw & _) _ _].
    { etrans; [exact Hx|]. clear -Hy. induction Hy; [done|]. eapply rtc_l; [by apply ar_of_own|done]. }
    rewrite Hw, Hb. unfold ar_socks. rewrite Hc, (proj2 Hyd). cbn. by rewrite (right_id_L ∅ (∪)).
Qed.
End laws.

(** An edit that [Run] does not wait for. *)
Definition sample_admin : Config := set_Admin (Some (mkAdminConfig "127.0.0.1:9" true "tok")) sample_running.
Definition sample_put : request := mkRequest "PUT" "/api/v1/config" "" "tok" (Some [2]).

Abbreviation sample_server := (mkServer (mkAdminConfig "127.0.0.1:9" true "tok") "c.yaml").

Lemma admin_run_witness : ∃ y : ar_state unit (gset nat),
  ar_run y = ArEnded None ∧ ar_conns y = [Handling 1 sample_put] ∧ ar_shut y = ShDrain.
Proof.
  pose (x1 := mkAR (S := unit) (W := gset nat) false ArServe ShWait (Some 0%nat) [Handling 1 sample_put] (tt, ∅)
    {[0%nat; 1%nat]}).
  assert (rtc (ar_step (S := unit) (W := gset nat) (λ _, Some sample_admin) None sample_server)
    (mkAR false ArStart ShWait None [] (tt, ∅) ∅) x1) as Hx.
  { eapply rtc_l; [apply ar_of_own, (ar_listen _ _ _ false [] (tt, ∅) ∅ {[0%nat]} 0%nat)|].
    { vm_compute. reflexivity. }
    eapply rtc_l; [apply ar_of_own, (ar_accept _ _ _ _ _ _ _ _ _ {[0%nat; 1%nat]} 1%nat)|].
    { vm_compute. reflexivity. }
    eapply rtc_l; [apply ar_of_own, (ar_request _ _ _ _ _ _ _ [] 1%nat sample_put [])|]. apply rtc_refl. }
  destruct (admin_run (S := unit) (W := gset nat) (λ _, Some sample_admin) None sample_server ∅ "c.yaml" sample_admin
    (tt, ∅) ∅ _ x1 eq_refl eq_refl Hx) as (_ & _ & _ & _ & H).
  destruct (H eq_refl ltac:(discriminate)) as (y & _ & Hr & Hd & Hc & _). exists y. by rewrite Hr, Hd, Hc.
Defined.
