(* ===== verification/TunnelServer.v ===== *)
(** [internal/tunnel/server.go], [dgram.go] and [relay.go]: what the server does
    with a stream of a session, the hub of QUIC-datagram flows of a session,
    the UDP relay over a stream, and the checks of the hot reload.

    Sockets are handles behind the class [Sockets]; a hub's methods are split at
    their critical sections, and [hub_step] lets them interleave.  The counters, and
    the goroutines around these definitions, are in [Serve]. *)

From S2P Require Import Prelude GoStd NetUtil Protocol Config ConfigResolve Transport.

Local Open Scope Z_scope.

(** ** UDP sockets *)

Class Sockets (W : Type) : Type := {
  UdpDial : string → W → W * option nat;
  UdpWrite : nat → list Z → W → W * bool;
  UdpClose : nat → W → W }.

Class SocketsLaws (W : Type) `{Sockets W} : Type := {
  sockets : W → gset nat;
  UdpDial_sockets t w :
    match UdpDial t w with
    | (w', Some c) => c ∉ sockets w ∧ sockets w' = {[c]} ∪ sockets w
    | (w', None) => sockets w' = sockets w end;
  UdpWrite_sockets c b w : sockets (UdpWrite c b w).1 = sockets w;
  UdpClose_sockets c w : sockets (UdpClose c w) = sockets w ∖ {[c]} }.

(** ** The datagram hub (dgram.go) *)

Record dgramHub : Type := mkHub { flows : gmap Z nat; nextID : Z }.

Definition newDgramHub : dgramHub := mkHub ∅ 0.

Section hub.
Context {W : Type} `{Sockets W}.

(** Returns the flow and its socket. *)
Definition openFlow (target : string) (h : dgramHub) (w : W) : dgramHub * W * option (Z * nat) :=
  match UdpDial target w with
  | (w, None) => (h, w, None)
  | (w, Some conn) =>
      let flowID := u64 (nextID h + 1) in
      (mkHub (<[flowID := conn]> (flows h)) flowID, w, Some (flowID, conn))
  end.

(** One turn of [recvLoop]: the socket and the payload to write to it. *)
Definition hub_dispatch (b : list Z) (h : dgramHub) : option (nat * list Z) :=
  '(flowID, payload) ← DecodeDatagram b;
  conn ← flows h !! flowID;
  Some (conn, payload).

Definition recv_one (b : list Z) (h : dgramHub) (w : W) : W :=
  match hub_dispatch b h with
  | Some (conn, payload) => (UdpWrite conn payload w).1
  | None => w
  end.

(** One datagram of [flowReadTargetToClient]; [None]: dropped. *)
Definition flow_forward (flowID : Z) (pkt : list Z) : option (list Z) :=
  if Z.of_nat (length pkt) >? maxDatagramPayload then None
  else Some (EncodeDatagram flowID pkt).

Definition closeFlow (flowID : Z) (h : dgramHub) (w : W) : dgramHub * W :=
  (mkHub (delete flowID (flows h)) (nextID h),
   match flows h !! flowID with Some conn => UdpClose conn w | None => w end).

(** ** One stream of a session (server.go) *)

Inductive action : Type :=
| DoPong | DoSetFlags (l : list TCPFlagSet) | DoRelayTCP (addr : string)
| DoRelayUDP (addr : string) | DoFlow (addr : string) | DoNothing.

(** The switch of [handleStream], on the message read. *)
Definition handle_msg (pconn hub : bool) (msg : Message) : action :=
  if msg_Type msg =? Ping then DoPong
  else if msg_Type msg =? TCPF then
    if pconn && negb (bool_decide (msg_TCPF msg = [])) then DoSetFlags (msg_TCPF msg) else DoNothing
  else if msg_Type msg =? TCP then
    match msg_Addr msg with Some a => DoRelayTCP (TunnelAddr.String a) | None => DoNothing end
  else if msg_Type msg =? UDP then
    match msg_Addr msg with Some a => DoRelayUDP (TunnelAddr.String a) | None => DoNothing end
  else if msg_Type msg =? UDPDGRAM then
    match msg_Addr msg with
    | Some a => if hub then DoFlow (TunnelAddr.String a) else DoNothing
    | None => DoNothing
    end
  else DoNothing.

Definition handleStream `{GobCodec} (pconn hub : bool) (input : list Z) : action :=
  match Message_Read input with Ok msg => handle_msg pconn hub msg | Err _ => DoNothing end.

(** The control stream of a flow up to the point where it blocks: the eight
    bytes it answers, or nothing when the dial or the write fails ([wr]). *)
Definition flow_control (target : string) (wr : bool) (h : dgramHub) (w : W) :
    dgramHub * W * option (Z * list Z) :=
  match openFlow target h w with
  | (h, w, None) => (h, w, None)
  | (h, w, Some (flowID, conn)) =>
      if wr then (h, w, Some (flowID, be_encode 8 flowID))
      else let '(h, w) := closeFlow flowID h w in (h, w, None)
  end.
End hub.

(** ** The UDP relay over a stream (relay.go) *)

(** The loop from the stream to the target: the datagrams written, and the error
    that ended it.  [udp_ok] says whether a write to the socket succeeds. *)
Fixpoint relay_to_target (fuel : nat) (udp_ok : list Z → bool) (r : list Z) :
    list (list Z) * option proto_error :=
  match fuel with
  | O => ([], None)
  | S fuel =>
      match ReadDatagram (64 * 1024) r with
      | Err e => ([], Some e)
      | Ok (p, r) =>
          match p with
          | [] => relay_to_target fuel udp_ok r
          | _ =>
              if udp_ok p then
                let '(out, e) := relay_to_target fuel udp_ok r in (p :: out, e)
              else ([], Some WriteError)
          end
      end
  end.

(** The loop from the target to the stream: the bytes written. *)
Fixpoint relay_to_stream (pkts : list (list Z)) : list Z * option proto_error :=
  match pkts with
  | [] => ([], None)
  | p :: rest =>
      match WriteDatagram p with
      | Err e => ([], Some e)
      | Ok f => let '(out, e) := relay_to_stream rest in (f ++ out, e)
      end
  end.

(** ** Hot reload (server.go) *)

Inductive reload_error : Type :=
| NoPath | LoadFailed | ResolveFailed (e : resolve_error)
| ProtocolChanged | KeyChanged | PortChanged | InterfaceChanged.

(** [loaded] is what [config.Load] returns; the new configuration is stored when
    every check passes ([iptables.Apply] only logs its failure). *)
Definition Server_ReloadFromDisk (Resolve : Config → result resolve_error NetworkRuntime)
    (cfgPath : string) (loaded : option Config) (old : Config) : result reload_error Config :=
  _ ← fail_if (String.eqb cfgPath "") NoPath;
  cfg ← of_option LoadFailed loaded;
  oldRT ← wrap_err ResolveFailed (Resolve old);
  newRT ← wrap_err ResolveFailed (Resolve cfg);
  _ ← fail_if (negb (String.eqb (tr_Protocol (cfg_Transport old)) (tr_Protocol (cfg_Transport cfg))))
        ProtocolChanged;
  _ ← fail_if (negb (String.eqb (kcp_Key (tr_KCP (cfg_Transport old))) (kcp_Key (tr_KCP (cfg_Transport cfg)))))
        KeyChanged;
  _ ← fail_if (negb (nr_Port oldRT =? nr_Port newRT)) PortChanged;
  _ ← fail_if (negb (String.eqb (nw_Interface (cfg_Network old)) (nw_Interface (cfg_Network cfg))))
        InterfaceChanged;
  Ok cfg.

(** ** The relay delivers what was sent *)

Definition nonempty (p : list Z) : bool := negb (bool_decide (p = [])).

Lemma frames_fit ps fs p :
  mapM WriteDatagram ps = Ok fs → p ∈ ps → (length p ≤ 64 * 1024)%nat.
Proof.
  intros Hw%mapM_ok_Forall2 Hp. induction Hw as [|q f ps fs Hq _ IH]; [by apply not_elem_of_nil in Hp|].
  apply elem_of_cons in Hp as [->|Hp]; [|by apply IH].
  apply WriteDatagram_ok in Hq as [Hq _]. unfold MaxDatagram in Hq. lia.
Qed.

(** Any fuel above the number of datagrams will do. *)
Lemma relay_to_target_frames ps fs n :
  mapM WriteDatagram ps = Ok fs → (length ps < n)%nat →
  relay_to_target n (λ _, true) (concat fs) = (List.filter nonempty ps, Some EOF).
Proof.
  intros Hw. assert (∀ p, p ∈ ps → (length p ≤ 64 * 1024)%nat) as Hfit by (intros p; by eapply frames_fit).
  apply mapM_ok_Forall2 in Hw. revert n.
  induction Hw as [|p f ps fs Hp Hw IH]; intros [|n] Hn; simpl length in Hn; try lia; [done|].
  specialize (IH ltac:(intros q Hq; apply Hfit; by right) n ltac:(lia)).
  cbn [relay_to_target concat List.filter].
  rewrite (ReadDatagram_frame _ p) by (done || (apply Hfit; left)).
  destruct p as [|b p]; [exact IH|]. by rewrite IH.
Qed.

Lemma relay_to_stream_frames ps fs :
  mapM WriteDatagram ps = Ok fs → relay_to_stream ps = (concat fs, None).
Proof.
  intros Hw%mapM_ok_Forall2. induction Hw as [|p f ps fs Hp _ IH]; [done|].
  cbn [relay_to_stream concat]. by rewrite Hp, IH.
Qed.

Lemma relay_to_stream_inv ps out :
  relay_to_stream ps = (out, None) → ∃ fs, mapM WriteDatagram ps = Ok fs ∧ out = concat fs.
Proof.
  revert out. induction ps as [|p ps IH]; intros out; cbn [relay_to_stream].
  { intros [= <-]. by exists []. }
  destruct (WriteDatagram p) as [f|e] eqn:Ef; [|done].
  destruct (relay_to_stream ps) as [out' e]. intros [= <- ->].
  destruct (IH out' eq_refl) as (fs & Efs & ->). exists (f :: fs).
  split; [|done]. cbn [mapM mbind result_bind]. by rewrite Ef; cbn; rewrite Efs.
Qed.

(** UDP over a stream.  Datagrams framed one after the other on the stream
    are written to the target's socket with their boundaries, in order and each
    once, except the empty ones, which the relay skips, and then the loop ends
    at the end of the stream; in the other direction the relay writes exactly
    the frames of the datagrams it received from the target. *)
Theorem relay_delivers ps fs (Hw : mapM WriteDatagram ps = Ok fs) :
  relay_to_target (S (length ps)) (λ _, true) (concat fs) = (List.filter nonempty ps, Some EOF) ∧
  relay_to_stream ps = (concat fs, None).
Proof. split; [apply relay_to_target_frames; [done|lia]|by apply relay_to_stream_frames]. Qed.

Lemma relay_delivers_witness :
  relay_to_target 4 (λ _, true) [0; 2; 5; 6; 0; 0; 0; 1; 7] = ([[5; 6]; [7]], Some EOF).
Proof.
  apply (relay_delivers [[5; 6]; []; [7]] [[0; 2; 5; 6]; [0; 0]; [0; 1; 7]]). reflexivity.
Defined.

(** ** The hub as a transition system *)

Section hub_laws.
Context {W : Type} `{SocketsLaws W}.
Implicit Types (h : dgramHub) (w : W).

(** One critical section of one goroutine, or the rest of the world, which
    does not touch the set of open sockets. *)
Inductive hub_step : dgramHub * W → dgramHub * W → Prop :=
| hub_open t h w : hub_step (h, w) (openFlow t h w).1
| hub_recv b h w : hub_step (h, w) (h, recv_one b h w)
| hub_close f h w : hub_step (h, w) (closeFlow f h w)
| hub_world h w w' : sockets w' = sockets w → hub_step (h, w) (h, w').

(** The sockets of the flows. *)
Definition hub_sockets (h : dgramHub) : gset nat := map_img (flows h).

(** Relative to the sockets [base] that are not the hub's: the open sockets
    are those and the flows', and no two flows share one. *)
Definition hub_inv (base : gset nat) (x : dgramHub * W) : Prop :=
  sockets x.2 = base ∪ hub_sockets x.1 ∧ base ## hub_sockets x.1 ∧
  (∀ f g c, flows x.1 !! f = Some c → flows x.1 !! g = Some c → f = g).

Lemma closeFlow_inv base f h w : hub_inv base (h, w) → hub_inv base (closeFlow f h w).
Proof.
  intros (Es & Hd & Hinj). unfold closeFlow, hub_inv, hub_sockets in *. simpl in *.
  destruct (flows h !! f) as [c|] eqn:Ef.
  2: { rewrite delete_id by done. done. }
  assert (map_img (delete f (flows h)) =@{gset nat} map_img (flows h) ∖ {[c]}) as Ei.
  { apply set_eq. intros x. rewrite elem_of_difference, !elem_of_map_img, elem_of_singleton. split.
    - intros [g [Hne Hg]%lookup_delete_Some]. split; [by exists g|]. intros ->.
      apply Hne. by eapply Hinj.
    - intros [[g Hg] Hne]. exists g. apply lookup_delete_Some. split; [|done]. intros ->. congruence. }
  assert (c ∈@{gset nat} map_img (flows h)) as Hc by (apply elem_of_map_img; eauto).
  rewrite Ei, UdpClose_sockets, Es. split; [|split].
  - set_solver.
  - set_solver.
  - intros g1 g2 c' [_ H1]%lookup_delete_Some [_ H2]%lookup_delete_Some. by eapply Hinj.
Qed.

Lemma openFlow_inv base t h w :
  (nextID h < 2 ^ 64 - 1) → (∀ f, is_Some (flows h !! f) → f ≤ nextID h) → 0 ≤ nextID h →
  hub_inv base (h, w) → hub_inv base (openFlow t h w).1.
Proof.
  intros Hn Hle Hpos (Es & Hd & Hinj). unfold openFlow, hub_inv, hub_sockets in *. simpl in *.
  pose proof (UdpDial_sockets t w) as Hdial. destruct (UdpDial t w) as [w1 [c|]]; simpl.
  2: { by rewrite Hdial. }
  destruct Hdial as [Hc ->]. rewrite u64_id by lia.
  assert (flows h !! (nextID h + 1) = None) as Hnone.
  { destruct (flows h !! (nextID h + 1)) eqn:E; [|done].
    specialize (Hle (nextID h + 1) ltac:(by eexists)). lia. }
  rewrite map_img_insert_notin_L by done. rewrite Es in Hc. split; [|split].
  - rewrite Es. set_solver.
  - set_solver.
  - assert (∀ f, flows h !! f = Some c → False) as Hno.
    { intros f Hf. apply Hc, elem_of_union_r, elem_of_map_img. eauto. }
    intros f g c' [[<- <-]|[? Hf]]%lookup_insert_Some [[<- E]|[? Hg]]%lookup_insert_Some; try done.
    + by destruct (Hno g).
    + subst. by destruct (Hno f).
    + by eapply Hinj.
Qed.

(** At most [n] steps. *)
Inductive hub_steps : nat → dgramHub * W → dgramHub * W → Prop :=
| hub_refl n x : hub_steps n x x
| hub_trans n x y z : hub_step x y → hub_steps n y z → hub_steps (S n) x z.

(** Flow identifiers are handed out in increasing order. *)
Definition ids_ok (h : dgramHub) : Prop :=
  0 ≤ nextID h ∧ ∀ f, is_Some (flows h !! f) → 1 ≤ f ≤ nextID h.

Lemma hub_step_ids h w h' w' :
  hub_step (h, w) (h', w') → nextID h < 2 ^ 64 - 1 → ids_ok h →
  ids_ok h' ∧ nextID h ≤ nextID h' ≤ nextID h + 1 ∧
  (∀ f, f ≤ nextID h → flows h !! f = None → flows h' !! f = None).
Proof.
  intros Hst Hn [Hpos Hle]. remember (h, w) as a eqn:Ea. remember (h', w') as b eqn:Eb.
  destruct Hst; simplify_eq.
  - unfold openFlow in Eb. destruct (UdpDial t w) as [w1 [c|]]; simpl in Eb; simplify_eq.
    2: { split; [done|]. split; [lia|done]. }
    unfold ids_ok. simpl. rewrite u64_id by lia. split; [split; [lia|]|split; [lia|]].
    + intros f [c' [[<- _]|[_ Hf]]%lookup_insert_Some]; [lia|].
      specialize (Hle f ltac:(by eexists)). lia.
    + intros f Hf Hnone. rewrite lookup_insert_ne by lia. done.
  - split; [done|]. split; [lia|done].
  - unfold closeFlow in Eb. simplify_eq. unfold ids_ok. simpl. split; [|split; [lia|]].
    + split; [done|]. intros g [c [_ Hg]%lookup_delete_Some]. apply Hle. by eexists.
    + intros g _ Hg. apply lookup_delete_None. by right.
  - split; [done|]. split; [lia|done].
Qed.

Lemma hub_step_inv base h w h' w' :
  hub_step (h, w) (h', w') → nextID h < 2 ^ 64 - 1 → ids_ok h →
  hub_inv base (h, w) → hub_inv base (h', w').
Proof.
  intros Hst Hn [Hpos Hle] Hinv. remember (h, w) as a eqn:Ea. remember (h', w') as b eqn:Eb.
  destruct Hst; simplify_eq.
  - apply openFlow_inv; [done| |done|done]. intros f Hf. by apply Hle.
  - destruct Hinv as (Es & Hrest). split; [|done]. simpl in *. unfold recv_one.
    destruct (hub_dispatch _ _) as [[c pl]|]; [by rewrite UdpWrite_sockets|done].
  - by apply closeFlow_inv.
  - destruct Hinv as (Es & Hrest). split; [|done]. simpl in *. congruence.
Qed.

Lemma hub_steps_all n x y base :
  hub_steps n x y → nextID x.1 + Z.of_nat n < 2 ^ 64 → ids_ok x.1 → hub_inv base x →
  ids_ok y.1 ∧ hub_inv base y ∧ nextID x.1 ≤ nextID y.1 ≤ nextID x.1 + Z.of_nat n ∧
  (∀ f, f ≤ nextID x.1 → flows x.1 !! f = None → flows y.1 !! f = None).
Proof.
  induction 1 as [n x|n [h w] [h1 w1] [h2 w2] Hst _ IH]; intros Hb Hids Hinv.
  { split; [done|]. split; [done|]. split; [lia|done]. }
  simpl in *. destruct (hub_step_ids _ _ _ _ Hst ltac:(lia) Hids) as (Hids1 & Hn1 & Hf1).
  pose proof (hub_step_inv base _ _ _ _ Hst ltac:(lia) Hids Hinv) as Hinv1.
  destruct (IH ltac:(lia) Hids1 Hinv1) as (Hids2 & Hinv2 & Hn2 & Hf2).
  split; [done|]. split; [done|]. split; [lia|].
  intros f Hf Hnone. apply Hf2; [lia|]. by apply Hf1.
Qed.

(** A flow keeps its socket until it is closed. *)
Lemma hub_step_flow h w h' w' f :
  hub_step (h, w) (h', w') → nextID h < 2 ^ 64 - 1 → ids_ok h → f ≤ nextID h →
  flows h' !! f = flows h !! f ∨ flows h' !! f = None.
Proof.
  intros Hst Hn [Hpos _] Hf. remember (h, w) as a eqn:Ea. remember (h', w') as b eqn:Eb.
  destruct Hst; simplify_eq; try by left.
  - unfold openFlow in Eb. destruct (UdpDial t w) as [w1 [c|]]; simpl in Eb; simplify_eq; [|by left].
    left. simpl. rewrite u64_id, lookup_insert_ne by lia. done.
  - unfold closeFlow in Eb. simplify_eq. simpl.
    destruct (decide (f = f0)) as [->|]; [right; apply lookup_delete_eq|left; by apply lookup_delete_ne].
Qed.

Lemma hub_steps_ids n x y :
  hub_steps n x y → nextID x.1 + Z.of_nat n < 2 ^ 64 → ids_ok x.1 →
  ids_ok y.1 ∧ nextID x.1 ≤ nextID y.1.
Proof.
  induction 1 as [n x|n [h w] [h1 w1] [h2 w2] Hst _ IH]; intros Hb Hids; [by split|].
  simpl in *. destruct (hub_step_ids _ _ _ _ Hst ltac:(lia) Hids) as (Hids1 & Hn1 & _).
  destruct (IH ltac:(lia) Hids1) as [? ?]. split; [done|lia].
Qed.

Lemma hub_steps_flow n x y f :
  hub_steps n x y → nextID x.1 + Z.of_nat n < 2 ^ 64 → ids_ok x.1 → f ≤ nextID x.1 →
  flows y.1 !! f = flows x.1 !! f ∨ flows y.1 !! f = None.
Proof.
  induction 1 as [n x|n [h w] [h1 w1] [h2 w2] Hst _ IH]; intros Hb Hids Hf; [by left|].
  simpl in *. destruct (hub_step_ids _ _ _ _ Hst ltac:(lia) Hids) as (Hids1 & Hn1 & _).
  destruct (hub_step_flow _ _ _ _ f Hst ltac:(lia) Hids Hf) as [E|E];
    (destruct (IH ltac:(lia) Hids1 ltac:(lia)) as [E2|E2]; [|by right]).
  - left. congruence.
  - right. congruence.
Qed.

(** What an answered control stream leaves. *)
Lemma flow_control_ids t wr h w h' w' f reply :
  ids_ok h → nextID h < 2 ^ 64 - 1 → flow_control t wr h w = (h', w', Some (f, reply)) →
  ids_ok h' ∧ f = nextID h' ∧ nextID h' = nextID h + 1.
Proof.
  intros Hids Hn. pose proof (hub_open t h w) as Hs. unfold flow_control.
  destruct (openFlow t h w) as [[h1 w1] [[g c]|]] eqn:Eo; [|done].
  destruct wr; [|by destruct (closeFlow _ _ _)]. intros [= <- <- <- _].
  apply hub_step_ids in Hs as (Hids1 & _); [|done..]. split; [done|]. destruct Hids as [Hpos _].
  unfold openFlow in Eo. destruct (UdpDial t w) as [w2 [c2|]]; [|done].
  injection Eo as <- _ <- _. simpl. by rewrite u64_id by lia.
Qed.

Lemma newDgramHub_ok w : ids_ok newDgramHub ∧ hub_inv (sockets w) (newDgramHub, w).
Proof.
  unfold newDgramHub. split.
  - split; [done|]. intros f [c Hf]. simpl in Hf. by rewrite lookup_empty in Hf.
  - unfold hub_inv, hub_sockets. simpl. rewrite map_img_empty_L. split; [set_solver +|].
    split; [set_solver +|]. intros f g c Hf. by rewrite lookup_empty in Hf.
Qed.

(** C10: the hub of a session, over every interleaving of its goroutines.  The
    open sockets are those that were open before and one for each flow, so
    that nothing leaks and closing a flow closes its own socket; and an
    identifier is never reused: once a flow is closed (its target idle for a
    minute, its control stream ended), no datagram that still carries its
    identifier is ever delivered anywhere. *)
Theorem hub_safety n m w0 h w h' w'
    (H1 : hub_steps n (newDgramHub, w0) (h, w)) (H2 : hub_steps m (h, w) (h', w'))
    (Hb : Z.of_nat n + Z.of_nat m < 2 ^ 64) :
  hub_inv (sockets w0) (h, w) ∧
  (∀ f, is_Some (flows h !! f) → 1 ≤ f ≤ nextID h) ∧
  (∀ f payload, 0 ≤ f ≤ nextID h → flows h !! f = None →
     hub_dispatch (EncodeDatagram f payload) h' = None).
Proof.
  destruct (newDgramHub_ok w0) as [Hids Hinv].
  destruct (hub_steps_all _ _ _ _ H1 ltac:(simpl; lia) Hids Hinv) as (Hids1 & Hinv1 & Hn1 & _).
  simpl in Hn1, Hids1.
  destruct (hub_steps_all _ _ _ _ H2 ltac:(simpl; lia) Hids1 Hinv1) as (_ & _ & _ & Hdead).
  split; [done|]. split; [apply Hids1|]. intros f payload Hf Hnone.
  unfold hub_dispatch. rewrite DecodeDatagram_Encode by lia. simpl.
  pose proof (Hdead f ltac:(simpl; lia) Hnone) as E. simpl in E. by rewrite E.
Qed.

Lemma flow_control_range t wr h w :
  ids_ok h → nextID h < 2 ^ 64 - 1 →
  match flow_control t wr h w with (_, _, Some (f, _)) => 0 ≤ f < 2 ^ 64 | _ => True end.
Proof.
  intros [Hpos _] Hn. unfold flow_control, openFlow. destruct (UdpDial t w) as [w1 [c|]]; [|done].
  destruct wr; [apply u64_range|by destruct (closeFlow _ _ _)].
Qed.

(** A flow of the hub carries both directions.  A control stream that is
    answered gets the eight bytes of a fresh non-zero identifier; a datagram
    with that identifier goes to the socket dialled for it, until the flow is
    closed; what the target sends is forwarded under the same identifier when
    it fits a QUIC datagram, and dropped otherwise; and when the answer
    cannot be written the socket is closed again. *)
Theorem flow_carries t wr h w
    (Hids : ids_ok h) (Hn : nextID h < 2 ^ 64 - 1) :
  match flow_control t wr h w with
  | (h', w', Some (f, reply)) =>
      wr = true ∧ be_decode reply = f ∧ 1 ≤ f ∧ flows h !! f = None ∧
      (∃ c, UdpDial t w = (w', Some c) ∧
         ∀ payload, hub_dispatch (EncodeDatagram f payload) h' = Some (c, payload)) ∧
      (∀ payload w2, hub_dispatch (EncodeDatagram f payload) (closeFlow f h' w2).1 = None) ∧
      (∀ pkt, (Z.of_nat (length pkt) ≤ 1172 →
                 flow_forward f pkt = Some (EncodeDatagram f pkt) ∧
                 Z.of_nat (length (EncodeDatagram f pkt)) ≤ 1180) ∧
              (1172 < Z.of_nat (length pkt) → flow_forward f pkt = None))
  | (h', w', None) => flows h' = flows h ∧ sockets w' = sockets w
  end.
Proof.
  destruct Hids as [Hpos Hle]. unfold flow_control, openFlow.
  pose proof (UdpDial_sockets t w) as Hd. destruct (UdpDial t w) as [w1 [c|]] eqn:Ed; [|done].
  rewrite u64_id by lia. set (f := nextID h + 1).
  assert (flows h !! f = None) as Hnone.
  { destruct (flows h !! f) eqn:E; [|done]. specialize (Hle f ltac:(by eexists)). lia. }
  destruct wr.
  - split; [done|]. split.
    { rewrite be_decode_encode, Z.mod_small; [done|]. unfold f. simpl. lia. }
    split; [lia|]. split; [done|]. split; [|split].
    + exists c. split; [done|]. intros payload. unfold hub_dispatch.
      rewrite DecodeDatagram_Encode by lia. simpl. by rewrite lookup_insert_eq.
    + intros payload w2. unfold hub_dispatch. rewrite DecodeDatagram_Encode by lia. simpl.
      by rewrite lookup_delete_eq.
    + intros pkt. unfold flow_forward, maxDatagramPayload.
      destruct (Z.gtb_spec (Z.of_nat (length pkt)) (1180 - 8)); (split; [|done || lia]).
      * lia.
      * intros _. split; [done|]. rewrite length_EncodeDatagram. lia.
  - unfold closeFlow. simpl. rewrite lookup_insert_eq. simpl. destruct Hd as [Hc Hs].
    split; [by rewrite delete_insert_id|]. rewrite UdpClose_sockets, Hs. set_solver.
Qed.
End hub_laws.

(** ** Examples *)

#[export] Instance mock_sockets : Sockets (gset nat) := {
  UdpDial t w := if String.eqb t "" then (w, None) else ({[fresh w]} ∪ w, Some (fresh w));
  UdpWrite _ _ w := (w, true);
  UdpClose c w := w ∖ {[c]} }.

#[export] Instance mock_sockets_laws : SocketsLaws (gset nat).
Proof.
  refine {| sockets w := w |}; [|done|done]. intros t w. simpl.
  destruct (String.eqb t ""); [done|]. split; [apply is_fresh|done].
Defined.

(** A flow is opened and closed for idleness; the client keeps sending. *)
Lemma hub_safety_witness :
  hub_dispatch (EncodeDatagram 1 [1; 2; 3]) (mkHub ∅ 1) = None.
Proof.
  set (x1 := (openFlow "8.8.8.8:53" newDgramHub (∅ : gset nat)).1).
  assert (hub_steps 2 (newDgramHub, ∅ : gset nat) (closeFlow 1 x1.1 x1.2)) as Hs.
  { eapply hub_trans; [apply (hub_open "8.8.8.8:53")|]. eapply hub_trans; [|apply hub_refl].
    fold x1. rewrite (surjective_pairing x1) at 1. apply hub_close. }
  assert (flows (closeFlow 1 x1.1 x1.2).1 = ∅) as Ef by (vm_compute; reflexivity).
  assert (nextID (closeFlow 1 x1.1 x1.2).1 = 1) as En by (vm_compute; reflexivity).
  destruct (closeFlow 1 x1.1 x1.2) as [[fl ni] w]. simpl in Ef, En. subst fl ni.
  apply (proj2 (proj2 (hub_safety 2 0 ∅ _ _ _ _ Hs (hub_refl 0 _) ltac:(lia)))); [simpl; lia|].
  apply lookup_empty.
Defined.

Lemma flow_carries_witness :
  hub_dispatch (EncodeDatagram 1 [9]) (flow_control "8.8.8.8:53" true newDgramHub (∅ : gset nat)).1.1
  = Some (0%nat, [9]).
Proof.
  pose proof (flow_carries "8.8.8.8:53" true newDgramHub (∅ : gset nat)
    (proj1 (newDgramHub_ok (∅ : gset nat))) ltac:(simpl; lia)) as H.
  destruct (flow_control "8.8.8.8:53" true newDgramHub (∅ : gset nat)) as [[h' w'] [[f reply]|]] eqn:E;
    [|exfalso; vm_compute in E; discriminate E].
  destruct H as (_ & Hf & _ & _ & (c & Hc & Hd) & _).
  assert (f = 1) as -> by (vm_compute in E; congruence).
  assert (c = 0%nat) as -> by (vm_compute in Hc; congruence).
  apply Hd.
Defined.
