(* ===== verification/Prom.v ===== *)
(** The reports of the admin API: [Status] and its defaults (internal/admin/admin.go),
    what a client and a server put into it (internal/tunnel), and the metrics page
    of internal/metrics/prom.go.

    A line of the metrics page is a [sample]: name, labels, value; the format
    verbs that render it are Go's. *)

From S2P Require Import Prelude GoStd NetUtil Config ConfigResolve Metrics Transport TunnelPool TunnelDial Upstream.

Local Open Scope Z_scope.

(** ** The metrics page (prom.go) *)

(** [%d] of an integer, or the milliseconds of so many microseconds with [%g]. *)
Inductive value : Type := VInt (z : Z) | VMillis (us : Z).

(** [%q] of a name or of the text of an address. *)
Inductive label : Type := LText (s : string) | LAddr (a : UDPAddr).

#[export] Instance label_eq_dec : EqDecision label.
Proof. solve_decision. Defined.

Record sample : Type := mkSample { sm_name : string; sm_labels : list (string * label); sm_value : value }.

Definition upstream_samples (u : ServerStatus) : list sample :=
  let name := ("name"%string, LText (ss_Name u)) in
  [mkSample "paqetpremium_upstream_healthy" [name; ("addr"%string, LAddr (ss_Addr u))]
     (VInt (Z.b2z (ss_Healthy u)));
   mkSample "paqetpremium_upstream_active" [name] (VInt (Z.b2z (ss_Active u)));
   mkSample "paqetpremium_upstream_rtt_ms" [name] (VMillis (ss_RTTus u));
   mkSample "paqetpremium_upstream_sessions" [name] (VInt (Z.of_nat (ss_Sessions u)))].

(** [None]: not a list of [upstream.ServerStatus]. *)
Definition WriteUpstream (raw : option (list ServerStatus)) : list sample :=
  match raw with None => [] | Some ups => concat (upstream_samples <$> ups) end.

(** The counters of the page, in order. *)
Definition counter_name (k : counter) : string :=
  match k with
  | CBytesIn => "paqetpremium_bytes_in_total" | CBytesOut => "paqetpremium_bytes_out_total"
  | CTCPAccepted => "paqetpremium_tcp_accepted_total" | CTCPActive => "paqetpremium_tcp_active"
  | CUDPPackets => "paqetpremium_udp_packets_total" | CRelayTCP => "paqetpremium_relay_tcp_total"
  | CRelayUDP => "paqetpremium_relay_udp_total" | CUDPDgramFlows => "paqetpremium_udp_dgram_flows_total"
  | CUDPDgramIn => "paqetpremium_udp_dgram_in_total" | CUDPDgramOut => "paqetpremium_udp_dgram_out_total"
  | CUDPDgramDropped => "paqetpremium_udp_dgram_dropped_total" | CErrors => "paqetpremium_errors_total"
  end.

Definition counters : list counter :=
  [CBytesIn; CBytesOut; CTCPAccepted; CTCPActive; CUDPPackets; CRelayTCP; CRelayUDP;
   CUDPDgramFlows; CUDPDgramIn; CUDPDgramOut; CUDPDgramDropped; CErrors].

Definition WritePrometheus (snap : Collector) (sessions : Z) (ups : option (list ServerStatus)) : list sample :=
  (if sessions >? 0 then [mkSample "paqetpremium_tunnel_sessions" [] (VInt sessions)] else []) ++
  ((λ k, mkSample (counter_name k) [] (VInt (Load k snap))) <$> counters) ++
  WriteUpstream ups.

(** ** The status (admin.go) *)

Definition version_Name : string := "PaqetPremium".
Definition version_Version : string := "0.18.0".

Record Status : Type := mkStatus {
  st_Core : string; st_Version : string; st_Role : string; st_Name : string; st_Strategy : string;
  st_Active : string; st_Listen : string; st_Sessions : Z;
  st_Upstreams : option (list ServerStatus); st_Stats : option Collector }.

Definition handleStatus (st : Status) : Status :=
  let '(mkStatus core ver role name strat act listen n ups stats) := st in
  mkStatus (if String.eqb core "" then version_Name else core)
    (if String.eqb ver "" then version_Version else ver) role name strat act listen n ups stats.

(** [dflt] are the process's counters. *)
Definition handleMetrics (st : Status) (dflt : Collector) : list sample :=
  WritePrometheus (default (Collector_Snapshot (Some dflt)) (st_Stats st)) (st_Sessions st) (st_Upstreams st).

(** The closure of the server's [startAdmin]. *)
Definition server_status (cfg : Config) (listenPort sessions : Z) (c : Collector) : Status :=
  mkStatus version_Name version_Version "server" (cfg_Name cfg) "" "" (Itoa listenPort) sessions None
    (Some (Collector_Snapshot (Some c))).

(** The closure of the client's [startAdmin]. *)
Definition client_status {D} (cfg : Config) (m : Manager) (h : gmap nat (Pool D)) (c : Collector) : Status :=
  let snap := Snapshot m h in
  let sessions := foldl (λ n s, n + Z.of_nat (ss_Sessions s)) 0 snap in
  mkStatus version_Name version_Version "client" (cfg_Name cfg) (m_strategy m) (m_active m) "" sessions
    (Some snap) (Some (Collector_Snapshot (Some c))).

(** ** No series twice *)

(** What identifies a sample. *)
Definition series (s : sample) : string * list (string * label) := (sm_name s, sm_labels s).

Definition upstream_metrics : list string :=
  ["paqetpremium_upstream_healthy"; "paqetpremium_upstream_active";
   "paqetpremium_upstream_rtt_ms"; "paqetpremium_upstream_sessions"]%string.

Lemma upstream_samples_name u s :
  s ∈ upstream_samples u → sm_name s ∈ upstream_metrics ∧ head (sm_labels s) = Some ("name"%string, LText (ss_Name u)).
Proof.
  unfold upstream_samples, upstream_metrics. rewrite !elem_of_cons, !elem_of_nil.
  intros [->|[->|[->|[->|[]]]]]; (split; [simpl; tauto|done]).
Qed.

Lemma WriteUpstream_elem ups s :
  s ∈ concat (upstream_samples <$> ups) ↔ ∃ u, u ∈ ups ∧ s ∈ upstream_samples u.
Proof.
  rewrite list_elem_of_In, in_concat. setoid_rewrite <- list_elem_of_In. split.
  - intros (l & (u & -> & Hu)%list_elem_of_fmap & Hs). eauto.
  - intros (u & Hu & Hs). exists (upstream_samples u). split; [by apply list_elem_of_fmap_2|done].
Qed.

Lemma upstream_series_NoDup u : NoDup (series <$> upstream_samples u).
Proof. apply (NoDup_fmap_1 fst). apply (bool_decide_unpack _). reflexivity. Qed.

Lemma NoDup_upstreams ups :
  NoDup (series <$> concat (upstream_samples <$> ups)) ↔ NoDup (ss_Name <$> ups).
Proof.
  induction ups as [|u ups IH]; [by split; constructor|].
  rewrite !fmap_cons, concat_cons, fmap_app, NoDup_app, NoDup_cons, IH. split.
  - intros (_ & Hd & Hn). split; [|done]. intros (u' & Eu & Hu')%list_elem_of_fmap.
    assert (mkSample "paqetpremium_upstream_active" [("name"%string, LText (ss_Name u))] (VInt (Z.b2z (ss_Active u')))
      ∈ upstream_samples u') as Hin.
    { rewrite Eu. unfold upstream_samples. simpl. rewrite !elem_of_cons. auto. }
    apply (Hd ("paqetpremium_upstream_active"%string, [("name"%string, LText (ss_Name u))])).
    + unfold upstream_samples. simpl. rewrite !elem_of_cons. auto.
    + apply list_elem_of_fmap. eexists. split; [|apply WriteUpstream_elem; eauto]. done.
  - intros [Hnu Hn]. split; [apply upstream_series_NoDup|]. split; [|done].
    intros x (s & -> & Hs)%list_elem_of_fmap (s' & E & (u' & Hu' & Hs')%WriteUpstream_elem)%list_elem_of_fmap.
    apply upstream_samples_name in Hs as [_ Hl]. apply upstream_samples_name in Hs' as [_ Hl'].
    injection E as _ El. rewrite El, Hl' in Hl. injection Hl as E. apply Hnu. rewrite <- E.
    by apply list_elem_of_fmap_2.
Qed.

Lemma fixed_series_NoDup snap sessions :
  NoDup (series <$> WritePrometheus snap sessions None).
Proof.
  apply (NoDup_fmap_1 fst). unfold WritePrometheus.
  destruct (sessions >? 0); apply (bool_decide_unpack _); vm_compute; exact I.
Qed.

Lemma fixed_series_names snap sessions s :
  s ∈ WritePrometheus snap sessions None → sm_name s ∉ upstream_metrics.
Proof.
  unfold WritePrometheus. cbn [WriteUpstream]. rewrite app_nil_r, elem_of_app. intros [Hs|Hs].
  - destruct (sessions >? 0); [|by apply not_elem_of_nil in Hs]. apply list_elem_of_singleton in Hs as ->.
    apply (bool_decide_unpack _). reflexivity.
  - apply list_elem_of_fmap in Hs as (k & -> & _). apply (bool_decide_unpack _). by destruct k.
Qed.

(** ** The theorem *)

Section pages.
Context {D : Type}.
Implicit Types (m : Manager) (h : gmap nat (Pool D)) (c : Collector).

Lemma WritePrometheus_app snap sessions ups :
  WritePrometheus snap sessions ups = WritePrometheus snap sessions None ++ WriteUpstream ups.
Proof. unfold WritePrometheus. cbn [WriteUpstream]. by rewrite app_nil_r, <- !(assoc_L (++)). Qed.

Lemma page_NoDup snap sessions ups :
  NoDup (series <$> WritePrometheus snap sessions (Some ups)) ↔ NoDup (ss_Name <$> ups).
Proof.
  rewrite WritePrometheus_app, fmap_app, NoDup_app, <- NoDup_upstreams. split; [by intros (_ & _ & ?)|].
  intros Hn. split; [apply fixed_series_NoDup|]. split; [|done].
  intros x (s & -> & Hs)%list_elem_of_fmap (s' & E & (u & _ & Hu)%WriteUpstream_elem)%list_elem_of_fmap.
  apply fixed_series_names in Hs. apply upstream_samples_name in Hu as [Hu _].
  injection E as En _. by rewrite En in Hs.
Qed.

Lemma Snapshot_elem m h s :
  s ∈ Snapshot m h ↔ ∃ name e, name ∈ m_order m ∧ m_entries m !! name = Some e ∧
    s = mkServerStatus name (ep_Addr (e_ep e)) (e_healthy e) (String.eqb name (m_active m))
          (if e_lastRTT e >? 0 then e_lastRTT e / 1000 else 0) (e_failures e)
          (match h !! e_pool e with Some p => Count p | None => 0%nat end).
Proof.
  unfold Snapshot. rewrite list_elem_of_omap. split.
  - intros (name & Hn & E). destruct (m_entries m !! name) as [e|] eqn:Ee; [|done].
    injection E as <-. eauto.
  - intros (name & e & Hn & Ee & ->). exists name. split; [done|]. by rewrite Ee.
Qed.

Lemma Snapshot_NoDup m h : NoDup (m_order m) → NoDup (ss_Name <$> Snapshot m h).
Proof.
  unfold Snapshot. induction (m_order m) as [|name l IH]; [by constructor|].
  intros [Hn Hl]%NoDup_cons. cbn [omap list_omap]. destruct (m_entries m !! name) as [e|] eqn:Ee; [|by apply IH].
  cbn. constructor; [|by apply IH]. intros (s & Es & (name' & Hin & E)%list_elem_of_omap)%list_elem_of_fmap.
  destruct (m_entries m !! name'); [|done]. injection E as <-. cbn in Es. by subst.
Qed.

(** The metrics page of a client shows the counters and the manager.  Each
    counter is on it with its value, the number of sessions when it is positive
    (and otherwise not at all), and for each upstream that is registered whether
    it is healthy, whether it is the active one of the status, and how many
    sessions its pool was built with.  No series is written twice exactly when no two upstreams of
    the page have one name, as when the manager's order has none twice. *)
Theorem metrics_page cfg m h c dflt :
  let st := handleStatus (client_status cfg m h c) in
  let page := handleMetrics st dflt in
  (NoDup (series <$> page) ↔ NoDup (ss_Name <$> Snapshot m h)) ∧
  (NoDup (m_order m) → NoDup (series <$> page)) ∧
  (∀ k, mkSample (counter_name k) [] (VInt (Load k c)) ∈ page) ∧
  (∀ n, mkSample "paqetpremium_tunnel_sessions" [] (VInt n) ∈ page ↔ n = st_Sessions st ∧ 0 < n) ∧
  (∀ name e p, name ∈ m_order m → m_entries m !! name = Some e → h !! e_pool e = Some p →
     let labels := [("name"%string, LText name)] in
     mkSample "paqetpremium_upstream_healthy" (labels ++ [("addr"%string, LAddr (ep_Addr (e_ep e)))])
       (VInt (Z.b2z (e_healthy e))) ∈ page ∧
     mkSample "paqetpremium_upstream_active" labels (VInt (Z.b2z (String.eqb name (st_Active st)))) ∈ page ∧
     mkSample "paqetpremium_upstream_sessions" labels (VInt (Z.of_nat (Count p))) ∈ page).
Proof.
  cbv zeta. unfold handleMetrics. cbn [handleStatus client_status st_Stats st_Sessions st_Upstreams st_Active default].
  set (n := foldl _ _ _). split; [apply page_NoDup|]. split.
  { intros Ho. by apply page_NoDup, Snapshot_NoDup. }
  split.
  { intros k. unfold WritePrometheus. rewrite !elem_of_app. right. left. apply list_elem_of_fmap.
    exists k. split; [done|]. destruct k; apply (bool_decide_unpack _); reflexivity. }
  split.
  - intros z. unfold WritePrometheus. rewrite !elem_of_app. split.
    + intros [Hs|[(k & E & _)%list_elem_of_fmap|(u & _ & Hu)%WriteUpstream_elem]].
      * destruct (Z.gtb_spec n 0); [|by apply not_elem_of_nil in Hs]. apply list_elem_of_singleton in Hs.
        injection Hs as ->. lia.
      * by destruct k.
      * apply upstream_samples_name in Hu as [Hu _]. revert Hu. cbn [sm_name].
        intros Hu. exfalso. revert Hu. apply (bool_decide_unpack _). reflexivity.
    + intros [-> Hz]. left. destruct (Z.gtb_spec n 0); [by left|lia].
  - intros name e p Hn He Hp. cbv zeta.
    set (u := mkServerStatus name (ep_Addr (e_ep e)) (e_healthy e) (String.eqb name (m_active m))
          (if e_lastRTT e >? 0 then e_lastRTT e / 1000 else 0) (e_failures e) (Count p)).
    assert (∀ s, s ∈ upstream_samples u → s ∈ WritePrometheus (Collector_Snapshot (Some c)) n (Some (Snapshot m h))) as Hin.
    { intros s Hs. unfold WritePrometheus. rewrite !elem_of_app. right. right. apply WriteUpstream_elem.
      exists u. split; [|done]. apply Snapshot_elem. exists name, e. by rewrite Hp. }
    split_and!; apply Hin; unfold upstream_samples; simpl; rewrite !elem_of_cons; auto.
Qed.
End pages.

Lemma metrics_page_witness :
  let st := client_status sample_client (sample_manager StrategyFailover true false)
              (∅ : gmap nat (Pool string)) (IncError zero_collector) in
  NoDup (series <$> handleMetrics (handleStatus st) zero_collector) ∧
  mkSample "paqetpremium_errors_total" [] (VInt 1) ∈ handleMetrics (handleStatus st) zero_collector.
Proof.
  pose proof (metrics_page sample_client (sample_manager StrategyFailover true false)
              (∅ : gmap nat (Pool string)) (IncError zero_collector) zero_collector) as (_ & H1 & H2 & _).
  split; [|exact (H2 CErrors)]. apply H1. apply (bool_decide_unpack _). reflexivity.
Defined.
