(* ===== verification/Control.v ===== *)
(** The control plane put together: loading the configuration file
    (internal/config/config.go), the admin server a running process starts
    (internal/tunnel/server.go and client.go), the command that asks it to reload
    (internal/app/reload.go), and the command line (cmd/paqetpremium/main.go).

    The theorems compose [Admin.handle] with the file it writes, [Config.Validate]
    and [TunnelServer.Server_ReloadFromDisk]. *)

From S2P Require Import Prelude GoStd NetUtil Protocol Config ConfigResolve Transport TunnelPool TunnelDial Upstream Client App Admin TunnelServer.
From Stdlib Require Import Ascii.

Local Open Scope Z_scope.

(** ** The file (config.go) *)

Inductive load_error : Type := ReadFile | ParseYAML | Invalid (e : config_error).

Section control.
Context `{YamlCodec}.

Definition Load (path : string) (fs : files) : result load_error Config :=
  '(data, _) ← of_option ReadFile (fs !! path);
  cfg ← of_option ParseYAML (yaml_Unmarshal data);
  wrap_err Invalid (Validate cfg).

Definition to_option {E A} (r : result E A) : option A :=
  match r with Ok a => Some a | Err _ => None end.

(** ** The admin server of a process *)

(** [startAdmin] with the test at the start of [admin.Server.Run]: the section of
    the configuration the process started with. *)
Definition startAdmin (cfg : Config) (cfgPath : string) : option Server :=
  a ← cfg_Admin cfg;
  if blank (ad_Listen a) then None else Some (mkServer a cfgPath).

(** The callbacks of a server: the running configuration is the state. *)
Definition server_config (cur : Config) : option Config := Some cur.

Definition server_reload (Resolve : Config → result resolve_error NetworkRuntime) (path : string)
    (cur : Config) (fs : files) : Config * bool :=
  match Server_ReloadFromDisk Resolve path (to_option (Load path fs)) cur with
  | Ok cfg => (cfg, true)
  | Err _ => (cur, false)
  end.

(** [watchReload]: a SIGHUP is a reload whose error is only logged. *)
Definition server_sighup (Resolve : Config → result resolve_error NetworkRuntime) (path : string)
    (cur : Config) (fs : files) : Config := (server_reload Resolve path cur fs).1.

(** ** The reload command (app/reload.go) *)

Inductive reload_cmd_error : Type :=
| ReloadLoad (e : load_error) | AdminNotSet | RequestFailed | ReloadFailed (code : Z).

Definition reload_request (token : string) : request :=
  mkRequest "POST" "/api/v1/reload" (reload_header token) "" None.

Section command.
Context {S : Type}.

(** [Do] is [client.Do] with the address of the URL; [None]: no answer. *)
Definition ReloadConfig (Do : string → request → S * files → S * files * option response)
    (path : string) (st : S * files) : S * files * result reload_cmd_error unit :=
  match Load path st.2 with
  | Err e => (st, Err (ReloadLoad e))
  | Ok cfg =>
      match cfg_Admin cfg with
      | None => (st, Err AdminNotSet)
      | Some a =>
          if String.eqb (ad_Listen a) "" then (st, Err AdminNotSet) else
          match Do (ad_Listen a) (reload_request (ad_Token a)) st with
          | (st, None) => (st, Err RequestFailed)
          | (st, Some resp) =>
              if rs_Code resp =? 200 then (st, Ok tt) else (st, Err (ReloadFailed (rs_Code resp)))
          end
      end
  end.

(** The machine of a process with admin server [sv]; nothing else listens. *)
Definition machine (getConfig : S → option Config) (rl : string → S → files → S * bool) (sv : Server)
    (listen : string) (r : request) (st : S * files) : S * files * option response :=
  if String.eqb listen (ad_Listen (sv_cfg sv)) then
    let '(st, rs) := handle getConfig (Some rl) sv r (mkFaults WriteDone false 18) st in (st, Some rs)
  else (st, None).
End command.

(** ** The command line (main.go) *)

Inductive cli_error : Type :=
| PathRequired | CliLoad (e : load_error) | CliApp (e : app_error) | ChecksFailed
| CliReload (e : reload_cmd_error).

(** [main]: the exit code of the command that [Execute] ran. *)
Definition exit_code {A} (r : result cli_error A) : Z := match r with Ok _ => 0 | Err _ => 1 end.

Definition newRunCmd (linux : bool) (configPath : string) (fs : files) : result cli_error app_run :=
  _ ← fail_if (String.eqb configPath "") PathRequired;
  match Load configPath fs with
  | Err e => Err (CliLoad e)
  | Ok cfg => wrap_err CliApp (RunConfig linux (Some cfg))
  end.

Definition newReloadCmd {S} (Do : string → request → S * files → S * files * option response)
    (configPath : string) (st : S * files) : S * files * result cli_error unit :=
  if String.eqb configPath "" then (st, Err PathRequired) else
  let '(st, r) := ReloadConfig Do configPath st in (st, wrap_err CliReload r).

Section tunnel_commands.
Context {W : Type} `{Conns W} `{Streams W} `{Clock W} {D : Type}.
Context (ParseDuration : string → option Z) (InterfaceByName : string → bool)
  (ParseMAC : string → option (list Z)) (rnd rnd' : nat → nat → Z) (rport : Z).
Abbreviation heap := (gmap nat (Pool D)).

(** The lines printed are the second component. *)
Definition newTestCmd (linux : bool) (configPath : string) (fs : files) (names names' : list string)
    (h : heap) (w : W) : heap * W * list (bool * check_line) * result cli_error unit :=
  if String.eqb configPath "" then (h, w, [], Err PathRequired) else
  match Load configPath fs with
  | Err e => (h, w, [], Err (CliLoad e))
  | Ok cfg =>
      let '(h, w, lines) := TestConfig ParseDuration InterfaceByName ParseMAC rnd rnd' rport linux cfg
                              names names' h w in
      (h, w, lines, fail_if (negb (test_ok lines)) ChecksFailed)
  end.

Definition newBenchCmd (linux : bool) (configPath : string) (fs : files) (names : list string)
    (h : heap) (w : W) : heap * W * list BenchResult * result cli_error unit :=
  if String.eqb configPath "" then (h, w, [], Err PathRequired) else
  if negb linux then (h, w, [], Err (CliApp RequiresLinux)) else
  match Load configPath fs with
  | Err e => (h, w, [], Err (CliLoad e))
  | Ok cfg =>
      match Bench ParseDuration InterfaceByName ParseMAC rnd rnd' rport linux (Some cfg) names h w with
      | (h, w, Err e) => (h, w, [], Err (CliApp e))
      | (h, w, Ok lines) => (h, w, lines, Ok tt)
      end
  end.
End tunnel_commands.
End control.

(** ** The editor, the file and the running configuration *)

Section laws.
Context `{YamlLaws}.

Lemma Load_valid path fs c : Load path fs = Ok c → config_valid c.
Proof. unfold Load. intros E. inv_ok. destruct v as [data m]. inv_ok. by eapply Validate_valid. Qed.

Lemma Load_written path fs c out m :
  Validate c = Ok c → yaml_Marshal c = Some out → fs !! path = Some (out, m) → Load path fs = Ok c.
Proof. intros Hv Hm Hf. unfold Load. rewrite Hf. cbn. rewrite (yaml_roundtrip _ _ Hm). cbn. by rewrite Hv. Qed.

(** What a running server may take over from its file. *)
Definition reloadable (Resolve : Config → result resolve_error NetworkRuntime) (cur c : Config) : Prop :=
  ∃ rt rt', Resolve cur = Ok rt ∧ Resolve c = Ok rt' ∧
    tr_Protocol (cfg_Transport cur) = tr_Protocol (cfg_Transport c) ∧
    kcp_Key (tr_KCP (cfg_Transport cur)) = kcp_Key (tr_KCP (cfg_Transport c)) ∧
    nr_Port rt = nr_Port rt' ∧ nw_Interface (cfg_Network cur) = nw_Interface (cfg_Network c).

Lemma Server_ReloadFromDisk_ok Resolve path loaded cur c :
  Server_ReloadFromDisk Resolve path loaded cur = Ok c ↔
  path ≠ ""%string ∧ loaded = Some c ∧ reloadable Resolve cur c.
Proof.
  unfold Server_ReloadFromDisk, reloadable. split.
  - intros E. inv_ok.
    repeat match goal with
    | X : negb _ = false |- _ => apply negb_false_iff in X
    | X : String.eqb _ _ = true |- _ => apply String.eqb_eq in X
    | X : (_ =? _) = true |- _ => apply Z.eqb_eq in X
    | X : String.eqb _ _ = false |- _ => apply String.eqb_neq in X
    end.
    split; [done|]. split; [done|]. by eexists _, _.
  - intros (Hp & -> & rt & rt' & E1 & E2 & Ep & Ek & Eo & Ei).
    apply String.eqb_neq in Hp. rewrite Hp. cbn. rewrite E1. cbn. rewrite E2. cbn.
    by rewrite Ep, Ek, Eo, Ei, !String.eqb_refl, Z.eqb_refl.
Qed.

Lemma blank_nonempty s : blank s = false → s ≠ ""%string.
Proof. intros Hb ->. discriminate Hb. Qed.

(** An edit of a running server's configuration.  A document that is accepted
    is on disk afterwards, and loading the file gives exactly the normalised
    configuration that was accepted.  The answer is 200 exactly when the running
    server could take it over, which is when both configurations resolve and the
    protocol, the key, the port and the interface are the same, and then what
    runs is what is on disk; otherwise the answer is 500 and the server runs on
    with the old configuration, while the next start, and nothing before it, will
    use the new one. *)
Theorem edit_applies Resolve sv cur fs r b incoming c out um
    (Hpath : rq_Path r = "/api/v1/config"%string) (Hmeth : rq_Method r = "PUT"%string)
    (Hed : configEditor sv = true) (Ha : authorized (sv_cfg sv) r = true)
    (Hb : rq_Body r = Some b) (Hu : yaml_Unmarshal (take bodyLimit b) = Some incoming)
    (Hv : Validate (restoreSecrets incoming (Some cur)) = Ok c) (Hm : yaml_Marshal c = Some out) :
  let '(cur', fs', rs) :=
    handle server_config (Some (server_reload Resolve)) sv r (mkFaults WriteDone false um) (cur, fs) in
  Load (sv_cfgPath sv) fs' = Ok c ∧
  (rs_Code rs = 200 ↔ reloadable Resolve cur c) ∧
  (reloadable Resolve cur c → cur' = c) ∧
  (¬ reloadable Resolve cur c → rs_Code rs = 500 ∧ cur' = cur ∧
     server_sighup Resolve (sv_cfgPath sv) cur' fs' = cur).
Proof.
  unfold handle. rewrite Hpath, Hed. cbn [String.eqb Ascii.eqb Bool.eqb andb].
  rewrite auth_granted by done. unfold handleConfig, putConfigYAML.
  rewrite Hmeth. cbn [String.eqb Ascii.eqb Bool.eqb orb]. rewrite Hb, Hu.
  change (server_config cur) with (Some cur). rewrite Hv, Hm. destruct (writeConfigFile _ out _ fs) as [fs' ok] eqn:Ew.
  unfold writeConfigFile in Ew. cbn in Ew. injection Ew as <- <-.
  set (fs' := <[_ := _]> (delete _ _)).
  assert (Load (sv_cfgPath sv) fs' = Ok c) as El.
  { eapply Load_written; [|done|apply lookup_insert_eq]. eapply Validate_fixed, Validate_valid, Hv. }
  unfold server_sighup, server_reload. rewrite El. cbn [to_option].
  assert (sv_cfgPath sv ≠ ""%string) as Hp by (apply blank_nonempty; by apply negb_true_iff).
  pose proof (Server_ReloadFromDisk_ok Resolve (sv_cfgPath sv) (Some c) cur) as Hok.
  destruct (Server_ReloadFromDisk Resolve (sv_cfgPath sv) (Some c) cur) as [c'|e] eqn:Er.
  - destruct (proj1 (Hok c') eq_refl) as (_ & [= <-] & Hrl). split; [done|]. split; [done|]. split; [done|].
    by intros [].
  - assert (¬ reloadable Resolve cur c) as Hn.
    { intros Hrl. by specialize (proj2 (Hok c) (conj Hp (conj eq_refl Hrl))). }
    split; [done|]. split; [by split|]. split; [done|].
    intros _. split; [done|]. split; [done|]. rewrite El. cbn [to_option]. by rewrite Er.
Qed.
End laws.

(** ** The reload command against the running process *)

Section reload.
Context `{YamlLaws} {S : Type}.
Context (getConfig : S → option Config) (rl : string → S → files → S * bool).
Implicit Types (sv : Server) (st : S * files).

Lemma TrimSpace_bearer t :
  Forall plain (bs t) → t ≠ ""%string → TrimSpace ("Bearer " +:+ t) = "Bearer " +:+ t.
Proof.
  intros Hp Hne. assert (bs t ≠ []) as Hb by by rewrite bs_empty.
  destruct (exists_last Hb) as (l & d & El). rewrite El in Hp.
  apply Forall_app in Hp as [_ [Hd _]%Forall_cons].
  assert ("Bearer " +:+ t = str ("B"%char :: (bs "earer " ++ l) ++ [d])) as ->.
  { apply bs_inj. rewrite bs_app, bs_str, El. done. }
  apply TrimSpace_ends; [|done]. vm_compute. split; congruence.
Qed.

(** Whether the request of the command is let in. *)
Lemma reload_authorized a a' :
  Forall plain (bs (ad_Token a')) →
  authorized a (reload_request (ad_Token a')) = true ↔
    blank (ad_Token a) = true ∨ ad_Token a' = TrimSpace (ad_Token a).
Proof.
  intros Hp. destruct (blank (ad_Token a)) eqn:Hb.
  { split; [by left|]. intros _. unfold authorized. unfold blank in Hb. by rewrite Hb. }
  rewrite authorized_carries by done. unfold carries. cbn [rq_Token rq_Authorization reload_request].
  unfold reload_header. assert (TrimSpace (ad_Token a) ≠ ""%string) as Hne by (by apply String.eqb_neq).
  destruct (String.eqb_spec (ad_Token a') "") as [E|E].
  - rewrite E. change (TrimSpace "") with ""%string. split.
    + by intros [?|[?|[? _]]].
    + by intros [|].
  - rewrite TrimSpace_bearer by done. change (TrimSpace "") with ""%string. split.
    + intros [|[Et|[Et Hn]]]; [done| |].
      * right. by apply (inj (String.append "Bearer ")).
      * rewrite <- Et, HasPrefix_app in Hn. discriminate Hn.
    + intros [|<-]; [done|]. right. by left.
Qed.

Lemma machine_reload sv a st :
  ad_Listen a = ad_Listen (sv_cfg sv) → Forall plain (bs (ad_Token a)) →
  machine getConfig rl sv (ad_Listen a) (reload_request (ad_Token a)) st =
    if authorized (sv_cfg sv) (reload_request (ad_Token a)) then
      let '(s, ok) := rl (sv_cfgPath sv) st.1 st.2 in
      ((s, st.2), Some (if ok then mkResponse 200 (BText "reloaded") else mkResponse 500 (BText "reload")))
    else (st, Some (mkResponse 401 (BText "unauthorized"))).
Proof.
  intros El Hp. unfold machine. rewrite El, String.eqb_refl. unfold handle. cbn [rq_Path reload_request].
  cbn [String.eqb Ascii.eqb Bool.eqb andb]. rewrite bool_decide_true by by eexists. cbn [andb].
  destruct (authorized (sv_cfg sv) (reload_request (ad_Token a))) eqn:Ea.
  - rewrite auth_granted by done. unfold handleReload. cbn. by destruct (rl _ _ _) as [s []].
  - rewrite auth_denied; [done| |done]. destruct (blank (ad_Token (sv_cfg sv))) eqn:Hb; [|done].
    unfold authorized in Ea. unfold blank in Hb. by rewrite Hb in Ea.
Qed.

(** The reload command.  It reaches the running process with what the file
    says now, while the process listens and compares tokens with what it was
    started with.  When address and token are still the same, the process reloads
    and the command succeeds exactly when the reload did; when the file names
    another address nothing is reached, and when it has another token (of
    printable characters) the request is refused, and nothing is reloaded: after
    an edit that changes either of them the command does not work any more until
    the process is restarted. *)
Theorem reload_command sv st path c a
    (Hl : Load path st.2 = Ok c) (Ha : cfg_Admin c = Some a) (Hne : ad_Listen a ≠ ""%string)
    (Hp : Forall plain (bs (ad_Token a))) :
  let '(st', r) := ReloadConfig (machine getConfig rl sv) path st in
  (ad_Listen a ≠ ad_Listen (sv_cfg sv) → st' = st ∧ r = Err RequestFailed) ∧
  (ad_Listen a = ad_Listen (sv_cfg sv) →
     (ad_Token a = TrimSpace (ad_Token (sv_cfg sv)) ∨ blank (ad_Token (sv_cfg sv)) = true →
        st' = ((rl (sv_cfgPath sv) st.1 st.2).1, st.2) ∧
        (is_ok r = true ↔ (rl (sv_cfgPath sv) st.1 st.2).2 = true)) ∧
     (ad_Token a ≠ TrimSpace (ad_Token (sv_cfg sv)) → blank (ad_Token (sv_cfg sv)) = false →
        st' = st ∧ r = Err (ReloadFailed 401))).
Proof.
  unfold ReloadConfig. rewrite Hl, Ha. apply String.eqb_neq in Hne. rewrite Hne.
  destruct (decide (ad_Listen a = ad_Listen (sv_cfg sv))) as [El|El].
  2: { unfold machine. apply String.eqb_neq in El as E'. rewrite E'. split; [done|by intros ?]. }
  rewrite machine_reload by done. pose proof (reload_authorized (sv_cfg sv) a Hp) as Hau.
  destruct (authorized (sv_cfg sv) (reload_request (ad_Token a))).
  - destruct (rl (sv_cfgPath sv) st.1 st.2) as [s ok].
    destruct ok; (split; [done|]); intros _; (split; [done|]); intros Hn Hb;
      (destruct (proj1 Hau eq_refl) as [E|E]; [congruence|done]).
  - split; [done|]. intros _. split; [|done]. intros Hor. exfalso.
    assert (false = true) as [=]. apply Hau. tauto.
Qed.
End reload.

(** ** The command line *)

Section cli.
Context `{YamlLaws}.
Context {W : Type} `{StreamsHeld W} `{Clock W} {D : Type}.
Context (ParseDuration : string → option Z) (InterfaceByName : string → bool)
  (ParseMAC : string → option (list Z)) (rnd rnd' : nat → nat → Z) (rport : Z).
Implicit Types (h : gmap nat (Pool D)) (w : W).

(** The configuration a command line names, once it is loaded. *)
Definition named (configPath : string) (fs : files) (cfg : Config) : Prop :=
  configPath ≠ ""%string ∧ Load configPath fs = Ok cfg.

Lemma Bench_ok linux cfg names h w :
  is_ok (Bench ParseDuration InterfaceByName ParseMAC rnd rnd' rport linux (Some cfg) names h w).2 = true ↔
  linux = true ∧ cfg_Role cfg = RoleClient ∧
  is_ok (open_manager ParseDuration InterfaceByName ParseMAC rnd rnd' rport cfg names h w).2 = true.
Proof.
  unfold Bench, BenchConfig. destruct linux; [|naive_solver]. cbn [negb].
  destruct (String.eqb_spec (cfg_Role cfg) RoleClient) as [E|E]; cbn [negb]; [|naive_solver].
  destruct (open_manager _ _ _ _ _ _ cfg names h w) as [[h1 w1] [up|e]]; cbn; [|naive_solver].
  destruct (Benchmark up h1 w1) as [[h2 w2] out]. by destruct (Manager_Close up h2 w2) as [[? ?] ?].
Qed.

(** The exit codes.  [run] gets as far as the server or the client exactly on
    Linux with a file that loads; [test] exits with 0 exactly when the file loads
    and every line of its report is one that passed; [bench] exits with 0 exactly
    on Linux with the file of a client whose upstreams could all be dialled,
    however the pings go; every other use exits with 1, and none of them touches
    the machine when the file does not load. *)
Theorem exit_codes linux configPath fs names names' h w :
  (exit_code (newRunCmd linux configPath fs) = 0 ↔ linux = true ∧ ∃ cfg, named configPath fs cfg) ∧
  (let '(h', w', lines, r) :=
     newTestCmd ParseDuration InterfaceByName ParseMAC rnd rnd' rport linux configPath fs names names' h w in
   (exit_code r = 0 ↔ (∃ cfg, named configPath fs cfg) ∧ Forall (λ l, l.1 = true) lines) ∧
   ((∀ cfg, ¬ named configPath fs cfg) → h' = h ∧ w' = w)) ∧
  (let '(h', w', lines, r) :=
     newBenchCmd ParseDuration InterfaceByName ParseMAC rnd rnd' rport linux configPath fs names h w in
   (exit_code r = 0 ↔ linux = true ∧ ∃ cfg, named configPath fs cfg ∧ cfg_Role cfg = RoleClient ∧
      is_ok (open_manager ParseDuration InterfaceByName ParseMAC rnd rnd' rport cfg names h w).2 = true) ∧
   ((∀ cfg, ¬ named configPath fs cfg) → h' = h ∧ w' = w)).
Proof.
  unfold newRunCmd, newTestCmd, newBenchCmd, named. destruct (String.eqb_spec configPath "") as [->|Hp].
  { cbn. split; [naive_solver|]. split; (split; [naive_solver|done]). }
  destruct (Load configPath fs) as [cfg|e] eqn:El; cbn [fail_if mbind result_bind].
  2: { split; [split; [done|naive_solver]|]. split.
       - split; [split; [done|naive_solver]|done].
       - destruct linux; (split; [split; [done|naive_solver]|done]). }
  pose proof (Load_valid _ _ _ El) as Hv. split; [|split].
  - unfold RunConfig. destruct linux; cbn; [|naive_solver].
    destruct Hv as (_ & _ & [[-> _]|[-> _]] & _); cbn; naive_solver.
  - destruct (TestConfig _ _ _ _ _ _ linux cfg names names' h w) as [[h1 w1] lines].
    split; [|intros Hn; by destruct (Hn cfg)]. unfold test_ok. destruct (forallb fst lines) eqn:Ef; cbn.
    + split; [|done]. intros _. split; [naive_solver|].
      rewrite forallb_forall in Ef. apply Forall_forall. intros x Hx. by apply Ef, list_elem_of_In.
    + split; [done|]. intros [_ Hall]. rewrite <- not_true_iff_false, forallb_forall in Ef. exfalso. apply Ef.
      intros x Hx. rewrite Forall_forall in Hall. by apply Hall, list_elem_of_In.
  - pose proof (Bench_ok linux cfg names h w) as Hb. destruct linux; cbn [negb].
    2: { split; [split; [done|naive_solver]|]. done. }
    destruct (Bench _ _ _ _ _ _ true (Some cfg) names h w) as [[h1 w1] [lines|e]]; cbn in Hb |- *;
      (split; [|intros Hn; by destruct (Hn cfg)]); split; try done.
    + intros _. split; [done|]. exists cfg. by destruct (proj1 Hb eq_refl) as (_ & ? & ?).
    + intros (_ & cfg' & [_ E] & Hr & Ho). injection E as <-. by discriminate (proj2 Hb (conj eq_refl (conj Hr Ho))).
Qed.
End cli.

(** ** An edit that changes the token *)

Definition server_network : NetworkConfig :=
  mkNetworkConfig "eth0" (mkIPConfig "10.0.0.2:443" "aa:bb:cc:dd:ee:ff") None
    (mkTCPFlagsConfig ["PA"%string] []).

Definition server_with (token : string) : Config :=
  mkConfig "" 1 "server" "s1" "info" None [] [] None (Some ":443"%string) server_network None
    (mkTransportConfig "kcp" 2 (mkKCPConfig "fast" "aes" "secret" 1150 10 3 0 0) (mkQUICConfig "" "" ""))
    (Some (mkAdminConfig "127.0.0.1:9090" true token)).

(** Documents of the example: the token as bytes. *)
#[local] Instance token_codec : YamlCodec := {
  yaml_Marshal c :=
    if decide (c = server_with "old") then Some [1] else if decide (c = server_with "new") then Some [2] else None;
  yaml_Unmarshal b :=
    if decide (b = [1]) then Some (server_with "old") else if decide (b = [2]) then Some (server_with "new") else None }.

#[local] Instance token_codec_laws : YamlLaws.
Proof.
  split. intros c b. simpl. destruct (decide (c = server_with "old")) as [->|].
  { by intros [= <-]. }
  destruct (decide (c = server_with "new")) as [->|]; [|done]. by intros [= <-].
Qed.

Definition the_network : Config → result resolve_error NetworkRuntime :=
  ResolveNetwork (λ _, true) (λ _, Some mac0) 7.

(** The admin server of a process that was started with the token ["old"]. *)
Definition the_admin : Server := mkServer (mkAdminConfig "127.0.0.1:9090" true "old") "c.yaml".

Definition edit_request : request := mkRequest "PUT" "/api/v1/config" "Bearer old" "" (Some [2]).

Lemma edit_applies_witness :
  let '(cur', fs', rs) := handle server_config (Some (server_reload the_network)) the_admin edit_request
    (mkFaults WriteDone false 18) (server_with "old", ∅) in
  Load "c.yaml" fs' = Ok (server_with "new") ∧ cur' = server_with "new".
Proof.
  pose proof (edit_applies the_network the_admin (server_with "old") ∅ edit_request [2] (server_with "new")
    (server_with "new") [2] 18 eq_refl eq_refl eq_refl eq_refl eq_refl eq_refl eq_refl eq_refl) as H.
  destruct (handle _ _ _ _ _ _) as [[cur' fs'] rs]. destruct H as (H1 & _ & H2 & _).
  split; [exact H1|]. apply H2. unfold reloadable. eexists _, _.
  split; [vm_compute; reflexivity|]. split; [vm_compute; reflexivity|]. by vm_compute.
Defined.

(** The file has the new token, the process the old one. *)
Lemma reload_command_witness :
  ReloadConfig (machine server_config (server_reload the_network) the_admin) "c.yaml"
    (server_with "new", {["c.yaml"%string := ([2], 420)]})
  = ((server_with "new", {["c.yaml"%string := ([2], 420)]}), Err (ReloadFailed 401)).
Proof.
  pose proof (reload_command server_config (server_reload the_network) the_admin
    (server_with "new", {["c.yaml"%string := ([2], 420)]}) "c.yaml" (server_with "new")
    (mkAdminConfig "127.0.0.1:9090" true "new")) as H.
  destruct (ReloadConfig _ _ _) as [st' r]. destruct H as [_ H].
  - vm_compute. reflexivity.
  - reflexivity.
  - discriminate.
  - apply (bool_decide_unpack _). vm_compute. exact I.
  - destruct (proj2 (H eq_refl)) as [-> ->]; [discriminate|reflexivity|reflexivity].
Defined.

(** The same file, on the command line. *)
Lemma exit_codes_witness :
  exit_code (newRunCmd true "c.yaml" {["c.yaml"%string := ([2], 420)]}) = 0 ∧
  exit_code (newRunCmd false "c.yaml" {["c.yaml"%string := ([2], 420)]}) ≠ 0.
Proof.
  destruct (exit_codes (W := Mock) (D := unit) no_durations (λ _, true) (λ _, Some mac0) (λ _ _, 7) (λ _ _, 8) 7
    true "c.yaml" {["c.yaml"%string := ([2], 420)]} [] [] ∅ mock0) as [H1 _].
  destruct (exit_codes (W := Mock) (D := unit) no_durations (λ _, true) (λ _, Some mac0) (λ _ _, 7) (λ _ _, 8) 7
    false "c.yaml" {["c.yaml"%string := ([2], 420)]} [] [] ∅ mock0) as [H2 _].
  split.
  - apply H1. split; [reflexivity|]. exists (server_with "new"). split; [discriminate|]. vm_compute. reflexivity.
  - rewrite H2. intros [E _]. discriminate E.
Defined.
