(* ===== verification/Pcap.v ===== *)
(** [internal/pcap]: the packet connection under the tunnel — crafted TCP
    segments with a cycle of flags per peer, the reader that accepts such
    segments, and the polling loop of [ReadFrom].

    gopacket is the interface [Gopacket]: a frame is what the code fills in
    before serializing, a packet what the decoder finds.  Capture
    handles and the life of a connection are in [Capture]. *)

From S2P Require Import Prelude GoStd NetUtil Protocol Config ConfigResolve.

Local Open Scope Z_scope.

(** ** What is put on the wire (send_linux.go) *)

Record TCPOption : Type := mkTCPOption { to_Kind : Z; to_Length : Z; to_Data : list Z }.

Definition OptNop : Z := 1.
Definition OptMSS : Z := 2.
Definition OptWindowScale : Z := 3.
Definition OptSACKPermitted : Z := 4.
Definition OptTimestamps : Z := 8.

Record TCPSegment : Type := mkTCP {
  tcp_SrcPort : Z; tcp_DstPort : Z; tcp_Flags : TCPFlagSet; tcp_Window : Z;
  tcp_Seq : Z; tcp_Ack : Z; tcp_Options : list TCPOption }.

Record frame : Type := mkFrame {
  fr_SrcMAC : list Z; fr_DstMAC : list Z; fr_V6 : bool; fr_TOS : Z; fr_TTL : Z; fr_SrcIP : IP; fr_DstIP : IP;
  fr_TCP : TCPSegment; fr_Payload : list Z }.

Record sendHandle : Type := mkSend {
  sh_hwAddr : list Z;                  (* net.Interface.HardwareAddr *)
  sh_srcIP : IP; sh_routerMAC : list Z; sh_srcPort : Z;
  sh_ipv6 : option (IP * list Z);      (* ipv6SrcIP and ipv6RouterMAC *)
  sh_baseTime : Z; sh_tsCounter : Z;
  sh_localFlags : FlagCycle; sh_remoteByPeer : gmap Z FlagCycle }.

(** [now] is [time.Now().UnixNano()], [hw] the interface's address. *)
Definition newSendHandle (rt : NetworkRuntime) (hw : list Z) (now : Z) : sendHandle :=
  mkSend hw (udp_ip (nr_IPv4 rt)) (nr_RouterMAC rt) (u16 (nr_Port rt))
    ((λ x, (udp_ip x.1, x.2)) <$> nr_IPv6 rt)
    (u32 (Z.quot now Millisecond)) 0 (NewFlagCycle (nr_LocalFlags rt)) ∅.

Definition set_tsCounter v h := let '(mkSend z a b c d e _ g i) := h in mkSend z a b c d e v g i.
Definition set_localFlags v h := let '(mkSend z a b c d e f _ i) := h in mkSend z a b c d e f v i.
Definition set_remoteByPeer v h := let '(mkSend z a b c d e f g _) := h in mkSend z a b c d e f g v.

Definition setRemoteFlags (a : UDPAddr) (flags : list TCPFlagSet) (h : sendHandle) : sendHandle :=
  set_remoteByPeer (<[AddrKey (udp_ip a) (udp_port a) := NewFlagCycle flags]> (sh_remoteByPeer h)) h.

Definition deleteRemoteFlags (a : UDPAddr) (h : sendHandle) : sendHandle :=
  set_remoteByPeer (delete (AddrKey (udp_ip a) (udp_port a)) (sh_remoteByPeer h)) h.

(** [None] would be an index out of range. *)
Definition flagsFor (dst : UDPAddr) (h : sendHandle) : option TCPFlagSet * sendHandle :=
  let key := AddrKey (udp_ip dst) (udp_port dst) in
  match sh_remoteByPeer h !! key with
  | Some c => let '(f, c) := Next c in (f, set_remoteByPeer (<[key := c]> (sh_remoteByPeer h)) h)
  | None => let '(f, c) := Next (sh_localFlags h) in (f, set_localFlags c h)
  end.

Definition buildTCP (dstPort : Z) (f : TCPFlagSet) (h : sendHandle) : TCPSegment * sendHandle :=
  let counter := u32 (sh_tsCounter h + 1) in
  let tsVal := u32 (sh_baseTime h + Z.shiftr counter 3) in
  let seg :=
    if SYN f then
      let seq := u32 (1 + Z.land counter 7) in
      mkTCP (sh_srcPort h) dstPort f 65535 seq (if ACK f then u32 (seq + 1) else 0)
        [mkTCPOption OptMSS 4 [0x05; 0xb4]; mkTCPOption OptSACKPermitted 2 [];
         mkTCPOption OptTimestamps 10 (be_encode 4 tsVal ++ [0; 0; 0; 0]);
         mkTCPOption OptNop 0 []; mkTCPOption OptWindowScale 3 [8]]
    else
      let tsEcr := u32 (tsVal - u32 (counter mod 200 + 50)) in
      let seq := u32 (sh_baseTime h + u32 (Z.shiftl counter 7)) in
      mkTCP (sh_srcPort h) dstPort f 65535 seq (u32 (u32 (seq - Z.land counter 0x3ff) + 1400))
        [mkTCPOption OptNop 0 []; mkTCPOption OptNop 0 [];
         mkTCPOption OptTimestamps 10 (be_encode 4 tsVal ++ be_encode 4 tsEcr)] in
  (seg, set_tsCounter counter h).

(** ** gopacket *)

Inductive network_layer : Type := NetIPv4 (src : IP) | NetIPv6 (src : IP) | NetOther.
Inductive transport_layer : Type := TransTCP (srcPort dstPort : Z) | TransOther.

Record packet : Type := mkPacket {
  pk_Network : option network_layer; pk_Transport : option transport_layer;
  pk_Application : option (list Z) }.

(** [PortIsPayload]: the decoder has no application protocol of its own for the
    port. *)
Class Gopacket : Type := {
  SerializeLayers : frame → option (list Z);
  NewPacket : list Z → packet;
  PortIsPayload : Z → bool }.

(** Decoding what was serialized finds the layers that were filled in, on ports
    whose payload the decoder leaves alone; without a payload there is no
    application layer. *)
Class GopacketLaws `{Gopacket} : Prop := {
  NewPacket_Serialize f b : SerializeLayers f = Some b →
    PortIsPayload (tcp_SrcPort (fr_TCP f)) = true →
    PortIsPayload (tcp_DstPort (fr_TCP f)) = true →
    NewPacket b = mkPacket
      (Some (if fr_V6 f then NetIPv6 (fr_SrcIP f)
             else NetIPv4 (default [] (To4 (fr_SrcIP f)))))
      (Some (TransTCP (tcp_SrcPort (fr_TCP f)) (tcp_DstPort (fr_TCP f))))
      (match fr_Payload f with [] => None | p => Some p end) }.

Inductive pcap_error : Type :=
| NoIPv6 | SerializeError | NotUDPAddr | Closed | DeadlineExceeded
| ReadError | TransmitError | PanicIndex.

Section conn.
Context `{Gopacket}.

Definition finish_frame (mac : list Z) (v6 : bool) (src dst : IP) (payload : list Z) (port : Z)
    (d : UDPAddr) (h : sendHandle) : sendHandle * result pcap_error (list Z) :=
  match flagsFor d h with
  | (None, h) => (h, Err PanicIndex)
  | (Some f, h) =>
      let '(tcp, h) := buildTCP port f h in
      (h, of_option SerializeError
            (SerializeLayers (mkFrame (sh_hwAddr h) mac v6 184 64 src dst tcp payload)))
  end.

Definition writeIPv4 (payload : list Z) (dst : UDPAddr) (h : sendHandle) :
    sendHandle * result pcap_error (list Z) :=
  finish_frame (sh_routerMAC h) false (sh_srcIP h) (default [] (To4 (udp_ip dst))) payload
    (u16 (udp_port dst)) dst h.

Definition writeIPv6 (payload : list Z) (dst : UDPAddr) (h : sendHandle) :
    sendHandle * result pcap_error (list Z) :=
  match sh_ipv6 h with
  | None => (h, Err NoIPv6)
  | Some (src, mac) =>
      finish_frame mac true src (udp_ip dst) payload (u16 (udp_port dst)) dst h
  end.

(** The frame handed to [transmit]. *)
Definition write (payload : list Z) (dst : UDPAddr) (h : sendHandle) :
    sendHandle * result pcap_error (list Z) :=
  match To4 (udp_ip dst) with
  | None => writeIPv6 payload dst h
  | Some _ => writeIPv4 payload dst h
  end.

(** [transmit]; [tx] is whether the frame could be injected. *)
Definition transmit (frame : list Z) (tx : bool) : result pcap_error (list Z) :=
  if tx then Ok frame else Err TransmitError.

(** What [WriteTo]'s select finds: the context cancelled, the deadline passed,
    or neither. *)
Inductive gate : Type := GateClosed | GateDeadline | GateOpen.

(** [dst] is [None] for an address that is not a [*net.UDPAddr].  The frame handed
    to the wire is the third component. *)
Definition WriteTo (g : gate) (payload : list Z) (dst : option UDPAddr) (tx : bool)
    (h : sendHandle) : sendHandle * result pcap_error Z * option (list Z) :=
  match g, dst with
  | GateClosed, _ => (h, Err Closed, None)
  | GateDeadline, _ => (h, Err DeadlineExceeded, None)
  | GateOpen, None => (h, Err NotUDPAddr, None)
  | GateOpen, Some a =>
      match write payload a h with
      | (h, Err e) => (h, Err e, None)
      | (h, Ok f) =>
          match transmit f tx with
          | Ok f => (h, Ok (Z.of_nat (length payload)), Some f)
          | Err e => (h, Err e, None)
          end
      end
  end.

(** ** Reading (recv_linux.go, conn_linux.go) *)

(** The capture filter. *)
Definition bpf_filter (rt : NetworkRuntime) : string :=
  match nr_IPv6 rt with
  | None => "tcp and dst port " +:+ Itoa (nr_Port rt)
  | Some (a6, _) =>
      let p6 := if udp_port a6 =? 0 then nr_Port rt else udp_port a6 in
      "(tcp and dst port " +:+ Itoa (nr_Port rt) +:+ ") or (ip6 and tcp and dst port "
        +:+ Itoa p6 +:+ ")"
  end.

(** [None]: not a segment with a payload. *)
Definition recv_decode (data : list Z) : option (list Z * UDPAddr) :=
  let pkt := NewPacket data in
  ip ← (match pk_Network pkt with
        | Some (NetIPv4 ip) | Some (NetIPv6 ip) => Some ip
        | _ => None
        end);
  port ← (match pk_Transport pkt with Some (TransTCP p _) => Some p | _ => None end);
  payload ← pk_Application pkt;
  Some (payload, mkUDPAddr ip port).

(** One poll: what [ReadPacketData] returns, after the checks at the top of the
    loop. *)
Inductive poll : Type :=
| PollClosed | PollDeadline | PollTimeout | PollEOF | PollError | PollData (b : list Z).

(** [ReadFrom] over the polls to come, into a buffer of [cap] bytes; [None]
    when it is still polling. *)
Fixpoint ReadFrom (cap : nat) (polls : list poll) :
    option (result pcap_error (list Z * UDPAddr) * list poll) :=
  match polls with
  | [] => None
  | PollClosed :: rest => Some (Err Closed, rest)
  | PollDeadline :: rest => Some (Err DeadlineExceeded, rest)
  | PollError :: rest => Some (Err ReadError, rest)
  | PollTimeout :: rest | PollEOF :: rest => ReadFrom cap rest
  | PollData b :: rest =>
      match recv_decode b with
      | None => ReadFrom cap rest
      | Some (payload, a) => Some (Ok (take cap payload, a), rest)
      end
  end.
End conn.

(** ** Flags *)

Definition cycle_ok (c : FlagCycle) : Prop := items c ≠ [] ∧ in_u32 (cycle_idx c).

(** A send handle indexes its cycles within bounds and keeps its 32-bit counters
    in range. *)
Definition send_ok (h : sendHandle) : Prop :=
  cycle_ok (sh_localFlags h) ∧ map_Forall (λ _ c, cycle_ok c) (sh_remoteByPeer h) ∧
  in_u32 (sh_baseTime h) ∧ in_u32 (sh_tsCounter h) ∧ 0 ≤ sh_srcPort h < 65536.

Lemma NewFlagCycle_ok its : cycle_ok (NewFlagCycle its).
Proof. split; [by destruct its|done]. Qed.

Lemma Next_ok c :
  cycle_ok c → cycle_ok (Next c).2 ∧
  ∃ f, (Next c).1 = Some f ∧ f ∈ items c.
Proof.
  intros [Hne Hi]. unfold Next. pose proof (fetch_inc_old _ Hi) as Hold.
  pose proof (fetch_inc_new (cycle_idx c)) as Hnew. destruct (fetch_inc _) as [i idx'].
  simpl in *. subst i. split; [done|]. unfold in_u32 in Hi.
  pose proof (Z.rem_bound_pos (cycle_idx c) (Z.of_nat (length (items c)))) as Hb.
  destruct (lookup_lt_is_Some_2 (items c) (Z.to_nat (Z.rem (cycle_idx c) (Z.of_nat (length (items c))))))
    as [f Hf].
  { destruct (items c) as [|x l]; [done|]. simpl length in *. lia. }
  exists f. split; [done|]. by eapply list_elem_of_lookup_2.
Qed.

Lemma newSendHandle_ok rt hw now : send_ok (newSendHandle rt hw now).
Proof.
  split; [apply NewFlagCycle_ok|]. split; [apply map_Forall_empty|].
  split; [apply u32_range|]. split; [done|apply u16_range].
Qed.

Lemma setRemoteFlags_ok a fl h : send_ok h → send_ok (setRemoteFlags a fl h).
Proof.
  intros (? & Hm & ? & ? & ?). destruct h as [hw s mac sp v6 bt ts lf rp]. simpl in *.
  split; [done|]. split; [|done]. apply map_Forall_insert_2; [apply NewFlagCycle_ok|done].
Qed.

Lemma deleteRemoteFlags_ok a h : send_ok h → send_ok (deleteRemoteFlags a h).
Proof.
  intros (? & Hm & ? & ? & ?). destruct h as [hw s mac sp v6 bt ts lf rp]. simpl in *.
  split; [done|]. split; [|done]. by apply map_Forall_delete.
Qed.

Lemma flagsFor_ok dst h :
  send_ok h → send_ok (flagsFor dst h).2 ∧ is_Some (flagsFor dst h).1.
Proof.
  intros (Hl & Hm & Hb & Ht & Hp). unfold flagsFor.
  destruct (sh_remoteByPeer h !! _) as [c|] eqn:Ec.
  - destruct (Next_ok c (Hm _ _ Ec)) as [Hc (f & Hf & _)]. destruct (Next c) as [f' c']. simpl in *.
    split; [|by eexists]. destruct h; simpl in *. split; [done|]. split; [|done].
    by apply map_Forall_insert_2.
  - destruct (Next_ok _ Hl) as [Hc (f & Hf & _)]. destruct (Next (sh_localFlags h)) as [f' c'].
    simpl in *. split; [|by eexists]. by destruct h.
Qed.

Lemma buildTCP_ok port f h : send_ok h → send_ok (buildTCP port f h).2.
Proof.
  intros (? & ? & ? & ? & ?). destruct h; simpl in *. split; [done|]. split; [done|].
  split; [done|]. split; [apply u32_range|done].
Qed.

Section writes.
Context `{Gopacket}.

Lemma finish_frame_ok mac v6 src dst payload port d h :
  send_ok h → send_ok (finish_frame mac v6 src dst payload port d h).1 ∧
  (finish_frame mac v6 src dst payload port d h).2 ≠ Err PanicIndex.
Proof.
  intros Hok. unfold finish_frame. destruct (flagsFor_ok d h Hok) as [Hok1 [f Hf]].
  destruct (flagsFor d h) as [o h1]. cbn [fst snd] in *. subst o.
  pose proof (buildTCP_ok port f h1 Hok1) as Hok2. destruct (buildTCP port f h1) as [tcp h2].
  cbn [fst snd] in *. split; [exact Hok2|]. by destruct (SerializeLayers _).
Qed.

(** The flags of a peer.  From a new handle on, whatever is sent and
    however the flags of peers are set and cleared, choosing the flags of a
    packet never indexes out of range; setting the flags of a peer makes the
    next packet to it carry the first of them (PSH and ACK when there are
    none), and leaves every peer with another key, in particular the same
    address with another port, as it was. *)
Theorem peer_flags a fl dst h payload (Hok : send_ok h) :
  (∀ rt hw now, send_ok (newSendHandle rt hw now)) ∧
  send_ok (write payload dst h).1 ∧ (write payload dst h).2 ≠ Err PanicIndex ∧
  send_ok (setRemoteFlags a fl h) ∧ send_ok (deleteRemoteFlags a h) ∧
  (flagsFor a (setRemoteFlags a fl h)).1 = Some (default psh_ack (head fl)) ∧
  (AddrKey (udp_ip dst) (udp_port dst) ≠ AddrKey (udp_ip a) (udp_port a) ∨
   (udp_ip dst = udp_ip a ∧ u16 (udp_port dst) ≠ u16 (udp_port a)) →
   (flagsFor dst (setRemoteFlags a fl h)).1 = (flagsFor dst h).1).
Proof.
  split; [apply newSendHandle_ok|].
  split; [|split; [|split; [by apply setRemoteFlags_ok|split; [by apply deleteRemoteFlags_ok|split]]]].
  - unfold write, writeIPv6, writeIPv4. destruct (To4 _); [by apply finish_frame_ok|].
    destruct (sh_ipv6 h) as [[src mac]|]; [by apply finish_frame_ok|done].
  - unfold write, writeIPv6, writeIPv4. destruct (To4 _); [by apply finish_frame_ok|].
    destruct (sh_ipv6 h) as [[src mac]|]; [by apply finish_frame_ok|done].
  - unfold flagsFor, setRemoteFlags. destruct h; simpl. rewrite lookup_insert_eq.
    by destruct fl.
  - intros Hk. assert (AddrKey (udp_ip dst) (udp_port dst) ≠ AddrKey (udp_ip a) (udp_port a)) as Hne.
    { destruct Hk as [Hk1|(Hip & Hp)]; [exact Hk1|]. rewrite Hip. by intros ?%AddrKey_port_inj. }
    unfold flagsFor, setRemoteFlags. destruct h as [hw s mac sp v6 bt ts lf rp]; simpl.
    rewrite lookup_insert_ne by done. destruct (rp !! _) as [c|].
    + by destruct (Next c).
    + by destruct (Next lf).
Qed.
End writes.

(** ** Segments *)

Definition options_length (l : list TCPOption) : Z :=
  foldr (λ o n, (if to_Kind o =? OptNop then 1 else to_Length o) + n) 0 l.

(** The two values of the timestamps option. *)
Definition timestamps (l : list TCPOption) : option (Z * Z) :=
  o ← List.find (λ o, to_Kind o =? OptTimestamps) l;
  Some (be_decode (take 4 (to_Data o)), be_decode (drop 4 (to_Data o))).

Lemma be4 v w :
  in_u32 v → in_u32 w →
  be_decode (take 4 (be_encode 4 v ++ be_encode 4 w)) = v ∧
  be_decode (drop 4 (be_encode 4 v ++ be_encode 4 w)) = w.
Proof.
  intros Hv Hw. rewrite take_app_length', drop_app_length' by by rewrite length_be_encode.
  rewrite !be_decode_encode. split; by apply Z.mod_small.
Qed.

(** A crafted segment is a plausible one.  It has the tunnel's source port,
    the peer's port and flags; its sequence and acknowledgment numbers are 32
    bits; its options fill whole words and fit a TCP header; its timestamp is
    the clock that ticks every eight packets; and a segment without SYN
    acknowledges 377 to 1400 bytes beyond its own sequence number and echoes a
    timestamp 50 to 249 ticks old. *)
Theorem buildTCP_plausible port f h (Hok : send_ok h) :
  let t := (buildTCP port f h).1 in
  let counter := sh_tsCounter (buildTCP port f h).2 in
  tcp_SrcPort t = sh_srcPort h ∧ tcp_DstPort t = port ∧ tcp_Flags t = f ∧
  in_u32 (tcp_Seq t) ∧ in_u32 (tcp_Ack t) ∧
  options_length (tcp_Options t) mod 4 = 0 ∧ options_length (tcp_Options t) ≤ 40 ∧
  counter = u32 (sh_tsCounter h + 1) ∧
  (∃ ecr, timestamps (tcp_Options t) = Some (u32 (sh_baseTime h + counter / 8), ecr) ∧
     (SYN f = false → 50 ≤ u32 (u32 (sh_baseTime h + counter / 8) - ecr) ≤ 249)) ∧
  (SYN f = false → 377 ≤ u32 (tcp_Ack t - tcp_Seq t) ≤ 1400).
Proof.
  cbv zeta. unfold buildTCP. set (c := u32 (sh_tsCounter h + 1)).
  assert (in_u32 c) as Hc by apply u32_range. unfold in_u32 in Hc.
  assert (Z.shiftr c 3 = c / 8) as -> by by rewrite Z.shiftr_div_pow2.
  set (ts := u32 (sh_baseTime h + c / 8)). assert (in_u32 ts) as Hts by apply u32_range.
  assert (0 ≤ Z.land c 7 < 8) as Hl7.
  { replace 7 with (Z.ones 3) by done. rewrite Z.land_ones by done. by apply Z.mod_pos_bound. }
  assert (0 ≤ Z.land c 0x3ff < 1024) as Hl10.
  { replace 0x3ff with (Z.ones 10) by done. rewrite Z.land_ones by done. by apply Z.mod_pos_bound. }
  assert (∀ a b, u32 (u32 a - b) = u32 (a - b)) as Hsub.
  { intros a b. unfold u32. by rewrite Zminus_mod_idemp_l. }
  assert (∀ a b, u32 (a - u32 b) = u32 (a - b)) as Hsub'.
  { intros a b. unfold u32. by rewrite Zminus_mod_idemp_r. }
  assert (sh_tsCounter (set_tsCounter c h) = c) as Hcnt by by destruct h.
  destruct (SYN f) eqn:Es; cbn [fst snd tcp_SrcPort tcp_DstPort tcp_Flags tcp_Seq tcp_Ack tcp_Options];
    rewrite Hcnt.
  - split; [done|]. split; [done|]. split; [done|]. split; [apply u32_range|].
    split; [destruct (ACK f); [apply u32_range|done]|]. split; [done|]. split; [done|].
    split; [done|]. split; [|done]. eexists. split; [|done].
    unfold timestamps. cbn [List.find to_Kind to_Data OptMSS OptSACKPermitted OptTimestamps Z.eqb Pos.eqb mbind option_bind].
    change [0; 0; 0; 0] with (be_encode 4 0).
    by rewrite (proj1 (be4 ts 0 Hts ltac:(done))).
  - split; [done|]. split; [done|]. split; [done|]. split; [apply u32_range|].
    split; [apply u32_range|]. split; [done|]. split; [done|]. split; [done|]. split.
    + eexists. split.
      * unfold timestamps. cbn [List.find to_Kind to_Data OptNop OptTimestamps Z.eqb Pos.eqb mbind option_bind].
        destruct (be4 ts (u32 (ts - u32 (c mod 200 + 50))) Hts (u32_range _)) as [-> ->]. done.
      * intros _. rewrite Hsub'. replace (ts - (ts - u32 (c mod 200 + 50))) with (u32 (c mod 200 + 50)) by lia.
        pose proof (Z.mod_pos_bound c 200 ltac:(lia)).
        assert (u32 (c mod 200 + 50) = c mod 200 + 50) as -> by (apply u32_id; unfold in_u32; lia).
        rewrite u32_id; unfold in_u32; lia.
    + intros _. rewrite Hsub.
      set (s := u32 (sh_baseTime h + u32 (Z.shiftl c 7))).
      assert (u32 (u32 (s - Z.land c 0x3ff) + 1400 - s) = u32 (1400 - Z.land c 0x3ff)) as ->.
      { unfold u32. replace ((s - Z.land c 0x3ff) mod 2 ^ 32 + 1400 - s)
          with ((s - Z.land c 0x3ff) mod 2 ^ 32 + (1400 - s)) by lia.
        rewrite Zplus_mod_idemp_l. f_equal. lia. }
      rewrite u32_id; unfold in_u32; lia.
Qed.

(** ** The two ends together *)

Definition idle `{Gopacket} (p : poll) : bool :=
  match p with
  | PollTimeout | PollEOF => true
  | PollData b => match recv_decode b with None => true | Some _ => false end
  | _ => false
  end.

(** The address a receiver sees. *)
Definition seen_from (dst : UDPAddr) (h : sendHandle) : UDPAddr :=
  mkUDPAddr (match To4 (udp_ip dst) with
             | Some _ => default [] (To4 (sh_srcIP h))
             | None => default [] (fst <$> sh_ipv6 h)
             end) (sh_srcPort h).

Section roundtrip.
Context `{GopacketLaws}.

Lemma ReadFrom_idle cap ps rest :
  Forall (λ p, idle p = true) ps → ReadFrom cap (ps ++ rest) = ReadFrom cap rest.
Proof.
  induction 1 as [|p ps Hp _ IH]; [done|]. destruct p; try done. simpl in *.
  by destruct (recv_decode b).
Qed.

Lemma flagsFor_same dst h :
  sh_srcPort (flagsFor dst h).2 = sh_srcPort h.
Proof.
  unfold flagsFor. destruct (sh_remoteByPeer h !! _) as [c|]; [destruct (Next c)|destruct (Next _)];
    by destruct h.
Qed.

Lemma buildTCP_ports port f h :
  tcp_SrcPort (buildTCP port f h).1 = sh_srcPort h ∧ tcp_DstPort (buildTCP port f h).1 = port.
Proof. unfold buildTCP. by destruct (SYN f). Qed.

Lemma finish_frame_decodes mac v6 src dst payload port d h h' b :
  finish_frame mac v6 src dst payload port d h = (h', Ok b) →
  PortIsPayload (sh_srcPort h) = true → PortIsPayload port = true →
  recv_decode b = match payload with
                  | [] => None
                  | _ => Some (payload, mkUDPAddr
                           (if v6 then src else default [] (To4 src)) (sh_srcPort h))
                  end.
Proof.
  unfold finish_frame. intros E Hs Hd. pose proof (flagsFor_same d h) as Hp.
  destruct (flagsFor d h) as [[f|] h1]; [|done]. cbn [snd] in Hp.
  pose proof (buildTCP_ports port f h1) as [Hsp Hdp].
  destruct (buildTCP port f h1) as [tcp h2]. cbn [fst] in *.
  destruct (SerializeLayers _) as [b'|] eqn:Es; [|done]. simplify_eq/=.
  unfold recv_decode. rewrite (NewPacket_Serialize _ _ Es); cbn [fr_TCP]; [|congruence|congruence].
  cbn [pk_Network pk_Transport pk_Application fr_V6 fr_SrcIP fr_TCP fr_Payload].
  rewrite Hsp, Hp. by destruct v6, payload.
Qed.

Lemma write_decodes payload dst h h' b :
  write payload dst h = (h', Ok b) →
  PortIsPayload (sh_srcPort h) = true → PortIsPayload (u16 (udp_port dst)) = true →
  recv_decode b = match payload with [] => None | _ => Some (payload, seen_from dst h) end.
Proof.
  unfold write, seen_from, writeIPv4, writeIPv6. intros E Hs Hd. destruct (To4 (udp_ip dst)).
  - by rewrite (finish_frame_decodes _ _ _ _ _ _ _ _ _ _ E).
  - destruct (sh_ipv6 h) as [[src mac]|]; [|done].
    by rewrite (finish_frame_decodes _ _ _ _ _ _ _ _ _ _ E).
Qed.

(** C31: a datagram crosses the wire, between two ports for which gopacket has no
    decoder of its own.  (Which these are is the library's: behind others, 53 and
    443 among them, it decodes the payload as the protocol of that port, and what
    arrives is not what is stated here.)  Then, when [WriteTo] reports success, it
    reports the whole payload and put exactly one frame on the wire; the peer's
    [ReadFrom], after any number of timeouts, idle end-of-file polls and frames
    that are not segments with a payload, returns that payload, cut to the
    buffer, with the sender's address of the family in use and its port.  An
    empty payload is never delivered.  [WriteTo] on a closed or expired
    connection, or to a foreign address, sends nothing. *)
Theorem packet_roundtrip g payload dst tx h h' n sent cap ps rest
    (E : WriteTo g payload dst tx h = (h', Ok n, sent))
    (Hidle : Forall (λ p, idle p = true) ps)
    (Hs : PortIsPayload (sh_srcPort h) = true)
    (Hd : ∀ a, dst = Some a → PortIsPayload (u16 (udp_port a)) = true) :
  n = Z.of_nat (length payload) ∧
  (∀ g' d', g' ≠ GateOpen ∨ d' = None →
     ∃ e, WriteTo g' payload d' tx h = (h, Err e, None)) ∧
  ∃ a b, dst = Some a ∧ sent = Some b ∧
    ReadFrom cap (ps ++ PollData b :: rest) =
      match payload with
      | [] => ReadFrom cap rest
      | _ => Some (Ok (take cap payload, seen_from a h), rest)
      end.
Proof.
  assert (∀ g' d', g' ≠ GateOpen ∨ d' = None →
     ∃ e, WriteTo g' payload d' tx h = (h, Err e, None)) as Hrefused.
  { intros [] d' [Hg| ->]; try done; by eexists. }
  unfold WriteTo in E. destruct g; [done|done|]. destruct dst as [a|]; [|done].
  destruct (write payload a h) as [h1 [b|]] eqn:Ew; [|done]. destruct tx; [|done].
  simplify_eq/=. split; [done|]. split; [done|]. exists a, b. split; [done|]. split; [done|].
  rewrite ReadFrom_idle by done. simpl.
  rewrite (write_decodes _ _ _ _ _ Ew Hs (Hd a eq_refl)). by destruct payload.
Qed.
End roundtrip.

(** ** Concrete instances *)

(** A codec of frames: family, source, ports, payload. *)
Definition toy_source (f : frame) : IP :=
  if fr_V6 f then fr_SrcIP f else default [] (To4 (fr_SrcIP f)).

#[export] Instance toy_gopacket : Gopacket := {
  SerializeLayers f := Some (Z.b2z (fr_V6 f) :: Z.of_nat (length (toy_source f)) ::
    toy_source f ++ tcp_SrcPort (fr_TCP f) :: tcp_DstPort (fr_TCP f) :: fr_Payload f);
  NewPacket b :=
    match b with
    | v :: n :: b =>
        let ip := take (Z.to_nat n) b in
        match drop (Z.to_nat n) b with
        | sp :: dp :: pl =>
            mkPacket (Some (if v =? 1 then NetIPv6 ip else NetIPv4 ip)) (Some (TransTCP sp dp))
              (match pl with [] => None | _ => Some pl end)
        | _ => mkPacket None None None
        end
    | _ => mkPacket None None None
    end;
  PortIsPayload p := negb (p =? 53) }.

#[export] Instance toy_gopacket_laws : GopacketLaws.
Proof.
  split. intros f b [= <-] _ _. unfold NewPacket, toy_gopacket.
  rewrite Nat2Z.id, take_app_length, drop_app_length. unfold toy_source.
  by destruct (fr_V6 f), (fr_Payload f).
Qed.

Definition sample_handle : sendHandle :=
  newSendHandle
    (mkNetworkRuntime "eth0" (mkUDPAddr [10; 0; 0; 2] 9999) [1; 2; 3; 4; 5; 6] None 9999
       [psh_ack] [psh_ack] 0) [6; 5; 4; 3; 2; 1] 1700000000000000000.

Definition sample_peer : UDPAddr := mkUDPAddr [203; 0; 113; 7] 9999.

Definition syn : TCPFlagSet := mkFlags false true false false false false false false false.

Lemma peer_flags_witness :
  (flagsFor sample_peer (setRemoteFlags sample_peer [syn; psh_ack] sample_handle)).1 = Some syn ∧
  (flagsFor (mkUDPAddr [203; 0; 113; 7] 1000)
     (setRemoteFlags sample_peer [syn; psh_ack] sample_handle)).1 = Some psh_ack.
Proof.
  destruct (peer_flags sample_peer [syn; psh_ack] (mkUDPAddr [203; 0; 113; 7] 1000) sample_handle
              [42] (newSendHandle_ok _ _ _)) as (_ & _ & _ & _ & _ & H1 & H2).
  split; [exact H1|]. rewrite H2; [by vm_compute|]. right. split; [reflexivity|by intros [=]].
Defined.

Lemma buildTCP_plausible_witness :
  options_length (tcp_Options (buildTCP 9999 psh_ack sample_handle).1) mod 4 = 0 ∧
  377 ≤ u32 (tcp_Ack (buildTCP 9999 psh_ack sample_handle).1 -
             tcp_Seq (buildTCP 9999 psh_ack sample_handle).1) ≤ 1400.
Proof.
  destruct (buildTCP_plausible 9999 psh_ack sample_handle (newSendHandle_ok _ _ _))
    as (_ & _ & _ & _ & _ & Hl & _ & _ & _ & Ha).
  split; [exact Hl|by apply Ha].
Defined.

Definition sample_write : sendHandle * result pcap_error Z * option (list Z) :=
  WriteTo GateOpen [7; 8; 9] (Some sample_peer) true sample_handle.

Lemma packet_roundtrip_witness :
  ReadFrom 2 [PollTimeout; PollEOF; PollData (default [] sample_write.2); PollClosed] =
  Some (Ok ([7; 8], mkUDPAddr [10; 0; 0; 2] 9999), [PollClosed]).
Proof.
  assert (sample_write = (sample_write.1.1, Ok 3, sample_write.2)) as E by by vm_compute.
  destruct (packet_roundtrip GateOpen [7; 8; 9] (Some sample_peer) true sample_handle _ _ _ 2
              [PollTimeout; PollEOF] [PollClosed] E) as (_ & _ & a & b & Ha & Hb & Hr).
  - by repeat constructor.
  - by vm_compute.
  - intros a [= <-]. by vm_compute.
  - rewrite Hb. injection Ha as <-. exact Hr.
Defined.
