(* ===== verification/Capture.v ===== *)
(** The capture handles of [internal/pcap]: handle_linux.go, and of conn_linux.go,
    send_linux.go and recv_linux.go what opens, configures and closes them; the
    deadlines of a connection and the read loop against what other goroutines
    do to the connection meanwhile.

    libpcap is the interface [Libpcap] with the table of the handles that exist
    as its observable state.  [pcap_refines] shows that connections kept in a
    table do what [Transport.ConnsLaws] asks of [PcapOpen] and [conn_Close]. *)

From S2P Require Import Prelude GoStd NetUtil Config ConfigResolve Transport Pcap.

Local Open Scope Z_scope.

(** ** libpcap *)

Inductive capture_option : Type :=
| BufferSize (n : Z) | SnapLen (n : Z) | Promisc (b : bool) | ReadTimeout (d : Z)
| ImmediateMode (b : bool).

Inductive direction : Type := DirectionOut | DirectionIn.

(** A handle as libpcap knows it, with the options set so far. *)
Record capture : Type := mkCapture {
  cap_iface : string; cap_options : list capture_option; cap_active : bool;
  cap_direction : option direction; cap_filter : option string }.

(** [None] and [false] are errors. *)
Class Libpcap (W : Type) : Type := {
  NewInactiveHandle : string → W → W * option nat;
  SetOption : nat → capture_option → W → W * bool;
  Activate : nat → W → W * option nat;
  CleanUp : nat → W → W;
  SetDirection : nat → direction → W → W * bool;
  SetBPFFilter : nat → string → W → W * bool;
  HandleClose : nat → W → W;
  BlockForever : Z }.

Definition add_option (o : capture_option) (c : capture) : capture :=
  mkCapture (cap_iface c) (cap_options c ++ [o]) (cap_active c) (cap_direction c) (cap_filter c).
Definition activated (c : capture) : capture :=
  mkCapture (cap_iface c) (cap_options c) true (cap_direction c) (cap_filter c).
Definition set_direction (d : direction) (c : capture) : capture :=
  mkCapture (cap_iface c) (cap_options c) (cap_active c) (Some d) (cap_filter c).
Definition set_filter (f : string) (c : capture) : capture :=
  mkCapture (cap_iface c) (cap_options c) (cap_active c) (cap_direction c) (Some f).

(** A call that fails changes no handle; activating makes a second handle out of
    the inactive one, which stays until it is cleaned up. *)
Class LibpcapLaws (W : Type) `{Libpcap W} : Type := {
  captures : W → gmap nat capture;
  NewInactiveHandle_caps i w :
    match NewInactiveHandle i w with
    | (w', Some h) => captures w !! h = None ∧
        captures w' = <[h := mkCapture i [] false None None]> (captures w)
    | (w', None) => captures w' = captures w end;
  SetOption_caps h o w :
    captures (SetOption h o w).1 =
      if (SetOption h o w).2 then alter (add_option o) h (captures w) else captures w;
  Activate_caps h w c : captures w !! h = Some c →
    match Activate h w with
    | (w', Some a) => captures w !! a = None ∧ captures w' = <[a := activated c]> (captures w)
    | (w', None) => captures w' = captures w end;
  CleanUp_caps h w : captures (CleanUp h w) = delete h (captures w);
  SetDirection_caps h d w :
    captures (SetDirection h d w).1 =
      if (SetDirection h d w).2 then alter (set_direction d) h (captures w) else captures w;
  SetBPFFilter_caps h f w :
    captures (SetBPFFilter h f w).1 =
      if (SetBPFFilter h f w).2 then alter (set_filter f) h (captures w) else captures w;
  HandleClose_caps h w : captures (HandleClose h w) = delete h (captures w) }.

Inductive capture_error : Type :=
| CapInactive | CapBufferSize | CapSnapLen | CapPromisc | CapTimeout | CapImmediate
| CapActivate | CapDirection | CapFilter.

(** ** Opening handles *)

Section open.
Context {W : Type} `{Libpcap W}.

(** The setters of [openHandle], in order, with their errors. *)
Definition handle_options (rt : NetworkRuntime) (timeout : Z) : list (capture_option * capture_error) :=
  [(BufferSize (nr_Sockbuf rt), CapBufferSize); (SnapLen 65536, CapSnapLen);
   (Promisc true, CapPromisc); (ReadTimeout timeout, CapTimeout);
   (ImmediateMode true, CapImmediate)].

Fixpoint set_options (h : nat) (l : list (capture_option * capture_error)) (w : W) :
    W * result capture_error unit :=
  match l with
  | [] => (w, Ok tt)
  | (o, e) :: l =>
      match SetOption h o w with
      | (w, false) => (w, Err e)
      | (w, true) => set_options h l w
      end
  end.

(** The deferred [CleanUp] runs on every path after the inactive handle exists. *)
Definition openHandle (rt : NetworkRuntime) (timeout : Z) (w : W) : W * result capture_error nat :=
  match NewInactiveHandle (nr_Interface rt) w with
  | (w, None) => (w, Err CapInactive)
  | (w, Some inactive) =>
      match set_options inactive (handle_options rt timeout) w with
      | (w, Err e) => (CleanUp inactive w, Err e)
      | (w, Ok _) =>
          match Activate inactive w with
          | (w, None) => (CleanUp inactive w, Err CapActivate)
          | (w, Some handle) => (CleanUp inactive w, Ok handle)
          end
      end
  end.

Definition readTimeout : Z := 100 * Millisecond.

(** [newSendHandle] up to the record it builds, which is [Pcap.newSendHandle]. *)
Definition open_send (rt : NetworkRuntime) (w : W) : W * result capture_error nat :=
  match openHandle rt BlockForever w with
  | (w, Err e) => (w, Err e)
  | (w, Ok handle) =>
      match SetDirection handle DirectionOut w with
      | (w, false) => (HandleClose handle w, Err CapDirection)
      | (w, true) => (w, Ok handle)
      end
  end.

Definition newRecvHandle (rt : NetworkRuntime) (w : W) : W * result capture_error nat :=
  match openHandle rt readTimeout w with
  | (w, Err e) => (w, Err e)
  | (w, Ok handle) =>
      match SetDirection handle DirectionIn w with
      | (w, false) => (HandleClose handle w, Err CapDirection)
      | (w, true) =>
          match SetBPFFilter handle (bpf_filter rt) w with
          | (w, false) => (HandleClose handle w, Err CapFilter)
          | (w, true) => (w, Ok handle)
          end
      end
  end.

(** A connection: the two handles, the state of the sender, the stored deadlines
    ([None]: none stored, or the zero time), and whether its context is done. *)
Record Conn : Type := mkConn {
  cn_net : NetworkRuntime; cn_send : nat; cn_sender : sendHandle; cn_recv : nat;
  cn_readDeadline : option Z; cn_writeDeadline : option Z; cn_done : bool }.

Definition Open (rt : NetworkRuntime) (hw : list Z) (now : Z) (w : W) :
    W * result capture_error Conn :=
  match open_send rt w with
  | (w, Err e) => (w, Err e)
  | (w, Ok send) =>
      match newRecvHandle rt w with
      | (w, Err e) => (HandleClose send w, Err e)
      | (w, Ok recv) => (w, Ok (mkConn rt send (newSendHandle rt hw now) recv None None false))
      end
  end.

Definition cancelled (c : Conn) : Conn :=
  mkConn (cn_net c) (cn_send c) (cn_sender c) (cn_recv c) (cn_readDeadline c) (cn_writeDeadline c) true.

Definition Conn_Close (c : Conn) (w : W) : Conn * W :=
  (cancelled c, HandleClose (cn_recv c) (HandleClose (cn_send c) w)).

Definition Probe_interface (rt : NetworkRuntime) (hw : list Z) (now : Z) (w : W) :
    W * result capture_error unit :=
  match Open rt hw now w with
  | (w, Err e) => (w, Err e)
  | (w, Ok c) => ((Conn_Close c w).2, Ok tt)
  end.
End open.

(** ** Deadlines and the read loop *)

Definition SetReadDeadline (d : option Z) (c : Conn) : Conn :=
  mkConn (cn_net c) (cn_send c) (cn_sender c) (cn_recv c) d (cn_writeDeadline c) (cn_done c).
Definition SetWriteDeadline (d : option Z) (c : Conn) : Conn :=
  mkConn (cn_net c) (cn_send c) (cn_sender c) (cn_recv c) (cn_readDeadline c) d (cn_done c).
Definition SetDeadline (d : option Z) (c : Conn) : Conn := SetWriteDeadline d (SetReadDeadline d c).

Definition with_sender (s : sendHandle) (c : Conn) : Conn :=
  mkConn (cn_net c) (cn_send c) s (cn_recv c) (cn_readDeadline c) (cn_writeDeadline c) (cn_done c).

(** [None]: an address that is not a [*net.UDPAddr]; nothing is stored for it. *)
Definition Conn_SetRemoteTCPFlags (a : option UDPAddr) (fl : list TCPFlagSet) (c : Conn) : Conn :=
  match a with Some a => with_sender (setRemoteFlags a fl (cn_sender c)) c | None => c end.
Definition ClearRemoteTCPFlags (a : option UDPAddr) (c : Conn) : Conn :=
  match a with Some a => with_sender (deleteRemoteFlags a (cn_sender c)) c | None => c end.

Definition expired (deadline : option Z) (now : Z) : bool :=
  match deadline with Some d => d <=? now | None => false end.

(** The [select] with a default branch: a ready channel, any of them ([pick])
    when both are. *)
Definition select_gate (deadline : option Z) (now : Z) (done pick : bool) : gate :=
  if done && (negb (expired deadline now) || pick) then GateClosed
  else if expired deadline now then GateDeadline else GateOpen.

Section io.
Context `{Gopacket}.

(** [WriteTo] of a connection; the third component is the frame on the wire. *)
Definition Conn_WriteTo (payload : list Z) (dst : option UDPAddr) (now : Z) (pick tx : bool)
    (c : Conn) : Conn * result pcap_error Z * option (list Z) :=
  let '(s, r, f) :=
    WriteTo (select_gate (cn_writeDeadline c) now (cn_done c) pick) payload dst tx (cn_sender c) in
  (with_sender s c, r, f).

(** What [ReadPacketData] can return. *)
Inductive read_outcome : Type := RTimeout | REOF | RError | RData (b : list Z).

(** While a read is pending: other goroutines store a deadline or close the
    connection, and the loop takes its turns. *)
Inductive read_event : Type :=
| EvSetReadDeadline (d : option Z) | EvClose | EvTurn (now : Z) (pick : bool) (r : read_outcome).

(** The loop of [ReadFrom]; [deadline] is what was stored when it was entered.
    [None]: still polling. *)
Fixpoint ReadFrom_loop (cap : nat) (deadline : option Z) (c : Conn) (evs : list read_event) :
    option (result pcap_error (list Z * UDPAddr) * Conn * list read_event) :=
  match evs with
  | [] => None
  | EvSetReadDeadline d :: evs => ReadFrom_loop cap deadline (SetReadDeadline d c) evs
  | EvClose :: evs => ReadFrom_loop cap deadline (cancelled c) evs
  | EvTurn now pick r :: evs =>
      match select_gate deadline now (cn_done c) pick with
      | GateClosed => Some (Err Closed, c, evs)
      | GateDeadline => Some (Err DeadlineExceeded, c, evs)
      | GateOpen =>
          match r with
          | RTimeout | REOF => ReadFrom_loop cap deadline c evs
          | RError => Some (Err ReadError, c, evs)
          | RData b =>
              match recv_decode b with
              | None => ReadFrom_loop cap deadline c evs
              | Some (payload, a) => Some (Ok (take cap payload, a), c, evs)
              end
          end
      end
  end.

Definition Conn_ReadFrom (cap : nat) (c : Conn) (evs : list read_event) :
    option (result pcap_error (list Z * UDPAddr) * Conn * list read_event) :=
  ReadFrom_loop cap (cn_readDeadline c) c evs.
End io.

(** ** What a handle becomes *)

Section laws.
Context {W : Type} `{LibpcapLaws W}.
Implicit Types (w : W).

Definition opened (rt : NetworkRuntime) (timeout : Z) : capture :=
  mkCapture (nr_Interface rt) (fst <$> handle_options rt timeout) true None None.

(** The two handles of a connection. *)
Definition send_capture (rt : NetworkRuntime) : capture :=
  set_direction DirectionOut (opened rt BlockForever).
Definition recv_capture (rt : NetworkRuntime) : capture :=
  set_filter (bpf_filter rt) (set_direction DirectionIn (opened rt readTimeout)).

Definition with_options (l : list capture_option) (c : capture) : capture :=
  mkCapture (cap_iface c) (cap_options c ++ l) (cap_active c) (cap_direction c) (cap_filter c).

Lemma set_options_caps h l c w m :
  captures w = <[h := c]> m →
  ∃ c', captures (set_options h l w).1 = <[h := c']> m ∧
    ((set_options h l w).2 = Ok tt → c' = with_options (fst <$> l) c).
Proof.
  revert c w. induction l as [|[o e] l IH]; intros c w Ec; cbn [set_options].
  { exists c. split; [done|]. intros _. unfold with_options. rewrite app_nil_r. by destruct c. }
  pose proof (SetOption_caps h o w) as Eo. destruct (SetOption h o w) as [w1 []]; cbn [fst snd] in *.
  - rewrite Ec, alter_insert_eq in Eo. destruct (IH _ _ Eo) as (c' & E' & Ok'). exists c'. split; [done|].
    intros Hok. rewrite (Ok' Hok). unfold with_options, add_option. simpl. by rewrite <- (assoc_L (++)).
  - exists c. split; [congruence|done].
Qed.

Lemma openHandle_caps rt timeout w :
  match openHandle rt timeout w with
  | (w', Err _) => captures w' = captures w
  | (w', Ok h) => captures w !! h = None ∧ captures w' = <[h := opened rt timeout]> (captures w)
  end.
Proof.
  unfold openHandle. pose proof (NewInactiveHandle_caps (nr_Interface rt) w) as Ei.
  destruct (NewInactiveHandle _ w) as [w1 [i|]]; [|done]. destruct Ei as [Hi Ei].
  destruct (set_options_caps i (handle_options rt timeout) _ _ _ Ei) as (c & Ec & Hok).
  destruct (set_options _ _ w1) as [w2 [[]|e]]; cbn [fst snd] in *.
  2: { by rewrite CleanUp_caps, Ec, delete_insert_id. }
  pose proof (Activate_caps i w2 c ltac:(by rewrite Ec, lookup_insert_eq)) as Ea.
  destruct (Activate i w2) as [w3 [a|]]; rewrite CleanUp_caps.
  2: { by rewrite Ea, Ec, delete_insert_id. }
  destruct Ea as [Ha ->]. rewrite Ec in *. apply lookup_insert_None in Ha as [Ha Hne].
  split; [done|]. rewrite delete_insert_ne, delete_insert_id, (Hok eq_refl) by done. done.
Qed.

(** A further call on a handle that was just opened: when it fails the handle is
    closed again. *)
Lemma open_then_caps m h c c' w' ok :
  m !! h = None → captures w' = (if ok : bool then <[h := c']> m else <[h := c]> m) →
  if ok then captures w' = <[h := c']> m else captures (HandleClose h w') = m.
Proof.
  intros Hh E. destruct ok; [done|]. by rewrite HandleClose_caps, E, delete_insert_id.
Qed.

Lemma open_send_caps rt w :
  match open_send rt w with
  | (w', Err _) => captures w' = captures w
  | (w', Ok h) => captures w !! h = None ∧ captures w' = <[h := send_capture rt]> (captures w)
  end.
Proof.
  unfold open_send. pose proof (openHandle_caps rt BlockForever w) as Eo.
  destruct (openHandle rt BlockForever w) as [w1 [h|e]]; [|done]. destruct Eo as [Hh Eo].
  pose proof (SetDirection_caps h DirectionOut w1) as Ed. rewrite Eo, alter_insert_eq in Ed.
  apply (open_then_caps (captures w) h) in Ed; [|done].
  destruct (SetDirection h DirectionOut w1) as [w2 []]; done.
Qed.

Lemma newRecvHandle_caps rt w :
  match newRecvHandle rt w with
  | (w', Err _) => captures w' = captures w
  | (w', Ok h) => captures w !! h = None ∧ captures w' = <[h := recv_capture rt]> (captures w)
  end.
Proof.
  unfold newRecvHandle. pose proof (openHandle_caps rt readTimeout w) as Eo.
  destruct (openHandle rt readTimeout w) as [w1 [h|e]]; [|done]. destruct Eo as [Hh Eo].
  pose proof (SetDirection_caps h DirectionIn w1) as Ed. rewrite Eo, alter_insert_eq in Ed.
  apply (open_then_caps (captures w) h) in Ed; [|done].
  destruct (SetDirection h DirectionIn w1) as [w2 []]; cbn [fst snd] in Ed; [|done].
  pose proof (SetBPFFilter_caps h (bpf_filter rt) w2) as Ef. rewrite Ed, alter_insert_eq in Ef.
  apply (open_then_caps (captures w) h) in Ef; [|done].
  destruct (SetBPFFilter h (bpf_filter rt) w2) as [w3 []]; done.
Qed.

Lemma Open_caps rt hw now w :
  match Open rt hw now w with
  | (w', Err _) => captures w' = captures w
  | (w', Ok c) =>
      c = mkConn rt (cn_send c) (newSendHandle rt hw now) (cn_recv c) None None false ∧
      captures w !! cn_send c = None ∧ captures w !! cn_recv c = None ∧ cn_send c ≠ cn_recv c ∧
      captures w' = <[cn_recv c := recv_capture rt]> (<[cn_send c := send_capture rt]> (captures w))
  end.
Proof.
  unfold Open. pose proof (open_send_caps rt w) as Es.
  destruct (open_send rt w) as [w1 [send|e]]; [|done]. destruct Es as [Hs Es].
  pose proof (newRecvHandle_caps rt w1) as Er. rewrite Es in Er.
  destruct (newRecvHandle rt w1) as [w2 [recv|e]].
  - destruct Er as [[Hr Hne]%lookup_insert_None Er]. done.
  - by rewrite HandleClose_caps, Er, delete_insert_id.
Qed.

Lemma Conn_Close_caps c w :
  captures (Conn_Close c w).2 = delete (cn_recv c) (delete (cn_send c) (captures w)).
Proof. unfold Conn_Close. simpl. by rewrite !HandleClose_caps. Qed.

(** C27: opening a packet connection leaks no capture handle.  Whichever call of
    libpcap fails, for either of the two handles, what exists afterwards is what
    existed before, inactive handles included; on success exactly two handles
    were added, both active on the configured interface with the configured buffer
    size, 65536 bytes of each packet, promiscuous and immediate mode: one for
    outgoing packets whose reads never time out and that has no filter, and one for
    incoming packets that times out after 100 ms and has the filter of the TCP
    packets to the tunnel's port (over IPv6 to its own port, when it has one);
    closing the connection removes exactly these two, as does the probe that only
    looks whether it works; and closing it again is harmless. *)
Theorem capture_lifecycle rt hw now w :
  (match Open rt hw now w with
   | (w', Err _) => captures w' = captures w
   | (w', Ok c) =>
       captures w !! cn_send c = None ∧ captures w !! cn_recv c = None ∧
       captures w' !! cn_send c = Some (mkCapture (nr_Interface rt)
         [BufferSize (nr_Sockbuf rt); SnapLen 65536; Promisc true; ReadTimeout BlockForever;
          ImmediateMode true] true (Some DirectionOut) None) ∧
       captures w' !! cn_recv c = Some (mkCapture (nr_Interface rt)
         [BufferSize (nr_Sockbuf rt); SnapLen 65536; Promisc true; ReadTimeout 100000000;
          ImmediateMode true] true (Some DirectionIn)
         (Some match nr_IPv6 rt with
               | None => "tcp and dst port " +:+ Itoa (nr_Port rt)
               | Some (a6, _) =>
                   "(tcp and dst port " +:+ Itoa (nr_Port rt) +:+ ") or (ip6 and tcp and dst port "
                   +:+ (if udp_port a6 =? 0 then Itoa (nr_Port rt) else Itoa (udp_port a6)) +:+ ")"
               end)) ∧
       (∀ h, h ≠ cn_send c → h ≠ cn_recv c → captures w' !! h = captures w !! h) ∧
       captures (Conn_Close c w').2 = captures w ∧
       captures (Conn_Close (Conn_Close c w').1 (Conn_Close c w').2).2 = captures w
   end) ∧
  captures (Probe_interface rt hw now w).1 = captures w ∧
  is_ok (Probe_interface rt hw now w).2 = is_ok (Open rt hw now w).2.
Proof.
  unfold Probe_interface. pose proof (Open_caps rt hw now w) as Eo.
  destruct (Open rt hw now w) as [w' [c|e]]; [|done].
  destruct Eo as (_ & Hs & Hr & Hne & Eo).
  assert (captures (Conn_Close c w').2 = captures w) as Ec.
  { rewrite Conn_Close_caps, Eo, delete_insert_ne by done.
    by rewrite (delete_insert_id (captures w)), delete_insert_id. }
  split; [|done]. split; [done|]. split; [done|].
  split; [by rewrite Eo, lookup_insert_ne, lookup_insert_eq|]. split.
  { rewrite Eo, lookup_insert_eq. unfold recv_capture, bpf_filter, set_filter, set_direction. simpl.
    destruct (nr_IPv6 rt) as [[a6 g]|]; [|done]. by destruct (udp_port a6 =? 0). }
  split; [intros h Hs' Hr'; by rewrite Eo, !lookup_insert_ne by congruence|]. split; [done|].
  rewrite Conn_Close_caps. cbn [Conn_Close fst cancelled cn_recv cn_send].
  rewrite Ec, !delete_id; [done|done|by rewrite delete_id].
Qed.
End laws.

(** ** A table of connections as the interface of [Transport] *)

Section table.
Context {W : Type} `{LibpcapLaws W}.
Context (hw : list Z) (now : Z).
Implicit Types (s : W * gmap nat Conn) (base : gmap nat capture).

(** [Transport.PcapOpen], [conn_Close] and [SetRemoteTCPFlags] of a connection
    that the table holds under a handle. *)
Definition table_PcapOpen (rt : NetworkRuntime) s : (W * gmap nat Conn) * option nat :=
  let '(w, t) := s in
  match Open rt hw now w with
  | (w, Err _) => ((w, t), None)
  | (w, Ok c) => let h := fresh (dom t) in ((w, <[h := c]> t), Some h)
  end.

Definition table_Close (h : nat) s : W * gmap nat Conn :=
  let '(w, t) := s in
  match t !! h with Some c => ((Conn_Close c w).2, delete h t) | None => (w, t) end.

Definition table_SetFlags (h : nat) (a : UDPAddr) (fl : list TCPFlagSet) s : W * gmap nat Conn :=
  let '(w, t) := s in (w, alter (Conn_SetRemoteTCPFlags (Some a) fl) h t).

Definition owns (c : Conn) (h : nat) : Prop := h = cn_send c ∨ h = cn_recv c.

(** The capture handles that exist are those of [base] and two of each connection
    of the table, as [Open] leaves them; no two connections share one. *)
Record refines base s : Prop := mkRefines {
  rf_base h : (∀ k c, s.2 !! k = Some c → ¬ owns c h) → captures s.1 !! h = base !! h;
  rf_conn k c : s.2 !! k = Some c → cn_send c ≠ cn_recv c ∧
    captures s.1 !! cn_send c = Some (send_capture (cn_net c)) ∧
    captures s.1 !! cn_recv c = Some (recv_capture (cn_net c));
  rf_new k c h : s.2 !! k = Some c → owns c h → base !! h = None;
  rf_inj k1 k2 c1 c2 h : s.2 !! k1 = Some c1 → s.2 !! k2 = Some c2 →
    owns c1 h → owns c2 h → k1 = k2 }.

Lemma refines_owned base s k c h :
  refines base s → s.2 !! k = Some c → owns c h → is_Some (captures s.1 !! h).
Proof. intros Hr Hk [->| ->]; destruct (rf_conn _ _ Hr k c Hk) as (_ & ? & ?); eauto. Qed.

Lemma refines_free base s h :
  refines base s → captures s.1 !! h = None →
  base !! h = None ∧ ∀ k c, s.2 !! k = Some c → ¬ owns c h.
Proof.
  intros Hr Hn. assert (∀ k c, s.2 !! k = Some c → ¬ owns c h) as Ho.
  { intros k c Hk Hc. destruct (refines_owned _ _ _ _ _ Hr Hk Hc) as [x E]. congruence. }
  split; [|done]. by rewrite <- (rf_base _ _ Hr h Ho).
Qed.

Lemma table_PcapOpen_refines base rt s :
  refines base s → refines base (table_PcapOpen rt s).1.
Proof.
  intros Hr. destruct s as [w t]. unfold table_PcapOpen. pose proof (Open_caps rt hw now w) as Eo.
  destruct (Open rt hw now w) as [w' [c|e]]; cbn [fst].
  2: { destruct Hr. split; simpl in *; [by rewrite Eo|by rewrite Eo|done|done]. }
  destruct Eo as (Ec & Hs & Hv & Hne & Eo). set (k := fresh (dom t)).
  assert (t !! k = None) as Hk by apply not_elem_of_dom, is_fresh.
  destruct (refines_free _ _ _ Hr Hs) as [Bs Os]. destruct (refines_free _ _ _ Hr Hv) as [Bv Ov].
  assert (∀ k' c' h, t !! k' = Some c' → owns c' h → h ≠ cn_send c ∧ h ≠ cn_recv c) as Hother.
  { intros k' c' h Hk' Ho. split; intros ->; [by eapply Os|by eapply Ov]. }
  split; cbn [fst snd].
  - intros h Ho. specialize (Ho k c (lookup_insert_eq _ _ _)) as Hc. rewrite Eo.
    rewrite !lookup_insert_ne by (intros <-; apply Hc; by (left + right)).
    apply (rf_base _ _ Hr h). intros k' c' Hk'. apply (Ho k'). rewrite lookup_insert_ne; [done|]. intros ->. simpl in Hk'. congruence.
  - intros k' c' [[<- <-]|[Hkk Hk']]%lookup_insert_Some; rewrite Eo.
    + rewrite Ec. cbn [cn_send cn_recv cn_net]. split; [done|].
      by rewrite lookup_insert_ne, !lookup_insert_eq.
    + destruct (rf_conn _ _ Hr k' c' Hk') as (? & E1 & E2).
      destruct (Hother _ _ _ Hk' (or_introl eq_refl)), (Hother _ _ _ Hk' (or_intror eq_refl)).
      by rewrite !lookup_insert_ne.
  - intros k' c' h [[<- <-]|[Hkk Hk']]%lookup_insert_Some Ho; [by destruct Ho as [->| ->]|].
    by eapply (rf_new _ _ Hr).
  - intros k1 k2 c1 c2 h [[<- <-]|[? K1]]%lookup_insert_Some [[<- <-]|[? K2]]%lookup_insert_Some Ho1 Ho2.
    + done.
    + destruct (Hother _ _ _ K2 Ho2). destruct Ho1; congruence.
    + destruct (Hother _ _ _ K1 Ho1). destruct Ho2; congruence.
    + by eapply (rf_inj _ _ Hr).
Qed.

Lemma table_Close_refines base h s : refines base s → refines base (table_Close h s).
Proof.
  intros Hr. destruct s as [w t]. unfold table_Close. destruct (t !! h) as [c|] eqn:Hh; [|done].
  assert (∀ k' c' x, t !! k' = Some c' → k' ≠ h → owns c' x → x ≠ cn_send c ∧ x ≠ cn_recv c) as Hother.
  { intros k' c' x Hk' Hne Ho. split; intros ->; apply Hne; eapply (rf_inj _ _ Hr); try done; by (left + right). }
  split; cbn [fst snd]; rewrite ?Conn_Close_caps.
  - intros x Ho. destruct (decide (x = cn_send c ∨ x = cn_recv c)) as [Hx|Hx].
    + rewrite (rf_new _ _ Hr h c x Hh Hx). destruct Hx as [->| ->]; apply lookup_delete_None.
      * destruct (decide (cn_recv c = cn_send c)); [by left|right; by rewrite lookup_delete_eq].
      * by left.
    + rewrite !lookup_delete_ne by (intros <-; tauto). apply (rf_base _ _ Hr x). intros k' c' Hk' Hc'.
      destruct (decide (k' = h)) as [->|]; [simpl in Hk'; rewrite Hh in Hk'; injection Hk' as <-; by apply Hx|].
      eapply Ho; [|done]. by rewrite lookup_delete_ne.
  - intros k' c' [Hne Hk']%lookup_delete_Some. destruct (rf_conn _ _ Hr k' c' Hk') as (? & E1 & E2).
    destruct (Hother _ _ _ Hk' (not_eq_sym Hne) (or_introl eq_refl)),
      (Hother _ _ _ Hk' (not_eq_sym Hne) (or_intror eq_refl)).
    by rewrite !lookup_delete_ne.
  - intros k' c' x [Hne Hk']%lookup_delete_Some. by apply (rf_new _ _ Hr k').
  - intros k1 k2 c1 c2 x [_ K1]%lookup_delete_Some [_ K2]%lookup_delete_Some. by apply (rf_inj _ _ Hr).
Qed.

Lemma table_SetFlags_refines base h a fl s : refines base s → refines base (table_SetFlags h a fl s).
Proof.
  intros [R1 R2 R3 R4]. destruct s as [w t]. unfold table_SetFlags. simpl in *.
  assert (∀ k c, alter (Conn_SetRemoteTCPFlags (Some a) fl) h t !! k = Some c →
    ∃ c0, t !! k = Some c0 ∧ cn_send c = cn_send c0 ∧ cn_recv c = cn_recv c0 ∧ cn_net c = cn_net c0) as Hold.
  { intros k c [(<- & c0 & Ek & ->)|[Hne Ek]]%lookup_alter_Some; [by exists c0|by exists c]. }
  split; simpl.
  - intros x Ho. apply R1. intros k c Hk Hc. destruct (decide (h = k)) as [->|Hne].
    + by apply (Ho k (Conn_SetRemoteTCPFlags (Some a) fl c)); [rewrite lookup_alter_eq, Hk|].
    + by apply (Ho k c); [rewrite lookup_alter_ne|].
  - intros k c Hk. destruct (Hold _ _ Hk) as (c0 & Hk0 & -> & -> & ->). by eapply R2.
  - intros k c x Hk. destruct (Hold _ _ Hk) as (c0 & Hk0 & Es & Er & _). unfold owns.
    rewrite Es, Er. by eapply R3.
  - intros k1 k2 c1 c2 x K1 K2. destruct (Hold _ _ K1) as (d1 & L1 & Es1 & Er1 & _),
      (Hold _ _ K2) as (d2 & L2 & Es2 & Er2 & _). unfold owns. rewrite Es1, Er1, Es2, Er2. by eapply R4.
Qed.

(** C12: the packet connections implement the interface the tunnel is proved
    against.  Keep the connections that [Open] returns in a table: then opening,
    closing and setting flags do to the set of handles of the table what
    [Transport.ConnsLaws] states of [PcapOpen], [conn_Close] and
    [SetRemoteTCPFlags]; and the capture handles of libpcap are, before and after
    each of them, those that existed before and the two of each connection in
    the table.  So when everything that was opened has been closed, libpcap has
    exactly the handles it started with. *)
Theorem pcap_refines base rt h a fl s (Hr : refines base s) :
  refines base (table_PcapOpen rt s).1 ∧
  (match (table_PcapOpen rt s).2 with
   | Some h => h ∉ dom s.2 ∧ dom (table_PcapOpen rt s).1.2 = {[h]} ∪ dom s.2
   | None => dom (table_PcapOpen rt s).1.2 = dom s.2
   end) ∧
  refines base (table_SetFlags h a fl s) ∧ dom (table_SetFlags h a fl s).2 = dom s.2 ∧
  refines base (table_Close h s) ∧ dom (table_Close h s).2 = dom s.2 ∖ {[h]} ∧
  (dom s.2 = ∅ → captures s.1 = base).
Proof.
  split; [by apply table_PcapOpen_refines|]. split.
  { destruct s as [w t]. unfold table_PcapOpen. destruct (Open rt hw now w) as [w' [c|e]]; [|done].
    cbn [fst snd]. split; [apply is_fresh|by rewrite dom_insert_L]. }
  split; [by apply table_SetFlags_refines|]. split.
  { destruct s as [w t]. apply dom_alter_L. }
  split; [by apply table_Close_refines|]. split.
  { destruct s as [w t]. unfold table_Close. destruct (t !! h) eqn:Hh; cbn [fst snd].
    - by rewrite dom_delete_L.
    - apply not_elem_of_dom in Hh. set_solver. }
  intros Hd. apply map_eq. intros x. apply (rf_base _ _ Hr). intros k c Hk.
  apply elem_of_dom_2 in Hk. set_solver.
Qed.
End table.

(** ** What ends a pending read *)

Section reads.
Context `{Gopacket}.

Definition outcome {A B C} (o : option (A * B * C)) : option A := (λ x, x.1.1) <$> o.

(** The polls of [Pcap.ReadFrom] behind a run of the loop. *)
Fixpoint polls_of (deadline : option Z) (closed : bool) (evs : list read_event) : list poll :=
  match evs with
  | [] => []
  | EvSetReadDeadline _ :: evs => polls_of deadline closed evs
  | EvClose :: evs => polls_of deadline true evs
  | EvTurn now pick r :: evs =>
      match select_gate deadline now closed pick with
      | GateClosed => PollClosed
      | GateDeadline => PollDeadline
      | GateOpen =>
          match r with RTimeout => PollTimeout | REOF => PollEOF | RError => PollError | RData b => PollData b end
      end :: polls_of deadline closed evs
  end.

Lemma ReadFrom_loop_polls cap deadline c evs :
  outcome (ReadFrom_loop cap deadline c evs) = fst <$> ReadFrom cap (polls_of deadline (cn_done c) evs).
Proof.
  revert c. induction evs as [|[d| |now pick r] evs IH]; intros c; cbn [ReadFrom_loop polls_of].
  - done.
  - by rewrite IH.
  - by rewrite IH.
  - destruct (select_gate _ _ _ _); [done|done|].
    destruct r; cbn [ReadFrom]; [apply IH|apply IH|done|].
    destruct (recv_decode b) as [[payload a]|]; [done|apply IH].
Qed.

Definition not_set (e : read_event) : bool :=
  match e with EvSetReadDeadline _ => false | _ => true end.

Lemma polls_of_not_set deadline closed evs :
  polls_of deadline closed (List.filter not_set evs) = polls_of deadline closed evs.
Proof.
  revert closed. induction evs as [|[d| |now pick r] evs IH]; intros closed; cbn [List.filter not_set polls_of];
    by rewrite ?IH.
Qed.

(** An event of a connection nobody closes, on a wire with nothing for it. *)
Definition quiet (e : read_event) : bool :=
  match e with
  | EvSetReadDeadline _ => true
  | EvClose => false
  | EvTurn _ _ RTimeout | EvTurn _ _ REOF => true
  | EvTurn _ _ RError => false
  | EvTurn _ _ (RData b) => match recv_decode b with None => true | Some _ => false end
  end.

Lemma loop_quiet cap c evs :
  cn_done c = false → Forall (λ e, quiet e = true) evs → ReadFrom_loop cap None c evs = None.
Proof.
  intros Hd Hq. revert c Hd. induction Hq as [|e evs He _ IH]; intros c Hd; [done|].
  destruct e as [d| |now pick r]; cbn [ReadFrom_loop]; [by apply IH|done|].
  rewrite Hd. cbn. destruct r as [| | |b]; [by apply IH|by apply IH|done|].
  cbn in He. destruct (recv_decode b); [done|by apply IH].
Qed.

Lemma loop_ended_turn cap deadline c now pick r evs :
  cn_done c = true ∨ expired deadline now = true →
  ∃ e, ReadFrom_loop cap deadline c (EvTurn now pick r :: evs) = Some (Err e, c, evs) ∧
    (e = Closed ∨ e = DeadlineExceeded).
Proof.
  intros Hc. cbn [ReadFrom_loop]. unfold select_gate.
  destruct (cn_done c), (expired deadline now), pick; cbn; eauto; by destruct Hc.
Qed.

(** Any run with a turn after the close, or at or after the deadline it started
    with, has ended. *)
Lemma loop_ends cap deadline c evs evs1 now pick r evs2 :
  evs = evs1 ++ EvTurn now pick r :: evs2 →
  EvClose ∈ evs1 ∨ cn_done c = true ∨ expired deadline now = true →
  is_Some (ReadFrom_loop cap deadline c evs).
Proof.
  intros ->. revert c. induction evs1 as [|e evs1 IH]; intros c Hc.
  - cbn [app]. destruct (loop_ended_turn cap deadline c now pick r evs2) as (e & -> & _); [|eauto].
    destruct Hc as [Hc|Hc]; [by apply not_elem_of_nil in Hc|done].
  - destruct e as [d| |now' pick' r']; simpl.
    + apply IH. rewrite elem_of_cons in Hc. naive_solver.
    + apply IH. right. by left.
    + rewrite elem_of_cons in Hc. assert (is_Some (ReadFrom_loop cap deadline c (evs1 ++ EvTurn now pick r :: evs2)))
        as Hrec by (apply IH; naive_solver).
      destruct (select_gate deadline now' (cn_done c) pick'); [eauto|eauto|].
      destruct r'; [done|done|eauto|]. destruct (recv_decode b) as [[??]|]; eauto.
Qed.

(** What ends a pending read.  A read returns what the polling loop of
    [Pcap.ReadFrom] returns on the polls of its turns.  Closing the connection
    ends it at the next turn, and so does the deadline it started with once that
    has passed; a connection that is closed, or whose deadline has passed, starts
    no read.  But the deadline is looked up once: what other goroutines store
    while the read is pending changes nothing, so a read that started without a
    deadline stays pending on a quiet wire however long ago the stored deadline
    passed — unlike what [net.PacketConn] asks of [SetReadDeadline]. *)
Theorem pending_read cap c evs :
  outcome (Conn_ReadFrom cap c evs) = fst <$> ReadFrom cap (polls_of (cn_readDeadline c) (cn_done c) evs) ∧
  (∀ evs1 now pick r evs2, evs = evs1 ++ EvTurn now pick r :: evs2 →
     EvClose ∈ evs1 ∨ expired (cn_readDeadline c) now = true → is_Some (Conn_ReadFrom cap c evs)) ∧
  (∀ now pick r, cn_done c = true ∨ expired (cn_readDeadline c) now = true →
     ∃ e, Conn_ReadFrom cap c (EvTurn now pick r :: evs) = Some (Err e, c, evs) ∧
       (e = Closed ∨ e = DeadlineExceeded)) ∧
  outcome (Conn_ReadFrom cap c evs) = outcome (Conn_ReadFrom cap c (List.filter not_set evs)) ∧
  (cn_readDeadline c = None → cn_done c = false → Forall (λ e, quiet e = true) evs →
     ∀ d, Conn_ReadFrom cap c (EvSetReadDeadline d :: evs) = None).
Proof.
  unfold Conn_ReadFrom. split; [apply ReadFrom_loop_polls|]. split.
  { intros evs1 now pick r evs2 E Hc. eapply loop_ends; [done|]. naive_solver. }
  split; [intros now pick r; apply loop_ended_turn|]. split.
  { by rewrite !ReadFrom_loop_polls, polls_of_not_set. }
  intros -> Hd Hq d. cbn [ReadFrom_loop]. by apply loop_quiet.
Qed.
End reads.

(** ** Concrete instances *)

(** Operations whose number is in [lp_fail] fail. *)
Record toy_pcap : Type := mkToyPcap {
  lp_caps : gmap nat capture; lp_fail : gset nat; lp_ops : nat }.

Definition lp_new (c : capture) (w : toy_pcap) : toy_pcap * option nat :=
  let '(mkToyPcap m f n) := w in
  if bool_decide (n ∈ f) then (mkToyPcap m f (S n), None)
  else let h := fresh (dom m) in (mkToyPcap (<[h := c]> m) f (S n), Some h).

Definition lp_set (g : capture → capture) (h : nat) (w : toy_pcap) : toy_pcap * bool :=
  let '(mkToyPcap m f n) := w in
  if bool_decide (n ∈ f) then (mkToyPcap m f (S n), false)
  else (mkToyPcap (alter g h m) f (S n), true).

Definition lp_delete (h : nat) (w : toy_pcap) : toy_pcap :=
  let '(mkToyPcap m f n) := w in mkToyPcap (delete h m) f n.

#[export] Instance toy_libpcap : Libpcap toy_pcap := {
  NewInactiveHandle i := lp_new (mkCapture i [] false None None);
  SetOption h o := lp_set (add_option o) h;
  Activate h w := match lp_caps w !! h with Some c => lp_new (activated c) w | None => (w, None) end;
  CleanUp := lp_delete;
  SetDirection h d := lp_set (set_direction d) h;
  SetBPFFilter h f := lp_set (set_filter f) h;
  HandleClose := lp_delete;
  BlockForever := -1 }.

Lemma lp_new_caps c w :
  match lp_new c w with
  | (w', Some h) => lp_caps w !! h = None ∧ lp_caps w' = <[h := c]> (lp_caps w)
  | (w', None) => lp_caps w' = lp_caps w
  end.
Proof.
  destruct w as [m f n]. simpl. case_bool_decide; [done|]. split; [|done].
  apply not_elem_of_dom, is_fresh.
Qed.

Lemma lp_set_caps g h w :
  lp_caps (lp_set g h w).1 = if (lp_set g h w).2 then alter g h (lp_caps w) else lp_caps w.
Proof. destruct w as [m f n]. simpl. by case_bool_decide. Qed.

#[export] Instance toy_libpcap_laws : LibpcapLaws toy_pcap.
Proof.
  refine {| captures := lp_caps |}.
  - intros i w. apply lp_new_caps.
  - intros h o w. apply lp_set_caps.
  - intros h w c E. simpl. rewrite E. apply lp_new_caps.
  - by intros h [m f n].
  - intros h d w. apply lp_set_caps.
  - intros h f w. apply lp_set_caps.
  - by intros h [m f n].
Defined.

Definition sample_rt : NetworkRuntime :=
  mkNetworkRuntime "eth0" (mkUDPAddr [10; 0; 0; 2] 9999) mac0 None 9999 [psh_ack] [psh_ack] 4194304.

(** The filter of the receiving handle is refused (the seventeenth call): both
    handles are closed again. *)
Example Open_filter_refused :
  let '(w, r) := Open sample_rt mac0 0 (mkToyPcap ∅ {[16%nat]} 0) in
  is_ok r = false ∧ lp_caps w = ∅ ∧ r = Err CapFilter.
Proof. vm_compute. split_and!; reflexivity. Qed.

Lemma capture_lifecycle_witness :
  captures (Probe_interface sample_rt mac0 0 (mkToyPcap ∅ ∅ 0)).1 = ∅ ∧
  is_ok (Probe_interface sample_rt mac0 0 (mkToyPcap ∅ ∅ 0)).2 = true.
Proof.
  destruct (capture_lifecycle sample_rt mac0 0 (mkToyPcap ∅ ∅ 0)) as (_ & H1 & H2).
  split; [exact H1|]. rewrite H2. reflexivity.
Defined.

Lemma refines_empty : refines ∅ (mkToyPcap ∅ ∅ 0, ∅).
Proof.
  split; simpl.
  - done.
  - intros k c E. by rewrite lookup_empty in E.
  - intros k c h E. by rewrite lookup_empty in E.
  - intros k1 k2 c1 c2 h E. by rewrite lookup_empty in E.
Qed.

Lemma pcap_refines_witness :
  refines ∅ (table_PcapOpen mac0 0 sample_rt (mkToyPcap ∅ ∅ 0, ∅)).1 ∧
  dom (table_PcapOpen mac0 0 sample_rt (mkToyPcap ∅ ∅ 0, ∅)).1.2 = {[0%nat]} ∪ ∅.
Proof.
  destruct (pcap_refines mac0 0 ∅ sample_rt 0 sample_peer [] (mkToyPcap ∅ ∅ 0, ∅) refines_empty)
    as (H1 & H2 & _).
  split; [exact H1|]. assert ((table_PcapOpen mac0 0 sample_rt (mkToyPcap ∅ ∅ 0, ∅)).2 = Some 0%nat) as E
    by (vm_compute; reflexivity).
  rewrite E in H2. exact (proj2 H2).
Defined.

(** The deadline of one second is stored while the read is pending; three seconds
    later the read is still pending. *)
Lemma pending_read_witness :
  Conn_ReadFrom 10 (mkConn sample_rt 0 sample_handle 1 None None false)
    [EvSetReadDeadline (Some 1000); EvTurn 2000 true RTimeout; EvTurn 3000 true REOF] = None.
Proof.
  apply (pending_read 10 (mkConn sample_rt 0 sample_handle 1 None None false)
           [EvTurn 2000 true RTimeout; EvTurn 3000 true REOF]); [reflexivity|reflexivity|].
  by repeat constructor.
Defined.
