(* ===== verification/UDPRelay.v ===== *)
(** [relayUDP] of internal/tunnel/relay.go: the server's relay between a stream of
    length-prefixed datagrams and a UDP socket, with its two loops interleaved
    turn by turn, its counters and its socket.

    [TunnelServer] has each loop alone; here are the failing writes, the first
    loop to end, and what is counted. *)

From S2P Require Import Prelude GoStd NetUtil Protocol Config ConfigResolve Transport Metrics Relay TunnelServer.

Local Open Scope Z_scope.

(** What is still to come on the stream and on the socket ([ur_answers]), whether
    the next writes to the stream succeed (missing: yes), and what was written. *)
Record udp_relay : Type := mkUR {
  ur_in : list Z; ur_sent : list (list Z);
  ur_answers : list (list Z); ur_oks : list bool; ur_out : list Z }.

Inductive udp_relay_error : Type :=
| RStreamRead (e : proto_error) | RSocketWrite
| RSocketRead                       (* also the idle timeout *)
| RStreamWrite (e : proto_error).

Inductive udp_relay_end : Type := UDialFailed | UCancelled | UEnded (e : udp_relay_error).

Section relay.
Context {W : Type} `{Sockets W}.
Implicit Types (x : udp_relay) (c : Collector) (w : W).

(** One turn of the loop from the stream to the socket. *)
Definition relayUDP_up (conn : nat) x c w : udp_relay * Collector * W * option udp_relay_error :=
  let '(mkUR r sent answers oks out) := x in
  match ReadDatagram (64 * 1024) r with
  | Err e => (x, c, w, Some (RStreamRead e))
  | Ok ([], r) => (mkUR r sent answers oks out, c, w, None)
  | Ok (p, r) =>
      match UdpWrite conn p w with
      | (w, false) => (mkUR r sent answers oks out, c, w, Some RSocketWrite)
      | (w, true) => (mkUR r (sent ++ [p]) answers oks out, Add CBytesOut (Z.of_nat (length p)) c, w, None)
      end
  end.

(** One turn of the loop from the socket to the stream. *)
Definition relayUDP_down x c : udp_relay * Collector * option udp_relay_error :=
  let '(mkUR r sent answers oks out) := x in
  match answers with
  | [] => (x, c, Some RSocketRead)
  | q :: answers =>
      match WriteDatagram q with
      | Err e => (mkUR r sent answers oks out, c, Some (RStreamWrite e))
      | Ok f =>
          if default true (head oks)
          then (mkUR r sent answers (tail oks) (out ++ f), Add CBytesIn (Z.of_nat (length q)) c, None)
          else (mkUR r sent answers (tail oks) out, c, Some (RStreamWrite WriteError))
      end
  end.

(** The two loops, up to the first one that ends; [true] is a turn of the first.
    [None]: the context ended before. *)
Fixpoint relayUDP_run (conn : nat) (sched : list bool) x c w :
    udp_relay * Collector * W * option udp_relay_error :=
  match sched with
  | [] => (x, c, w, None)
  | true :: sched =>
      match relayUDP_up conn x c w with
      | (x, c, w, Some e) => (x, c, w, Some e)
      | (x, c, w, None) => relayUDP_run conn sched x c w
      end
  | false :: sched =>
      match relayUDP_down x c with
      | (x, c, Some e) => (x, c, w, Some e)
      | (x, c, None) => relayUDP_run conn sched x c w
      end
  end.

Definition relayUDP (addr : string) (sched : list bool) x c w : udp_relay * Collector * W * udp_relay_end :=
  let c := Add CRelayUDP 1 c in
  match UdpDial addr w with
  | (w, None) => (x, IncError c, w, UDialFailed)
  | (w, Some conn) =>
      let '(x, c, w, r) := relayUDP_run conn sched x c w in
      (x, c, UdpClose conn w, match r with None => UCancelled | Some e => UEnded e end)
  end.
End relay.

(** ** What it delivers and counts *)

#[local] Arguments Load : simpl never.
#[local] Arguments Add : simpl never.

Section laws.
Context {W : Type} `{SocketsLaws W}.
Implicit Types (x : udp_relay) (c : Collector) (w : W).

Definition fits (q : list Z) : Prop := Z.of_nat (length q) ≤ MaxDatagram.

(** Of the datagrams [ps] on the stream some were sent to the socket, of its
    answers [qs] some were framed on the stream. *)
Definition carried (ps qs : list (list Z)) x c x' c' : Prop :=
  ∃ i j gs, ur_sent x' = ur_sent x ++ List.filter nonempty (take i ps) ∧
    mapM WriteDatagram (take j qs) = Ok gs ∧ ur_out x' = ur_out x ++ concat gs ∧
    metered CBytesOut CBytesIn (length (concat (List.filter nonempty (take i ps)))) (length (concat (take j qs))) c c'.

Lemma metered_sent (p : list Z) c : in_range c → metered CBytesOut CBytesIn (length p) 0 c (Add CBytesOut (Z.of_nat (length p)) c).
Proof.
  intros Hc. split; [by apply Load_Add_u64|]. split; [|intros k ? _; by apply Load_Add_ne].
  rewrite Load_Add_ne, Z.add_0_r, u64_id by (done || by apply Hc). done.
Qed.

Lemma metered_answer (q : list Z) c : in_range c → metered CBytesOut CBytesIn 0 (length q) c (Add CBytesIn (Z.of_nat (length q)) c).
Proof.
  intros Hc. split; [|split; [by apply Load_Add_u64|intros k _ ?; by apply Load_Add_ne]].
  rewrite Load_Add_ne, Z.add_0_r, u64_id by (done || by apply Hc). done.
Qed.

Lemma carried_none ps qs x c x' :
  in_range c → ur_sent x' = ur_sent x → ur_out x' = ur_out x → carried ps qs x c x' c.
Proof.
  intros Hc E1 E2. exists 0%nat, 0%nat, []. cbn. rewrite E1, E2, !app_nil_r. split_and!; try done. by apply metered_refl.
Qed.

Lemma carried_up p ps qs r sent answers oks out c x' c' :
  in_range c → p ≠ [] →
  carried ps qs (mkUR r (sent ++ [p]) answers oks out) (Add CBytesOut (Z.of_nat (length p)) c) x' c' →
  ∀ r0, carried (p :: ps) qs (mkUR r0 sent answers oks out) c x' c'.
Proof.
  intros Hc Hp (i & j & gs & E1 & E2 & E3 & E4) r0. exists (S i), j, gs. cbn in *.
  assert (nonempty p = true) as -> by (unfold nonempty; by rewrite bool_decide_eq_false_2).
  split; [by rewrite E1, <- (assoc_L (++))|]. split; [done|]. split; [done|].
  cbn. rewrite length_app. apply (metered_trans _ _ _ 0 _ _ _ (Add CBytesOut (Z.of_nat (length p)) c)); [|done].
  by apply metered_sent.
Qed.

Lemma carried_down q f ps qs r sent answers oks oks' out c x' c' :
  in_range c → WriteDatagram q = Ok f →
  carried ps qs (mkUR r sent answers oks' (out ++ f)) (Add CBytesIn (Z.of_nat (length q)) c) x' c' →
  ∀ answers0, carried ps (q :: qs) (mkUR r sent answers0 oks out) c x' c'.
Proof.
  intros Hc Hf (i & j & gs & E1 & E2 & E3 & E4) answers0. exists i, (S j), (f :: gs). cbn [ur_sent ur_out take] in *.
  split; [done|]. split; [cbn [mapM mbind result_bind]; rewrite Hf; cbn; by rewrite E2|].
  split; [cbn; by rewrite E3, <- (assoc_L (++))|].
  cbn [concat]. rewrite length_app. apply (metered_trans _ _ 0 _ _ _ _ (Add CBytesIn (Z.of_nat (length q)) c)); [|done].
  by apply metered_answer.
Qed.

(** A run of the two loops. *)
Lemma relayUDP_run_spec conn sched ps fs x c w x' c' w' r :
  in_range c → mapM WriteDatagram ps = Ok fs → ur_in x = concat fs → Forall fits (ur_answers x) →
  relayUDP_run conn sched x c w = (x', c', w', r) →
  carried ps (ur_answers x) x c x' c' ∧ sockets w' = sockets w ∧
  (r = Some (RStreamRead EOF) → ur_sent x' = ur_sent x ++ List.filter nonempty ps) ∧
  (r = Some RSocketRead → ∃ gs, mapM WriteDatagram (ur_answers x) = Ok gs ∧ ur_out x' = ur_out x ++ concat gs) ∧
  ((length ps < turns true sched ∨ length (ur_answers x) < turns false sched)%nat → is_Some r).
Proof.
  revert ps fs x c w. induction sched as [|[] sched IH]; intros ps fs [rd sent qs oks out] c w Hc Hps Hin Hq;
    cbn [relayUDP_run ur_in ur_answers ur_sent ur_out] in *; subst rd.
  - intros [= <- <- <- <-]. split; [by apply carried_none|]. split_and!; try done. cbn. lia.
  - unfold relayUDP_up. destruct ps as [|p ps].
    { injection Hps as <-. cbn. intros [= <- <- <- <-]. split; [by apply carried_none|].
      split_and!; try done. intros _. cbn. by rewrite app_nil_r. }
    pose proof Hps as Hps'. apply mapM_ok_Forall2 in Hps'. inversion Hps' as [|? f ? fs' Hf Hfs]; subst.
    apply mapM_ok_Forall2 in Hfs. cbn [concat].
    rewrite (ReadDatagram_frame _ p) by (done || (eapply frames_fit; [exact Hps|left])).
    destruct p as [|b p].
    + intros E. destruct (IH ps fs' (mkUR (concat fs') sent qs oks out) c w Hc Hfs eq_refl Hq E) as (H1' & H2' & H3' & H4' & H5').
      cbn [ur_sent ur_answers ur_out] in *. split; [|split; [done|split; [exact H3'|split; [exact H4'|]]]].
      * destruct H1' as (i & j & gs & E1). by exists (S i), j, gs.
      * rewrite !turns_cons. cbn [Bool.eqb length] in *. intros Hn. apply H5'. lia.
    + pose proof (UdpWrite_sockets conn (b :: p) w) as Ew. destruct (UdpWrite conn (b :: p) w) as [w1 []]; cbn [fst] in Ew.
      * intros E. destruct (IH ps fs' (mkUR (concat fs') (sent ++ [b :: p]) qs oks out)
          (Add CBytesOut (Z.of_nat (length (b :: p))) c) w1) as (H1' & H2' & H3' & H4' & H5'); try done.
        { by eapply metered_range; [exact Hc|by apply metered_sent]. }
        split; [by eapply carried_up|]. split; [congruence|]. cbn [ur_sent ur_answers ur_out] in *.
        split; [|split; [exact H4'|]].
        -- intros Hr. rewrite H3' by done. cbn. by rewrite <- (assoc_L (++)).
        -- rewrite !turns_cons. cbn [Bool.eqb length] in *. intros Hn. apply H5'. lia.
      * intros [= <- <- <- <-]. split; [by apply carried_none|]. by split_and!.
  - unfold relayUDP_down. destruct qs as [|q qs].
    { intros [= <- <- <- <-]. split; [by apply carried_none|]. split_and!; try done.
      intros _. exists []. by rewrite app_nil_r. }
    apply Forall_cons in Hq as [Hq Hqs].
    destruct (WriteDatagram q) as [f|e] eqn:Ef.
    2: { exfalso. assert (WriteDatagram q = Ok (be_encode 2 (Z.of_nat (length q)) ++ q)) as E by by apply WriteDatagram_ok.
         congruence. }
    destruct (default true (head oks)).
    + intros E. destruct (IH ps fs (mkUR (concat fs) sent qs (tail oks) (out ++ f)) (Add CBytesIn (Z.of_nat (length q)) c) w)
        as (H1' & H2' & H3' & H4' & H5'); try done.
      { by eapply metered_range; [exact Hc|by apply metered_answer]. }
      split; [by eapply carried_down|]. cbn [ur_sent ur_answers ur_out] in *.
      split; [done|]. split; [done|]. split.
      * intros Hr. destruct (H4' Hr) as (gs & E1 & E2). exists (f :: gs). split.
        -- cbn [mapM mbind result_bind]. rewrite Ef. cbn. by rewrite E1.
        -- by rewrite E2, <- (assoc_L (++)).
      * rewrite !turns_cons. cbn [Bool.eqb length] in *. intros Hn. apply H5'. lia.
    + intros [= <- <- <- <-]. split; [by apply carried_none|]. by split_and!.
Qed.

(** C22: the server's UDP relay.  For a stream that frames the datagrams [ps] and a
    socket that answers [qs], whatever the interleaving of the two loops and the
    failures of their writes: what reached the target are the non-empty datagrams
    of a prefix of [ps], unchanged and in order, what reached the stream are the
    frames of a prefix of [qs]; the two byte counters grow by exactly these, the
    relay is counted once, a failed dial is one error and nothing else, and no
    other counter moves.  At the end of the stream every datagram has been sent,
    and when the target falls silent every answer has been framed.  The socket is
    closed in every case; and a relay whose context does not end ends by itself
    after at most one turn more than there are datagrams in either direction. *)
Theorem relayUDP_accounts addr sched ps fs qs oks c w x' c' w' e
    (Hc : in_range c) (Hps : mapM WriteDatagram ps = Ok fs) (Hq : Forall fits qs)
    (E : relayUDP addr sched (mkUR (concat fs) [] qs oks []) c w = (x', c', w', e)) :
  sockets w' = sockets w ∧
  (∃ i j gs, let sent := List.filter nonempty (take i ps) in
     ur_sent x' = sent ∧ mapM WriteDatagram (take j qs) = Ok gs ∧ ur_out x' = concat gs ∧
     Load CBytesOut c' = u64 (Load CBytesOut c + Z.of_nat (length (concat sent))) ∧
     Load CBytesIn c' = u64 (Load CBytesIn c + Z.of_nat (length (concat (take j qs))))) ∧
  Load CRelayUDP c' = u64 (Load CRelayUDP c + 1) ∧
  Load CErrors c' = u64 (Load CErrors c + (match e with UDialFailed => 1 | _ => 0 end)) ∧
  (∀ k, k ∉ [CBytesIn; CBytesOut; CRelayUDP; CErrors] → Load k c' = Load k c) ∧
  (e = UEnded (RStreamRead EOF) → ur_sent x' = List.filter nonempty ps) ∧
  (e = UEnded RSocketRead → ∃ gs, mapM WriteDatagram qs = Ok gs ∧ ur_out x' = concat gs) ∧
  ((length ps < turns true sched ∨ length qs < turns false sched)%nat → e ≠ UCancelled).
Proof.
  assert (∀ k, k ≠ CTCPActive → u64 (Load k c + 0) = Load k c) as Hz.
  { intros k Hk. rewrite Z.add_0_r. apply u64_id. by apply Hc. }
  unfold relayUDP in E. pose proof (UdpDial_sockets addr w) as Hd. destruct (UdpDial addr w) as [w1 [conn|]].
  2: { injection E as <- <- <- <-. unfold IncError. split; [done|]. split.
       { exists 0%nat, 0%nat, []. cbn. rewrite !Load_Add_ne, !Hz by done. done. }
       split; [by rewrite Load_Add_ne, Load_Add_u64|]. split; [by rewrite Load_Add_u64, Load_Add_ne|].
       split_and!; try done. intros k. rewrite !not_elem_of_cons. intros (? & ? & ? & ? & _). by rewrite !Load_Add_ne. }
  set (c0 := Add CRelayUDP 1 c) in *.
  assert (in_range c0) as Hc0.
  { intros k Hk. unfold c0. destruct (decide (k = CRelayUDP)) as [->|];
      [rewrite Load_Add_u64 by done; apply u64_range|rewrite Load_Add_ne by done; by apply Hc]. }
  assert (∀ k, k ≠ CRelayUDP → Load k c0 = Load k c) as H0' by (intros k Hk; unfold c0; by rewrite Load_Add_ne).
  destruct (relayUDP_run conn sched _ c0 w1) as [[[x1 c1] w2] r] eqn:Er. injection E as <- <- <- <-.
  apply (relayUDP_run_spec _ _ ps fs) in Er as ((i & j & gs & E1 & E2 & E3 & (M1 & M2 & M3)) & Es & EOF' & Esil & Hend); try done.
  cbn [ur_sent ur_out ur_answers app] in *. destruct Hd as [Hfr Ew]. split; [|split; [|split; [|split; [|split]]]].
  - rewrite UdpClose_sockets, Es, Ew. set_solver.
  - exists i, j, gs. rewrite M1, M2, !H0' by done. done.
  - rewrite M3 by done. unfold c0. by rewrite Load_Add_u64.
  - rewrite M3, H0' by done. destruct r; by rewrite Hz.
  - intros k. rewrite !not_elem_of_cons. intros (? & ? & ? & ? & _). by rewrite M3, H0'.
  - destruct r as [r|]; [|split_and!; [done|done|intros Hn; by destruct (Hend Hn)]].
    split_and!; [intros [= ->]; by apply EOF'|intros [= ->]; by apply Esil|done].
Qed.
End laws.

(** ** A relay of two datagrams and an answer; the second write of an answer fails *)

Lemma relayUDP_accounts_witness :
  let r := relayUDP (W := gset nat) "8.8.8.8:53" [true; false; true; true; false]
    (mkUR [0; 2; 5; 6; 0; 0; 0; 1; 7] [] [[9]; [8; 8]] [true; false] []) zero_collector ∅ in
  ur_sent r.1.1.1 = [[5; 6]; [7]] ∧ ur_out r.1.1.1 = [0; 1; 9] ∧ sockets r.1.2 = (∅ : gset nat).
Proof.
  set (x := mkUR [0; 2; 5; 6; 0; 0; 0; 1; 7] [] [[9]; [8; 8]] [true; false] []).
  destruct (relayUDP (W := gset nat) "8.8.8.8:53" [true; false; true; true; false] x zero_collector ∅) as [[[x' c'] w'] e] eqn:E.
  destruct (relayUDP_accounts (W := gset nat) "8.8.8.8:53" [true; false; true; true; false] [[5; 6]; []; [7]]
    [[0; 2; 5; 6]; [0; 0]; [0; 1; 7]] [[9]; [8; 8]] [true; false] zero_collector ∅ x' c' w' e
    zero_in_range eq_refl ltac:(repeat constructor; vm_compute; discriminate) E) as (Hs & _).
  cbn [fst snd]. split; [|split; [|exact Hs]].
  - change (ur_sent x') with (ur_sent (x', c', w', e).1.1.1). rewrite <- E. vm_compute. reflexivity.
  - change (ur_out x') with (ur_out (x', c', w', e).1.1.1). rewrite <- E. vm_compute. reflexivity.
Defined.
