(* ===== verification/Serve.v ===== *)
(** One session of the server: [serveSession] and [handleStream] of
    internal/tunnel/server.go with what they start — the relays of relay.go, the
    flows of dgram.go — and the counters of internal/metrics they update.

    A goroutine is a [task]; [run_task] is what it does from one blocking call to
    the next, given how that call returned ([event]).  [ss_step] lets the tasks,
    the accept loop and the datagram loop of the session interleave. *)

From S2P Require Import Prelude GoStd NetUtil Protocol Config ConfigResolve Metrics Relay Transport TunnelServer Pcap Capture.

Local Open Scope Z_scope.

(** ** Streams and TCP sockets *)

Class Serving (W : Type) `{Sockets W} : Type := {
  AcceptStream : W → W * option nat;
  StreamClose : nat → W → W;
  TcpDial : string → W → W * option nat;
  TcpClose : nat → W → W }.

(** [sockets] are the open sockets of both kinds, [streams] the open streams. *)
Class ServingLaws (W : Type) `{SocketsLaws W, !Serving W} : Type := {
  streams : W → gset nat;
  AcceptStream_opens w :
    match AcceptStream w with
    | (w', Some s) => s ∉ streams w ∧ streams w' = {[s]} ∪ streams w ∧ sockets w' = sockets w
    | (w', None) => streams w' = streams w ∧ sockets w' = sockets w end;
  StreamClose_closes s w :
    streams (StreamClose s w) = streams w ∖ {[s]} ∧ sockets (StreamClose s w) = sockets w;
  TcpDial_opens a w :
    match TcpDial a w with
    | (w', Some c) => c ∉ sockets w ∧ sockets w' = {[c]} ∪ sockets w ∧ streams w' = streams w
    | (w', None) => sockets w' = sockets w ∧ streams w' = streams w end;
  TcpClose_closes c w :
    sockets (TcpClose c w) = sockets w ∖ {[c]} ∧ streams (TcpClose c w) = streams w;
  UdpDial_streams a w : streams (UdpDial a w).1 = streams w;
  UdpWrite_streams c b w : streams (UdpWrite c b w).1 = streams w;
  UdpClose_streams c w : streams (UdpClose c w) = streams w }.

(** ** The goroutines of a session *)

(** [handleStream] reading its message, dialling for a TCP or UDP relay or a flow,
    relaying, writing the identifier of a flow, blocked on the control stream of a
    flow; and [flowReadTargetToClient]. *)
Inductive task : Type :=
| Reading (s : nat)
| TcpDialing (s : nat) (addr : string) | TcpRelay (s c : nat)
| UdpDialing (s : nat) (addr : string) | UdpRelay (s c : nat)
| FlowDialing (s : nat) (addr : string) | FlowReply (s : nat) (f : Z) | FlowControl (s : nat) (f : Z)
| FlowReader (f : Z).

(** How the call a task is blocked in returns: the bytes of the stream up to its
    end, a dial, the write of the identifier, a datagram from the target (with
    whether QUIC takes it), or the end of what the task waits for. *)
Inductive event : Type :=
| EvMessage (input : list Z) | EvDialed | EvReplied (ok : bool)
| EvPacket (pkt : list Z) (sent : bool) | EvEnd.

(** What the goroutines share: the hub ([None] without datagrams), the packet
    connection, the counters as far as this session moves them (additions of
    other sessions commute with its own, [Metrics.Add_comm]), the world. *)
Record env (W : Type) : Type := mkEnv {
  e_hub : option dgramHub; e_pconn : option Conn; e_c : Collector; e_w : W }.
Arguments mkEnv {W} _ _ _ _.
Arguments e_hub {W} _.
Arguments e_pconn {W} _.
Arguments e_c {W} _.
Arguments e_w {W} _.

Section session.
Context {W : Type} `{Sockets W, !Serving W} `{GobCodec}.
Context (remote : option UDPAddr).

Definition on_world (f : W → W) (e : env W) : env W := mkEnv (e_hub e) (e_pconn e) (e_c e) (f (e_w e)).
Definition count (k : counter) (n : Z) (e : env W) : env W :=
  mkEnv (e_hub e) (e_pconn e) (Add k n (e_c e)) (e_w e).
Definition close_stream (s : nat) : env W → env W := on_world (StreamClose s).
Definition set_flags (l : list TCPFlagSet) (e : env W) : env W :=
  mkEnv (e_hub e) (Conn_SetRemoteTCPFlags remote l <$> e_pconn e) (e_c e) (e_w e).

Definition close_flow (f : Z) (e : env W) : env W :=
  match e_hub e with
  | Some h => let '(h, w) := closeFlow f h (e_w e) in mkEnv (Some h) (e_pconn e) (e_c e) w
  | None => e
  end.

(** [openFlow] with its counters. *)
Definition open_flow (addr : string) (e : env W) : env W * option Z :=
  match e_hub e with
  | None => (e, None)
  | Some h =>
      match openFlow addr h (e_w e) with
      | (h, w, None) => (mkEnv (Some h) (e_pconn e) (IncError (e_c e)) w, None)
      | (h, w, Some (f, _)) =>
          (mkEnv (Some h) (e_pconn e) (Add CUDPDgramFlows 1 (Add CRelayUDP 1 (e_c e))) w, Some f)
      end
  end.

(** The body of [flowReadTargetToClient] for one datagram: what is handed to QUIC. *)
Definition forward_packet (f : Z) (pkt : list Z) (sent : bool) (c : Collector) :
    Collector * option (list Z) :=
  match flow_forward f pkt with
  | None => (Add CUDPDgramDropped 1 c, None)
  | Some b =>
      if sent then (Add CBytesIn (Z.of_nat (length pkt)) (Add CUDPDgramOut 1 c), Some b)
      else (Add CUDPDgramDropped 1 c, None)
  end.

(** The body of [recvLoop] for one datagram. *)
Definition receive_datagram (b : list Z) (e : env W) : env W :=
  match e_hub e ≫= hub_dispatch b with
  | None => e
  | Some (conn, payload) =>
      let '(w, ok) := UdpWrite conn payload (e_w e) in
      mkEnv (e_hub e) (e_pconn e)
        (if ok then Add CBytesOut (Z.of_nat (length payload)) (Add CUDPDgramIn 1 (e_c e)) else e_c e) w
  end.

(** The switch of [handleStream]: what runs next. *)
Definition dispatch (s : nat) (a : action) (e : env W) : list task * env W :=
  match a with
  | DoPong | DoNothing => ([], close_stream s e)
  | DoSetFlags l => ([], close_stream s (set_flags l e))
  | DoRelayTCP addr => ([TcpDialing s addr], count CTCPActive 1 (count CRelayTCP 1 e))
  | DoRelayUDP addr => ([UdpDialing s addr], count CRelayUDP 1 e)
  | DoFlow addr => ([FlowDialing s addr], e)
  end.

(** What a task does when its call returns: the tasks it leaves (itself at its
    next blocking call, and those it starts).  [None]: not an event of the task. *)
Definition run_task (t : task) (ev : event) (e : env W) : option (list task * env W) :=
  match t, ev with
  | Reading s, EvMessage input =>
      Some (dispatch s (handleStream (bool_decide (is_Some (e_pconn e)))
                          (bool_decide (is_Some (e_hub e))) input) e)
  | TcpDialing s addr, EvDialed =>
      Some match TcpDial addr (e_w e) with
           | (w, None) => ([], close_stream s (count CTCPActive (-1) (count CErrors 1 (on_world (λ _, w) e))))
           | (w, Some c) => ([TcpRelay s c], on_world (λ _, w) e)
           end
  | TcpRelay s c, EvEnd => Some ([], close_stream s (count CTCPActive (-1) (on_world (TcpClose c) e)))
  | UdpDialing s addr, EvDialed =>
      Some match UdpDial addr (e_w e) with
           | (w, None) => ([], close_stream s (count CErrors 1 (on_world (λ _, w) e)))
           | (w, Some c) => ([UdpRelay s c], on_world (λ _, w) e)
           end
  | UdpRelay s c, EvEnd => Some ([], close_stream s (on_world (UdpClose c) e))
  | FlowDialing s addr, EvDialed =>
      Some match open_flow addr e with
           | (e, None) => ([], close_stream s e)
           | (e, Some f) => ([FlowReply s f], e)
           end
  | FlowReply s f, EvReplied ok =>
      Some (if ok then ([FlowControl s f; FlowReader f], e) else ([], close_stream s (close_flow f e)))
  | FlowControl s f, EvEnd => Some ([], close_stream s (close_flow f e))
  | FlowReader f, EvPacket pkt sent =>
      Some ([FlowReader f],
            mkEnv (e_hub e) (e_pconn e) (forward_packet f pkt sent (e_c e)).1 (e_w e))
  | FlowReader f, EvEnd => Some ([], close_flow f e)
  | _, _ => None
  end.

(** A session: its accept loop, its datagram loop, its tasks. *)
Record session_state : Type := mkSS {
  ss_accepting : bool; ss_receiving : bool; ss_tasks : list task; ss_env : env W }.

(** [serveSession] when it starts: [datagrams] is [sess.DatagramsOK()]. *)
Definition serveSession (datagrams : bool) (pconn : option Conn) (c : Collector) (w : W) : session_state :=
  mkSS true datagrams [] (mkEnv (if datagrams then Some newDgramHub else None) pconn c w).
End session.
Arguments session_state : clear implicits.
Arguments mkSS {W} _ _ _ _.
Arguments ss_accepting {W} _.
Arguments ss_receiving {W} _.
Arguments ss_tasks {W} _.
Arguments ss_env {W} _.

(** ** Interleavings *)

#[local] Arguments Load : simpl never.
#[local] Arguments Add : simpl never.

Section steps.
Context {W : Type} `{ServingLaws W} `{GobCodec}.
Context (remote : option UDPAddr).
Implicit Types (e : env W) (ts : list task).

Inductive ss_step : session_state W → session_state W → Prop :=
| ss_run a r ts1 t ts2 ev e ts e' :
    run_task remote t ev e = Some (ts, e') →
    ss_step (mkSS a r (ts1 ++ t :: ts2) e) (mkSS a r (ts1 ++ ts ++ ts2) e')
| ss_accept r ts e w s :
    AcceptStream (e_w e) = (w, Some s) →
    ss_step (mkSS true r ts e) (mkSS true r (Reading s :: ts) (on_world (λ _, w) e))
| ss_accept_end r ts e w :
    AcceptStream (e_w e) = (w, None) →
    ss_step (mkSS true r ts e) (mkSS false r ts (on_world (λ _, w) e))
| ss_cancelled r ts e : ss_step (mkSS true r ts e) (mkSS false r ts e)
| ss_receive a ts b e : ss_step (mkSS a true ts e) (mkSS a true ts (receive_datagram b e))
| ss_receive_end a ts e : ss_step (mkSS a true ts e) (mkSS a false ts e)
| ss_traffic a r ts e c w :
    (* the relays copy; the rest of the world *)
    Load CTCPActive c = Load CTCPActive (e_c e) →
    sockets w = sockets (e_w e) → streams w = streams (e_w e) →
    ss_step (mkSS a r ts e) (mkSS a r ts (mkEnv (e_hub e) (e_pconn e) c w)).

(** What a task holds. *)
Definition task_stream (t : task) : list nat :=
  match t with
  | Reading s | TcpDialing s _ | TcpRelay s _ | UdpDialing s _ | UdpRelay s _
  | FlowDialing s _ | FlowReply s _ | FlowControl s _ => [s]
  | FlowReader _ => []
  end.
Definition task_socket (t : task) : list nat :=
  match t with TcpRelay _ c | UdpRelay _ c => [c] | _ => [] end.
Definition task_active (t : task) : nat :=
  match t with TcpDialing _ _ | TcpRelay _ _ => 1 | _ => 0 end.
(** The flow a handler answers for. *)
Definition task_flow (t : task) : list Z :=
  match t with FlowReply _ f | FlowControl _ f => [f] | _ => [] end.

Definition held_streams ts : list nat := concat (task_stream <$> ts).
Definition held_sockets ts : list nat := concat (task_socket <$> ts).
Definition active_relays ts : nat := sum_list (task_active <$> ts).
Definition handled_flows ts : list Z := concat (task_flow <$> ts).

Definition the_hub e : dgramHub := default newDgramHub (e_hub e).

(** Relative to the sockets [base] and the streams [sbase] of the rest of the
    process: the open sockets are those, one per relay and one per flow; the open
    streams are those and one per handler; the gauge counts the TCP relays,
    dialling ones included; every flow has a handler that will close it. *)
Record session_inv (base sbase : gset nat) (n : nat) ts e : Prop := mkInv {
  si_hub : hub_inv (base ∪ list_to_set (held_sockets ts)) (the_hub e, e_w e);
  si_ids : ids_ok (the_hub e) ∧ nextID (the_hub e) ≤ Z.of_nat n;
  si_sockets : NoDup (held_sockets ts) ∧ ∀ c, c ∈ held_sockets ts → c ∉ base;
  si_streams : NoDup (held_streams ts) ∧ (∀ s, s ∈ held_streams ts → s ∉ sbase) ∧
    streams (e_w e) = sbase ∪ list_to_set (held_streams ts);
  si_active : Load CTCPActive (e_c e) = i64 (Z.of_nat (active_relays ts));
  si_flows f : is_Some (flows (the_hub e) !! f) → f ∈ handled_flows ts }.

(** ** The hub next to other sockets *)

Lemma hub_inv_same B h (w w' : W) : hub_inv B (h, w) → sockets w' = sockets w → hub_inv B (h, w').
Proof. intros (E & ?) Ew. split; [simpl in *; congruence|done]. Qed.

Lemma hub_inv_open B h (w w' : W) c :
  hub_inv B (h, w) → c ∉ sockets w → sockets w' = {[c]} ∪ sockets w → hub_inv ({[c]} ∪ B) (h, w').
Proof.
  intros (E & Hd & Hi) Hc Ew. unfold hub_inv in *. simpl in *. rewrite E in Hc.
  split; [rewrite Ew, E; set_solver|]. split; [set_solver|done].
Qed.

Lemma hub_inv_close B h (w w' : W) c :
  hub_inv B (h, w) → c ∈ B → sockets w' = sockets w ∖ {[c]} → hub_inv (B ∖ {[c]}) (h, w').
Proof.
  intros (E & Hd & Hi) Hc Ew. unfold hub_inv in *. simpl in *.
  split; [rewrite Ew, E; set_solver|]. split; [set_solver|done].
Qed.

(** ** The invariant, one change at a time *)

Context (base sbase : gset nat).

Lemma inv_perm n ts ts' e : ts ≡ₚ ts' → session_inv base sbase n ts e → session_inv base sbase n ts' e.
Proof.
  intros Hp [Hh Hi [Hn Hb] (Sn & Sb & Sw) Ha Hf].
  assert (held_sockets ts ≡ₚ held_sockets ts') as Pc by (unfold held_sockets; by rewrite Hp).
  assert (held_streams ts ≡ₚ held_streams ts') as Ps by (unfold held_streams; by rewrite Hp).
  assert (handled_flows ts ≡ₚ handled_flows ts') as Pf by (unfold handled_flows; by rewrite Hp).
  assert (active_relays ts = active_relays ts') as Pa by (unfold active_relays; by rewrite Hp).
  split; try done.
  - by rewrite <- (list_to_set_perm_L _ _ Pc).
  - split; [by rewrite <- Pc|]. intros c. rewrite <- Pc. apply Hb.
  - split; [by rewrite <- Ps|]. split; [intros c; rewrite <- Ps; apply Sb|].
    by rewrite <- (list_to_set_perm_L _ _ Ps).
  - by rewrite <- Pa.
  - intros f Hsf. rewrite <- Pf. by apply Hf.
Qed.

(** Nothing the invariant looks at changes. *)
Lemma inv_same n t t' ts e e' :
  session_inv base sbase n (t :: ts) e →
  task_stream t' = task_stream t → task_socket t' = task_socket t →
  task_active t' = task_active t → (∀ f, f ∈ task_flow t → f ∈ task_flow t') →
  the_hub e' = the_hub e → Load CTCPActive (e_c e') = Load CTCPActive (e_c e) →
  sockets (e_w e') = sockets (e_w e) → streams (e_w e') = streams (e_w e) →
  session_inv base sbase n (t' :: ts) e'.
Proof.
  intros [Hh Hi Hs (Sn & Sb & Sw) Ha Hf] Es Ec Ea Ef Eh El Ew Et.
  unfold held_sockets, held_streams, active_relays, handled_flows in *. cbn in *.
  split; unfold held_sockets, held_streams, active_relays, handled_flows; cbn.
  - rewrite Ec, Eh. by eapply hub_inv_same.
  - by rewrite Eh.
  - by rewrite Ec.
  - rewrite Es, Et. done.
  - by rewrite Ea, El.
  - intros f. rewrite Eh. intros Hsf. specialize (Hf f Hsf). rewrite elem_of_app in *.
    destruct Hf; [left; by apply Ef|by right].
Qed.

(** A handler returns: its stream is closed. *)
Lemma inv_close_stream n s ts e :
  session_inv base sbase n (Reading s :: ts) e → session_inv base sbase n ts (close_stream s e).
Proof.
  intros [Hh Hi Hs (Sn & Sb & Sw) Ha Hf]. destruct (StreamClose_closes s (e_w e)) as [E1 E2].
  unfold held_streams in Sn, Sb, Sw. cbn in Sn, Sb, Sw. apply NoDup_cons in Sn as [Hs' Sn].
  split; [|done|done|split; [done|split]|done|done].
  - by eapply hub_inv_same.
  - intros x Hx. apply Sb. by right.
  - cbn. rewrite E1, Sw. pose proof (Sb s (list_elem_of_here _ _)) as Hss.
    apply set_eq. intros x. fold (held_streams ts) in *.
    rewrite elem_of_difference, !elem_of_union, elem_of_singleton, elem_of_list_to_set.
    split; [tauto|]. intros [Hx|Hx]; (split; [tauto|]); intros ->; [done|].
    by apply Hs'.
Qed.

(** A TCP relay is counted and uncounted. *)
Lemma inv_active_up n s a ts e :
  session_inv base sbase n (Reading s :: ts) e →
  session_inv base sbase n (TcpDialing s a :: ts) (count CTCPActive 1 e).
Proof.
  intros [Hh Hi Hs Hst Ha Hf]. split; try done. cbn.
  rewrite Load_Add_active, Ha, i64_add_l. unfold active_relays. cbn. f_equal. lia.
Qed.

Lemma inv_active_down n s a ts e :
  session_inv base sbase n (TcpDialing s a :: ts) e →
  session_inv base sbase n (Reading s :: ts) (count CTCPActive (-1) e).
Proof.
  intros [Hh Hi Hs Hst Ha Hf]. split; try done. cbn.
  rewrite Load_Add_active, Ha, i64_add_l. unfold active_relays. cbn. f_equal. lia.
Qed.

(** A relay's socket is dialled and closed. *)
Lemma inv_dialled n t t' c ts e w :
  session_inv base sbase n (t :: ts) e →
  task_stream t' = task_stream t → task_socket t = [] → task_socket t' = [c] →
  task_active t' = task_active t → task_flow t' = task_flow t →
  c ∉ sockets (e_w e) → sockets w = {[c]} ∪ sockets (e_w e) → streams w = streams (e_w e) →
  session_inv base sbase n (t' :: ts) (on_world (λ _, w) e).
Proof.
  intros [Hh Hi [Hn Hb] Hst Ha Hf] Es Ec Ec' Ea Ef Hc Ew Et.
  unfold held_sockets, held_streams, active_relays, handled_flows in *. cbn in *. rewrite Ec in *.
  assert (c ∉ base ∪ list_to_set (concat (task_socket <$> ts)) ∪ hub_sockets (the_hub e)) as Hfresh.
  { destruct Hh as (E & _). simpl in E. by rewrite <- E. }
  split; unfold held_sockets, held_streams, active_relays, handled_flows; cbn; rewrite ?Es, ?Ec', ?Ea, ?Ef, ?Et; try done.
  - replace (base ∪ list_to_set ([c] ++ concat (task_socket <$> ts)) : gset nat)
      with ({[c]} ∪ (base ∪ list_to_set (concat (task_socket <$> ts))) : gset nat)
      by (simpl; set_solver +).
    by eapply hub_inv_open.
  - split.
    + apply NoDup_cons. split; [|done]. rewrite !not_elem_of_union, not_elem_of_list_to_set in Hfresh. tauto.
    + intros x [->|Hx]%elem_of_cons; [|by apply Hb]. rewrite !not_elem_of_union in Hfresh. tauto.
Qed.

Lemma inv_undialled n t t' c ts e w :
  session_inv base sbase n (t :: ts) e →
  task_stream t' = task_stream t → task_socket t = [c] → task_socket t' = [] →
  task_active t' = task_active t → task_flow t' = task_flow t →
  sockets w = sockets (e_w e) ∖ {[c]} → streams w = streams (e_w e) →
  session_inv base sbase n (t' :: ts) (on_world (λ _, w) e).
Proof.
  intros [Hh Hi [Hn Hb] Hst Ha Hf] Es Ec Ec' Ea Ef Ew Et.
  unfold held_sockets, held_streams, active_relays, handled_flows in *. cbn in *. rewrite Ec in *.
  cbn in Hn. apply NoDup_cons in Hn as [Hc Hn]. pose proof (Hb c (list_elem_of_here _ _)) as Hcb.
  split; unfold held_sockets, held_streams, active_relays, handled_flows; cbn; rewrite ?Es, ?Ec', ?Ea, ?Ef, ?Et; try done.
  - assert (base ∪ list_to_set ([] ++ concat (task_socket <$> ts)) =@{gset nat}
      (base ∪ list_to_set ([c] ++ concat (task_socket <$> ts))) ∖ {[c]}) as ->.
    { rewrite <- (not_elem_of_list_to_set (C := gset nat)) in Hc. simpl. clear -Hc Hcb. set_solver. }
    eapply hub_inv_close; [done| |done]. simpl. set_solver +.
  - split; [done|]. intros x Hx. apply Hb. by right.
Qed.

(** Flows. *)

Lemma openFlow_streams a h w : streams (openFlow a h w).1.2 = streams w.
Proof. unfold openFlow. pose proof (UdpDial_streams a w) as E. by destruct (UdpDial a w) as [w' [c|]]. Qed.

Lemma closeFlow_streams f h w : streams (closeFlow f h w).2 = streams w.
Proof. unfold closeFlow. simpl. destruct (flows h !! f); [apply UdpClose_streams|done]. Qed.

Lemma hub_step_next (x y : dgramHub * W) :
  hub_step x y → nextID x.1 < 2 ^ 64 - 1 → ids_ok x.1 → ids_ok y.1 ∧ nextID y.1 ≤ nextID x.1 + 1.
Proof.
  destruct x as [h w], y as [h' w']. intros Hs Hn Hi.
  destruct (hub_step_ids _ _ _ _ Hs Hn Hi) as (? & ? & _). split; [done|]. simpl in *. lia.
Qed.

Lemma inv_mono n ts e : session_inv base sbase n ts e → session_inv base sbase (S n) ts e.
Proof. intros [Hh [Hi Hn] Hs Hst Ha Hf]. split; try done. split; [done|lia]. Qed.

Lemma inv_open_flow n s a ts e :
  Z.of_nat n < 2 ^ 64 - 1 → session_inv base sbase n (FlowDialing s a :: ts) e →
  match open_flow a e with
  | (e', None) => session_inv base sbase n (Reading s :: ts) e'
  | (e', Some f) => session_inv base sbase (S n) (FlowReply s f :: ts) e'
  end.
Proof.
  intros Hn [Hh [Hi Hni] Hs Hst Ha Hf]. unfold open_flow.
  destruct e as [[h|] pc c w]; [|by split]. unfold the_hub in *. cbn in *.
  pose proof (openFlow_inv (base ∪ list_to_set (held_sockets (FlowDialing s a :: ts))) a h w
    ltac:(lia) ltac:(intros g Hg; by apply Hi) (proj1 Hi) Hh) as Hh'.
  pose proof (openFlow_streams a h w) as Es.
  destruct (hub_step_next _ _ (hub_open a h w) ltac:(simpl; lia) Hi) as (Hi' & Hn').
  destruct (openFlow a h w) as [[h' w'] [[f conn]|]] eqn:Eo; cbn [fst snd] in *.
  - split; cbn; try done.
    + split; [done|]. unfold the_hub. cbn. lia.
    + rewrite Es. done.
    + by rewrite !Load_Add_ne.
    + intros g Hg. unfold openFlow in Eo. destruct (UdpDial a w) as [w1 [c1|]]; [|done].
      injection Eo as <- <- <- <-. cbn in Hg. unfold handled_flows in *. cbn in *.
      destruct (decide (g = u64 (nextID h + 1))) as [->|Hne]; [left|].
      right. apply Hf. by rewrite lookup_insert_ne in Hg.
  - unfold openFlow in Eo. destruct (UdpDial a w) as [w1 [c1|]]; [done|].
    injection Eo as <- <-. split; cbn; try done.
    + rewrite Es. done.
    + unfold IncError. by rewrite Load_Add_ne.
Qed.

Lemma the_hub_close_flow f e : e_hub e ≠ None → the_hub (close_flow f e) = (closeFlow f (the_hub e) (e_w e)).1.
Proof. unfold close_flow, the_hub. by destruct (e_hub e). Qed.

(** Whoever ends and closes flow [f]: the flows that remain are handled by the
    tasks that remain. *)
Lemma inv_close_flow n t t' ts f e :
  session_inv base sbase n (t :: ts) e →
  (∀ g, g ∈ task_flow t → g = f) → task_stream t' = task_stream t →
  task_socket t' = task_socket t → task_active t' = task_active t →
  session_inv base sbase n (t' :: ts) (close_flow f e).
Proof.
  intros [Hh [Hi Hni] Hs Hst Ha Hf] Ht Es Ec Ea.
  unfold held_sockets, held_streams, active_relays, handled_flows in *. cbn in *.
  unfold close_flow. destruct e as [[h|] pc c w]; unfold the_hub in *; cbn in *.
  - pose proof (closeFlow_inv _ f _ _ Hh) as Hh'. pose proof (closeFlow_streams f h w) as Et.
    assert (ids_ok (closeFlow f h w).1) as Hi'.
    { split; [exact (proj1 Hi)|]. unfold closeFlow. cbn. intros g [x [_ Hg]%lookup_delete_Some]. apply (proj2 Hi). by eexists. }
    unfold closeFlow in *. cbn in *.
    split; unfold held_sockets, held_streams, active_relays, handled_flows, the_hub; cbn;
      rewrite ?Es, ?Ec, ?Ea, ?Et; try done.
    intros g [x [Hne Hg]%lookup_delete_Some]. specialize (Hf g ltac:(by eexists)).
    rewrite elem_of_app in *. destruct Hf as [Hin|]; [|by right]. by destruct Hne; rewrite (Ht g Hin).
  - split; unfold held_sockets, held_streams, active_relays, handled_flows, the_hub; cbn;
      rewrite ?Es, ?Ec, ?Ea; try done.
    intros g [x Hg]. by rewrite lookup_empty in Hg.
Qed.

Lemma inv_reader n f ts e :
  session_inv base sbase n ts e ↔ session_inv base sbase n (FlowReader f :: ts) e.
Proof. split; intros []; by split. Qed.

(** What a task does preserves the invariant; only a new flow takes an
    identifier. *)
Lemma run_task_inv n t ev ts e new e' :
  Z.of_nat n < 2 ^ 64 - 1 → run_task remote t ev e = Some (new, e') →
  session_inv base sbase n (t :: ts) e → session_inv base sbase (S n) (new ++ ts) e'.
Proof.
  intros Hn Hr Hinv. destruct t, ev; try discriminate Hr; cbn in Hr; apply (inj Some) in Hr.
  - unfold dispatch in Hr. destruct (handleStream _ _ input) as [|l|a|a|a|]; injection Hr as <- <-; apply inv_mono.
    + by apply inv_close_stream.
    + apply inv_close_stream. by eapply inv_same.
    + apply inv_active_up. eapply inv_same; try done. cbn. by rewrite Load_Add_ne.
    + eapply inv_same; try done. cbn. by rewrite Load_Add_ne.
    + by eapply inv_same.
    + by apply inv_close_stream.
  - pose proof (TcpDial_opens addr (e_w e)) as Hd.
    destruct (TcpDial addr (e_w e)) as [w [c|]]; injection Hr as <- <-; apply inv_mono.
    + destruct Hd as (? & ? & ?). by eapply inv_dialled.
    + destruct Hd. apply inv_close_stream, (inv_active_down n s addr). eapply inv_same; try done.
      cbn. by rewrite Load_Add_ne.
  - injection Hr as <- <-. destruct (TcpClose_closes c (e_w e)) as [E1 E2]. apply inv_mono, inv_close_stream.
    apply (inv_active_down n s ""). by eapply (inv_undialled n (TcpRelay s c)).
  - pose proof (UdpDial_sockets addr (e_w e)) as Hd. pose proof (UdpDial_streams addr (e_w e)) as Hs.
    destruct (UdpDial addr (e_w e)) as [w [c|]]; injection Hr as <- <-; apply inv_mono; cbn [fst] in Hs.
    + destruct Hd as (? & ?). by eapply inv_dialled.
    + apply inv_close_stream. eapply inv_same; try done. cbn. by rewrite Load_Add_ne.
  - injection Hr as <- <-. apply inv_mono, inv_close_stream.
    eapply (inv_undialled n (UdpRelay s c)); try done; [apply UdpClose_sockets|apply UdpClose_streams].
  - pose proof (inv_open_flow n s addr ts e Hn Hinv) as Ho.
    destruct (open_flow addr e) as [e1 [f|]]; injection Hr as <- <-; [done|].
    by apply inv_mono, inv_close_stream.
  - destruct ok; injection Hr as <- <-; apply inv_mono.
    + cbn. apply (inv_perm n (FlowReader f :: FlowControl s f :: ts)); [apply perm_swap|].
      apply (inv_reader n). by eapply inv_same.
    + apply inv_close_stream. eapply inv_close_flow; try done. by intros g ->%list_elem_of_singleton.
  - injection Hr as <- <-. apply inv_mono, inv_close_stream. eapply inv_close_flow; try done.
    by intros g ->%list_elem_of_singleton.
  - injection Hr as <- <-. apply inv_mono. eapply inv_same; try done. cbn. unfold forward_packet.
    destruct (flow_forward f pkt); [destruct sent|]; cbn; by rewrite !Load_Add_ne.
  - injection Hr as <- <-. apply inv_mono, (inv_reader n f). eapply inv_close_flow; try done.
    by intros g ?%not_elem_of_nil.
Qed.

(** Changes that no task makes. *)
Lemma inv_env n ts e e' :
  session_inv base sbase n ts e → the_hub e' = the_hub e →
  Load CTCPActive (e_c e') = Load CTCPActive (e_c e) →
  sockets (e_w e') = sockets (e_w e) → streams (e_w e') = streams (e_w e) →
  session_inv base sbase n ts e'.
Proof. intros Hi ????. apply (inv_reader n 0). eapply (inv_same n (FlowReader 0) (FlowReader 0)); try done. by apply inv_reader. Qed.

Lemma inv_receive n ts b e :
  session_inv base sbase n ts e → session_inv base sbase n ts (receive_datagram b e).
Proof.
  intros Hi. unfold receive_datagram. destruct (e_hub e ≫= hub_dispatch b) as [[c pl]|]; [|done].
  pose proof (UdpWrite_sockets c pl (e_w e)) as E1. pose proof (UdpWrite_streams c pl (e_w e)) as E2.
  destruct (UdpWrite c pl (e_w e)) as [w ok]. eapply inv_env; try done. cbn.
  destruct ok; [|done]. by rewrite !Load_Add_ne.
Qed.

Lemma inv_accept n s ts e w :
  session_inv base sbase n ts e → AcceptStream (e_w e) = (w, Some s) →
  session_inv base sbase n (Reading s :: ts) (on_world (λ _, w) e).
Proof.
  intros [Hh Hi Hs (Sn & Sb & Sw) Ha Hf] Ea. pose proof (AcceptStream_opens (e_w e)) as Ho.
  rewrite Ea in Ho. destruct Ho as (Hfr & Et & Ew). rewrite Sw in Hfr.
  rewrite not_elem_of_union, not_elem_of_list_to_set in Hfr. destruct Hfr as [Hb Hn].
  split; try done; [by eapply hub_inv_same|]. unfold held_streams in *. cbn. split; [by constructor|]. split.
  - intros x [->|Hx]%elem_of_cons; [done|by apply Sb].
  - rewrite Et, Sw. set_solver +.
Qed.

Definition inv_of (n : nat) (x : session_state W) : Prop :=
  session_inv base sbase n (ss_tasks x) (ss_env x).

Lemma ss_step_inv n x y : ss_step x y → Z.of_nat n < 2 ^ 64 - 1 → inv_of n x → inv_of (S n) y.
Proof.
  unfold inv_of. intros Hs Hn Hi.
  destruct Hs as [a r ts1 t ts2 ev e ts e' Hr|r ts e w s Ea|r ts e w Ea|r ts e|a ts b e|a ts e|a r ts e c w Ec Ew Et];
    cbn [ss_tasks ss_env] in *.
  - apply (inv_perm _ (ts ++ ts1 ++ ts2)); [solve_Permutation|].
    eapply run_task_inv; [done..|]. apply (inv_perm n (ts1 ++ t :: ts2)); [solve_Permutation|done].
  - apply inv_mono. by apply inv_accept.
  - apply inv_mono. pose proof (AcceptStream_opens (e_w e)) as Ho. rewrite Ea in Ho.
    destruct Ho. by eapply inv_env.
  - by apply inv_mono.
  - apply inv_mono. by apply inv_receive.
  - by apply inv_mono.
  - apply inv_mono. by eapply inv_env.
Qed.

Lemma nsteps_inv n m x y :
  nsteps ss_step m x y → Z.of_nat (n + m) < 2 ^ 64 → inv_of n x → inv_of (n + m) y.
Proof.
  intros Hs. revert n. induction Hs as [x|m x y z Hxy _ IH]; intros n Hn Hi.
  - by rewrite Nat.add_0_r.
  - rewrite Nat.add_succ_r. apply (IH (S n)); [lia|]. eapply ss_step_inv; [done|lia|done].
Qed.
End steps.

(** ** The theorems *)

Section theorems.
Context {W : Type} `{ServingLaws W} `{GobCodec}.
Context (remote : option UDPAddr).

Lemma serveSession_inv dg pconn w :
  inv_of (sockets w) (streams w) 0 (serveSession dg pconn zero_collector w).
Proof.
  destruct (newDgramHub_ok w) as [Hi Hh].
  split; cbn; try done.
  - destruct dg; unfold the_hub; cbn; by rewrite (right_id_L ∅ (∪)).
  - destruct dg; unfold the_hub; cbn; split; done || apply Hi.
  - split; [apply NoDup_nil_2|]. by intros c ?%not_elem_of_nil.
  - split; [apply NoDup_nil_2|]. split; [by intros c ?%not_elem_of_nil|]. set_solver +.
  - intros f [c Hf]. unfold the_hub in Hf. destruct dg; cbn in Hf; by rewrite lookup_empty in Hf.
Qed.

(** What a session holds besides its tasks: nothing. *)
Definition nothing_left (w0 : W) (x : session_state W) : Prop :=
  sockets (e_w (ss_env x)) = sockets w0 ∧ streams (e_w (ss_env x)) = streams w0 ∧
  Load CTCPActive (e_c (ss_env x)) = 0 ∧ flows (the_hub (ss_env x)) = ∅.

Lemma inv_nothing_left n w0 x :
  inv_of (sockets w0) (streams w0) n x → ss_tasks x = [] → nothing_left w0 x.
Proof.
  intros [(Hh & _) Hi Hs (_ & _ & Sw) Ha Hf] E. rewrite E in *.
  assert (flows (the_hub (ss_env x)) = ∅) as Ef.
  { apply map_empty. intros f. destruct (flows _ !! f) eqn:Eq; [|done].
    specialize (Hf f ltac:(by eexists)). by apply not_elem_of_nil in Hf. }
  unfold nothing_left. rewrite Sw, Ha. cbn in Hh. rewrite Hh. unfold hub_sockets. rewrite Ef, map_img_empty_L.
  cbn. rewrite !(right_id_L ∅ (∪)). done.
Qed.

(** C7: one session of the server holds what its goroutines hold.  Over every
    interleaving of streams that arrive with any message, dials that succeed or
    fail, relays, flows and datagrams: the open sockets are those of the rest of
    the process, one for each relay and one for each flow, all different; the
    open streams are one for each handler; the gauge of active TCP connections is
    the number of TCP relays, the dialling ones included; and each flow of the
    hub has a handler that has still to close it, so no flow outlives its control
    stream. *)
Theorem session_resources n dg pconn w0 x
    (Hs : nsteps (ss_step remote) n (serveSession dg pconn zero_collector w0) x)
    (Hn : Z.of_nat n < 2 ^ 64) :
  let e := ss_env x in let ts := ss_tasks x in
  sockets (e_w e) = sockets w0 ∪ list_to_set (held_sockets ts) ∪ hub_sockets (the_hub e) ∧
  NoDup (held_sockets ts) ∧ (∀ c, c ∈ held_sockets ts → c ∉ sockets w0 ∧ c ∉ hub_sockets (the_hub e)) ∧
  streams (e_w e) = streams w0 ∪ list_to_set (held_streams ts) ∧ NoDup (held_streams ts) ∧
  Load CTCPActive (e_c e) = i64 (Z.of_nat (active_relays ts)) ∧
  (∀ f, is_Some (flows (the_hub e) !! f) → f ∈ handled_flows ts) ∧
  (ts = [] → nothing_left w0 x).
Proof.
  cbv zeta. pose proof (nsteps_inv remote _ _ 0 n _ _ Hs ltac:(lia) (serveSession_inv dg pconn w0)) as Hi.
  pose proof (inv_nothing_left _ _ _ Hi) as Hend.
  destruct Hi as [(Hh & Hd & _) Hi [Hc Hb] (Sn & _ & Sw) Ha Hf]. cbn [fst snd] in *.
  split_and!; try done. intros c Hin. split; [by apply Hb|]. intros Hx. apply (Hd c); [|done].
  apply elem_of_union_r. by apply elem_of_list_to_set.
Qed.

(** ** A session that ends *)

(** A task gets on: its call returns, other than with one more datagram. *)
Inductive ss_progress : session_state W → session_state W → Prop :=
| progress a r ts1 t ts2 ev e ts e' :
    run_task remote t ev e = Some (ts, e') → (∀ pkt sent, ev ≠ EvPacket pkt sent) →
    ss_progress (mkSS a r (ts1 ++ t :: ts2) e) (mkSS a r (ts1 ++ ts ++ ts2) e').

Definition weight (t : task) : nat :=
  match t with
  | Reading _ => 5 | FlowDialing _ _ => 4
  | TcpDialing _ _ | UdpDialing _ _ | FlowReply _ _ => 3
  | TcpRelay _ _ | UdpRelay _ _ | FlowControl _ _ | FlowReader _ => 1
  end.
Definition total_weight (ts : list task) : nat := sum_list_with weight ts.

Lemma total_weight_app ts1 ts2 : total_weight (ts1 ++ ts2) = (total_weight ts1 + total_weight ts2)%nat.
Proof. apply sum_list_with_app. Qed.

Lemma run_task_weight t ev e new e' :
  run_task remote t ev e = Some (new, e') → (∀ pkt sent, ev ≠ EvPacket pkt sent) →
  (total_weight new < weight t)%nat.
Proof.
  intros Hr Hev. destruct t, ev; try discriminate Hr; cbn in Hr; apply (inj Some) in Hr.
  - unfold dispatch in Hr. destruct (handleStream _ _ input); injection Hr as <- <-; cbn; lia.
  - destruct (TcpDial addr (e_w e)) as [w [c|]]; injection Hr as <- <-; cbn; lia.
  - injection Hr as <- <-; cbn; lia.
  - destruct (UdpDial addr (e_w e)) as [w [c|]]; injection Hr as <- <-; cbn; lia.
  - injection Hr as <- <-; cbn; lia.
  - destruct (open_flow addr e) as [e1 [f|]]; injection Hr as <- <-; cbn; lia.
  - destruct ok; injection Hr as <- <-; cbn; lia.
  - injection Hr as <- <-; cbn; lia.
  - by destruct (Hev pkt sent).
  - injection Hr as <- <-; cbn; lia.
Qed.

Lemma run_task_progress t e :
  ∃ ev new e', run_task remote t ev e = Some (new, e') ∧ ∀ pkt sent, ev ≠ EvPacket pkt sent.
Proof.
  assert (∀ ev, (∀ pkt sent, ev ≠ EvPacket pkt sent) → is_Some (run_task remote t ev e) →
    ∃ ev new e', run_task remote t ev e = Some (new, e') ∧ ∀ pkt sent, ev ≠ EvPacket pkt sent) as Hex.
  { intros ev Hev [[new e'] E]. by exists ev, new, e'. }
  destruct t; [apply (Hex (EvMessage []))|apply (Hex EvDialed)|apply (Hex EvEnd)|apply (Hex EvDialed)
              |apply (Hex EvEnd)|apply (Hex EvDialed)|apply (Hex (EvReplied false))|apply (Hex EvEnd)
              |apply (Hex EvEnd)]; done.
Qed.

Lemma progress_weight m x y :
  nsteps ss_progress m x y → (m + total_weight (ss_tasks y) ≤ total_weight (ss_tasks x))%nat.
Proof.
  induction 1 as [x|m x y z Hxy _ IH]; [done|]. destruct Hxy as [a r ts1 t ts2 ev e ts e' Hr Hev].
  pose proof (run_task_weight _ _ _ _ _ Hr Hev) as Hlt. cbn [ss_tasks] in *.
  rewrite !total_weight_app in *. unfold total_weight in *. cbn in *. lia.
Qed.

Lemma progress_steps m x y : nsteps ss_progress m x y → nsteps (ss_step remote) m x y.
Proof.
  induction 1 as [x|m x y z Hxy _ IH]; [constructor|]. econstructor; [|done]. destruct Hxy. by eapply ss_run.
Qed.

(** A session that has ended leaves nothing behind.  Once no stream is
    accepted any more, the goroutines of a session make at most five steps for
    each handler besides forwarding datagrams; as long as one is left, one can
    step — its read, dial, relay or control stream ends, as they all do when the
    session is closed; and when none is left, the sockets and streams are those
    of before the session, no connection is counted as active, and the hub has no
    flow. *)
Theorem session_ends n m dg pconn w0 x y
    (Hx : nsteps (ss_step remote) n (serveSession dg pconn zero_collector w0) x)
    (Hy : nsteps ss_progress m x y) (Hn : Z.of_nat (n + m) < 2 ^ 64) :
  (m ≤ total_weight (ss_tasks x))%nat ∧ (total_weight (ss_tasks x) ≤ 5 * length (ss_tasks x))%nat ∧
  (ss_tasks y ≠ [] → ∃ z, ss_progress y z) ∧
  (ss_tasks y = [] → nothing_left w0 y).
Proof.
  split; [pose proof (progress_weight _ _ _ Hy); lia|]. split.
  { generalize (ss_tasks x). induction l as [|t ts IH]; [done|]. unfold total_weight in *. cbn.
    assert (weight t ≤ 5)%nat by (destruct t; cbn; lia). lia. }
  split.
  - destruct y as [a r [|t ts] e]; [done|]. intros _. destruct (run_task_progress t e) as (ev & new & e' & Hr & Hev).
    eexists. by apply (progress a r [] t ts ev e new e').
  - apply (inv_nothing_left (0 + n + m)).
    eapply (nsteps_inv remote); [by apply progress_steps|lia|].
    eapply (nsteps_inv remote); [done|lia|]. apply serveSession_inv.
Qed.
End theorems.

(** ** A concrete session *)

(** The open sockets and the open streams; a dial of the empty address fails. *)
Definition toy_world : Type := gset nat * gset nat.

Definition open_in (g : gset nat) : gset nat * nat := ({[fresh g]} ∪ g, fresh g).

#[export] Instance toy_sockets : Sockets toy_world := {
  UdpDial t w := if String.eqb t "" then (w, None) else (((open_in w.1).1, w.2), Some (open_in w.1).2);
  UdpWrite _ _ w := (w, true);
  UdpClose c w := (w.1 ∖ {[c]}, w.2) }.

#[export] Instance toy_sockets_laws : SocketsLaws toy_world.
Proof.
  refine {| sockets w := w.1 |}; [|done|done]. intros t w. simpl.
  destruct (String.eqb t ""); [done|]. split; [apply is_fresh|done].
Defined.

#[export] Instance toy_serving : Serving toy_world := {
  AcceptStream w := ((w.1, (open_in w.2).1), Some (open_in w.2).2);
  StreamClose s w := (w.1, w.2 ∖ {[s]});
  TcpDial t w := if String.eqb t "" then (w, None) else (((open_in w.1).1, w.2), Some (open_in w.1).2);
  TcpClose c w := (w.1 ∖ {[c]}, w.2) }.

#[export] Instance toy_serving_laws : ServingLaws toy_world.
Proof.
  refine {| streams w := w.2 |}; try done.
  - intros w. simpl. split; [apply is_fresh|done].
  - intros a w. simpl. destruct (String.eqb a ""); [done|]. split; [apply is_fresh|done].
  - intros a w. simpl. by destruct (String.eqb a "").
Defined.

(** The type of a message is its only byte. *)
#[local] Instance byte_gob : GobCodec := {
  gob_encode m := [msg_Type m];
  gob_decode l := match l with t :: _ => Some (mkMessage t (Some (mkAddr "192.0.2.1" 80)) []) | [] => None end }.

(** A stream asks for a TCP relay, another for a flow; both are served. *)
Definition session0 : session_state toy_world := serveSession true None zero_collector (∅, ∅).

Definition env0 : env toy_world := ss_env session0.
Definition env1 : env toy_world := on_world (λ _, (AcceptStream (e_w env0)).1) env0.
Definition env2 : env toy_world := (dispatch None 0 (DoRelayTCP "192.0.2.1:80") env1).2.
Definition env3 : env toy_world := on_world (λ _, (TcpDial "192.0.2.1:80" (e_w env2)).1) env2.

Lemma session0_relays :
  nsteps (ss_step None) 3 session0 (mkSS true true [TcpRelay 0 0] env3).
Proof.
  eapply nsteps_l; [apply (ss_accept None true [] env0 (AcceptStream (e_w env0)).1 0); reflexivity|].
  eapply nsteps_l.
  { apply (ss_run None true true [] (Reading 0) [] (EvMessage [TCP]) env1 [TcpDialing 0 "192.0.2.1:80"] env2).
    reflexivity. }
  eapply nsteps_l; [|apply nsteps_O].
  apply (ss_run None true true [] (TcpDialing 0 "192.0.2.1:80") [] EvDialed env2 [TcpRelay 0 0] env3).
  reflexivity.
Qed.

Lemma session_resources_witness :
  sockets (e_w env3) = ∅ ∪ list_to_set [0%nat] ∪ hub_sockets newDgramHub ∧
  Load CTCPActive (e_c env3) = i64 1.
Proof.
  destruct (session_resources None 3 true None (∅, ∅) _ session0_relays ltac:(lia))
    as (H1 & _ & _ & _ & _ & H2 & _).
  split; [exact H1|exact H2].
Defined.

(** The relay ends. *)
Lemma session_ends_witness :
  nothing_left (∅, ∅) (mkSS true true [] (close_stream 0 (count CTCPActive (-1) (on_world (TcpClose 0) env3)))).
Proof.
  refine (proj2 (proj2 (proj2 (session_ends None 3 1 true None (∅, ∅) _ _ session0_relays _ _))) _).
  - eapply nsteps_l; [|apply nsteps_O].
    apply (progress None true true [] (TcpRelay 0 0) [] EvEnd env3 []); [reflexivity|done].
  - lia.
  - reflexivity.
Defined.
