(* ===== verification/EndToEnd.v ===== *)
(** A UDP datagram from the client's listener to the target and back: on a stream
    ([Forward] on the manager or a bound opener of [Upstream], the pool it chooses, the
    bytes that cross the tunnel, and the relay of [TunnelServer]) and on a QUIC-datagram flow (the pool and the hub).

    [Wire] is what one end of a session has written to a stream: the message
    that opened it and the bytes after it. *)

From S2P Require Import Prelude GoStd NetUtil Protocol Metrics Relay Config ConfigResolve Transport TunnelPool TunnelDial Upstream Opener Forward TunnelServer.

Local Open Scope Z_scope.

Class Wire (W : Type) `{Streams W} `{RawStreams W} : Type := {
  request : nat → W → option Message;
  payload : nat → W → list Z }.

(** The writes of one stream do not show on another. *)
Definition others {W} `{Wire W} (strm : nat) (w w' : W) : Prop :=
  ∀ t, t ≠ strm → request t w' = request t w ∧ payload t w' = payload t w.

Class WireLaws (W : Type) `{Wire W} : Prop := {
  OpenStream_wire q w :
    match OpenStream q w with
    | (w', Some s) => request s w' = None ∧ payload s w' = [] ∧ others s w w'
    | (w', None) => ∀ t, request t w' = request t w ∧ payload t w' = payload t w
    end;
  StreamWrite_wire s m w : others s w (StreamWrite s m w).1 ∧
    ((StreamWrite s m w).2 = true → request s w = None →
     request s (StreamWrite s m w).1 = Some m ∧ payload s (StreamWrite s m w).1 = payload s w);
  StreamReadFlowID_wire s w t :
    request t (StreamReadFlowID s w).1 = request t w ∧ payload t (StreamReadFlowID s w).1 = payload t w;
  StreamClose_wire s w t :
    request t (StreamClose s w) = request t w ∧ payload t (StreamClose s w) = payload t w;
  StreamSend_wire s b w : others s w (StreamSend s b w).1 ∧
    request s (StreamSend s b w).1 = request s w ∧
    ((StreamSend s b w).2 = true → payload s (StreamSend s b w).1 = payload s w ++ b) }.

(** ** The counters of a datagram *)

Lemma Add_metered_u n c : in_range c →
  metered CBytesIn CBytesOut n 0 c (Add CBytesIn (Z.of_nat n) c).
Proof.
  intros Hc. split; [by apply Load_Add_u64|]. split.
  - rewrite Load_Add_ne, Z.add_0_r, u64_id by (done || by apply Hc). done.
  - intros k Hk _. by apply Load_Add_ne.
Qed.

Lemma one_datagram n c : in_range c →
  metered CUDPPackets CBytesOut 1 n c (Add CBytesOut (Z.of_nat n) (Add CUDPPackets 1 c)).
Proof.
  intros Hc. split; [|split].
  - rewrite Load_Add_ne by done. by apply Load_Add_u64.
  - rewrite Load_Add_u64, Load_Add_ne by done. done.
  - intros k H1 H2. by rewrite !Load_Add_ne.
Qed.

(** The listener on datagrams of one client for one target, one after another. *)
Fixpoint client_turns {S E} {op : Opener S E string} (caddr target : string) (pkts : list (list Z))
    (s : S) (c : Collector) : S * Collector * list udp_end :=
  match pkts with
  | [] => (s, c, [])
  | pkt :: pkts =>
      let '(s, c, e) := serveUDP_turn true caddr target pkt s c in
      let '(s, c, es) := client_turns caddr target pkts s c in (s, c, e :: es)
  end.

(** ** A listener on an opener of the manager is one on the pool it is pinned to *)

Section in_heap.
Context {W : Type} `{Conns W} `{Streams W} `{RawStreams W} (o : opener) (ptr : nat) (m : Manager)
  (h : gmap nat (Pool string)) (Hpin : pinned o ptr m).
Implicit Types s : Pool string * W.

Abbreviation via := (in_heap (W := W) ptr m h).

Lemma in_heap_write r pkt s c :
  serveUDP_write (op := manager_opener o) r pkt (via s) c =
    let '(s', c', e) := serveUDP_write r pkt s c in (via s', c', e).
Proof.
  destruct r as [[strm isNew] key]. unfold serveUDP_write. destruct (WriteDatagram pkt) as [f|].
  - rewrite (in_heap_Send o ptr). destruct (op_Send strm f s) as [s1 []]; cbn [fst snd]; [done|].
    by rewrite (in_heap_CloseUDP o ptr m h Hpin).
  - by rewrite (in_heap_CloseUDP o ptr m h Hpin).
Qed.

Lemma in_heap_turn caddr target pkt s c :
  serveUDP_turn (op := manager_opener o) true caddr target pkt (via s) c =
    let '(s', c', e) := serveUDP_turn true caddr target pkt s c in (via s', c', e).
Proof.
  unfold serveUDP_turn. destruct pkt as [|b pkt]; [done|]. cbn [negb].
  rewrite (in_heap_SupportsDatagrams o ptr m h Hpin).
  destruct (op_SupportsDatagrams s) as [s1 []]; cbn [fst snd].
  - unfold serveUDP_flow. rewrite (in_heap_OpenUDPDatagram o ptr m h Hpin).
    destruct (op_OpenUDPDatagram _ _ _ s1) as [s2 [[[x fid] isNew]|e]]; cbn [fst snd wrap_err]; [|done].
    rewrite (in_heap_SendFlow o ptr). by destruct (op_SendFlow _ _ _ s2) as [s3 []].
  - unfold serveUDP_open. rewrite (in_heap_OpenUDP o ptr m h Hpin).
    destruct (op_OpenUDP _ _ s1) as [s2 [r|e]]; cbn [fst snd wrap_err].
    + apply in_heap_write.
    + by rewrite (in_heap_CloseUDP o ptr m h Hpin).
Qed.

Lemma in_heap_turns caddr target pkts s c :
  client_turns (op := manager_opener o) caddr target pkts (via s) c =
    let '(s', c', es) := client_turns caddr target pkts s c in (via s', c', es).
Proof.
  revert s c. induction pkts as [|pkt pkts IH]; intros s c; cbn [client_turns]; [done|].
  rewrite in_heap_turn. destruct (serveUDP_turn _ _ _ _ _ _) as [[s1 c1] e].
  rewrite IH. by destruct (client_turns _ _ _ _ _) as [[s2 c2] es].
Qed.

Lemma in_heap_pump key sink r s c :
  pumpUDP (op := manager_opener o) key sink r (via s) c =
    let '(s', c', l) := pumpUDP key sink r s c in (via s', c', l).
Proof.
  unfold pumpUDP. destruct (pump_loop _ _ _ _) as [l c']. by rewrite (in_heap_CloseUDP o ptr m h Hpin).
Qed.
End in_heap.

Section udp.
Context {W : Type} `{Conns W} `{WireLaws W} {gc : GobCodec} {gl : GobLaws}.
Context (gob_nonempty : ∀ m, gob_encode m ≠ []).
Implicit Types (p : Pool string) (w : W).

Definition on_stream (e : udp_end) : Prop :=
  match e with UStream _ _ _ => True | _ => False end.

(** What the stream of a pair carries. *)
Definition carries (caddr target : string) (strm : nat) (a : Addr) (sent : list Z)
    (s : Pool string * W) : Prop :=
  udp s.1 !! addrPairKey caddr target = Some strm ∧
  request strm s.2 = Some (mkMessage UDP (Some a) []) ∧ payload strm s.2 = sent.

Lemma try_open_wire order ss le w w' strm :
  try_open order ss le w = (w', Ok strm) → request strm w' = None ∧ payload strm w' = [].
Proof.
  revert le w. induction order as [|i order IH]; intros le w; simpl; [done|].
  destruct (ss !! i) as [[s|]|]; [|by apply IH..]. destruct (smux_live s w); [|by apply IH].
  pose proof (OpenStream_wire (sess_id s) w) as Ho.
  destruct (OpenStream _ _) as [w1 [t|]]; [|by apply IH]. intros E. simplify_eq. tauto.
Qed.

Lemma openStream_wire p w p' w' strm :
  openStream p w = (p', w', Ok strm) → request strm w' = None ∧ payload strm w' = [].
Proof.
  unfold openStream. destruct (_ =? 0)%nat; [done|]. destruct (fetch_inc _).
  destruct (try_open _ _ _ _) as [w2 r] eqn:Et. intros E. simplify_eq. by eapply try_open_wire.
Qed.

(** A stream opened for a target asks for it. *)
Lemma OpenUDP_open_request target p w p' w' strm :
  OpenUDP_open target p w = (p', w', Ok strm) →
  ∃ a, TunnelAddr.Parse target = Ok a ∧
    request strm w' = Some (mkMessage UDP (Some a) []) ∧ payload strm w' = [].
Proof.
  unfold OpenUDP_open. destruct (TunnelAddr.Parse target) as [a|]; [|done].
  destruct (openStream p w) as [[p1 w1] [t|]] eqn:Eo; [|done].
  apply openStream_wire in Eo as [Hr Hp].
  pose proof (StreamWrite_wire t (mkMessage UDP (Some a) []) w1) as [_ Hw].
  destruct (StreamWrite _ _ _) as [w2 []]; [|done]. intros E. simplify_eq. simpl in Hw.
  destruct (Hw eq_refl Hr) as [Hr2 Hp2]. exists a. split_and!; congruence.
Qed.

Lemma serveUDP_write_stream caddr target strm isNew pkt a sent s c s' c' e :
  carries caddr target strm a sent s →
  serveUDP_write (strm, isNew, addrPairKey caddr target) pkt s c = (s', c', e) → on_stream e →
  ∃ f, WriteDatagram pkt = Ok f ∧ carries caddr target strm a (sent ++ f) s' ∧
    c' = Add CBytesOut (Z.of_nat (length pkt)) c ∧
    e = UStream strm (addrPairKey caddr target) isNew.
Proof.
  intros (Hu & Hr & Hp). unfold serveUDP_write. destruct s as [p w]. simpl in *.
  destruct (WriteDatagram pkt) as [f|err] eqn:Ef.
  2: { intros E. simplify_eq. done. }
  destruct (StreamSend_wire strm f w) as (_ & Hr' & Hp').
  destruct (StreamSend strm f w) as [w1 ok]. simpl in *.
  destruct ok; intros E; simplify_eq; [|done]. intros _. exists f.
  unfold carries. simpl. split_and!; [done|done|congruence| |done|done]. rewrite Hp' by done. done.
Qed.

(** One datagram on a stream that the pair already has. *)
Lemma serveUDP_turn_cached caddr target strm pkt a sent s c s' c' e :
  carries caddr target strm a sent s → in_range c →
  serveUDP_turn true caddr target pkt s c = (s', c', e) → on_stream e →
  pkt ≠ [] ∧ ∃ f, WriteDatagram pkt = Ok f ∧ carries caddr target strm a (sent ++ f) s' ∧
    metered CUDPPackets CBytesOut 1 (length pkt) c c' ∧
    e = UStream strm (addrPairKey caddr target) false.
Proof.
  intros Hca Hc. destruct pkt as [|b pkt]; cbn [serveUDP_turn negb]; [by intros [= <- <- <-]|].
  set (ps := b :: pkt). destruct s as [p w]. cbn [op_SupportsDatagrams pool_opener].
  destruct (SupportsDatagrams _ _).
  { unfold serveUDP_flow. destruct (op_OpenUDPDatagram _ _ _ _) as [s1 [[[x fid] ?]|?]];
      [destruct (op_SendFlow _ _ _ _) as [s2 []]|]; by intros [= <- <- <-]. }
  unfold serveUDP_open. cbn [op_OpenUDP pool_opener fst snd].
  rewrite (OpenUDP_cached _ _ _ _ strm) by apply Hca.
  intros E Ho. destruct (serveUDP_write_stream _ _ _ _ _ _ _ _ _ _ _ _ Hca E Ho) as (f & Ef & Hca' & -> & ->).
  split; [done|]. exists f. split_and!; [done..| |done]. by apply one_datagram.
Qed.

Lemma client_turns_cached caddr target strm a pkts sent s c s' c' es :
  carries caddr target strm a sent s → in_range c →
  client_turns caddr target pkts s c = (s', c', es) → Forall on_stream es →
  List.filter nonempty pkts = pkts ∧ ∃ fs, mapM WriteDatagram pkts = Ok fs ∧
    carries caddr target strm a (sent ++ concat fs) s' ∧
    metered CUDPPackets CBytesOut (length pkts) (length (concat pkts)) c c' ∧
    es = replicate (length pkts) (UStream strm (addrPairKey caddr target) false).
Proof.
  revert sent s c es. induction pkts as [|pkt pkts IH]; intros sent s c es Hca Hc; cbn [client_turns].
  { intros [= <- <- <-] _. split; [done|]. exists []. rewrite app_nil_r. split_and!; [done..| |done].
    by apply metered_refl. }
  destruct (serveUDP_turn true caddr target pkt s c) as [[s1 c1] e] eqn:Et.
  destruct (client_turns caddr target pkts s1 c1) as [[s2 c2] es'] eqn:Es.
  intros [= <- <- <-] [He Hes]%Forall_cons.
  destruct (serveUDP_turn_cached _ _ _ _ _ _ _ _ _ _ _ Hca Hc Et He) as (Hne & f & Ef & Hca1 & Hm1 & ->).
  destruct (IH _ _ _ _ Hca1 (metered_range _ _ _ _ _ _ Hc Hm1) Es Hes) as (Hf & fs & Efs & Hca2 & Hm2 & ->).
  split; [cbn [List.filter]; destruct pkt; [done|]; simpl; by rewrite Hf|].
  exists (f :: fs). split; [|split; [|split; [|done]]].
  - cbn [mapM mbind result_bind]. rewrite Ef. cbn. by rewrite Efs.
  - simpl. by rewrite (assoc_L (++)).
  - cbn [concat length]. rewrite length_app. by apply (metered_trans _ _ 1 _ _ _ _ c1).
Qed.

(** The pump of the client undoes the framing of the server. *)
Lemma pump_loop_frames qs fs n c :
  mapM WriteDatagram qs = Ok fs → (length qs < n)%nat → in_range c →
  let '(l, c') := pump_loop n None (concat fs) c in
  l = qs ∧ metered CBytesIn CBytesOut (length (concat qs)) 0 c c'.
Proof.
  intros Hw. assert (∀ q, q ∈ qs → (length q ≤ 64 * 1024)%nat) as Hfit by (intros q; by eapply frames_fit).
  apply mapM_ok_Forall2 in Hw. revert n c.
  induction Hw as [|q f qs fs Hq Hw IH]; intros n c Hn Hc; (destruct n as [|n]; [lia|]).
  { cbn. split; [done|]. by apply metered_refl. }
  cbn [pump_loop concat]. rewrite (ReadDatagram_frame _ q) by (done || (apply Hfit; left)).
  cbn [fmap option_fmap option_map].
  assert (metered CBytesIn CBytesOut (length q) 0 c (Add CBytesIn (Z.of_nat (length q)) c)) as Hm1
    by by apply Add_metered_u.
  specialize (IH ltac:(intros q' Hq'; apply Hfit; by right) n _ ltac:(simpl in Hn; lia)
    (metered_range _ _ _ _ _ _ Hc Hm1)).
  destruct (pump_loop _ _ _ _) as [l c']. destruct IH as [-> Hm2]. split; [done|].
  simpl. rewrite length_app. by apply (metered_trans _ _ _ 0 _ 0 _ (Add CBytesIn (Z.of_nat (length q)) c)).
Qed.

(** The first datagram of a pair. *)
Lemma serveUDP_turn_first caddr target pkt p w c s' c' e :
  udp p !! addrPairKey caddr target = None → in_range c →
  serveUDP_turn true caddr target pkt (p, w) c = (s', c', e) → on_stream e →
  pkt ≠ [] ∧ ∃ strm a f, TunnelAddr.Parse target = Ok a ∧ WriteDatagram pkt = Ok f ∧
    carries caddr target strm a f s' ∧ metered CUDPPackets CBytesOut 1 (length pkt) c c' ∧
    e = UStream strm (addrPairKey caddr target) true.
Proof.
  intros Hk Hc. destruct pkt as [|b pkt]; cbn [serveUDP_turn negb]; [by intros [= <- <- <-]|].
  set (ps := b :: pkt). cbn [op_SupportsDatagrams pool_opener].
  destruct (SupportsDatagrams _ _).
  { unfold serveUDP_flow. destruct (op_OpenUDPDatagram _ _ _ _) as [s1 [[[x fid] ?]|?]];
      [destruct (op_SendFlow _ _ _ _) as [s2 []]|]; by intros [= <- <- <-]. }
  unfold serveUDP_open. cbn [op_OpenUDP pool_opener fst snd].
  unfold OpenUDP, OpenUDP_lookup. rewrite Hk.
  destruct (OpenUDP_open target p w) as [[p1 w1] [strm|err]] eqn:Eo; [|by intros [= <- <- <-]].
  apply OpenUDP_open_request in Eo as (a & Ea & Hr & Hp).
  assert (carries caddr target strm a [] (OpenUDP_install (addrPairKey caddr target) strm p1, w1)) as Hca.
  { split; [cbn [fst]; by rewrite OpenUDP_install_lookup, lookup_insert_eq|done]. }
  intros E Ho. destruct (serveUDP_write_stream _ _ _ _ _ _ _ _ _ _ _ _ Hca E Ho) as (f & Ef & Hca' & -> & ->).
  split; [done|]. exists strm, a, f. split_and!; [done..| |done]. by apply one_datagram.
Qed.

(** The whole exchange, on a pool. *)
Lemma pool_end_to_end caddr target pkt pkts p w c s' c' es qs reply :
  udp p !! addrPairKey caddr target = None → in_range c →
  client_turns caddr target (pkt :: pkts) (p, w) c = (s', c', es) →
  Forall on_stream es → relay_to_stream qs = (reply, None) →
  let key := addrPairKey caddr target in
  let '(_, c2, answers) := pumpUDP key None reply s' c' in
  ∃ strm a msg,
    TunnelAddr.Parse target = Ok a ∧ udp s'.1 !! key = Some strm ∧ request strm s'.2 = Some msg ∧
    (∀ pconn hub, handleStream pconn hub (Message_Write msg) = DoRelayUDP (TunnelAddr.String a)) ∧
    relay_to_target (length (payload strm s'.2)) (λ _, true) (payload strm s'.2) =
      (pkt :: pkts, Some EOF) ∧
    es = UStream strm key true :: replicate (length pkts) (UStream strm key false) ∧
    metered CUDPPackets CBytesOut (S (length pkts)) (length (concat (pkt :: pkts))) c c' ∧
    answers = qs ∧ metered CBytesIn CBytesOut (length (concat qs)) 0 c' c2.
Proof.
  intros Hk Hc E Hok Hreply.
  cbn [client_turns] in E.
  destruct (serveUDP_turn true caddr target pkt (p, w) c) as [[s1 c1] e] eqn:Et.
  destruct (client_turns caddr target pkts s1 c1) as [[s2 c2] es'] eqn:Es.
  injection E as <- <- <-. apply Forall_cons in Hok as [He Hes].
  destruct (serveUDP_turn_first _ _ _ _ _ _ _ _ _ Hk Hc Et He)
    as (Hne & strm & a & f & Ea & Ef & Hca & Hm1 & ->).
  pose proof (metered_range _ _ _ _ _ _ Hc Hm1) as Hc1.
  destruct (client_turns_cached _ _ _ _ _ _ _ _ _ _ _ Hca Hc1 Es Hes)
    as (Hf & fs & Efs & (Hu & Hr & Hp) & Hm2 & ->).
  pose proof (metered_range _ _ _ _ _ _ Hc1 Hm2) as Hc2.
  destruct (relay_to_stream_inv _ _ Hreply) as (rs & Ers & ->).
  assert (mapM WriteDatagram (pkt :: pkts) = Ok (f :: fs)) as Ew.
  { cbn [mapM mbind result_bind]. rewrite Ef. cbn. by rewrite Efs. }
  unfold pumpUDP.
  pose proof (frames_length _ _ Ers) as Hlr. pose proof (frames_length _ _ Ew) as Hlw.
  pose proof (pump_loop_frames qs rs (S (length (concat rs))) c2 Ers ltac:(lia) Hc2) as Hpump.
  destruct (pump_loop _ _ _ _) as [answers c3]. destruct Hpump as [-> Hm3].
  exists strm, a, (mkMessage UDP (Some a) []). split_and!; [done|done|done| | |done| |done|done].
  - intros pconn hub. unfold handleStream. by rewrite Message_Read_Write by apply gob_nonempty.
  - rewrite Hp. change (f ++ concat fs) with (concat (f :: fs)).
    rewrite (relay_to_target_frames (pkt :: pkts)) by (done || (simpl in *; lia)).
    cbn [List.filter]. destruct pkt; [done|]. simpl. by rewrite Hf.
  - cbn [concat length]. rewrite length_app. by apply (metered_trans _ _ 1 _ _ _ _ c1).
Qed.

(** C5: UDP through the tunnel, as the listener of a forward rule runs: on the
    manager, or on a [boundOpener].  While its opener keeps choosing one pool ([pinned]:
    a rule bound to a healthy upstream, or failover with a healthy active one; under
    round_robin and weighted an unbound rule changes pools from datagram to datagram
    and this does not hold), when it has put the datagrams of a client, one after
    another, on a fresh stream without an error, then the server that reads that
    stream of that pool takes it as a relay to that target and writes exactly these
    datagrams to it, in order and with their boundaries; every datagram after the
    first reuses the stream; and whatever the target answers reaches the client as
    it was sent.  The manager and the other pools are as before.  Both directions are
    counted byte for byte. *)
Theorem udp_end_to_end o ptr caddr target pkt pkts m h p w c m' h' w' c' es qs reply
    (Hpin : pinned o ptr m) (Hp : h !! ptr = Some p)
    (Hk : udp p !! addrPairKey caddr target = None) (Hc : in_range c)
    (E : client_turns (op := manager_opener o) caddr target (pkt :: pkts) (m, h, w) c = ((m', h', w'), c', es))
    (Hok : Forall on_stream es) (Hreply : relay_to_stream qs = (reply, None)) :
  let key := addrPairKey caddr target in
  let '(_, c2, answers) := pumpUDP (op := manager_opener o) key None reply (m', h', w') c' in
  m' = m ∧ delete ptr h' = delete ptr h ∧
  ∃ p' strm a msg,
    h' !! ptr = Some p' ∧ udp p' !! key = Some strm ∧
    TunnelAddr.Parse target = Ok a ∧ request strm w' = Some msg ∧
    (∀ pconn hub, handleStream pconn hub (Message_Write msg) = DoRelayUDP (TunnelAddr.String a)) ∧
    relay_to_target (length (payload strm w')) (λ _, true) (payload strm w') =
      (pkt :: pkts, Some EOF) ∧
    es = UStream strm key true :: replicate (length pkts) (UStream strm key false) ∧
    metered CUDPPackets CBytesOut (S (length pkts)) (length (concat (pkt :: pkts))) c c' ∧
    answers = qs ∧ metered CBytesIn CBytesOut (length (concat qs)) 0 c' c2.
Proof.
  assert ((m, h, w) = in_heap ptr m h (p, w)) as Ein by (unfold in_heap; simpl; by rewrite insert_id).
  rewrite Ein, (in_heap_turns o ptr m h Hpin) in E.
  destruct (client_turns caddr target (pkt :: pkts) (p, w) c) as [[[p' w1] c1] es1] eqn:Et.
  injection E as <- <- <- <- <-. change (m, <[ptr:=p']> h, w1) with (in_heap ptr m h (p', w1)).
  cbv zeta. rewrite (in_heap_pump o ptr m h Hpin).
  pose proof (pool_end_to_end _ _ _ _ _ _ _ _ _ _ _ _ Hk Hc Et Hok Hreply) as T. cbv zeta in T.
  destruct (pumpUDP _ None reply (p', w1) c1) as [[s2 c2] answers].
  destruct T as (strm & a & msg & Ea & Eu & T).
  split; [done|]. split; [cbn; apply delete_insert_eq|].
  exists p', strm, a, msg. split; [cbn; apply lookup_insert_eq|]. exact (conj Eu (conj Ea T)).
Qed.
End udp.

(** ** A datagram flow *)

Section flow.
Context {W WS : Type} `{Conns W} `{WireLaws W} `{SocketsLaws WS} {gc : GobCodec} {gl : GobLaws}.
Context (gob_nonempty : ∀ m, gob_encode m ≠ []) {D : Type}.
Implicit Types (p : Pool D) (w : W) (ws : WS).

Lemma OpenUDPDatagram_request k t d p w p' w' s fid :
  OpenUDPDatagram k t d p w = (p', w', Ok (s, fid, true)) →
  ∃ a ctrl c, TunnelAddr.Parse t = Ok a ∧ dgCtrl p' = Some c ∧ c !! k = Some ctrl ∧
    request ctrl w' = Some (mkMessage UDPDGRAM (Some a) []).
Proof.
  intros (addr & ctrl & w1 & w2 & _ & _ & Ea & Eo & Ew & Er & Hr)%OpenUDPDatagram_new.
  pose proof (OpenStream_wire (sess_id s) w) as Ho. rewrite Eo in Ho. destruct Ho as (Hn & _).
  destruct (StreamWrite_wire ctrl (mkMessage UDPDGRAM (Some addr) []) w1) as [_ Hw].
  rewrite Ew in Hw. destruct (Hw eq_refl Hn) as [Hreq _].
  destruct (StreamReadFlowID_wire ctrl w2 ctrl) as [Hreq' _]. rewrite Er in Hreq'. simpl in *.
  unfold register_flow in Hr. destruct (dgCtrl (set_dgIdx _ p)) as [c|]; [|congruence].
  exists addr, ctrl, (<[k := ctrl]> c). split; [done|]. destruct p as [ss ix u di bk ct dl rc].
  simpl in Hr. injection Hr as <-. split; [done|]. split; [apply lookup_insert_eq|congruence].
Qed.

(** C25: a QUIC-datagram flow through the tunnel.  The control stream of a new
    flow asks the server for the target.  When the identifier that the client read
    is the one the server's hub answered with, then whatever the goroutines of the
    hub do afterwards, while the 64-bit identifiers do not wrap around: as long as the hub has the flow, a payload the client sends
    on it goes, unchanged, to the socket that was dialled for that target, and to no
    other; once the hub has dropped it (its target idle for a minute, its control
    stream ended), every payload is dropped, for ever, although the client keeps
    sending.  And a datagram of the target that fits reaches, unchanged, the closure
    that the client has for the flow, which is the one it gave when it opened it. *)
Theorem flow_end_to_end k t d p w p' w' s fid
    (Ho : OpenUDPDatagram k t d p w = (p', w', Ok (s, fid, true))) :
  ∃ a ctrl c msg,
    TunnelAddr.Parse t = Ok a ∧ dgCtrl p' = Some c ∧ c !! k = Some ctrl ∧
    request ctrl w' = Some msg ∧
    (∀ pconn, handleStream pconn true (Message_Write msg) = DoFlow (TunnelAddr.String a)) ∧
    ∀ h ws h' ws' reply, ids_ok h → nextID h < 2 ^ 64 - 1 →
      flow_control (TunnelAddr.String a) true h ws = (h', ws', Some (fid, reply)) →
      be_decode reply = fid ∧
      (∃ q conn, quicConn s = Some q ∧ UdpDial (TunnelAddr.String a) ws = (ws', Some conn) ∧
         flows h' !! fid = Some conn ∧
         ∀ payload w2, ∃ b, send_flow s fid payload w2 = SendDatagram q b w2 ∧
           ∀ n h2 ws2, hub_steps n (h', ws') (h2, ws2) → nextID h' + Z.of_nat n < 2 ^ 64 →
             match flows h2 !! fid with
             | Some conn2 => conn2 = conn ∧ hub_dispatch b h2 = Some (conn, payload)
             | None => ∀ n' h3 ws3, hub_steps n' (h2, ws2) (h3, ws3) →
                 nextID h2 + Z.of_nat n' < 2 ^ 64 → hub_dispatch b h3 = None
             end) ∧
      dgDeliver p' !! sess_id s ≫= (λ l, l !! fid) = Some d ∧
      (∀ pkt, Z.of_nat (length pkt) ≤ 1172 → ∃ b, flow_forward fid pkt = Some b ∧
         ∀ p2, dgramRecv (sess_id s) b p2 =
           (λ d, (d, pkt)) <$> (dgDeliver p2 !! sess_id s ≫= (λ l, l !! fid))).
Proof.
  destruct (OpenUDPDatagram_request k t d p w p' w' s fid Ho) as (a & ctrl & c & Ea & Ec & Ek & Er).
  exists a, ctrl, c, (mkMessage UDPDGRAM (Some a) []). split_and!; try done.
  { intros pconn. unfold handleStream. by rewrite Message_Read_Write by apply gob_nonempty. }
  intros h ws h' ws' reply Hids Hn Ef.
  pose proof (flow_control_range (TunnelAddr.String a) true h ws Hids Hn) as Hr. rewrite Ef in Hr.
  pose proof (flow_carries (TunnelAddr.String a) true h ws Hids Hn) as Hf. rewrite Ef in Hf.
  destruct Hf as (_ & Hd & _ & _ & (conn & Ed & Hdisp) & _ & Hfw).
  destruct (flow_control_ids _ _ _ _ _ _ _ _ Hids Hn Ef) as (Hids' & Ei & _).
  assert (∀ payload h2, hub_dispatch (EncodeDatagram fid payload) h2 =
    (λ conn, (conn, payload)) <$> flows h2 !! fid) as Hdp.
  { intros payload h2. unfold hub_dispatch. rewrite DecodeDatagram_Encode by done. simpl. by destruct (flows h2 !! fid). }
  assert (flows h' !! fid = Some conn) as Hc.
  { specialize (Hdisp []). rewrite Hdp in Hdisp. destruct (flows h' !! fid); simpl in Hdisp; congruence. }
  destruct (OpenUDPDatagram_routes k t d p w p' w' s fid Ho Hr) as (_ & _ & (q & Eq & Hs) & Hrecv & _).
  assert (∀ pkt p2, dgramRecv (sess_id s) (EncodeDatagram fid pkt) p2 =
    (λ d, (d, pkt)) <$> (dgDeliver p2 !! sess_id s ≫= (λ l, l !! fid))) as Hrc.
  { intros pkt p2. unfold dgramRecv. rewrite DecodeDatagram_Encode by done. simpl.
    destruct (dgDeliver p2 !! sess_id s) as [l|]; simpl; [|done]. by destruct (l !! fid). }
  split_and!; [done| | |].
  - exists q, conn. split_and!; [done..|]. intros payload w2. exists (EncodeDatagram fid payload).
    split; [done|]. intros n h2 ws2 Hst Hb.
    destruct (hub_steps_flow n _ _ fid Hst Hb Hids' ltac:(cbn; lia)) as [E|E]; cbn in E; rewrite Hdp.
    + rewrite E, Hc. done.
    + rewrite E. intros n' h3 ws3 Hst3 Hb3.
      assert (ids_ok h2 ∧ fid ≤ nextID h2) as [Hids2 Hle].
      { destruct (hub_steps_ids n _ _ Hst Hb Hids') as [? ?]. cbn in *. split; [done|lia]. }
      rewrite Hdp. destruct (hub_steps_flow n' _ _ fid Hst3 Hb3 Hids2 Hle) as [E3|E3]; cbn in E3; [|by rewrite E3].
      by rewrite E3, E.
  - specialize (Hrecv []). rewrite Hrc in Hrecv. destruct (_ ≫= _); simpl in Hrecv; congruence.
  - intros pkt Hpkt. exists (EncodeDatagram fid pkt). split; [by apply Hfw|apply Hrc].
Qed.
End flow.

(** ** Example: two datagrams of a client and an answer *)

(** [Mock] next to what was written to each stream. *)
Notation wire := (Mock * gmap nat (option Message * list Z))%type.

Definition entry_of (s : nat) (w : wire) : option Message * list Z := default (None, []) (w.2 !! s).

#[export] Instance wire_streams : Streams wire := {
  IsClosed s w := IsClosed s w.1;
  OpenStream q w :=
    match OpenStream q w.1 with
    | (m, Some s) => ((m, <[s := (None, [])]> w.2), Some s)
    | (m, None) => ((m, w.2), None)
    end;
  StreamWrite s msg w :=
    ((w.1, <[s := (Some (default msg (entry_of s w).1), (entry_of s w).2)]> w.2), true);
  StreamRead s := on_mock (StreamRead s);
  StreamReadFlowID s := on_mock (StreamReadFlowID s);
  StreamClose s w := (StreamClose s w.1, w.2);
  SendDatagram q b := on_mock (SendDatagram q b) }.

#[export] Instance wire_raw : RawStreams wire := {
  StreamSend s b w := ((w.1, <[s := ((entry_of s w).1, (entry_of s w).2 ++ b)]> w.2), true) }.

#[export] Instance wire_wire : Wire wire := {
  request s w := (entry_of s w).1;
  payload s w := (entry_of s w).2 }.

#[export] Instance wire_laws : WireLaws wire.
Proof.
  assert (∀ s e (w : wire) m, others s w (m, <[s := e]> w.2)) as Ho.
  { intros s e w m t Ht. unfold request, payload, wire_wire, entry_of. simpl.
    by rewrite lookup_insert_ne. }
  assert (∀ s e (m : Mock) x, entry_of s (m, <[s := e]> x) = e) as He.
  { intros s e m x. unfold entry_of. simpl. by rewrite lookup_insert_eq. }
  split.
  - intros q w. cbn [OpenStream wire_streams]. destruct (OpenStream q w.1) as [m [s|]]; [|done].
    split_and!; [by cbn; rewrite He..|apply Ho].
  - intros s m w. split; [apply Ho|]. cbn. rewrite He. by intros _ ->.
  - intros s [m x] t. cbn. by destruct m.
  - done.
  - intros s b w. split; [apply Ho|]. cbn. by rewrite He.
Qed.

(** A codec: messages are numbered. *)
Definition flags_bits (f : TCPFlagSet) : list bool :=
  [FIN f; SYN f; RST f; PSH f; ACK f; URG f; ECE f; CWR f; NS f].

Definition flags_of_bits (l : list bool) : TCPFlagSet :=
  match l with
  | [a; b; c; d; e; f; g; h; i] => mkFlags a b c d e f g h i
  | _ => mkFlags false false false false false false false false false
  end.

Definition message_code (m : Message) : Z * option (string * Z) * list (list bool) :=
  (msg_Type m, (λ a, (Host a, Port a)) <$> msg_Addr m, flags_bits <$> msg_TCPF m).

#[export] Instance coded_gob : GobCodec := {
  gob_encode m := [Zpos (encode (message_code m))];
  gob_decode l :=
    match l with
    | [Zpos c] =>
        '(t, a, fs) ← decode (A := Z * option (string * Z) * list (list bool)) c;
        Some (mkMessage t ((λ '(h, p), mkAddr h p) <$> a) (flags_of_bits <$> fs))
    | _ => None
    end }.

#[export] Instance coded_gob_laws : GobLaws.
Proof.
  split. intros [t a fs]. cbn [gob_encode gob_decode coded_gob]. rewrite decode_encode.
  cbn. f_equal. f_equal.
  - by destruct a as [[h p]|].
  - rewrite <- list_fmap_compose. rewrite <- (list_fmap_id fs) at 2. apply list_fmap_ext.
    by intros _ [] _.
Qed.

(** A rule bound to upstream a, under a manager that takes turns. *)
Definition wire_state : Manager * gmap nat (Pool string) * wire :=
  (sample_manager StrategyRoundRobin true true, {[0%nat := pool_of two_sessions]}, (mock0, ∅)).

Abbreviation wire_turns := (client_turns (op := manager_opener (W := wire) (D := string) (OBound "a"))).

Lemma udp_end_to_end_witness :
  let '(s, c, es) := wire_turns "127.0.0.1:9000" "8.8.8.8:53" [[5; 6]; [7]] wire_state zero_collector in
  relay_to_target (length (payload 100 s.2)) (λ _, true) (payload 100 s.2) = ([[5; 6]; [7]], Some EOF) ∧
  (pumpUDP (op := manager_opener (OBound "a")) (addrPairKey "127.0.0.1:9000" "8.8.8.8:53") None [0; 1; 9] s c).2 = [[9]].
Proof.
  destruct (wire_turns "127.0.0.1:9000" "8.8.8.8:53" [[5; 6]; [7]] wire_state zero_collector)
    as [[[[m h] w] c] es] eqn:E.
  assert (es = [UStream 100 (addrPairKey "127.0.0.1:9000" "8.8.8.8:53") true;
                UStream 100 (addrPairKey "127.0.0.1:9000" "8.8.8.8:53") false]) as Ees.
  { change es with (((m, h, w), c, es).2). rewrite <- E. vm_compute. reflexivity. }
  pose proof (udp_end_to_end (gc := coded_gob) (λ _ (Hn : [_] = []), ltac:(discriminate Hn)) (OBound "a") 0
    "127.0.0.1:9000" "8.8.8.8:53" [5; 6] [[7]] wire_state.1.1 wire_state.1.2 (pool_of two_sessions) wire_state.2
    zero_collector m h w c es [[9]] [0; 1; 9] eq_refl eq_refl (lookup_empty _)) as T.
  cbv zeta in T.
  destruct (pumpUDP _ None [0; 1; 9] (m, h, w) c) as [[s3 c3] answers].
  destruct T as (_ & _ & p' & strm & a & msg & _ & _ & _ & _ & _ & H1 & H2 & _ & H3 & _).
  - exact zero_in_range.
  - exact E.
  - subst es. by repeat constructor.
  - reflexivity.
  - assert (∀ a k b a' k' b' l l', UStream a k b :: l = UStream a' k' b' :: l' → a = a') as Hi
      by (intros; congruence).
    rewrite Ees in H2. apply Hi in H2 as <-. exact (conj H1 H3).
Defined.

(** The server's hub has handed out six identifiers; the client's flow is the
    seventh.  Its payload is written until the hub drops the flow. *)
Lemma flow_end_to_end_witness : ∃ p' w' ws' h' reply b b2,
  OpenUDPDatagram "k" "8.8.8.8:53" "127.0.0.1:9000" (pool_of [Some quic_session]) (mock0, ∅) =
    (p', w', Ok (quic_session, 7, true)) ∧
  flow_control (W := gset nat) "8.8.8.8:53" true (mkHub ∅ 6) ∅ = (h', ws', Some (7, reply)) ∧
  hub_dispatch b2 h' = Some (0%nat, [5]) ∧ hub_dispatch b2 (closeFlow 7 h' ws').1 = None ∧
  flow_forward 7 [9; 9] = Some b ∧ dgramRecv (sess_id quic_session) b p' = Some ("127.0.0.1:9000"%string, [9; 9]).
Proof.
  destruct (OpenUDPDatagram "k" "8.8.8.8:53" "127.0.0.1:9000" (pool_of [Some quic_session]) (mock0, ∅ : gmap nat _))
    as [[p' w'] r] eqn:E.
  assert (r = Ok (quic_session, 7, true)) as ->.
  { change r with ((p', w', r).2). rewrite <- E. vm_compute. reflexivity. }
  destruct (flow_end_to_end (WS := gset nat) (gc := coded_gob) (λ _ (Hn : [_] = []), ltac:(discriminate Hn))
    _ _ _ _ _ _ _ _ _ E) as (a & ctrl & c & msg & Ea & _ & _ & _ & _ & T).
  injection Ea as <-.
  destruct (flow_control (W := gset nat) "8.8.8.8:53" true (mkHub ∅ 6) ∅) as [[h' ws'] o] eqn:Ef.
  assert (∃ reply, o = Some (7, reply)) as [reply ->].
  { change o with ((h', ws', o).2). rewrite <- Ef. eexists. vm_compute. reflexivity. }
  assert (nextID h' = 7) as En.
  { change h' with ((h', ws', Some (7, reply)).1.1). rewrite <- Ef. reflexivity. }
  destruct (T (mkHub ∅ 6) ∅ h' ws' reply) as (_ & (q & conn & _ & Ed & Hc & Hs) & Hd & Hb).
  - split; [done|]. intros f [x Hx]. cbn [flows] in Hx. by rewrite lookup_empty in Hx.
  - reflexivity.
  - exact Ef.
  - destruct (Hb [9; 9]) as (b & H1 & H2); [done|].
    destruct (Hs [5] (mock0, ∅)) as (b2 & _ & H3).
    pose proof (H3 0%nat h' ws' (hub_refl _ _) ltac:(rewrite En; reflexivity)) as D1.
    pose proof (H3 1%nat _ _ (hub_trans _ _ _ _ (hub_close 7 h' ws') (hub_refl _ _)) ltac:(rewrite En; reflexivity)) as D2.
    cbn in D2. rewrite lookup_delete_eq in D2.
    exists p', w', ws', h', reply, b, b2. split_and!; [done|done| | |done|by rewrite H2, Hd].
    + rewrite Hc in D1. destruct D1 as [_ ->]. vm_compute in Ed. congruence.
    + eapply (D2 0%nat); [apply hub_refl|cbn; rewrite En; reflexivity].
Defined.
