(* ===== verification/EndToEndTCP.v ===== *)
(** TCP through the tunnel, and the flags of the crafted segments: a connection
    from the client's listener ([Forward.handleTCP] on a [TunnelPool]) to the relay
    of the server and back, and the message by which a client tells the server
    which flags to send it ([TunnelPool.sendRemoteFlags] to [Serve] to
    [Capture]).

    What crosses a stream is what the writing end of its copy loop delivered, or a
    part of it from its start when the stream ends early. *)

From S2P Require Import Prelude GoStd NetUtil Protocol Metrics Relay Config ConfigResolve Transport TunnelPool TunnelDial Upstream Opener Forward TunnelServer Pcap Capture Serve EndToEnd.

Local Open Scope Z_scope.

Section tcp.
Context {W : Type} `{Conns W} `{WireLaws W} {gc : GobCodec} {gl : GobLaws}.
Context (gob_nonempty : ∀ m, gob_encode m ≠ []).
Implicit Types (p : Pool string) (w : W).

Lemma OpenTCP_request target p w p' w' strm :
  OpenTCP target p w = (p', w', Ok strm) →
  ∃ a, TunnelAddr.Parse target = Ok a ∧
    request strm w' = Some (mkMessage TCP (Some a) []) ∧ payload strm w' = [].
Proof.
  unfold OpenTCP. destruct (TunnelAddr.Parse target) as [a|]; [|done].
  destruct (openStream p w) as [[p1 w1] [t|]] eqn:Eo; [|done].
  apply openStream_wire in Eo as [Hr Hp].
  pose proof (StreamWrite_wire t (mkMessage TCP (Some a) []) w1) as [_ Hw].
  destruct (StreamWrite _ _ _) as [w2 []]; [|done]. intros E. simplify_eq. simpl in Hw.
  destruct (Hw eq_refl Hr) as [Hr2 Hp2]. exists a. split_and!; congruence.
Qed.

(** C6: TCP through the tunnel.  When the listener of a forward rule relays a
    connection, the stream it opened asks the server for the rule's target, and
    the server takes it as a relay to that target.  Whatever the copy loops of the
    two ends do, and however much of the stream arrives, what the target receives
    is, byte for byte and in order, the beginning of what the application sent,
    and what the application receives the beginning of what the target sent; an end
    that stops without an error has copied one of its two directions to the last
    byte it was given.  The client counts what it put on the stream and what it
    gave the application. *)
Theorem tcp_end_to_end target up down sched p w c s' c' up' down' e
    (E : handleTCP true target up down sched (p, w) c = (s', c', Relayed up' down' e))
    (Hc : in_range c) (Hup : h_delivered up = []) (Hdown : h_delivered down = []) :
  ∃ p1 w1 strm a msg,
    OpenTCP target p w = (p1, w1, Ok strm) ∧ TunnelAddr.Parse target = Ok a ∧
    request strm w1 = Some msg ∧
    (∀ pconn hub, handleStream pconn hub (Message_Write msg) = DoRelayTCP (TunnelAddr.String a)) ∧
    Load CBytesOut c' = u64 (Load CBytesOut c + Z.of_nat (length (h_delivered up'))) ∧
    Load CBytesIn c' = u64 (Load CBytesIn c + Z.of_nat (length (h_delivered down'))) ∧
    (e = Ended None → h_delivered up' = concat (h_src up) ∨ h_delivered down' = concat (h_src down)) ∧
    ∀ sa sb ssched sc sa' sb' sc' se,
      relayTCP (Some (sa, sb)) ssched sc = (Some (sa', sb'), sc', se) → in_range sc →
      h_delivered sa = [] → h_delivered sb = [] →
      concat (h_src sa) `prefix_of` h_delivered up' →
      concat (h_src down) `prefix_of` h_delivered sb' →
      h_delivered sa' `prefix_of` concat (h_src up) ∧
      h_delivered down' `prefix_of` concat (h_src sb) ∧
      (se = Ended None → h_delivered sa' = concat (h_src sa) ∨ h_delivered sb' = concat (h_src sb)).
Proof.
  unfold handleTCP in E. cbn [negb op_OpenTCP pool_opener fst snd] in E.
  set (c0 := Add CTCPActive 1 (Add CTCPAccepted 1 c)) in E.
  destruct (OpenTCP target p w) as [[p1 w1] [strm|err]] eqn:Eo; [|discriminate E].
  destruct (relay_run _ _ sched up down c0) as [[[u d] c1] r] eqn:Er. injection E as <- <- <- <- <-.
  destruct (OpenTCP_request _ _ _ _ _ _ Eo) as (a & Ea & Hr & _).
  assert (in_range c0) as Hr0.
  { intros k Hk. unfold c0. rewrite Load_Add_ne by done.
    destruct (decide (k = CTCPAccepted)) as [->|]; [rewrite Load_Add_u64 by done; apply u64_range|].
    rewrite Load_Add_ne by done. auto. }
  apply relay_run_spec in Er as (lu & ld & (Du & Pu & _) & (Dd & Pd & _) & (HO & HI & _) & Hend); try done.
  rewrite Hup in Du. rewrite Hdown in Dd. cbn [app] in Du, Dd. subst lu ld.
  exists p1, w1, strm, a, (mkMessage TCP (Some a) []). split; [done|]. split; [done|]. split; [done|].
  split; [|split; [|split; [|split]]].
  - intros pconn hub. unfold handleStream. by rewrite Message_Read_Write by apply gob_nonempty.
  - rewrite Load_Add_ne by done. etrans; [exact HO|]. unfold c0. by rewrite !Load_Add_ne.
  - rewrite Load_Add_ne by done. etrans; [exact HI|]. unfold c0. by rewrite !Load_Add_ne.
  - intros He. destruct r as [o|]; cbn [relay_end_of] in He; [|discriminate He]. injection He as ->.
    destruct (Hend eq_refl) as [[_ ?]|[_ ?]]; auto.
  - intros sa sb ssched sc sa' sb' sc' se Es Hsc Ha Hb Psa Pdn.
    unfold relayTCP in Es. set (sc0 := Add CTCPActive 1 (Add CRelayTCP 1 sc)) in Es.
    destruct (relay_run _ _ ssched sa sb sc0) as [[[sa1 sb1] sc1] sr] eqn:Esr. injection Es as <- <- <- <-.
    assert (in_range sc0) as Hsr0.
    { intros k Hk. unfold sc0. rewrite Load_Add_ne by done.
      destruct (decide (k = CRelayTCP)) as [->|]; [rewrite Load_Add_u64 by done; apply u64_range|].
      rewrite Load_Add_ne by done. auto. }
    apply relay_run_spec in Esr as (la & lb & (Da & Pa & _) & (Db & Pb & _) & _ & Hsend); try done.
    rewrite Ha in Da. rewrite Hb in Db. cbn [app] in Da, Db. subst la lb.
    split; [etrans; [exact Pa|]; by etrans|]. split; [etrans; [exact Pd|]; by etrans|].
    intros He. destruct sr as [o|]; cbn [relay_end_of] in He; [|discriminate He]. injection He as ->.
    destruct (Hsend eq_refl) as [[_ ?]|[_ ?]]; auto.
Qed.
End tcp.

(** ** The flags a client asks for *)

Section flags.
Context {W WS : Type} `{Conns W} `{WireLaws W} `{Sockets WS, !Serving WS} {gc : GobCodec} {gl : GobLaws}.
Context (gob_nonempty : ∀ m, gob_encode m ≠ []).
Implicit Types (w : W) (e : env WS).

(** The flags a client asks for are the flags the server sends with.  The
    message that [sendRemoteFlags] leaves on its stream, read by the server, closes
    the stream and makes the next segment the server sends to that client carry
    the first of the flags, and leaves the flags for every other peer (for the
    same host on another port, too) and everything else of the session as they
    were; a list without flags asks for nothing and changes nothing. *)
Theorem flags_end_to_end s flags w w' remote x e conn
    (E : sendRemoteFlags s flags w = (w', Ok tt)) (Hc : e_pconn e = Some conn) (Hok : send_ok (cn_sender conn)) :
  ∃ strm msg conn', request strm w' = Some msg ∧
    run_task (Some remote) (Reading x) (EvMessage (Message_Write msg)) e =
      Some ([], close_stream x (mkEnv (e_hub e) (Some conn') (e_c e) (e_w e))) ∧
    send_ok (cn_sender conn') ∧
    (flags = [] → conn' = conn) ∧
    (∀ f rest, flags = f :: rest → (flagsFor remote (cn_sender conn')).1 = Some f) ∧
    (∀ peer, udp_ip peer = udp_ip remote → u16 (udp_port peer) ≠ u16 (udp_port remote) →
       (flagsFor peer (cn_sender conn')).1 = (flagsFor peer (cn_sender conn)).1).
Proof.
  unfold sendRemoteFlags in E. pose proof (OpenStream_wire (sess_id s) w) as Ho.
  destruct (OpenStream (sess_id s) w) as [w1 [strm|]]; [|discriminate E]. destruct Ho as (Hr & _ & _).
  pose proof (StreamWrite_wire strm (mkMessage TCPF None flags) w1) as [_ Hw].
  destruct (StreamWrite _ _ _) as [w2 []]; [|discriminate E]. cbn in E. injection E as <-.
  destruct (Hw eq_refl Hr) as [Hreq _]. cbn [fst] in Hreq.
  set (conn' := match flags with [] => conn | _ => Conn_SetRemoteTCPFlags (Some remote) flags conn end).
  exists strm, (mkMessage TCPF None flags), conn'. split.
  { by rewrite (proj1 (StreamClose_wire strm w2 strm)). }
  assert (∀ peer, let h := cn_sender conn in
    send_ok (setRemoteFlags remote flags h) ∧
    (flagsFor remote (setRemoteFlags remote flags h)).1 = Some (default psh_ack (head flags)) ∧
    (udp_ip peer = udp_ip remote ∧ u16 (udp_port peer) ≠ u16 (udp_port remote) →
       (flagsFor peer (setRemoteFlags remote flags h)).1 = (flagsFor peer h).1)) as Hf.
  { intros peer. destruct (peer_flags remote flags peer (cn_sender conn) [] Hok)
      as (_ & _ & _ & F1 & _ & F2 & F3). split; [exact F1|]. split; [exact F2|]. intros Hp. apply F3. by right. }
  split; [|split; [|split; [|split]]].
  - cbn [run_task]. rewrite Hc. unfold handleStream. rewrite Message_Read_Write by apply gob_nonempty.
    unfold handle_msg. cbn. destruct flags as [|f rest]; cbn.
    + f_equal. f_equal. unfold close_stream, on_world. cbn. by rewrite Hc.
    + f_equal. f_equal. unfold close_stream, on_world, set_flags. cbn. by rewrite Hc.
  - destruct flags; [done|]. by apply (Hf remote).
  - by intros ->.
  - intros f rest ->. by destruct (Hf remote) as (_ & F2 & _).
  - intros peer Hip Hp. destruct flags; [done|]. apply (Hf peer). by split.
Qed.
End flags.

(** ** Examples *)

Definition syn_ack : TCPFlagSet := mkFlags false true false false true false false false false.

(** A request of three bytes whose last does not arrive, and an answer. *)
Definition app_request : half := mkHalf [[1; 2]; [3]] None [] [].
Definition app_answer : half := mkHalf [[7]] None [] [].

Lemma tcp_end_to_end_witness :
  ∃ strm w1 p1, OpenTCP "192.0.2.1:80" (pool_of two_sessions : Pool string) (mock0, ∅ : gmap nat _) = (p1, w1, Ok strm) ∧
    h_delivered (relay_run (MeterWriter false) (MeterWriter true) [true; true; false] (mkHalf [[1]; [2]] None [] [])
      (mkHalf [[7]] None [] []) (Add CTCPActive 1 (Add CRelayTCP 1 zero_collector))).1.1.1
      `prefix_of` [1; 2; 3].
Proof.
  destruct (handleTCP true "192.0.2.1:80" app_request app_answer [true; true; false]
    ((pool_of two_sessions : Pool string), (mock0, ∅ : gmap nat _)) zero_collector) as [[s' c'] r] eqn:E.
  assert (∃ u d e, r = Relayed u d e ∧ h_delivered u = [1; 2; 3]) as (u & d & e & -> & Hu).
  { change r with ((s', c', r).2). rewrite <- E. vm_compute. eexists _, _, _. split; reflexivity. }
  destruct (tcp_end_to_end (gc := coded_gob) (λ _ (Hn : [_] = []), ltac:(discriminate Hn))
    "192.0.2.1:80" app_request app_answer [true; true; false] (pool_of two_sessions) (mock0, ∅ : gmap nat _)
    zero_collector s' c' u d e E zero_in_range eq_refl eq_refl)
    as (p1 & w1 & strm & a & msg & Eo & _ & _ & _ & _ & _ & _ & T).
  exists strm, w1, p1. split; [exact Eo|].
  refine (proj1 (T (mkHalf [[1]; [2]] None [] []) (mkHalf [[7]] None [] []) [true; true; false] zero_collector
    _ _ _ _ eq_refl zero_in_range eq_refl eq_refl _ _)).
  - rewrite Hu. by exists [3].
  - by exists [].
Defined.

Definition sample_conn : Conn := mkConn sample_rt 0 sample_handle 1 None None false.
Definition sample_env : env toy_world := mkEnv None (Some sample_conn) zero_collector (∅, {[5%nat]}).

Lemma flags_end_to_end_witness :
  ∃ conn', (flagsFor sample_peer (cn_sender conn')).1 = Some syn_ack.
Proof.
  destruct (sendRemoteFlags (mkSession None (Some 11%nat) None None None (Some 1%nat)) [syn_ack]
    (mock0, ∅ : gmap nat (option Message * list Z))) as [w' r] eqn:E.
  assert (r = Ok tt) as -> by (change r with ((w', r).2); rewrite <- E; vm_compute; reflexivity).
  destruct (flags_end_to_end (gc := coded_gob) (λ _ (Hn : [_] = []), ltac:(discriminate Hn))
    _ [syn_ack] _ w' sample_peer 5 sample_env sample_conn E eq_refl (newSendHandle_ok _ _ _))
    as (strm & msg & conn' & _ & _ & _ & _ & Hf & _).
  exists conn'. exact (Hf syn_ack [] eq_refl).
Defined.
